(* ===== verification/_CoqProject ===== *)
-Q . S2P
Prelude.v
Sorting.v
Py.v
Effects.v
PyOps.v
PyVals.v
Json.v
Files.v
Paths.v
Host.v
Preflight.v
Records.v
Fence.v
Release.v
Steady.v
WalSafety.v
WalRelease.v
WalRecords.v
WalQuiesce.v
WalGrant.v
WalSample.v
Sql.v
Calm.v
Transfer.v
TransferSafety.v
TransferRoundtrip.v
TransferCalm.v
TransferComplete.v
TransferCarried.v
TransferSample.v
DbCore.v
Worker.v
Boundary.v
WorkerFacts.v
BoundarySteps.v
BoundarySafety.v
BoundaryBody.v
BoundaryConn.v
Transactions.v
BoundaryCalm.v
BoundaryCancel.v
Shutdown.v
Lifetimes.v
BoundarySample.v
IpAddress.v
Accounts.v
Urls.v
AuthService.v
Net.v
RateLimit.v
AuthMiddleware.v
AuthRoutes.v
Samples.v
Revocation.v
UserRoutes.v
AgentRpc.v
MetricFold.v
MetricsDb.v
FoldFacts.v
History.v
Retention.v
NetAudit.v
Alerts.v
AgentWs.v
WsGates.v
ProcNet.v
Collector.v
CollectorFacts.v
CollectorRollup.v
CollectorSample.v
