(* ===== verification/Prelude.v ===== *)
(** * GlassOps, verified

    GlassOps is a host-monitoring server: agents on the hosts push metrics over a
    WebSocket, the backend stores and averages them in SQLite and fans them out to
    browsers, and administrators act on the hosts through it.  This library models
    the Python backend (src/backend/app) with the connection audit of the agent
    (src/agent), and proves what they promise.

    ** Parts and files

    Foundations
    - [Prelude]: notations, list and rational lemmas, hint databases.
    - [Sorting]: ORDER BY as a stable insertion sort, filters of sorted lists.
    - [Py]: JSON values ([pyval]), insertion-ordered dictionaries, string functions.
    - [Effects]: exceptions and the state-and-exception monad [M S A]; [rolled_back] is
      a transaction body, [catch] a [try], [zoom] runs a computation on a part of the
      state, [keeps] is an invariant kept whatever the outcome.
    - [PyOps]: attribute access, iteration, [float()], comparison and formatting of
      values of unknown shape, with the exception each raises on the wrong one.
    - [PyVals]: equality, order, sets and lines of values of unknown shape.
    - [Json]: json.loads, with or without its literals for non-finite numbers, and the
      encoder in its compact, spaced and indented layouts, with what is read back; float
      texts are the class [FloatText] with [FloatLaws].
    - [Files]: a file tree, the system calls on it and what can go wrong in each; the
      digest of hashlib is the class [Digest].
    - [Paths]: os.path on the names the fence derives from one another.
    - [Sql]: SQLite tables as account_state_transfer.py uses them and one connection
      with its transaction; column affinity is the class [Sqlite].
    - [Calm]: what calls and statements do when nothing interferes.
    - [IpAddress]: the part of Python's ipaddress module the sources call.
    - [Urls]: [urlparse(...).hostname].

    Database (app/database.py)
    - [DbCore]: the fail-stop latch, admission and readiness; [transaction] and
      [reading] are write_transaction and the read helper seen from outside:
      refused or performed, and rolled back as a whole when the body raises.
    - [Worker]: the connections of the process, the thread of each, what SQLite does with
      an operation and how it can fail, _submit and the operations on one cursor or
      thread, the guard of the read helper.  A record [db] holds the module's globals.
      What SQLite stores and what a statement means are the class [Engine] with
      [EngineLaws].
    - [Boundary]: _Outcome and settle, private and public exceptions, connections from
      _open_connection to _discard_connection, _TxHandle, _commit_transaction,
      _abort_transaction, write_transaction and both read helpers.
    - [WorkerFacts], [BoundarySteps], [BoundarySafety], [BoundaryBody], [BoundaryConn]:
      one submission, one step, ending a transaction, its body, its connection; Hoare
      triples over [here] (one connection in use, all as expected) and [doomed] (the
      latch is set and the content stays among the ones it may have).
    - [Transactions]: transactions and their histories refine [DbCore.transaction].
      [BoundaryCalm]: equal to it when nothing interferes.  [BoundaryCancel]: what a
      cancelled caller is handed.
    - [Shutdown]: adjudicate_unresolved, _dispose_late_results, close_db.  [Lifetimes]:
      what every operation keeps, and what CLOSED and the latch mean for good.
    - [BoundarySample]: a small engine, and schedules that succeed, fail and cancel.
    - [Accounts]: users, host accounts, token blacklist, runtime settings, audit log,
      alert row; runtime_config_validate.py.
    - [MetricFold]: the averaging of one bucket (_agg_new, _agg_add, _agg_finalize).
    - [MetricsDb]: raw rows, summaries, downsample_metrics, cleanup_old_metrics, the
      reads.  [FoldFacts], [History] and [Retention] hold the proofs about them.
    - [NetAudit]: the network-audit tables with services/net_audit_ingest.py.

    Account transfer (app/account_state_transfer.py)
    - [Transfer]: export_bundle and restore_bundle with all their helpers.
    - [TransferSafety]: what holds under every schedule of failures.
    - [TransferRoundtrip]: the manifest reads back, digests pin rows.
    - [TransferCalm], [TransferComplete], [TransferCarried]: undisturbed runs, file by
      file and row by row, and the transfer from end to end.
    - [TransferSample]: a small installation on which both commands run.

    WAL fence (app/wal_fence.py; the apply record of app/wal_recovery.py)
    - [Host]: refusals, run_host_command and docker, the host inventory, shared mounts
      and start authorities.  docker and lsof, stat and realpath, the clock, tokens and
      the visibility witness are the class [Outside]; HMAC is [Mac].
    - [Preflight]: acknowledgements, file facts, preflight, the descriptor probe.
    - [Records]: writing and reading sealed records.
    - [Fence]: quiesce, claim, check_before_source_open, begin_apply, finish, reattach.
    - [Release]: release.
    - [Steady]: what every operation leaves alone, whatever fails.  [WalSafety],
      [WalRelease], [WalRecords], [WalQuiesce], [WalGrant]: the theorems.
    - [WalSample]: two containers on a scripted docker, on which all of it runs.

    Access
    - [AuthService]: services/auth_service.py; PyJWT, bcrypt, pyotp and SHA-256 are the
      class [Crypto], what the code relies on is [CryptoLaws].
    - [Net], [RateLimit]: net.py and middleware/rate_limit.py.
    - [AuthMiddleware]: middleware/auth.py, websocket/ws_auth.py, dependencies.py.
    - [AuthRoutes], [UserRoutes]: routers/auth.py, users.py, settings.py.
    - [Samples], [Revocation]: a concrete token scheme and installation; the theorems
      that run through routes, gate and tables together.

    Agents and browsers
    - [AgentRpc]: services/agent_rpc.py and agent_dispatch.py.
    - [Alerts]: services/alert_service.py, smtp_validate.py, routers/alerts.py; Fernet
      and EmailStr are the class [Mail] with [MailLaws].
    - [AgentWs]: websocket/agent_ws.py on top of [RateLimit], [AgentRpc], [MetricsDb],
      [NetAudit] and [Alerts].
    - [WsGates]: websocket/client_ws.py, terminal_ws.py, docker_logs_ws.py.
    - [ProcNet], [Collector]: the agent's collectors/net_audit.py, from the text of
      /proc/net to events and rollups.  [CollectorFacts], [CollectorRollup]: what they
      account for.  [CollectorSample]: one host, and one odd process on it.

    ** Conventions

    State is a record of the module's globals and tables; an operation is a function
    on it, in the monad [M] where it can raise.  A clock reading, a random value, the
    answer of a resolver or a relay is an argument, in the order the code takes it.
    asyncio is modelled where interleaving matters: an event is one stretch of a task
    between two suspensions, a step function says what it does and when it can happen,
    and theorems quantify over all lists of events ([AgentRpc.run], [AgentWs.ws_run],
    [WsGates.session_run], [Alerts.throttle_run], the histories of [Retention]).
    Elsewhere an operation runs as one step; that is what the database boundary
    guarantees for each transaction.
    The boundary itself runs under a schedule of [turn]s, one for each time a worker or
    a thread is waited for or looked at: how the wait ends (answered, given up, or
    dropped), whether the caller is cancelled in it, which workers went on with what was
    queued before, what the operation itself suffers (not begun, done and the answer
    lost, rolled back by SQLite, or only reported as done), and whether close_db has
    begun.  A calm turn is taken where the schedule ends.  Deadlines are how a wait ends.
    sqlite3 is modelled as far as it is used: one writer at a time, a working copy for an
    open transaction; aiosqlite as one thread that runs a connection's operations in
    order, whose wrapper refuses everything once it let go of its connection.  The body
    of a transaction is a tree of statements ([body]) that may do anything with their
    answers but does not catch their exceptions.

    Integers are [Z]; a finite float is the rational it denotes, sums are not rounded,
    and infinities and NaN are values of their own ([pyfloat]).  Strings are Latin-1.
    A process that touches files runs on a [machine] with a schedule of faults: each
    call, in order, can fail before or after its effect, be interrupted, write short or
    be where the power goes; theorems quantify over all schedules.  A file is what
    calls see and, separately, what a power loss leaves of it.
    Fuel: [NetAudit.walk] takes one unit per page and is given more units than there
    are rows; [Transfer.write_all] one per byte, which is enough because every write
    takes at least one ([TransferSafety.write_all_ends]); [Json.read_value] one per
    value, element or member, and [Json.loads] gives it more than there are characters;
    [Records.flush_buffer] one per byte, for the same reason as [Transfer.write_all].
    A power loss is taken to leave directories in place: what survives is decided by the
    fsync of a file and of the directory that names it.
    The fence's operations are steps that any number of processes interleave
    ([WalSafety.step]), cut where another process can come between a check and the act
    that relies on it: the claim, the apply and the release.

    ** What is shown

    - Database: under every schedule a write transaction is all or nothing, a sequence
      of them is the sequence of those that returned ([Transactions]), undisturbed it is
      the abstract transaction ([BoundaryCalm]), and a read returns the rows of its
      statement ([BoundaryConn]); a cancelled caller learns that it was cancelled
      ([BoundaryCancel]); the latch never moves, and CLOSED is final ([Lifetimes]).
    - History: summaries of recomputable buckets are exact averages of the rows behind
      them, cleanup only takes rows that are accounted for, sealed summaries stay
      ([Retention]); folding can stop and resume anywhere ([FoldFacts]).
    - Access: the gate forwards exactly the entitled requests ([AuthMiddleware]), and
      logout, password change and refresh really revoke ([Revocation]); terminals,
      logs and live metrics have gates of the same strength ([WsGates]); lockouts,
      rates and sweeps answer as the complete histories would ([RateLimit], [AgentWs]).
    - Accounts: tables stay well formed under all operations ([Accounts]), an active
      administrator remains ([UserRoutes]).
    - Agents: calls return their own responses, disconnects leave nobody waiting
      ([AgentRpc]); the registry, the identity of samples and the arrival anchor
      ([AgentWs]); the typing and paging of network audit ([NetAudit]); the agent's
      events account for the connections of its host ([CollectorFacts]) and its rollups
      for a minute each ([CollectorRollup]).
    - Mail: throttling, conforming messages, target validation, the stored password
      ([Alerts]).
    - Transfer: a bundle with its marker is complete, a restore is all or nothing and
      says so ([TransferSafety]), restores what was exported, and can be tried again
      ([TransferCarried]).
    - Fence: the commands of every step stay within bounds, a manifest is claimed and
      applied at most once, over all interleavings, failures and power losses
      ([WalSafety]); policies are on record before anything moves ([WalQuiesce]); what a
      manifest and a grant each attest is true ([WalGrant]); a release first sees that
      no claim is live ([WalRelease]); records survive ([WalRecords]).
    - Where the code falls short of its comments, a theorem says so: refresh_race,
      last_admin_race, reconnect_race, poison_row_wedges, scope_id_passes_whole,
      fields_pass_unchecked, cancelled_send_leaks, opening_disconnect_reads_as_end,
      disabled_admin_undeletable, lockout_guard_raises, release_claim_race,
      reused_record_not_durable, parent_mount_unseen, odd_name_blinds,
      failed_minutes_counted.

    ** Not modelled

    The causes and contexts exceptions carry (an exception is its class and message), the
    refusal of a nested acquisition of the operation lock, schema creation and migration,
    the rehearsal and checkpoint of wal_recovery.py, the byte pumps of open terminals and
    log streams, supervisord and FastAPI wiring, the rest of the agent (src/agent), the
    frontend and deployment files. *)

From stdpp Require Export base gmap strings list pretty.
#[export] Set Warnings "-register-all".
From Stdlib Require Export ZArith QArith Qround Lqa Sorted.
From Stdlib Require Ascii String.
Export Stdlib.Strings.Ascii (ascii(..), ascii_of_nat, nat_of_ascii).
Export (notations) Stdlib.Strings.Ascii.

Open Scope Z_scope.

(** ** Exact rationals standing for Python floats: boolean comparisons *)

Declare Scope py_scope.
Delimit Scope py_scope with py.

Definition q_leb (x y : Q) : bool := Qle_bool x y.
Definition q_ltb (x y : Q) : bool := negb (Qle_bool y x).

Notation "x <=? y" := (q_leb x y) (at level 70, no associativity) : py_scope.
Notation "x <? y" := (q_ltb x y) (at level 70, no associativity) : py_scope.

Lemma q_leb_spec x y : reflect (x <= y)%Q (q_leb x y).
Proof. apply iff_reflect. symmetry. apply Qle_bool_iff. Qed.

Lemma q_ltb_spec x y : reflect (x < y)%Q (q_ltb x y).
Proof.
  unfold q_ltb. apply iff_reflect. rewrite negb_true_iff, <- not_true_iff_false.
  rewrite Qle_bool_iff. split; [apply Qlt_not_le | apply Qnot_le_lt].
Qed.

Lemma q_ltb_true x y : q_ltb x y = true <-> (x < y)%Q.
Proof. symmetry. apply reflect_iff, q_ltb_spec. Qed.

Lemma q_leb_true x y : q_leb x y = true <-> (x <= y)%Q.
Proof. apply Qle_bool_iff. Qed.

Lemma q_ltb_false x y : q_ltb x y = false <-> (y <= x)%Q.
Proof. unfold q_ltb. rewrite negb_false_iff. apply Qle_bool_iff. Qed.

(** Case analysis on every rational test in sight, then linear arithmetic. *)
Ltac qcase :=
  repeat match goal with
  | |- context [q_ltb ?x ?y] => destruct (q_ltb_spec x y)
  | |- context [q_leb ?x ?y] => destruct (q_leb_spec x y)
  | H : context [q_ltb ?x ?y] |- _ => destruct (q_ltb_spec x y)
  | H : context [q_leb ?x ?y] |- _ => destruct (q_leb_spec x y)
  end.

Ltac qsolve := qcase; simpl in *; try congruence; try lra.

(** [int(x)] of a float: truncation towards zero. *)
Definition q_trunc (q : Q) : Z := Z.quot (Qnum q) (Zpos (Qden q)).

(** ** Lists *)

Lemma filter_filter_weaken {A} (p q : A -> bool) l :
  (forall x, q x = true -> p x = true) ->
  List.filter q (List.filter p l) = List.filter q l.
Proof.
  intros Hqp. induction l as [|x l IH]; [done|]. simpl.
  destruct (p x) eqn:Hp; simpl; rewrite IH; [done|].
  destruct (q x) eqn:Hq; [|done]. apply Hqp in Hq. congruence.
Qed.

Lemma filter_snoc {A} (p : A -> bool) l x :
  List.filter p (l ++ [x]) = List.filter p l ++ (if p x then [x] else []).
Proof. rewrite List.filter_app. simpl. by destruct (p x). Qed.

Lemma length_filter_weaken {A} (p q : A -> bool) l :
  (forall x, q x = true -> p x = true) ->
  (length (List.filter q l) <= length (List.filter p l))%nat.
Proof.
  intros Hqp. induction l as [|x l IH]; [done|]. simpl.
  destruct (q x) eqn:Hq; [rewrite (Hqp _ Hq); simpl; lia|].
  destruct (p x); simpl; lia.
Qed.

Lemma length_filter_le {A} (p : A -> bool) l :
  (length (List.filter p l) <= length l)%nat.
Proof. induction l as [|x l IH]; simpl; [done|]. destruct (p x); simpl; lia. Qed.

Lemma filter_all {A} (p : A -> bool) l :
  (forall x, List.In x l -> p x = true) -> List.filter p l = l.
Proof.
  induction l as [|x l IH]; intros H; [done|]. simpl.
  rewrite (H x) by (by left). f_equal. apply IH. intros y Hy. apply H. by right.
Qed.

Lemma filter_none {A} (p : A -> bool) l :
  (forall x, List.In x l -> p x = false) -> List.filter p l = [].
Proof.
  induction l as [|x l IH]; intros H; [done|]. simpl.
  rewrite (H x) by (by left). apply IH. intros y Hy. apply H. by right.
Qed.

Lemma filter_and {A} (p q : A -> bool) l :
  List.filter q (List.filter p l) = List.filter (fun x => p x && q x) l.
Proof.
  induction l as [|x l IH]; [done|]. simpl. destruct (p x); simpl; [|done].
  by destruct (q x); rewrite IH.
Qed.

Lemma NoDup_list_filter {A} (p : A -> bool) (l : list A) : NoDup l -> NoDup (List.filter p l).
Proof.
  induction 1 as [|x l Hx Hnd IH]; simpl; [constructor|].
  destruct (p x); [|done]. constructor; [|done].
  rewrite list_elem_of_In, List.filter_In, <- list_elem_of_In. tauto.
Qed.

Create HintDb glassops discriminated.
Create Rewrite HintDb glassops_rw.
#[export] Hint Rewrite @lookup_insert_eq @lookup_delete_eq @lookup_empty : glassops_rw.

(** Closed conjunctions of rational inequalities, by evaluation. *)
Ltac q_closed := repeat split; vm_compute; try discriminate.
