(* ===== verification/Sorting.v ===== *)
(** * ORDER BY

    A query's ordering as a sort by a boolean comparison, and what it gives for a
    total, transitive one. *)
From S2P Require Import Prelude.
From stdpp Require Import sorting.

Fixpoint insert_by {A} (leb : A -> A -> bool) (x : A) (l : list A) : list A :=
  match l with
  | [] => [x]
  | y :: l => if leb x y then x :: y :: l else y :: insert_by leb x l
  end.

Definition sort_by {A} (leb : A -> A -> bool) (l : list A) : list A :=
  fold_right (insert_by leb) [] l.

Lemma insert_by_perm {A} (leb : A -> A -> bool) x l : insert_by leb x l ≡ₚ x :: l.
Proof.
  induction l as [|y l IH]; simpl; [done|]. destruct (leb x y); [done|].
  rewrite IH. apply Permutation_swap.
Qed.

Lemma sort_by_perm {A} (leb : A -> A -> bool) l : sort_by leb l ≡ₚ l.
Proof.
  induction l as [|x l IH]; simpl; [done|]. rewrite insert_by_perm. by f_equiv.
Qed.

Section Order.
Context {A : Type} (leb : A -> A -> bool).
Hypothesis leb_total : forall x y, leb x y = true \/ leb y x = true.
Hypothesis leb_trans : forall x y z, leb x y = true -> leb y z = true -> leb x z = true.

Abbreviation le := (fun x y => leb x y = true).

Lemma insert_by_sorted x l : StronglySorted le l -> StronglySorted le (insert_by leb x l).
Proof.
  induction 1 as [|y l Hs IH Hy]; simpl; [by repeat constructor|].
  destruct (leb x y) eqn:E.
  - constructor; [by constructor|]. constructor; [done|].
    eapply Forall_impl; [exact Hy|]. intros z Hz. by eapply leb_trans.
  - constructor; [done|]. rewrite Forall_forall in *. intros z Hz.
    rewrite insert_by_perm in Hz. apply elem_of_cons in Hz as [->|Hz]; [|by apply Hy].
    destruct (leb_total x y); congruence.
Qed.

Lemma sort_by_sorted l : StronglySorted le (sort_by leb l).
Proof. induction l as [|x l IH]; simpl; [constructor|by apply insert_by_sorted]. Qed.

Lemma sorted_filter (p : A -> bool) l : StronglySorted le l -> StronglySorted le (List.filter p l).
Proof.
  induction 1 as [|x l Hs IH Hx]; [constructor|]. simpl. destruct (p x); [|done].
  constructor; [done|]. rewrite Forall_forall in *. intros y Hy%list_elem_of_In%List.filter_In.
  by apply Hx, list_elem_of_In, Hy.
Qed.

(** WHERE and ORDER BY commute when ties are broken. *)
Lemma sort_by_filter (p : A -> bool) l :
  (forall x y, x ∈ l -> y ∈ l -> leb x y = true -> leb y x = true -> x = y) ->
  sort_by leb (List.filter p l) = List.filter p (sort_by leb l).
Proof.
  intros Hanti. apply (StronglySorted_unique_strong le).
  - intros x y Hx Hy. rewrite sort_by_perm in Hx.
    apply list_elem_of_In, List.filter_In in Hx as [Hx _].
    apply list_elem_of_In, List.filter_In in Hy as [Hy _].
    apply list_elem_of_In in Hx, Hy. rewrite sort_by_perm in Hy. by apply Hanti.
  - apply sort_by_sorted.
  - apply sorted_filter, sort_by_sorted.
  - rewrite sort_by_perm.
    assert (Hf : forall l1 l2 : list A, l1 ≡ₚ l2 -> List.filter p l1 ≡ₚ List.filter p l2).
    { clear. induction 1; simpl; repeat case_match; try done.
      - by f_equiv.
      - by apply Permutation_swap.
      - by etrans. }
    apply Hf. by rewrite sort_by_perm.
Qed.

(** Behind an element of a sorted list without ties: what comes strictly after. *)
Lemma sorted_behind l1 x l2 :
  (forall y, y ∈ l2 -> leb y x = true -> False) ->
  StronglySorted le (l1 ++ x :: l2) -> leb x x = true ->
  List.filter (fun y => negb (leb y x)) (l1 ++ x :: l2) = l2 /\
  List.filter (fun y => leb y x) (l1 ++ x :: l2) = l1 ++ [x].
Proof.
  clear leb_total leb_trans. intros Hd Hs Hxx.
  assert (H1 : forall y, y ∈ l1 -> leb y x = true).
  { intros y Hy. clear Hd. induction l1 as [|z l1 IH]; [by apply not_elem_of_nil in Hy|]. simpl in Hs.
    apply StronglySorted_inv in Hs as [Hs Hz]. apply elem_of_cons in Hy as [->|Hy]; [|by apply IH].
    rewrite Forall_forall in Hz. apply Hz. set_solver. }
  rewrite !List.filter_app. simpl. rewrite Hxx. simpl.
  rewrite (filter_none _ l1), (filter_all _ l2), (filter_all _ l1), (filter_none _ l2); [done|..].
  - intros y Hy%list_elem_of_In. apply not_true_iff_false. intros H. by apply (Hd y).
  - intros y Hy%list_elem_of_In. by apply H1.
  - intros y Hy%list_elem_of_In. apply negb_true_iff, not_true_iff_false. intros H. by apply (Hd y).
  - intros y Hy%list_elem_of_In. apply negb_false_iff. by apply H1.
Qed.
End Order.

(** Sorting twice changes nothing: totality alone puts neighbours in order. *)
Section Twice.
Context {A : Type} (leb : A -> A -> bool).
Hypothesis leb_total : forall x y, leb x y = true \/ leb y x = true.

Inductive neighbours : list A -> Prop :=
| nb_nil : neighbours []
| nb_one x : neighbours [x]
| nb_cons x y l : leb x y = true -> neighbours (y :: l) -> neighbours (x :: y :: l).

Lemma insert_by_neighbours x l : neighbours l -> neighbours (insert_by leb x l).
Proof.
  induction 1 as [|y|y z l Hyz Hl IH]; simpl.
  - constructor.
  - destruct (leb x y) eqn:E; repeat constructor; [done|]. destruct (leb_total x y); congruence.
  - destruct (leb x y) eqn:E; [by repeat constructor|]. simpl in IH.
    assert (leb y x = true) by (destruct (leb_total x y); congruence).
    destruct (leb x z) eqn:E2; by constructor.
Qed.

Lemma sort_by_neighbours l : neighbours (sort_by leb l).
Proof. induction l as [|x l IH]; simpl; [constructor|by apply insert_by_neighbours]. Qed.

Lemma sort_by_id l : neighbours l -> sort_by leb l = l.
Proof.
  induction 1 as [|x|x y l Hxy Hl IH]; [done|done|].
  change (insert_by leb x (sort_by leb (y :: l)) = x :: y :: l).
  rewrite IH. simpl. by rewrite Hxy.
Qed.

Lemma sort_by_twice l : sort_by leb (sort_by leb l) = sort_by leb l.
Proof. apply sort_by_id, sort_by_neighbours. Qed.
End Twice.
