(* ===== verification/Py.v ===== *)
(** * The Python values and string operations the sources use

    Strings are lists of code points; a code point here is one of the 256
    8-bit characters, so the model covers Latin-1 text.  Numbers are exact:
    an [int] is a [Z] and a finite [float] is the rational it denotes (sums and
    differences are not rounded).  JSON objects keep their insertion order. *)
From S2P Require Import Prelude.
Open Scope Z_scope.

(** ** Values *)

Inductive pyfloat :=
| Fin (q : Q)
| PosInf
| NegInf
| NaN.

Inductive pyval :=
| VNone
| VBool (b : bool)
| VInt (z : Z)
| VFloat (f : pyfloat)
| VStr (s : string)
| VList (l : list pyval)
| VDict (d : list (string * pyval)).

Abbreviation dict := (list (string * pyval)).

Definition is_dict (v : pyval) : option dict :=
  match v with VDict d => Some d | _ => None end.

Definition is_list (v : pyval) : option (list pyval) :=
  match v with VList l => Some l | _ => None end.

Definition is_str (v : pyval) : option string :=
  match v with VStr s => Some s | _ => None end.

(** [isinstance(v, (int, float))] for anything but a [bool], with its value. *)
Definition as_number (v : pyval) : option pyfloat :=
  match v with
  | VInt z => Some (Fin (inject_Z z))
  | VFloat f => Some f
  | _ => None
  end.

Definition is_finite (f : pyfloat) : option Q :=
  match f with Fin q => Some q | _ => None end.

Definition float_truthy (f : pyfloat) : bool :=
  match f with Fin q => negb (Qeq_bool q 0) | _ => true end.

(** [bool(v)]. *)
Definition truthy (v : pyval) : bool :=
  match v with
  | VNone => false
  | VBool b => b
  | VInt z => negb (z =? 0)
  | VFloat f => float_truthy f
  | VStr s => negb (String.eqb s EmptyString)
  | VList l => negb (match l with [] => true | _ => false end)
  | VDict d => negb (match d with [] => true | _ => false end)
  end.

(** ** Dictionaries in insertion order *)

Section Assoc.
Context {V : Type}.
Implicit Types (d : list (string * V)) (k : string).

Fixpoint dict_get k d : option V :=
  match d with
  | [] => None
  | (k', v) :: d => if String.eqb k k' then Some v else dict_get k d
  end.

(** [d[k] = v]: an existing key keeps its place. *)
Fixpoint dict_set k (v : V) d : list (string * V) :=
  match d with
  | [] => [(k, v)]
  | (k', v') :: d =>
      if String.eqb k k' then (k', v) :: d else (k', v') :: dict_set k v d
  end.

(** [d.pop(k, None)]'s effect. *)
Fixpoint dict_del k d : list (string * V) :=
  match d with
  | [] => []
  | (k', v') :: d =>
      if String.eqb k k' then dict_del k d else (k', v') :: dict_del k d
  end.

Lemma dict_get_set_eq k v d : dict_get k (dict_set k v d) = Some v.
Proof.
  induction d as [|[k' v'] d IH]; simpl; [by rewrite String.eqb_refl|].
  destruct (String.eqb k k') eqn:E; simpl; by rewrite E.
Qed.

Lemma dict_get_set_ne k k2 v d :
  k <> k2 -> dict_get k (dict_set k2 v d) = dict_get k d.
Proof.
  intros Hne. induction d as [|[k' v'] d IH]; simpl.
  - by rewrite (proj2 (String.eqb_neq k k2) Hne).
  - destruct (String.eqb k2 k') eqn:E; simpl.
    + apply String.eqb_eq in E as <-. by rewrite (proj2 (String.eqb_neq k k2) Hne).
    + by rewrite IH.
Qed.

Lemma dict_get_del_eq k d : dict_get k (dict_del k d) = None.
Proof.
  induction d as [|[k' v'] d IH]; simpl; [done|].
  destruct (String.eqb k k') eqn:E; simpl; [done|]. by rewrite E.
Qed.

Lemma dict_get_del_ne k k2 d :
  k <> k2 -> dict_get k (dict_del k2 d) = dict_get k d.
Proof.
  intros Hne. induction d as [|[k' v'] d IH]; simpl; [done|].
  destruct (String.eqb k2 k') eqn:E; simpl; [|by rewrite IH].
  apply String.eqb_eq in E as <-. by rewrite (proj2 (String.eqb_neq k k2) Hne).
Qed.
End Assoc.

(** [d.get(k)] of a JSON object: a missing key reads as [None]. *)
Definition get (k : string) (d : dict) : pyval := default VNone (dict_get k d).

Definition get_or (k : string) (dflt : pyval) (d : dict) : pyval :=
  default dflt (dict_get k d).

#[export] Hint Rewrite @dict_get_set_eq @dict_get_del_eq : glassops_rw.

(** ** Strings *)

Definition ch (n : nat) : ascii := ascii_of_nat n.
Definition chr_in (lo hi : nat) (c : ascii) : bool :=
  (lo <=? nat_of_ascii c)%nat && (nat_of_ascii c <=? hi)%nat.

Definition is_digit (c : ascii) : bool := chr_in 48 57 c.
Definition is_upper (c : ascii) : bool := chr_in 65 90 c.
Definition is_lower (c : ascii) : bool := chr_in 97 122 c.
Definition is_alpha (c : ascii) : bool := is_upper c || is_lower c.
Definition is_alnum (c : ascii) : bool := is_alpha c || is_digit c.

(** [str.isspace] on Latin-1: what [strip()] and [split()] remove. *)
Definition is_space (c : ascii) : bool :=
  chr_in 9 13 c || chr_in 28 32 c || chr_in 133 133 c || chr_in 160 160 c.

Definition newline : string := String (ch 10) EmptyString.

Definition chars (s : string) : list ascii := String.list_ascii_of_string s.
Definition of_chars (l : list ascii) : string := String.string_of_list_ascii l.

Definition str_len (s : string) : Z := Z.of_nat (String.length s).

Fixpoint drop_while (p : ascii -> bool) (l : list ascii) : list ascii :=
  match l with
  | [] => []
  | c :: l' => if p c then drop_while p l' else l
  end.

Definition strip_chars (l : list ascii) : list ascii :=
  rev (drop_while is_space (rev (drop_while is_space l))).

(** [s.strip()]. *)
Definition strip (s : string) : string := of_chars (strip_chars (chars s)).

(** [s.lower()] on Latin-1. *)
Definition lower_char (c : ascii) : ascii :=
  let n := nat_of_ascii c in
  if is_upper c || (chr_in 192 222 c && negb (n =? 215)%nat) then ch (n + 32) else c.

Fixpoint lower (s : string) : string :=
  match s with
  | EmptyString => EmptyString
  | String c s => String (lower_char c) (lower s)
  end.

(** [s.upper()] as far as ASCII letters go: all a comparison with an ASCII word needs. *)
Definition upper_char (c : ascii) : ascii := if is_lower c then ch (nat_of_ascii c - 32) else c.

Fixpoint upper (s : string) : string :=
  match s with EmptyString => EmptyString | String c s => String (upper_char c) (upper s) end.

(** [s.split(c)] for a one-character separator. *)
Fixpoint split_on (c : ascii) (s : string) : list string :=
  match s with
  | EmptyString => [EmptyString]
  | String a s =>
      if Ascii.eqb a c then EmptyString :: split_on c s
      else match split_on c s with
           | w :: ws => String a w :: ws
           | [] => [String a EmptyString]
           end
  end.

Arguments split_on c%_char_scope s.

(** [s.split()]: maximal runs of non-space characters. *)
Fixpoint split_words_aux (word : list ascii) (l : list ascii) : list string :=
  match l with
  | [] => match word with [] => [] | _ => [of_chars (rev word)] end
  | c :: l =>
      if is_space c then
        match word with
        | [] => split_words_aux [] l
        | _ => of_chars (rev word) :: split_words_aux [] l
        end
      else split_words_aux (c :: word) l
  end.
Definition split_words (s : string) : list string := split_words_aux [] (chars s).

Definition startswith (p s : string) : bool := String.prefix p s.

(** [s[n:]] and [s[:n]] for [0 <= n]. *)
Definition str_drop (n : nat) (s : string) : string :=
  String.substring n (String.length s - n) s.
Definition str_take (n : nat) (s : string) : string := String.substring 0 n s.

(** [sub in s] for strings. *)
Fixpoint contains (sub s : string) : bool :=
  startswith sub s ||
  match s with EmptyString => false | String _ s => contains sub s end.

Definition str_nonempty (s : string) : bool := negb (String.eqb s EmptyString).

Definition str_mem (s : string) (l : list string) : bool := existsb (String.eqb s) l.
#[global] Arguments str_mem : simpl never.

Definition char_in_str (c : ascii) (s : string) : bool := existsb (Ascii.eqb c) (chars s).

Arguments char_in_str c%_char_scope s.

Fixpoint str_forall (p : ascii -> bool) (s : string) : bool :=
  match s with
  | EmptyString => true
  | String c s => p c && str_forall p s
  end.

(** [re.match(r"^...$", s)]: without MULTILINE, [$] also matches just before
    one trailing newline. *)
Definition re_dollar (body : string -> bool) (s : string) : bool :=
  body s ||
  let n := (String.length s - 1)%nat in
  String.eqb s (str_take n s ++ newline)%string && body (str_take n s).

(** [[p]{lo,hi}] as a whole-string test. *)
Definition re_class (p : ascii -> bool) (lo hi : nat) (s : string) : bool :=
  str_forall p s && (lo <=? String.length s)%nat && (String.length s <=? hi)%nat.

(** [[p0][p]{lo,hi}] as a whole-string test. *)
Definition re_head_class (p0 p : ascii -> bool) (lo hi : nat) (s : string) : bool :=
  match s with
  | EmptyString => false
  | String c s => p0 c && re_class p lo hi s
  end.

(** ** Numerals *)

Definition digit_value (base : Z) (c : ascii) : option Z :=
  let n := Z.of_nat (nat_of_ascii c) in
  let d := if is_digit c then n - 48
           else if is_lower c then n - 87
           else if is_upper c then n - 55 else base in
  if d <? base then Some d else None.

(** The digits of [int(s, base)], single underscores allowed between digits. *)
Fixpoint digits_value (base acc : Z) (after_digit : bool) (l : list ascii) : option Z :=
  match l with
  | [] => if after_digit then Some acc else None
  | c :: l =>
      if Ascii.eqb c (ch 95) then
        if after_digit then digits_value base acc false l else None
      else match digit_value base c with
           | Some d => digits_value base (acc * base + d) true l
           | None => None
           end
  end.

Definition strip_base_prefix (base : Z) (l : list ascii) : list ascii :=
  match l with
  | z :: x :: l' =>
      if (base =? 16) && Ascii.eqb z (ch 48) && (Ascii.eqb x (ch 120) || Ascii.eqb x (ch 88))
      then match l' with
           | u :: l'' => if Ascii.eqb u (ch 95) then l'' else l'
           | [] => l'
           end
      else l
  | _ => l
  end.

(** [int(s, base)] for [base] 10 or 16; [None] is the [ValueError]. *)
Definition parse_int (base : Z) (s : string) : option Z :=
  match strip_chars (chars s) with
  | c :: l =>
      if Ascii.eqb c (ch 45) then Z.opp <$> digits_value base 0 false (strip_base_prefix base l)
      else if Ascii.eqb c (ch 43) then digits_value base 0 false (strip_base_prefix base l)
      else digits_value base 0 false (strip_base_prefix base (c :: l))
  | [] => None
  end.

(** [str(n)] of an integer. *)
Definition str_of_int (z : Z) : string := pretty z.
