(* ===== verification/Effects.v ===== *)
(** * Exceptions and the state-and-exception monad

    [M S A] is a computation over the mutable state [S]: it returns a value or
    raises, and what it did to the state before raising stays done, as in
    Python.  [rolled_back] is the exception to that: a transaction body. *)
From S2P Require Import Prelude Py.
Open Scope Z_scope.

Inductive exn :=
| ValueError (msg : string)
| TypeError
| KeyError
| AttributeError
| IndexError
| OverflowError
| IntegrityError
| DatabaseFailStop (msg : string)
| SchemaIntegrityViolation (msg : string)
| HTTPException (status : Z) (detail : string)
| AgentNotConnected (msg : string)
| RpcError (error : pyval)
| RpcTimeout (msg : string)
| TimeoutError
| CancelledError
| OSError (name : string)
| SqliteError (name : string)
| KeyboardInterrupt
| RuntimeError (msg : string)
| TransactionHandleMisuse
| ReadOnlyViolation
(** database.py's private classifications of a worker's ending: [owed] says that the
    caller was cancelled meanwhile. *)
| OutcomeUnknown (what : string) (owed : bool)
| ChildCancelled (what : string) (owed : bool)
| CancelledAfterWorkerError (e : exn)
(** A typed refusal: the class's [code] and what was attached to it. *)
| Refused (code : string) (aftermath : option string)
(** The process is gone: no handler runs and nothing catches it. *)
| PowerLoss
| OtherError (msg : string).

Inductive res (A : Type) :=
| Ok (a : A)
| Raise (e : exn).
Arguments Ok {A} _.
Arguments Raise {A} _.

Definition M (S A : Type) : Type := S -> res A * S.

#[export] Instance M_ret S : MRet (M S) := fun A a s => (Ok a, s).
#[export] Instance M_bind S : MBind (M S) := fun A B k m s =>
  match m s with
  | (Ok a, s) => k a s
  | (Raise e, s) => (Raise e, s)
  end.
#[export] Instance M_fmap S : FMap (M S) := fun A B f m => mbind (fun a => mret (f a)) m.

#[export] Instance res_bind : MBind res := fun A B k m =>
  match m with Ok a => k a | Raise e => Raise e end.
#[export] Instance res_ret : MRet res := fun A a => Ok a.

Lemma res_bind_ok {A B} (r : res A) (k : A -> res B) b :
  (r ≫= k) = Ok b <-> exists a, r = Ok a /\ k a = Ok b.
Proof. split; [destruct r; [by eauto|done]|by intros (a & -> & ?)]. Qed.

(** [[f(x) for x in l]] where [f] only computes or raises. *)
Fixpoint collect_res {X A} (f : X -> res A) (l : list X) : res (list A) :=
  match l with
  | [] => Ok []
  | x :: l => f x ≫= fun a => collect_res f l ≫= fun r => Ok (a :: r)
  end.

Section Ops.
Context {S : Type}.

Definition raise {A} (e : exn) : M S A := fun s => (Raise e, s).
Definition gets {A} (f : S -> A) : M S A := fun s => (Ok (f s), s).
Definition modify (f : S -> S) : M S unit := fun s => (Ok tt, f s).
Definition lift_res {A} (r : res A) : M S A := fun s => (r, s).
Definition run_pure {A} (f : S -> A * S) : M S A := fun s => let '(a, s) := f s in (Ok a, s).

(** [try: m  except <what p selects>: h]. *)
Definition catch {A} (m : M S A) (h : exn -> option (M S A)) : M S A := fun s =>
  match m s with
  | (Raise e, s') => match h e with Some k => k s' | None => (Raise e, s') end
  | r => r
  end.

(** [try: m  finally: c]. *)
Definition finally {A} (m : M S A) (c : M S unit) : M S A := fun s =>
  match m s with
  | (Raise PowerLoss, s') => (Raise PowerLoss, s')
  | (r, s') => match c s' with
               | (Ok _, s'') => (r, s'')
               | (Raise e, s'') => (Raise e, s'')
               end
  end.

(** [try: m  except BaseException as e: h(e)]. *)
Definition on_exception {A} (m : M S A) (h : exn -> M S A) : M S A :=
  catch m (fun e => match e with PowerLoss => None | _ => Some (h e) end).

(** A transaction body: an exception restores the state it started from. *)
Definition rolled_back {A} (m : M S A) : M S A := fun s =>
  match m s with
  | (Raise e, _) => (Raise e, s)
  | r => r
  end.

(** [for x in l: f(x)]. *)
Fixpoint for_each {X} (f : X -> M S unit) (l : list X) : M S unit :=
  match l with
  | [] => mret tt
  | x :: l => f x ≫= fun _ => for_each f l
  end.

(** [[f(x) for x in l]]. *)
Fixpoint collect {X A} (f : X -> M S A) (l : list X) : M S (list A) :=
  match l with
  | [] => mret []
  | x :: l => f x ≫= fun a => collect f l ≫= fun r => mret (a :: r)
  end.

(** Run [m] on a component of a larger state. *)
Definition zoom {T A} (get : T -> S) (set : S -> T -> T) (m : M S A) : M T A := fun t =>
  let '(r, s) := m (get t) in (r, set s t).

End Ops.

(** [except Exception]: what is an [Exception] and not merely a [BaseException]. *)
Definition is_exception (e : exn) : bool :=
  match e with KeyboardInterrupt | CancelledError | CancelledAfterWorkerError _ | PowerLoss => false | _ => true end.

Definition is_os_error (e : exn) : bool := match e with OSError _ => true | _ => false end.

Definition when {S} (b : bool) (m : M S unit) : M S unit := if b then m else mret tt.

Lemma bind_ok {S A B} (m : M S A) (k : A -> M S B) s s' b :
  (m ≫= k) s = (Ok b, s') <-> exists a s1, m s = (Ok a, s1) /\ k a s1 = (Ok b, s').
Proof.
  unfold mbind, M_bind. destruct (m s) as [[a|e] s1]; split.
  - intros H. by exists a, s1.
  - by intros (a' & s1' & [= <- <-] & H).
  - done.
  - by intros (a' & s1' & ? & ?).
Qed.

Lemma mret_ok {S A} (a b : A) (s s' : S) : (mret a : M S A) s = (Ok b, s') <-> a = b /\ s = s'.
Proof. unfold mret, M_ret. split; [by intros [= -> ->] | by intros [-> ->]]. Qed.

Lemma raise_ok {S A} e (b : A) (s s' : S) : raise e s = (Ok b, s') <-> False.
Proof. done. Qed.

Lemma gets_ok {S A} (f : S -> A) (b : A) (s s' : S) :
  gets f s = (Ok b, s') <-> f s = b /\ s = s'.
Proof. unfold gets. split; [by intros [= -> ->] | by intros [-> ->]]. Qed.

Lemma finally_ok {S A} (m : M S A) c s s' a :
  finally m c s = (Ok a, s') <-> exists s1, m s = (Ok a, s1) /\ c s1 = (Ok tt, s').
Proof.
  unfold finally. split.
  - destruct (m s) as [[b|e] s1]; [|destruct e, (c s1) as [[]]; by intros [=]].
    destruct (c s1) as [[[]|e] s2] eqn:E; intros [= -> ->]. by exists s1.
  - by intros (s1 & -> & ->).
Qed.

Lemma on_exception_ok {S A} (m : M S A) h s s' a : (forall e s b s', h e s <> (Ok b, s')) ->
  on_exception m h s = (Ok a, s') <-> m s = (Ok a, s').
Proof.
  intros Hh. unfold on_exception, catch. destruct (m s) as [[b|e] s1]; [done|].
  split; [|done]. destruct e; try done; intros H; by apply Hh in H.
Qed.

(** Take apart a run that returned: one hypothesis per step. *)
Ltac run_ok :=
  repeat match goal with
  | H : (_ ≫= _) _ = (Ok _, _) |- _ => apply bind_ok in H as (? & ? & ? & ?)
  | H : mret _ _ = (Ok _, _) |- _ => apply mret_ok in H as [? ?]; subst
  | H : raise _ _ = (Ok _, _) |- _ => by apply raise_ok in H
  | H : finally _ _ _ = (Ok _, _) |- _ => apply finally_ok in H as (? & ? & ?)
  | H : gets _ _ = (Ok _, _) |- _ => apply gets_ok in H as [? ?]; subst
  end.

(** An invariant that a computation keeps whatever its outcome. *)
Definition keeps {S A} (I : S -> Prop) (m : M S A) : Prop :=
  forall s, I s -> I (snd (m s)).

Section Keeps.
Context {S : Type} (I : S -> Prop).

Lemma keeps_ret {A} (a : A) : keeps I (mret a : M S A).
Proof. by intros s Hs. Qed.

Lemma keeps_raise {A} e : keeps I (raise e : M S A).
Proof. by intros s Hs. Qed.

Lemma keeps_gets {A} (f : S -> A) : keeps I (gets f).
Proof. by intros s Hs. Qed.

Lemma keeps_modify f : (forall s, I s -> I (f s)) -> keeps I (modify f).
Proof. intros Hf s Hs. by apply Hf. Qed.

Lemma keeps_bind {A B} (m : M S A) (k : A -> M S B) :
  keeps I m -> (forall a, keeps I (k a)) -> keeps I (m ≫= k).
Proof.
  intros Hm Hk s Hs. specialize (Hm s Hs). unfold mbind, M_bind.
  destruct (m s) as [[a|e] s1]; [by apply Hk | done].
Qed.

Lemma keeps_rolled_back {A} (m : M S A) : keeps I m -> keeps I (rolled_back m).
Proof.
  intros Hm s Hs. specialize (Hm s Hs). unfold rolled_back.
  destruct (m s) as [[a|e] s1]; done.
Qed.

Lemma keeps_catch {A} (m : M S A) h :
  keeps I m -> (forall e k, h e = Some k -> keeps I k) -> keeps I (catch m h).
Proof.
  intros Hm Hh s Hs. specialize (Hm s Hs). unfold catch.
  destruct (m s) as [[a|e] s1]; [done|].
  destruct (h e) as [k|] eqn:E; [by apply (Hh e k E) | done].
Qed.

Lemma keeps_finally {A} (m : M S A) c : keeps I m -> keeps I c -> keeps I (finally m c).
Proof.
  intros Hm Hc s Hs. specialize (Hm s Hs). unfold finally.
  destruct (m s) as [[a|e] s1]; [|destruct e]; try done;
    specialize (Hc s1 Hm); by destruct (c s1) as [[]].
Qed.

Lemma keeps_on_exception {A} (m : M S A) h :
  keeps I m -> (forall e, keeps I (h e)) -> keeps I (on_exception m h).
Proof.
  intros Hm Hh. apply keeps_catch; [done|]. intros e k Hk. by destruct e; simplify_eq.
Qed.

Lemma keeps_for_each {X} (f : X -> M S unit) l :
  (forall x, keeps I (f x)) -> keeps I (for_each f l).
Proof.
  intros Hf. induction l as [|x l IH]; [apply keeps_ret|].
  simpl. by apply keeps_bind.
Qed.

Lemma keeps_if {A} (b : bool) (m1 m2 : M S A) :
  keeps I m1 -> keeps I m2 -> keeps I (if b then m1 else m2).
Proof. by destruct b. Qed.
End Keeps.

Create HintDb keeps discriminated.
#[export] Hint Resolve keeps_ret keeps_raise keeps_gets keeps_modify keeps_bind
  keeps_rolled_back keeps_catch keeps_finally keeps_on_exception keeps_for_each keeps_if : keeps.

(** ** Triples: what holds after a return, and what after a raise *)

Definition hoare {S A} (P : S -> Prop) (m : M S A) (Q : A -> S -> Prop) (X : exn -> S -> Prop) : Prop :=
  forall s, P s -> match m s with (Ok a, s') => Q a s' | (Raise e, s') => X e s' end.

Section Hoare.
Context {S : Type}.
Implicit Types (P : S -> Prop) (X : exn -> S -> Prop).

Lemma hoare_ret {A} (a : A) (Q : A -> S -> Prop) X : hoare (Q a) (mret a : M S A) Q X.
Proof. by intros s Hs. Qed.

Lemma hoare_raise {A} e (Q : A -> S -> Prop) X : hoare (X e) (raise e : M S A) Q X.
Proof. by intros s Hs. Qed.

Lemma hoare_bind {A B} P (m : M S A) (k : A -> M S B) (Q : A -> S -> Prop) (R : B -> S -> Prop) X :
  hoare P m Q X -> (forall a, hoare (Q a) (k a) R X) -> hoare P (m ≫= k) R X.
Proof.
  intros Hm Hk s Hs. specialize (Hm s Hs). unfold mbind, M_bind.
  destruct (m s) as [[a|e] s1]; [by apply Hk | done].
Qed.

Lemma hoare_weaken {A} P P' (m : M S A) (Q Q' : A -> S -> Prop) X X' :
  hoare P m Q X -> (forall s, P' s -> P s) -> (forall a s, Q a s -> Q' a s) ->
  (forall e s, X e s -> X' e s) -> hoare P' m Q' X'.
Proof.
  intros Hm HP HQ HX s Hs. specialize (Hm s (HP s Hs)).
  destruct (m s) as [[a|e] s1]; [by apply HQ | by apply HX].
Qed.

(** A precondition that is no matter of the state becomes a hypothesis. *)
Lemma hoare_pure {A} (phi : Prop) P (m : M S A) (Q : A -> S -> Prop) X :
  (phi -> hoare P m Q X) -> hoare (fun s => P s /\ phi) m Q X.
Proof. intros Hm s [Hs Hphi]. by apply Hm. Qed.

(** A computation that only returns or raises. *)
Lemma hoare_lift {A B} P (r : res A) (k : A -> M S B) (Q : B -> S -> Prop) X :
  (forall a, r = Ok a -> hoare P (k a) Q X) -> (forall e s, P s -> X e s) ->
  hoare P (lift_res r ≫= k) Q X.
Proof.
  intros Hk HX s Hs. unfold mbind, M_bind, lift_res. destruct r as [a|e]; [by apply Hk | by apply HX].
Qed.

(** An invariant as a triple, and a triple strengthened by one. *)
Lemma hoare_keeps {A} (I : S -> Prop) (m : M S A) : keeps I m -> hoare I m (fun _ => I) (fun _ => I).
Proof. intros Hm s Hs. specialize (Hm s Hs). by destruct (m s) as [[a|e] s1]. Qed.

(** Facts of the runs that return, by taking them apart, over an invariant. *)
Lemma hoare_split {A} (I : S -> Prop) P (m : M S A) (Q : A -> S -> Prop) :
  keeps I m -> (forall s a s', P s -> m s = (Ok a, s') -> Q a s') ->
  hoare (fun s => I s /\ P s) m (fun a s => I s /\ Q a s) (fun _ => I).
Proof.
  intros HI Hq s [Hi Hp]. specialize (HI s Hi). specialize (Hq s).
  destruct (m s) as [[a|e] s1]; [|done]. split; [done|]. by apply Hq.
Qed.

Lemma hoare_frame {A} (I : S -> Prop) P (m : M S A) (Q : A -> S -> Prop) X :
  keeps I m -> hoare P m Q X ->
  hoare (fun s => I s /\ P s) m (fun a s => I s /\ Q a s) (fun e s => I s /\ X e s).
Proof.
  intros HI Hm s [Hi Hp]. specialize (HI s Hi). specialize (Hm s Hp).
  by destruct (m s) as [[a|e] s1].
Qed.

Lemma hoare_catch {A} P (m : M S A) h (Q : A -> S -> Prop) X X' :
  hoare P m Q X ->
  (forall e, match h e with Some k => hoare (X e) k Q X' | None => forall s, X e s -> X' e s end) ->
  hoare P (catch m h) Q X'.
Proof.
  intros Hm Hh s Hs. specialize (Hm s Hs). unfold catch.
  destruct (m s) as [[a|e] s1]; [done|]. specialize (Hh e).
  destruct (h e) as [k|]; [by apply Hh | by apply Hh].
Qed.

Lemma hoare_on_exception {A} P (m : M S A) h (Q : A -> S -> Prop) X X' :
  hoare P m Q X -> (forall e, e <> PowerLoss -> hoare (X e) (h e) Q X') ->
  (forall s, X PowerLoss s -> X' PowerLoss s) -> hoare P (on_exception m h) Q X'.
Proof.
  intros Hm Hh Hp. eapply hoare_catch; [exact Hm|]. intros e.
  destruct e; try (by apply Hh); done.
Qed.

Lemma hoare_finally {A} P (m : M S A) c (Q : A -> S -> Prop) X :
  hoare P m Q X -> (forall a, hoare (Q a) c (fun _ => Q a) X) ->
  (forall e, e <> PowerLoss -> hoare (X e) c (fun _ => X e) X) -> hoare P (finally m c) Q X.
Proof.
  intros Hm Hq Hx s Hs. specialize (Hm s Hs). unfold finally.
  destruct (m s) as [[a|e] s1].
  - specialize (Hq a s1 Hm). by destruct (c s1) as [[]].
  - destruct e; try done; match goal with H : X ?e _ |- _ => specialize (Hx e ltac:(done) _ H) end;
      by destruct (c s1) as [[]].
Qed.

Lemma hoare_gets {A} (f : S -> A) (Q : A -> S -> Prop) X : hoare (fun s => Q (f s) s) (gets f) Q X.
Proof. by intros s Hs. Qed.

Lemma hoare_lift_res {A} P (r : res A) (Q : A -> S -> Prop) X :
  (forall a s, r = Ok a -> P s -> Q a s) -> (forall e s, r = Raise e -> P s -> X e s) ->
  hoare P (lift_res r) Q X.
Proof. intros HQ HX s Hs. unfold lift_res. destruct r; [by apply HQ | by apply HX]. Qed.

Lemma hoare_collect {B A} (f : B -> M S A) l (I : S -> Prop) (Q : B -> A -> Prop) X :
  (forall x, hoare I (f x) (fun a s => I s /\ Q x a) X) ->
  hoare I (collect f l) (fun r s => I s /\ Forall2 Q l r) X.
Proof.
  intros Hf. induction l as [|x l IH]; simpl; [intros s Hs; by repeat constructor|].
  intros s Hs. specialize (Hf x s Hs). unfold mbind, M_bind.
  destruct (f x s) as [[a|e] s1]; [|done]. destruct Hf as [Hi Hq]. specialize (IH s1 Hi).
  destruct (collect f l s1) as [[r|e] s2]; [|done]. destruct IH as [Hi2 Hr].
  split; [done|]. by constructor.
Qed.

Lemma hoare_for_each {B} (f : B -> M S unit) l (I : S -> Prop) X :
  (forall x, hoare I (f x) (fun _ => I) X) -> hoare I (for_each f l) (fun _ => I) X.
Proof.
  intros Hf. induction l as [|x l IH]; simpl; [by intros s Hs|].
  eapply hoare_bind; [apply Hf|]. done.
Qed.
End Hoare.

Lemma keeps_collect {S B A} (I : S -> Prop) (f : B -> M S A) l :
  (forall x, keeps I (f x)) -> keeps I (collect f l).
Proof.
  intros Hf. induction l as [|x l IH]; [apply keeps_ret|]. simpl.
  apply keeps_bind; [done|]. intros a. apply keeps_bind; [done|]. intros r. apply keeps_ret.
Qed.

Lemma keeps_lift_res {S A} (I : S -> Prop) (r : res A) : keeps I (lift_res r).
Proof. by intros s Hs. Qed.

#[export] Hint Resolve keeps_collect keeps_lift_res : keeps.
