(* ===== verification/PyOps.v ===== *)
(** * Dynamic Python operations on JSON values

    Attribute access, iteration, indexing, numeric coercion and comparison on a
    value of unknown shape, with the exception each raises on the wrong one. *)
From S2P Require Import Prelude Py Effects.
Open Scope Z_scope.

(** ** Floats *)

Definition float_max : Z := Z.pow 2 1024 - Z.pow 2 970.

(** [float(n)] of an integer: too large a magnitude overflows. *)
Definition float_of_int (z : Z) : res pyfloat :=
  if float_max <=? Z.abs z then Raise OverflowError else Ok (Fin (inject_Z z)).

Definition float_add (x y : pyfloat) : pyfloat :=
  match x, y with
  | Fin a, Fin b => Fin (Qred (a + b))
  | NaN, _ | _, NaN => NaN
  | PosInf, NegInf | NegInf, PosInf => NaN
  | PosInf, _ | _, PosInf => PosInf
  | NegInf, _ | _, NegInf => NegInf
  end.

(** [x / n] for a positive integer [n]. *)
Definition float_div (x : pyfloat) (n : Z) : pyfloat :=
  match x with Fin a => Fin (Qred (a / inject_Z n)) | _ => x end.

Definition float_pos (x : pyfloat) : bool :=
  match x with Fin a => q_ltb 0 a | PosInf => true | _ => false end.

(** The operand of [float + v]. *)
Definition num_operand (v : pyval) : res pyfloat :=
  match v with
  | VBool b => Ok (Fin (inject_Z (Z.b2z b)))
  | VInt z => float_of_int z
  | VFloat f => Ok f
  | _ => Raise TypeError
  end.

(** ** [float(s)] of a string *)

Definition starts_digit (l : list ascii) : bool :=
  match l with c :: _ => is_digit c | [] => false end.

(** Digits with single underscores between them: their value, their number and
    what follows. *)
Fixpoint scan_digits (acc : Z) (n : nat) (l : list ascii) : Z * nat * list ascii :=
  match l with
  | c :: l' =>
      if is_digit c then scan_digits (acc * 10 + (Z.of_nat (nat_of_ascii c) - 48)) (S n) l'
      else if Ascii.eqb c (ch 95) && starts_digit l' && negb (Nat.eqb n 0)
      then scan_digits acc n l'
      else (acc, n, l)
  | [] => (acc, n, l)
  end.

Definition scan_exponent (l : list ascii) : option (Z * list ascii) :=
  match l with
  | c :: l' =>
      if Ascii.eqb c "e"%char || Ascii.eqb c "E"%char then
        let '(neg, l'') := match l' with
          | s :: r => if Ascii.eqb s "-"%char then (true, r)
                      else if Ascii.eqb s "+"%char then (false, r) else (false, l')
          | [] => (false, l') end in
        if starts_digit l'' then
          let '(v, _, rest) := scan_digits 0 0 l'' in Some (if neg then - v else v, rest)
        else None
      else Some (0, l)
  | [] => Some (0, [])
  end.

(** [m * 10^e], infinite beyond the double range and zero far below it. *)
Definition scale10 (digits : nat) (m e : Z) : pyfloat :=
  if m =? 0 then Fin 0
  else if 400 <? e + Z.of_nat digits then PosInf
  else if e + Z.of_nat digits <? -400 then Fin 0
  else if 0 <=? e then
    if float_max <=? m * Z.pow 10 e then PosInf else Fin (inject_Z (m * Z.pow 10 e))
  else Fin (Qred (m # Z.to_pos (Z.pow 10 (- e)))).

Definition unsigned_float (l : list ascii) : option pyfloat :=
  let word := lower (of_chars l) in
  if str_mem word ["inf"; "infinity"] then Some PosInf
  else if String.eqb word "nan" then Some NaN
  else
    let '(ip, ni, r1) := scan_digits 0 0 l in
    let '(m, nf, r2) := match r1 with
      | c :: r => if Ascii.eqb c "."%char && (starts_digit r || negb (Nat.eqb ni 0))
                  then if starts_digit r
                       then let '(v, n, rest) := scan_digits 0 0 r in (ip * Z.pow 10 (Z.of_nat n) + v, n, rest)
                       else (ip, 0%nat, r)
                  else (ip, 0%nat, r1)
      | [] => (ip, 0%nat, r1) end in
    if Nat.eqb (ni + nf) 0 then None
    else match scan_exponent r2 with
         | Some (e, []) => Some (scale10 (ni + nf) m (e - Z.of_nat nf))
         | _ => None
         end.

Definition float_neg (f : pyfloat) : pyfloat :=
  match f with Fin q => Fin (- q) | PosInf => NegInf | NegInf => PosInf | NaN => NaN end.

Definition parse_float (s : string) : option pyfloat :=
  match strip_chars (chars s) with
  | c :: l =>
      if Ascii.eqb c "-"%char then float_neg <$> unsigned_float l
      else if Ascii.eqb c "+"%char then unsigned_float l
      else unsigned_float (c :: l)
  | [] => None
  end.

(** [float(v)]. *)
Definition py_float (v : pyval) : res pyfloat :=
  match v with
  | VStr s => match parse_float s with
              | Some f => Ok f
              | None => Raise (ValueError "could not convert string to float")
              end
  | VBool _ | VInt _ | VFloat _ => num_operand v
  | _ => Raise TypeError
  end.

(** [v or d]. *)
Definition py_or (v d : pyval) : pyval := if truthy v then v else d.

(** [v > 0]. *)
Definition py_positive (v : pyval) : res bool :=
  match v with
  | VBool b => Ok b
  | VInt z => Ok (0 <? z)
  | VFloat f => Ok (float_pos f)
  | _ => Raise TypeError
  end.

(** ** Access *)

(** [v.get(k, d)]. *)
Definition py_get (v : pyval) (k : string) (d : pyval) : res pyval :=
  match v with
  | VDict m => Ok (get_or k d m)
  | _ => Raise AttributeError
  end.

Definition py_len (v : pyval) : res Z :=
  match v with
  | VList l => Ok (Z.of_nat (length l))
  | VDict d => Ok (Z.of_nat (length d))
  | VStr s => Ok (str_len s)
  | _ => Raise TypeError
  end.

(** The items [for x in v] runs over. *)
Definition py_iter (v : pyval) : res (list pyval) :=
  match v with
  | VList l => Ok l
  | VDict d => Ok (VStr ∘ fst <$> d)
  | VStr s => Ok ((fun c => VStr (of_chars [c])) <$> chars s)
  | _ => Raise TypeError
  end.

(** [v[i]] for a non-negative [i]. *)
Definition py_index (v : pyval) (i : nat) : res pyval :=
  match v with
  | VList l => match l !! i with Some x => Ok x | None => Raise IndexError end
  | VStr s => match chars s !! i with
              | Some c => Ok (VStr (of_chars [c]))
              | None => Raise IndexError end
  | VDict _ => Raise KeyError
  | _ => Raise TypeError
  end.

(** [v[k]] for a string [k]. *)
Definition py_key (v : pyval) (k : string) : res pyval :=
  match v with
  | VDict d => match dict_get k d with Some x => Ok x | None => Raise KeyError end
  | _ => Raise TypeError
  end.

(** [v[k] = x] and [v[i] = x], as the new value of [v]. *)
Definition py_set_key (v : pyval) (k : string) (x : pyval) : res pyval :=
  match v with
  | VDict d => Ok (VDict (dict_set k x d))
  | _ => Raise TypeError
  end.

Definition py_set_index (v : pyval) (i : nat) (x : pyval) : res pyval :=
  match v with
  | VList l => if (i <? length l)%nat then Ok (VList (<[i := x]> l)) else Raise IndexError
  | VDict d => Ok v (* an integer key, which no later step reads *)
  | _ => Raise TypeError
  end.

Definition py_hashable (v : pyval) : bool :=
  match v with VList _ | VDict _ => false | _ => true end.

(** [==] of two hashable values: numbers compare across their types. *)
Definition py_num (v : pyval) : option pyfloat :=
  match v with
  | VBool b => Some (Fin (inject_Z (Z.b2z b)))
  | VInt z => Some (Fin (inject_Z z))
  | VFloat f => Some f
  | _ => None
  end.

Definition py_key_eq (x y : pyval) : bool :=
  match x, y with
  | VStr a, VStr b => String.eqb a b
  | VNone, VNone => true
  | _, _ =>
      match py_num x, py_num y with
      | Some (Fin a), Some (Fin b) => Qeq_bool a b
      | Some PosInf, Some PosInf | Some NegInf, Some NegInf => true
      | _, _ => false
      end
  end.

Definition float_ge (x y : pyfloat) : bool :=
  match x, y with
  | NaN, _ | _, NaN => false
  | PosInf, _ | _, NegInf => true
  | NegInf, _ | _, PosInf => false
  | Fin a, Fin b => q_leb b a
  end.

Fixpoint str_leb (x y : string) : bool :=
  match x, y with
  | EmptyString, _ => true
  | String _ _, EmptyString => false
  | String a x, String b y =>
      let m := nat_of_ascii a in let n := nat_of_ascii b in
      (m <? n)%nat || ((m =? n)%nat && str_leb x y)
  end.

Lemma str_leb_total x y : str_leb x y = true \/ str_leb y x = true.
Proof.
  revert y. induction x as [|a x IH]; intros [|b y]; simpl; auto.
  destruct (Nat.ltb_spec (nat_of_ascii a) (nat_of_ascii b)), (Nat.ltb_spec (nat_of_ascii b) (nat_of_ascii a)); auto.
  replace (nat_of_ascii b) with (nat_of_ascii a) by lia. rewrite Nat.eqb_refl. apply IH.
Qed.

Lemma str_leb_trans x y z : str_leb x y = true -> str_leb y z = true -> str_leb x z = true.
Proof.
  revert y z. induction x as [|a x IH]; intros [|b y] [|c z]; simpl; try done. intros H1 H2.
  apply orb_true_iff in H1, H2. apply orb_true_iff.
  rewrite !andb_true_iff, !Nat.ltb_lt, !Nat.eqb_eq in *.
  destruct H1 as [H1|[-> H1]], H2 as [H2|[E H2]]; rewrite <- ?E; try (left; lia). right. split; [done|]. by eapply IH.
Qed.

Lemma str_leb_antisym x y : str_leb x y = true -> str_leb y x = true -> x = y.
Proof.
  revert y. induction x as [|a x IH]; intros [|b y]; simpl; try done. intros H1 H2.
  apply orb_true_iff in H1, H2. rewrite !andb_true_iff, !Nat.ltb_lt, !Nat.eqb_eq in *.
  destruct H1 as [H1|[E H1]], H2 as [H2|[E' H2]]; try lia. rewrite (IH y H1 H2). f_equal.
  rewrite <- (Ascii.ascii_nat_embedding a), E. apply Ascii.ascii_nat_embedding.
Qed.

(** [v >= w] where [w] is a scalar; numbers compare exactly. *)
Definition py_ge (v w : pyval) : res bool :=
  match v, w with
  | VStr a, VStr b => Ok (str_leb b a)
  | _, _ => match py_num v, py_num w with
            | Some a, Some b => Ok (float_ge a b)
            | _, _ => Raise TypeError
            end
  end.

(** [round(q)]: half to even. *)
Definition round_even (q : Q) : Z :=
  let n := Qfloor q in
  match (q - inject_Z n ?= 1 # 2)%Q with
  | Lt => n
  | Gt => n + 1
  | Eq => if Z.even n then n else n + 1
  end.

(** [f"{v:.1f}"]: the exact value rounded to tenths, the sign kept on zero. *)
Definition fixed1 (v : pyval) : res string :=
  f ← match v with VStr _ => Raise (ValueError "Unknown format code 'f'") | _ => num_operand v end;
  mret match f with
       | Fin q =>
           let n := round_even ((if q_ltb q 0 then - q else q) * 10)%Q in
           ((if q_ltb q 0 then "-" else "") ++ str_of_int (n / 10) ++ "." ++ str_of_int (n mod 10))%string
       | PosInf => "inf" | NegInf => "-inf" | NaN => "nan"
       end%string.

Example fixed1_half : fixed1 (VFloat (Fin (9025 # 100))) = Ok "90.2"%string. Proof. reflexivity. Qed.
Example fixed1_neg : fixed1 (VFloat (Fin (-1 # 25))) = Ok "-0.0"%string. Proof. reflexivity. Qed.

Example parse_float_dec : parse_float " 12.5e1 " = Some (Fin 125). Proof. reflexivity. Qed.
Example parse_float_bad : parse_float "abc" = None. Proof. reflexivity. Qed.
Example parse_float_point : parse_float ".5" = Some (Fin (1 # 2)). Proof. reflexivity. Qed.
Example parse_float_lone : parse_float "." = None. Proof. reflexivity. Qed.
