(* ===== verification/PyVals.v ===== *)
(** * Comparing, ordering and converting values of unknown shape

    Python's [==], [<], [sorted], [int()] and membership in a set on JSON values, and
    the line-splitting of texts, with the exception each raises. *)
From S2P Require Import Prelude Sorting Py Effects PyOps.
Open Scope Z_scope.

(** ** Equality *)

(** [x == y]: numbers across their types, objects as maps. *)
Fixpoint py_eqb (x y : pyval) : bool :=
  match x, y with
  | VList l, VList l' =>
      (fix go (l l' : list pyval) : bool :=
         match l, l' with
         | [], [] => true
         | a :: l, b :: l' => py_eqb a b && go l l'
         | _, _ => false
         end) l l'
  | VDict d, VDict d' =>
      (length d =? length d')%nat &&
      (fix go (d : dict) : bool :=
         match d with
         | [] => true
         | (k, v) :: d => match dict_get k d' with Some w => py_eqb v w | None => false end && go d
         end) d
  | VList _, _ | _, VList _ | VDict _, _ | _, VDict _ => false
  | _, _ => py_key_eq x y
  end.

Lemma py_eqb_str v s : py_eqb v (VStr s) = true <-> v = VStr s.
Proof.
  destruct v as [| | | |t| |]; simpl; try (split; [done|by intros [=]]).
  - by destruct f.
  - rewrite String.eqb_eq. split; congruence.
Qed.

(** ** Order *)

Definition float_lt (x y : pyfloat) : bool :=
  match x, y with
  | NaN, _ | _, NaN | PosInf, _ | _, NegInf => false
  | Fin a, Fin b => q_ltb a b
  | NegInf, _ | _, PosInf => true
  end.

Definition float_le (x y : pyfloat) : bool := float_ge y x.

(** [v < w] and [v <= w] of two scalars (lists are ordered too, and never compared here). *)
Definition py_order (on_float : pyfloat -> pyfloat -> bool) (on_str : string -> string -> bool)
    (v w : pyval) : res bool :=
  match v, w with
  | VStr a, VStr b => Ok (on_str a b)
  | _, _ => match py_num v, py_num w with
            | Some a, Some b => Ok (on_float a b)
            | _, _ => Raise TypeError
            end
  end.

Definition py_lt : pyval -> pyval -> res bool := py_order float_lt (fun a b => negb (str_leb b a)).
Definition py_le : pyval -> pyval -> res bool := py_order float_le str_leb.

(** [sorted(l)]: strings by code points, numbers by value; a mixture cannot be ordered. *)
Definition is_str_val (v : pyval) : bool := match v with VStr _ => true | _ => false end.
Definition is_num_val (v : pyval) : bool := match py_num v with Some _ => true | None => false end.

Definition val_leb (v w : pyval) : bool :=
  match py_le v w with Ok b => b | Raise _ => false end.

Definition py_sorted (l : list pyval) : res (list pyval) :=
  if (length l <=? 1)%nat || forallb is_str_val l || forallb is_num_val l then Ok (sort_by val_leb l)
  else Raise TypeError.

(** ** Sets *)

Definition val_mem (v : pyval) (l : list pyval) : bool := existsb (py_eqb v) l.

(** [{... for x in l}]: an unhashable element raises. *)
Definition py_set (l : list pyval) : res (list pyval) :=
  if forallb py_hashable l
  then Ok (fold_left (fun s v => if val_mem v s then s else s ++ [v]) l []) else Raise TypeError.

(** [v in {s, ...}] of a set of strings. *)
Definition in_strings (v : pyval) (l : list string) : res bool :=
  if py_hashable v then Ok (existsb (fun s => py_eqb v (VStr s)) l) else Raise TypeError.

Definition subset_vals (l l' : list pyval) : bool := forallb (fun v => val_mem v l') l.
Definition same_set (l l' : list pyval) : bool := subset_vals l l' && subset_vals l' l.
Definition minus_vals (l l' : list pyval) : list pyval := List.filter (fun v => negb (val_mem v l')) l.

Lemma val_mem_str s l : val_mem (VStr s) l = true <-> VStr s ∈ l.
Proof.
  unfold val_mem. rewrite existsb_exists. split.
  - intros (v & Hv%list_elem_of_In & E). destruct v as [| | | |t| |]; try done.
    simpl in E. apply String.eqb_eq in E as ->. done.
  - intros Hv. exists (VStr s). split; [by apply list_elem_of_In|]. simpl. apply String.eqb_refl.
Qed.

(** ** [int(v)] *)

Definition py_int (v : pyval) : res Z :=
  match v with
  | VBool b => Ok (Z.b2z b)
  | VInt z => Ok z
  | VFloat (Fin q) => Ok (q_trunc q)
  | VFloat NaN => Raise (ValueError "cannot convert float NaN to integer")
  | VFloat _ => Raise OverflowError
  | VStr s => match parse_int 10 s with
              | Some z => Ok z
              | None => Raise (ValueError "invalid literal for int()")
              end
  | _ => Raise TypeError
  end.

(** ** Lines of a text *)

(** What [str.splitlines] breaks at, besides the pair CR LF. *)
Definition is_line_break (c : ascii) : bool :=
  chr_in 10 13 c || chr_in 28 30 c || chr_in 133 133 c.

Fixpoint lines_from (line : list ascii) (l : list ascii) : list (list ascii) :=
  match l with
  | [] => match line with [] => [] | _ => [rev line] end
  | c :: l' =>
      if is_line_break c then
        match l' with
        | d :: l'' => if Ascii.eqb c (ch 13) && Ascii.eqb d (ch 10)
                      then rev line :: lines_from [] l'' else rev line :: lines_from [] l'
        | [] => [rev line]
        end
      else lines_from (c :: line) l'
  end.

(** [s.splitlines()]. *)
Definition splitlines (s : string) : list string := of_chars <$> lines_from [] (chars s).

Example splitlines_pair : splitlines ("a" ++ of_chars [ch 13; ch 10; ch 10] ++ "b")%string = ["a"; ""; "b"]%string.
Proof. reflexivity. Qed.

(** [s.lstrip("/")], [s.rstrip("/")]. *)
Definition is_slash (c : ascii) : bool := Ascii.eqb c "/"%char.
Definition lstrip_slash (s : string) : string := of_chars (drop_while is_slash (chars s)).
Definition rstrip_slash (s : string) : string := of_chars (rev (drop_while is_slash (rev (chars s)))).

Definition endswith (suffix s : string) : bool :=
  (String.length suffix <=? String.length s)%nat &&
  String.eqb (str_drop (String.length s - String.length suffix) s) suffix.

(** [" ".join(l)], ["/".join(l)]. *)
Fixpoint join_str (sep : string) (l : list string) : string :=
  match l with
  | [] => ""
  | [s] => s
  | s :: l => s ++ sep ++ join_str sep l
  end%string.
