(* ===== verification/Json.v ===== *)
(** * JSON text (json.dumps and json.loads as the sources call them)

    The canonical encoder (sorted keys, no white space, ASCII only, no NaN) and the
    parser, both executable, and the round trip between them.  The text of a float
    is C code: [float_repr] is a parameter with [repr_reads_back] as its law. *)
From S2P Require Import Prelude Sorting Py Effects PyOps.
Open Scope Z_scope.

(** ** Reading *)

Fixpoint span (p : ascii -> bool) (l : list ascii) : list ascii * list ascii :=
  match l with
  | c :: l' => if p c then let '(a, b) := span p l' in (c :: a, b) else ([], l)
  | [] => ([], [])
  end.

Definition is_ws (c : ascii) : bool :=
  Ascii.eqb c " " || Ascii.eqb c (ch 9) || Ascii.eqb c (ch 10) || Ascii.eqb c (ch 13).

Definition skip_ws : list ascii -> list ascii := drop_while is_ws.

Definition quote : ascii := ch 34.
Definition backslash : ascii := ch 92.

Definition hex_value (l : list ascii) : option Z :=
  fold_left (fun acc c => v ← acc; d ← digit_value 16 c; Some (v * 16 + d)) l (Some 0).

(** What follows the opening quote, up to the closing one. *)
Fixpoint read_string (l : list ascii) : option (list ascii * list ascii) :=
  match l with
  | [] => None
  | c :: l =>
      if Ascii.eqb c quote then Some ([], l)
      else if Ascii.eqb c backslash then
        match l with
        | [] => None
        | e :: l =>
            let plain := if Ascii.eqb e quote then Some quote
              else if Ascii.eqb e backslash then Some backslash
              else if Ascii.eqb e "/"%char then Some "/"%char
              else if Ascii.eqb e "b"%char then Some (ch 8)
              else if Ascii.eqb e "f"%char then Some (ch 12)
              else if Ascii.eqb e "n"%char then Some (ch 10)
              else if Ascii.eqb e "r"%char then Some (ch 13)
              else if Ascii.eqb e "t"%char then Some (ch 9) else None in
            match plain with
            | Some c => '(s, r) ← read_string l; Some (c :: s, r)
            | None =>
                if Ascii.eqb e "u"%char then
                  match l with
                  | h1 :: h2 :: h3 :: h4 :: l =>
                      n ← hex_value [h1; h2; h3; h4];
                      if n <? 256 then '(s, r) ← read_string l; Some (ch (Z.to_nat n) :: s, r)
                      else None
                  | _ => None
                  end
                else None
            end
        end
      else if (nat_of_ascii c <? 32)%nat then None
      else '(s, r) ← read_string l; Some (c :: s, r)
  end.

Definition read_frac (l : list ascii) : list ascii * list ascii :=
  match l with
  | c :: l' =>
      if Ascii.eqb c "."%char then
        match span is_digit l' with ([], _) => ([], l) | (ds, r) => (c :: ds, r) end
      else ([], l)
  | [] => ([], [])
  end.

Definition read_exp (l : list ascii) : list ascii * list ascii :=
  match l with
  | c :: l' =>
      if Ascii.eqb c "e"%char || Ascii.eqb c "E"%char then
        let '(sign, l'') := match l' with
          | s :: r => if Ascii.eqb s "-"%char || Ascii.eqb s "+"%char then ([s], r) else ([], l')
          | [] => ([], l') end in
        match span is_digit l'' with ([], _) => ([], l) | (ds, r) => (c :: sign ++ ds, r) end
      else ([], l)
  | [] => ([], [])
  end.

(** The longest number at the front, and whether it has a fraction or an exponent. *)
Definition number_token (l : list ascii) : option (list ascii * bool * list ascii) :=
  let '(sign, l1) := match l with
    | c :: r => if Ascii.eqb c "-"%char then ([c], r) else ([], l)
    | [] => ([], l) end in
  let '(int, l2) := match l1 with
    | c :: r => if Ascii.eqb c "0"%char then ([c], r) else span is_digit l1
    | [] => ([], l1) end in
  match int with
  | [] => None
  | _ =>
      let '(frac, l3) := read_frac l2 in
      let '(exp, l4) := read_exp l3 in
      Some (sign ++ int ++ frac ++ exp, match frac, exp with [], [] => false | _, _ => true end, l4)
  end.

Definition read_number (l : list ascii) : option (pyval * list ascii) :=
  '(tok, float, r) ← number_token l;
  if (float : bool) then f ← parse_float (of_chars tok); Some (VFloat f, r)
  else z ← parse_int 10 (of_chars tok); Some (VInt z, r).

Fixpoint strip_prefix (p l : list ascii) : option (list ascii) :=
  match p, l with
  | [], _ => Some l
  | a :: p, b :: l => if Ascii.eqb a b then strip_prefix p l else None
  | _, [] => None
  end.

(** Whether [NaN] and the infinities are read as the numbers they name: not when the
    caller passes a [parse_constant], which refuses them as malformed text. *)
Class Constants := reads_constants : bool.

Definition read_constant (l : list ascii) : option (pyval * list ascii) :=
  match strip_prefix (chars "NaN") l, strip_prefix (chars "Infinity") l,
        strip_prefix (chars "-Infinity") l with
  | Some r, _, _ => Some (VFloat NaN, r)
  | _, Some r, _ => Some (VFloat PosInf, r)
  | _, _, Some r => Some (VFloat NegInf, r)
  | None, None, None => None
  end.

Section Reading.
Context `{Constants}.

Definition read_atom (l : list ascii) : option (pyval * list ascii) :=
  match strip_prefix (chars "null") l, strip_prefix (chars "true") l,
        strip_prefix (chars "false") l with
  | Some r, _, _ => Some (VNone, r)
  | _, Some r, _ => Some (VBool true, r)
  | _, _, Some r => Some (VBool false, r)
  | None, None, None =>
      match read_number l with
      | Some x => Some x
      | None => if reads_constants then read_constant l else None
      end
  end.

(** One unit of fuel per nested value, list element or member. *)
Fixpoint read_value (fuel : nat) (l : list ascii) : option (pyval * list ascii) :=
  match fuel with
  | O => None
  | S fuel =>
      match l with
      | [] => None
      | c :: l' =>
          if Ascii.eqb c quote then '(s, r) ← read_string l'; Some (VStr (of_chars s), r)
          else if Ascii.eqb c "["%char then
            match skip_ws l' with
            | c' :: r => if Ascii.eqb c' "]"%char then Some (VList [], r)
                         else '(vs, r) ← read_elements fuel (c' :: r); Some (VList vs, r)
            | [] => None
            end
          else if Ascii.eqb c "{"%char then
            match skip_ws l' with
            | c' :: r => if Ascii.eqb c' "}"%char then Some (VDict [], r)
                         else '(d, r) ← read_members fuel [] (c' :: r); Some (VDict d, r)
            | [] => None
            end
          else read_atom l
      end
  end
with read_elements (fuel : nat) (l : list ascii) : option (list pyval * list ascii) :=
  match fuel with
  | O => None
  | S fuel =>
      '(v, r) ← read_value fuel l;
      match skip_ws r with
      | c :: r =>
          if Ascii.eqb c "]"%char then Some ([v], r)
          else if Ascii.eqb c ","%char then
            '(vs, r) ← read_elements fuel (skip_ws r); Some (v :: vs, r)
          else None
      | [] => None
      end
  end
with read_members (fuel : nat) (d : dict) (l : list ascii) : option (dict * list ascii) :=
  match fuel with
  | O => None
  | S fuel =>
      match l with
      | q :: l =>
          if Ascii.eqb q quote then
            '(k, r) ← read_string l;
            match skip_ws r with
            | c :: r =>
                if Ascii.eqb c ":"%char then
                  '(v, r) ← read_value fuel (skip_ws r);
                  let d := dict_set (of_chars k) v d in
                  match skip_ws r with
                  | c :: r =>
                      if Ascii.eqb c "}"%char then Some (d, r)
                      else if Ascii.eqb c ","%char then read_members fuel d (skip_ws r)
                      else None
                  | [] => None
                  end
                else None
            | [] => None
            end
          else None
      | [] => None
      end
  end.

(** [json.loads(text)] of a text; [None] is the [ValueError]. *)
Definition loads_with (l : list ascii) : option pyval :=
  let l := skip_ws l in
  '(v, r) ← read_value (S (length l)) l;
  match skip_ws r with [] => Some v | _ => None end.
End Reading.

(** With a [parse_constant] that raises, and without one. *)
Definition loads : list ascii -> option pyval := @loads_with false.
Definition loads_any : list ascii -> option pyval := @loads_with true.

(** [data.decode("utf-8")], for text within Latin-1. *)
Fixpoint utf8_decode (l : list ascii) : option (list ascii) :=
  match l with
  | [] => Some []
  | c :: l =>
      let n := nat_of_ascii c in
      if (n <? 128)%nat then r ← utf8_decode l; Some (c :: r)
      else if (n =? 194)%nat || (n =? 195)%nat then
        match l with
        | c' :: l' => let m := nat_of_ascii c' in
            if (128 <=? m)%nat && (m <? 192)%nat
            then r ← utf8_decode l'; Some (ch ((n - 192) * 64 + (m - 128)) :: r)
            else None
        | [] => None
        end
      else None
  end.

(** ** Writing *)

Definition hex_digit (n : nat) : ascii := if (n <? 10)%nat then ch (48 + n) else ch (87 + n).

(** One character between the quotes of an ASCII-only string. *)
Definition escape (c : ascii) : list ascii :=
  let n := nat_of_ascii c in
  if Ascii.eqb c quote then [backslash; quote]
  else if Ascii.eqb c backslash then [backslash; backslash]
  else if Ascii.eqb c (ch 8) then [backslash; "b"%char]
  else if Ascii.eqb c (ch 12) then [backslash; "f"%char]
  else if Ascii.eqb c (ch 10) then [backslash; "n"%char]
  else if Ascii.eqb c (ch 13) then [backslash; "r"%char]
  else if Ascii.eqb c (ch 9) then [backslash; "t"%char]
  else if (32 <=? n)%nat && (n <? 127)%nat then [c]
  else [backslash; "u"%char; "0"%char; "0"%char; hex_digit (n / 16); hex_digit (n mod 16)].

Definition dump_string (s : string) : list ascii :=
  quote :: (chars s ≫= escape) ++ [quote].

(** [",".join(parts)]. *)
Fixpoint comma_join (parts : list (list ascii)) : list ascii :=
  match parts with
  | [] => []
  | [p] => p
  | p :: ps => p ++ ","%char :: comma_join ps
  end.

Definition key_leb {V} (x y : string * V) : bool := str_leb x.1 y.1.

Definition dump_member (m : string * list ascii) : list ascii :=
  dump_string m.1 ++ ":"%char :: m.2.

Class FloatText := {
  float_repr : Q -> string;
  (** The rationals that are the value of some float's text. *)
  is_float : Q -> Prop
}.

Class FloatLaws `{FloatText} := {
  repr_token q r : is_float q -> (forall c, head r = Some c -> is_digit c = false /\
      str_mem (String c "") ["."; "e"; "E"; "+"; "-"]%string = false) ->
    number_token (chars (float_repr q) ++ r) = Some (chars (float_repr q), true, r);
  repr_ascii q : Forall (fun c => (nat_of_ascii c <? 128)%nat = true) (chars (float_repr q));
  repr_reads_back q : is_float q -> parse_float (float_repr q) = Some (Fin q)
}.

Section Dump.
Context `{FloatText}.

(** [json.dumps(v, sort_keys=True, separators=(",", ":"))]. *)
Fixpoint dump (v : pyval) : list ascii :=
  match v with
  | VNone => chars "null"
  | VBool b => chars (if b then "true" else "false")
  | VInt z => chars (str_of_int z)
  | VFloat (Fin q) => chars (float_repr q)
  | VFloat PosInf => chars "Infinity"
  | VFloat NegInf => chars "-Infinity"
  | VFloat NaN => chars "NaN"
  | VStr s => dump_string s
  | VList l => "["%char :: comma_join (List.map dump l) ++ ["]"%char]
  | VDict d =>
      "{"%char :: comma_join (List.map dump_member
        (sort_by key_leb (List.map (fun kv => (kv.1, dump kv.2)) d))) ++ ["}"%char]
  end.

(** The white space of an encoder: inside the brackets and after a comma at a depth of
    nesting, and after a colon. *)
Record layout := Layout {
  edge : nat -> list ascii;
  between : nat -> list ascii;
  after_colon : list ascii
}.

Definition new_line (depth : nat) : list ascii := ch 10 :: repeat " "%char (2 * depth).

(** [separators=(",", ":")], no arguments, and [indent=2]. *)
Definition compact : layout := Layout (fun _ => []) (fun _ => []) [].
Definition spaced : layout := Layout (fun _ => []) (fun _ => [" "%char]) [" "%char].
Definition indent2 : layout := Layout new_line new_line [" "%char].

(** [",".join(parts)] with white space after each comma. *)
Fixpoint join_with (gap : list ascii) (parts : list (list ascii)) : list ascii :=
  match parts with
  | [] => []
  | [p] => p
  | p :: ps => p ++ ","%char :: gap ++ join_with gap ps
  end.

Definition member_text (L : layout) (m : string * list ascii) : list ascii :=
  dump_string m.1 ++ ":"%char :: after_colon L ++ m.2.

Definition bracketed (L : layout) (depth : nat) (l r : ascii) (parts : list (list ascii)) : list ascii :=
  match parts with
  | [] => [l; r]
  | _ => l :: edge L (S depth) ++ join_with (between L (S depth)) parts ++ edge L depth ++ [r]
  end.

(** [json.dumps(v, sort_keys=True, ...)] in a layout. *)
Fixpoint render (L : layout) (depth : nat) (v : pyval) : list ascii :=
  match v with
  | VNone => chars "null"
  | VBool b => chars (if b then "true" else "false")
  | VInt z => chars (str_of_int z)
  | VFloat (Fin q) => chars (float_repr q)
  | VFloat PosInf => chars "Infinity"
  | VFloat NegInf => chars "-Infinity"
  | VFloat NaN => chars "NaN"
  | VStr s => dump_string s
  | VList l => bracketed L depth "[" "]" (List.map (render L (S depth)) l)
  | VDict d => bracketed L depth "{" "}" (List.map (member_text L)
      (sort_by key_leb (List.map (fun kv => (kv.1, render L (S depth) kv.2)) d)))
  end.

Fixpoint all_finite (v : pyval) : bool :=
  match v with
  | VFloat (Fin _) => true
  | VFloat _ => false
  | VList l => forallb all_finite l
  | VDict d => forallb (fun kv => all_finite kv.2) d
  | _ => true
  end.

(** [allow_nan=False] raises on the first non-finite number. *)
Definition dumps (v : pyval) : res (list ascii) :=
  if all_finite v then Ok (dump v)
  else Raise (ValueError "Out of range float values are not JSON compliant").
End Dump.

(** ** Numerals read back *)

Definition dec_value (l : list ascii) (acc : Z) : Z :=
  fold_left (fun acc c => acc * 10 + (Z.of_nat (nat_of_ascii c) - 48)) l acc.

Lemma span_app p (l r : list ascii) :
  Forall (fun c => p c = true) l -> (forall c, head r = Some c -> p c = false) ->
  span p (l ++ r) = (l, r).
Proof.
  intros Hl Hr. induction Hl as [|c l Hc Hl IH]; simpl.
  - destruct r as [|c r]; [done|]. simpl. by rewrite (Hr c eq_refl).
  - by rewrite Hc, IH.
Qed.

Lemma chars_append (a b : string) : chars (a ++ b)%string = chars a ++ chars b.
Proof. induction a as [|c a IH]; [done|]. unfold chars in *. simpl. by rewrite IH. Qed.

Lemma of_chars_chars s : of_chars (chars s) = s.
Proof. apply String.string_of_list_ascii_of_string. Qed.

Lemma chars_of_chars l : chars (of_chars l) = l.
Proof. apply String.list_ascii_of_string_of_list_ascii. Qed.

Lemma pretty_N_char_digit (m : N) : (m < 10)%N ->
  is_digit (pretty_N_char m) = true /\
  Z.of_nat (nat_of_ascii (pretty_N_char m)) - 48 = Z.of_N m /\
  (m <> 0%N -> Ascii.eqb (pretty_N_char m) "0" = false).
Proof.
  intros Hm.
  assert (m = 0 \/ m = 1 \/ m = 2 \/ m = 3 \/ m = 4 \/ m = 5 \/ m = 6 \/ m = 7 \/ m = 8 \/ m = 9)%N
    as E by lia.
  repeat destruct E as [->|E]; [by repeat split ..|]. subst. by repeat split.
Qed.

(** The digits of a positive number: none of them a sign, the first not zero. *)
Lemma pretty_N_go_digits (x : N) s : (0 < x)%N ->
  exists c ds, chars (pretty_N_go x s) = c :: ds ++ chars s /\
    Forall (fun c => is_digit c = true) (c :: ds) /\ Ascii.eqb c "0" = false /\
    dec_value (c :: ds) 0 = Z.of_N x.
Proof.
  revert s. induction (N.lt_wf_0 x) as [x _ IH]; intros s Hx.
  rewrite pretty_N_go_step by done.
  pose proof (N.div_mod x 10 ltac:(lia)) as Hdm.
  pose proof (N.mod_lt x 10 ltac:(lia)) as Hlt.
  remember (x `mod` 10)%N as m. remember (x `div` 10)%N as q.
  destruct (pretty_N_char_digit m Hlt) as (Hd & Hv & Hz).
  destruct (decide (q = 0)%N) as [Hq|Hq].
  - rewrite Hq, pretty_N_go_0. exists (pretty_N_char m), []. unfold chars. simpl.
    split_and!; [done|by repeat constructor|apply Hz; lia|]. unfold dec_value. simpl. lia.
  - destruct (IH q ltac:(lia) (String (pretty_N_char m) s) ltac:(lia))
      as (c & ds & E & Hds & Hc & Hval).
    exists c, (ds ++ [pretty_N_char m]). rewrite E.
    split_and!; [by rewrite <- app_assoc| |done|].
    + inversion Hds; subst. constructor; [done|]. apply Forall_app_2; [done|]. by repeat constructor.
    + unfold dec_value in *. rewrite app_comm_cons, fold_left_app, Hval. simpl. lia.
Qed.

Lemma digit_not_ws c : is_digit c = true -> is_space c = false /\ Ascii.eqb c (ch 95) = false /\
  Ascii.eqb c "-" = false /\ Ascii.eqb c "+" = false.
Proof. destruct c as [[] [] [] [] [] [] [] []]; by intros [=]. Qed.

Lemma digit_value_10 c : is_digit c = true ->
  digit_value 10 c = Some (Z.of_nat (nat_of_ascii c) - 48).
Proof. destruct c as [[] [] [] [] [] [] [] []]; by intros [=]. Qed.

Lemma digits_value_10 l acc b :
  Forall (fun c => is_digit c = true) l -> l <> [] \/ b = true ->
  digits_value 10 acc b l = Some (dec_value l acc).
Proof.
  intros Hl. revert acc b. induction Hl as [|c l Hc Hl IH]; intros acc b Hne.
  - destruct Hne as [?| ->]; done.
  - simpl. destruct (digit_not_ws c Hc) as (_ & -> & _). rewrite digit_value_10 by done.
    by rewrite IH by auto.
Qed.

Lemma strip_digits l : Forall (fun c => is_space c = false) l -> strip_chars l = l.
Proof.
  assert (H : forall l, Forall (fun c => is_space c = false) l -> drop_while is_space l = l).
  { intros l' [|c l'' Hc _]; simpl; [done|]. by rewrite Hc. }
  intros Hl. unfold strip_chars. rewrite (H l Hl), H by (by apply Forall_rev). apply rev_involutive.
Qed.

(** What [str(z)] is made of. *)
Lemma int_text z : exists sign c ds, chars (str_of_int z) = sign ++ c :: ds /\
  Forall (fun c => is_digit c = true) (c :: ds) /\
  (Ascii.eqb c "0" = true -> ds = []) /\
  (sign = [] /\ dec_value (c :: ds) 0 = z \/ sign = ["-"%char] /\ dec_value (c :: ds) 0 = - z).
Proof.
  destruct z as [|p|p]; unfold str_of_int, pretty, pretty_Z.
  - exists [], "0"%char, []. split_and!; [done|by repeat constructor|done|by left].
  - exists []. unfold pretty, pretty_positive, pretty, pretty_N. rewrite decide_False by done.
    destruct (pretty_N_go_digits (Npos p) "" ltac:(lia)) as (c & ds & E & Hds & Hc & Hv).
    change (chars "") with (@nil ascii) in E. rewrite app_nil_r in E.
    exists c, ds. rewrite E. split_and!; [done|done|congruence|left; split; [done|]; lia].
  - exists ["-"%char]. unfold pretty, pretty_positive, pretty, pretty_N. rewrite decide_False by done.
    destruct (pretty_N_go_digits (Npos p) "" ltac:(lia)) as (c & ds & E & Hds & Hc & Hv).
    change (chars "") with (@nil ascii) in E. rewrite app_nil_r in E.
    exists c, ds. split_and!; [|done|congruence|right; split; [done|]; lia].
    unfold chars in *. simpl. by rewrite <- E.
Qed.

Lemma parse_int_str z : parse_int 10 (str_of_int z) = Some z.
Proof.
  unfold parse_int. destruct (int_text z) as (sg & c & ds & E & Hds & _ & Hz). rewrite E.
  pose proof Hds as [Hc _]%Forall_cons. destruct (digit_not_ws c Hc) as (Hsp & _ & Hm & Hp).
  assert (Hns : Forall (fun c => is_space c = false) (c :: ds)).
  { eapply Forall_impl; [exact Hds|]. intros x Hx. by apply digit_not_ws. }
  assert (strip_base_prefix 10 (c :: ds) = c :: ds) as Hb by by destruct ds.
  destruct Hz as [[-> Hv]|[-> Hv]]; simpl app.
  - rewrite strip_digits by done. change (ch 45) with "-"%char. change (ch 43) with "+"%char.
    rewrite Hm, Hp, Hb, digits_value_10 by auto. by rewrite Hv.
  - rewrite strip_digits by (constructor; done). change (Ascii.eqb "-" (ch 45)) with true.
    cbv iota beta. rewrite Hb, digits_value_10, Hv by auto. simpl. f_equal. lia.
Qed.

Definition number_ends (r : list ascii) : Prop :=
  forall c, head r = Some c -> is_digit c = false /\
    str_mem (String c "") ["."; "e"; "E"; "+"; "-"]%string = false.

Lemma number_ends_no r : number_ends r -> read_frac r = ([], r) /\ read_exp r = ([], r).
Proof.
  intros Hr. destruct r as [|c r]; [done|]. destruct (Hr c eq_refl) as [_ Hc]. clear Hr.
  unfold read_frac, read_exp.
  assert (Ascii.eqb c "." = false /\ Ascii.eqb c "e" = false /\ Ascii.eqb c "E" = false) as (-> & -> & ->).
  { revert Hc. destruct c as [[] [] [] [] [] [] [] []]; by intros [=]. }
  done.
Qed.

Lemma int_token z r : number_ends r ->
  number_token (chars (str_of_int z) ++ r) = Some (chars (str_of_int z), false, r).
Proof.
  intros Hr. destruct (int_text z) as (sg & c & ds & E & Hds & Hz & Hsg). rewrite E.
  destruct (number_ends_no r Hr) as [Hf He].
  pose proof Hds as [Hc Hds']%Forall_cons. destruct (digit_not_ws c Hc) as (_ & _ & Hm & _).
  assert (Hint : (if Ascii.eqb c "0" then ([c], ds ++ r) else span is_digit ((c :: ds) ++ r))
                 = (c :: ds, r)).
  { destruct (Ascii.eqb c "0") eqn:E0; [by rewrite Hz|].
    apply span_app; [done|]. intros x Hx. by apply Hr. }
  assert (Hneg : Ascii.eqb "-" "-" = true) by done.
  unfold number_token. cbn [app] in Hint. destruct Hsg as [[-> _]|[-> _]]; cbn [app];
    rewrite ?Hm, ?Hneg, Hint, Hf, He; cbn [app]; by rewrite app_nil_r.
Qed.

Lemma read_int z r : number_ends r -> read_number (chars (str_of_int z) ++ r) = Some (VInt z, r).
Proof.
  intros Hr. unfold read_number. rewrite int_token by done. simpl.
  rewrite of_chars_chars, parse_int_str. done.
Qed.

(** ** Strings read back *)

Lemma read_escape c l :
  read_string (escape c ++ l) = ('(s, r) ← read_string l; Some (c :: s, r)).
Proof. destruct c as [[] [] [] [] [] [] [] []]; reflexivity. Qed.

Lemma read_dump_string s r : read_string ((chars s ≫= escape) ++ quote :: r) = Some (chars s, r).
Proof.
  induction s as [|c s IH]; [done|].
  change (chars (String c s)) with (c :: chars s). cbn [mbind list_bind]. rewrite <- app_assoc.
  rewrite read_escape. fold (mbind (M:=list) escape (chars s)). by rewrite IH.
Qed.

(** ** Values read back *)

Section pyval_induction.
Variable P : pyval -> Prop.
Hypotheses (HNone : P VNone) (HBool : forall b, P (VBool b)) (HInt : forall z, P (VInt z))
  (HFloat : forall f, P (VFloat f)) (HStr : forall s, P (VStr s))
  (HList : forall l, Forall P l -> P (VList l))
  (HDict : forall d, Forall (fun kv => P kv.2) d -> P (VDict d)).

Fixpoint pyval_nested_ind (v : pyval) : P v :=
  match v with
  | VNone => HNone
  | VBool b => HBool b
  | VInt z => HInt z
  | VFloat f => HFloat f
  | VStr s => HStr s
  | VList l => HList l
      ((fix go l : Forall P l := match l with
        | [] => Forall_nil_2 P
        | v :: l => Forall_cons_2 P v l (pyval_nested_ind v) (go l) end) l)
  | VDict d => HDict d
      ((fix go d : Forall (fun kv => P kv.2) d := match d with
        | [] => Forall_nil_2 _
        | kv :: d => Forall_cons_2 _ kv d (pyval_nested_ind kv.2) (go d) end) d)
  end.
End pyval_induction.

Lemma insert_by_map {A B} (f : A -> B) lebA lebB x l :
  (forall x y, lebB (f x) (f y) = lebA x y) ->
  insert_by lebB (f x) (List.map f l) = List.map f (insert_by lebA x l).
Proof.
  intros Hf. induction l as [|y l IH]; [done|]. simpl. rewrite Hf.
  destruct (lebA x y); simpl; [done|]. by rewrite IH.
Qed.

Lemma sort_by_map {A B} (f : A -> B) lebA lebB l :
  (forall x y, lebB (f x) (f y) = lebA x y) ->
  sort_by lebB (List.map f l) = List.map f (sort_by lebA l).
Proof.
  intros Hf. induction l as [|x l IH]; [done|]. simpl. rewrite IH. by apply insert_by_map.
Qed.

(** A dictionary rebuilt by assigning its members in order, when no key repeats. *)
Lemma dict_set_fresh {V} k (v : V) d : k ∉ d.*1 -> dict_set k v d = d ++ [(k, v)].
Proof.
  induction d as [|[k' v'] d IH]; intros Hk; [done|]. simpl in *.
  apply not_elem_of_cons in Hk as [Hne Hk].
  destruct (String.eqb_spec k k'); [done|]. by rewrite IH.
Qed.

Section RoundTrip.
Context `{FloatText, !FloatLaws, Constants}.

(** What comes back: the same value, object members in key order. *)
Fixpoint canon (v : pyval) : pyval :=
  match v with
  | VList l => VList (List.map canon l)
  | VDict d => VDict (sort_by key_leb (List.map (fun kv => (kv.1, canon kv.2)) d))
  | v => v
  end.

(** Values JSON carries faithfully: finite floats that have a text, keys once. *)
Inductive json_ok : pyval -> Prop :=
| json_none : json_ok VNone
| json_bool b : json_ok (VBool b)
| json_int z : json_ok (VInt z)
| json_float q : is_float q -> json_ok (VFloat (Fin q))
| json_str s : json_ok (VStr s)
| json_list l : Forall json_ok l -> json_ok (VList l)
| json_dict d : NoDup d.*1 -> Forall (fun kv => json_ok kv.2) d -> json_ok (VDict d).

Definition value_head (c : ascii) : bool :=
  is_digit c || char_in_str c "-ntf[{" || Ascii.eqb c quote.

Lemma token_head l t b r : number_token l = Some (t, b, r) ->
  exists c l', l = c :: l' /\ (is_digit c || Ascii.eqb c "-") = true.
Proof.
  unfold number_token. destruct l as [|c l]; [done|]. intros Ht. exists c, l. split; [done|].
  revert Ht. destruct (Ascii.eqb c "-"); [by rewrite orb_true_r|]. rewrite orb_false_r.
  destruct (Ascii.eqb c "0") eqn:E0; [by apply Ascii.eqb_eq in E0 as ->|].
  simpl. by destruct (is_digit c).
Qed.

(** What may follow a value: a comma, a closing bracket or white space. *)
Definition sep (r : list ascii) : Prop :=
  forall c, head r = Some c -> is_ws c || str_mem (String c "") [","; "]"; "}"]%string = true.

Lemma sep_ends r : sep r -> number_ends r.
Proof.
  destruct r as [|c r]; [by intros _ x|]. intros Hr x [= <-]. specialize (Hr c eq_refl). revert Hr.
  by destruct c as [[] [] [] [] [] [] [] []].
Qed.

Definition white (g : list ascii) : Prop := Forall (fun c => is_ws c = true) g.

Lemma skip_ws_white g l : white g -> skip_ws (g ++ l) = skip_ws l.
Proof. unfold skip_ws. induction 1 as [|c g Hc Hg IH]; [done|]. simpl. by rewrite Hc. Qed.

Lemma sep_white g c r : white g -> sep (c :: r) -> sep (g ++ c :: r).
Proof. intros [|c' g' Hc Hg] Hr; [done|]. intros x [= <-]. by rewrite Hc. Qed.

Lemma value_not_ws c l : value_head c = true -> skip_ws (c :: l) = c :: l.
Proof. unfold skip_ws. simpl. by destruct c as [[] [] [] [] [] [] [] []]. Qed.

Lemma read_number_atom l v r : read_number l = Some (v, r) ->
  read_atom l = Some (v, r) /\ forall fuel, read_value (S fuel) l = Some (v, r).
Proof.
  intros Hl. assert (Hh := Hl). unfold read_number in Hh.
  destruct (number_token l) as [[[t b] r']|] eqn:E; [|done]. clear Hh.
  apply token_head in E as (c & l' & -> & Hc).
  assert (Ha : read_atom (c :: l') = Some (v, r)).
  { unfold read_atom. rewrite Hl. by destruct c as [[] [] [] [] [] [] [] []]. }
  split; [done|]. intros fuel. simpl.
  assert (Ascii.eqb c quote = false /\ Ascii.eqb c "[" = false /\ Ascii.eqb c "{" = false) as (-> & -> & ->)
    by by destruct c as [[] [] [] [] [] [] [] []].
  done.
Qed.

Section Layouts.
Context (L : layout).
Hypotheses (Hedge : forall n, white (edge L n)) (Hbetween : forall n, white (between L n))
  (Hcolon : white (after_colon L)).

Lemma render_head n v : json_ok v -> exists c l, render L n v = c :: l /\ value_head c = true.
Proof.
  assert (Hn : forall l t b r, number_token l = Some (t, b, r) ->
            exists c l', l = c :: l' /\ value_head c = true).
  { intros l t b r (c & l' & -> & Hc)%token_head. exists c, l'. split; [done|].
    unfold value_head. destruct c as [[] [] [] [] [] [] [] []]; done. }
  destruct 1 as [|[]|z|q Hq|s|l _|d _ _]; cbn [render]; try by eexists _, _.
  - eapply (Hn _ _ _ _). rewrite <- (app_nil_r (chars (str_of_int z))). by apply int_token.
  - eapply (Hn _ _ _ _). rewrite <- (app_nil_r (chars (float_repr q))). by apply repr_token.
  - destruct l; by eexists _, _.
  - unfold bracketed. destruct (List.map (member_text L) _); by eexists _, _.
Qed.

Lemma skip_ws_render n v r : json_ok v -> skip_ws (render L n v ++ r) = render L n v ++ r.
Proof. intros (c & l & -> & Hc)%(render_head n). cbn [app]. by apply value_not_ws. Qed.

Definition reads_back (v : pyval) : Prop := forall n fuel r,
  (length (render L n v) <= fuel)%nat -> sep r -> read_value (S fuel) (render L n v ++ r) = Some (canon v, r).

Lemma read_elements_render n l g g' : Forall json_ok l -> Forall reads_back l -> l <> [] ->
  white g -> white g' ->
  forall fuel r, (2 + length (join_with g (List.map (render L n) l)) <= fuel)%nat ->
  read_elements fuel (join_with g (List.map (render L n) l) ++ g' ++ "]"%char :: r)
    = Some (List.map canon l, r).
Proof.
  intros Hok Hrb. induction Hrb as [|v l Hv Hl IH]; [done|]. intros _ Hg Hg' fuel r Hf.
  apply Forall_cons in Hok as [Hvok Hok]. destruct fuel as [|[|fuel]]; [simpl in Hf; lia..|].
  destruct l as [|v' l].
  - simpl in Hf. cbn [List.map join_with]. cbn [read_elements].
    rewrite Hv by (lia || (apply sep_white; [done|by intros c [= <-]])). cbn [mbind option_bind].
    rewrite skip_ws_white by done. done.
  - set (w := v' :: l) in *. set (tw := join_with g (List.map (render L n) w)).
    change (join_with g (List.map (render L n) (v :: w))) with (render L n v ++ ","%char :: g ++ tw) in *.
    rewrite length_app in Hf. cbn [length] in Hf. rewrite length_app in Hf.
    rewrite <- app_assoc. cbn [app]. rewrite <- app_assoc.
    set (f := S fuel). cbn [read_elements]. subst f.
    rewrite Hv by (lia || by intros c [= <-]). cbn [mbind option_bind].
    change (skip_ws (","%char :: ?x)) with (","%char :: x).
    change (Ascii.eqb "," "]") with false. change (Ascii.eqb "," ",") with true. cbv iota.
    rewrite skip_ws_white by done.
    assert (Hs : skip_ws (tw ++ g' ++ "]"%char :: r) = tw ++ g' ++ "]"%char :: r).
    { apply Forall_cons in Hok as [Hv' _]. subst tw w. cbn [List.map join_with].
      destruct l; cbn [List.map]; [|rewrite <- app_assoc]; by apply skip_ws_render. }
    rewrite Hs. subst tw. rewrite IH by (done || lia). done.
Qed.

Lemma read_members_render n (l : dict) g g' : Forall (fun kv => json_ok kv.2) l ->
  Forall (fun kv => reads_back kv.2) l -> l <> [] -> white g -> white g' ->
  forall fuel d r, NoDup (d.*1 ++ l.*1) ->
  let text := join_with g (List.map (member_text L) (List.map (fun kv => (kv.1, render L n kv.2)) l)) in
  (2 + length text <= fuel)%nat ->
  read_members fuel d (text ++ g' ++ "}"%char :: r) =
    Some (d ++ List.map (fun kv => (kv.1, canon kv.2)) l, r).
Proof.
  intros Hok Hrb. induction Hrb as [|[k v] l Hv Hl IH]; [done|]. intros _ Hg Hg' fuel d r Hnd text Hf.
  apply Forall_cons in Hok as [Hvok Hok]. cbn [snd] in *.
  assert (Hk : k ∉ d.*1).
  { intros Hin. apply NoDup_app in Hnd as (_ & Hdis & _). apply (Hdis k Hin). by left. }
  set (m := member_text L (k, render L n v)) in *.
  assert (Hm : (3 + length (render L n v) <= length m)%nat).
  { subst m. unfold member_text, dump_string. cbn [fst snd]. rewrite length_app. cbn [length].
    rewrite length_app. cbn [length]. rewrite length_app. lia. }
  assert (Hstep : forall fuel rest, (length (render L n v) <= fuel)%nat -> sep rest ->
    read_members (S (S fuel)) d (m ++ rest) =
      match skip_ws rest with
      | c :: r => if Ascii.eqb c "}"%char then Some (d ++ [(k, canon v)], r)
                  else if Ascii.eqb c ","%char then read_members (S fuel) (d ++ [(k, canon v)]) (skip_ws r)
                  else None
      | [] => None end).
  { intros f rest Hfu Hsep. subst m. unfold member_text, dump_string. cbn [fst snd app].
    rewrite <- !app_assoc. cbn [app]. set (sf := S f). cbn [read_members].
    rewrite (proj2 (Ascii.eqb_eq quote quote) eq_refl). rewrite read_dump_string.
    cbn [mbind option_bind]. change (skip_ws (":"%char :: ?x)) with (":"%char :: x).
    change (Ascii.eqb ":" ":") with true. cbv iota. rewrite <- app_assoc, skip_ws_white by done.
    rewrite skip_ws_render by done. subst sf.
    rewrite Hv by done. cbn [mbind option_bind]. by rewrite of_chars_chars, dict_set_fresh. }
  destruct fuel as [|[|fuel]]; [lia..|]. destruct l as [|[k' v'] l].
  - subst text. cbn [List.map join_with fst snd] in *. fold m in Hf |- *.
    rewrite Hstep by (lia || (apply sep_white; [done|by intros c [= <-]])).
    by rewrite skip_ws_white by done.
  - set (w := (k', v') :: l) in *.
    set (tw := join_with g (List.map (member_text L) (List.map (fun kv => (kv.1, render L n kv.2)) w))).
    change text with (m ++ ","%char :: g ++ tw) in *. clearbody text.
    rewrite length_app in Hf. cbn [length] in Hf. rewrite length_app in Hf.
    rewrite <- app_assoc. cbn [app]. rewrite <- app_assoc.
    rewrite Hstep by (lia || by intros c [= <-]).
    change (skip_ws (","%char :: ?x)) with (","%char :: x).
    change (Ascii.eqb "," "}") with false. change (Ascii.eqb "," ",") with true. cbv iota.
    rewrite skip_ws_white by done.
    assert (Hs : skip_ws (tw ++ g' ++ "}"%char :: r) = tw ++ g' ++ "}"%char :: r).
    { subst tw w. cbn [List.map join_with]. by destruct l. }
    rewrite Hs. subst tw. rewrite IH; [|done|done|done|done| |lia].
    + cbn [List.map fst snd]. by rewrite <- app_assoc.
    + rewrite fmap_app, <- app_assoc. done.
Qed.

Lemma read_render v : json_ok v -> reads_back v.
Proof.
  induction v as [|b|z|f|s|l IH|d IH] using pyval_nested_ind; intros Hok n fuel r Hf Hr.
  - done.
  - by destruct b.
  - by apply read_number_atom, read_int, sep_ends.
  - inversion Hok as [| | |q Hq| | |]; subst. apply read_number_atom. unfold read_number.
    cbn [render]. rewrite repr_token by (done || by apply sep_ends). cbn [mbind option_bind].
    by rewrite of_chars_chars, repr_reads_back.
  - cbn [render]. unfold dump_string. cbn [app read_value].
    rewrite (proj2 (Ascii.eqb_eq quote quote) eq_refl), <- app_assoc. cbn [app].
    rewrite read_dump_string. cbn [mbind option_bind]. by rewrite of_chars_chars.
  - inversion Hok as [| | | | |l' Hl|]; subst. destruct l as [|v l]; [done|].
    set (w := v :: l) in *. cbn [render canon] in *.
    assert (Hrb : Forall reads_back w).
    { rewrite Forall_forall in *. intros x Hx. by apply IH, Hl. }
    set (g := between L (S n)) in *.
    assert (Hb : bracketed L n "[" "]" (List.map (render L (S n)) w) =
      "["%char :: edge L (S n) ++ join_with g (List.map (render L (S n)) w) ++ edge L n ++ ["]"%char]) by done.
    rewrite Hb in Hf |- *. cbn [length] in Hf. rewrite !length_app in Hf. cbn [length] in Hf.
    pose proof (read_elements_render (S n) w g (edge L n) Hl Hrb ltac:(done) (Hbetween _) (Hedge _)
      fuel r ltac:(lia)) as He.
    assert (Hh : exists c x, join_with g (List.map (render L (S n)) w) = c :: x /\ value_head c = true).
    { apply Forall_cons in Hl as [(c & x & E & Hc)%(render_head (S n)) _].
      subst w. cbn [List.map join_with]. rewrite E. destruct l; [by exists c, x|]. by eexists c, _. }
    cbn [app]. rewrite <- !app_assoc. cbn [app]. set (fu := fuel). cbn [read_value]. subst fu.
    change (Ascii.eqb "[" quote) with false. change (Ascii.eqb "[" "[") with true. cbv iota.
    rewrite skip_ws_white by done. destruct Hh as (c & x & E & Hc). rewrite E in *. cbn [app] in *.
    rewrite value_not_ws by done. rewrite He. cbn [mbind option_bind].
    assert (Ascii.eqb c "]" = false) as -> by by destruct c as [[] [] [] [] [] [] [] []].
    done.
  - inversion Hok as [| | | | | |d' Hnd Hd]; subst. cbn [render canon] in *.
    rewrite (sort_by_map (fun kv => (kv.1, render L (S n) kv.2)) key_leb key_leb) in * by done.
    rewrite (sort_by_map (fun kv => (kv.1, canon kv.2)) key_leb key_leb) by done.
    pose proof (sort_by_perm key_leb d) as Hp. set (l := sort_by key_leb d) in *.
    assert (Hrb : Forall (fun kv => json_ok kv.2) l /\ Forall (fun kv => reads_back kv.2) l).
    { rewrite Hp. split; [done|]. rewrite Forall_forall in *. intros kv Hv. by apply IH, Hd. }
    assert (Hnl : NoDup ([] ++ l.*1)) by (simpl; by rewrite Hp). clearbody l.
    destruct l as [|[k v] l']; [done|]. set (w := (k, v) :: l') in *.
    set (g := between L (S n)) in *.
    set (tw := join_with g (List.map (member_text L) (List.map (fun kv => (kv.1, render L (S n) kv.2)) w))).
    assert (Hb : bracketed L n "{" "}" (List.map (member_text L)
        (List.map (fun kv => (kv.1, render L (S n) kv.2)) w)) =
      "{"%char :: edge L (S n) ++ tw ++ edge L n ++ ["}"%char]) by done.
    rewrite Hb in Hf |- *. cbn [length] in Hf. rewrite !length_app in Hf. cbn [length] in Hf.
    pose proof (read_members_render (S n) w g (edge L n) (proj1 Hrb) (proj2 Hrb) ltac:(done)
      (Hbetween _) (Hedge _) fuel [] r Hnl) as He. cbv zeta in He. fold tw in He.
    specialize (He ltac:(lia)).
    assert (Hh : exists x, tw = quote :: x).
    { subst tw w. cbn [List.map join_with]. destruct l'; by eexists. }
    cbn [app]. rewrite <- !app_assoc. cbn [app]. set (fu := fuel). cbn [read_value]. subst fu.
    change (Ascii.eqb "{" quote) with false. change (Ascii.eqb "{" "[") with false.
    change (Ascii.eqb "{" "{") with true. cbv iota. rewrite skip_ws_white by done.
    destruct Hh as (x & E). rewrite E in *. cbn [app] in *.
    change (skip_ws (quote :: ?y)) with (quote :: y). change (Ascii.eqb quote "}") with false.
    cbv iota. by rewrite He.
Qed.

(** [json.loads] undoes the encoder, whatever white space follows. *)
Lemma loads_render n v g : json_ok v -> white g -> loads_with (render L n v ++ g) = Some (canon v).
Proof.
  intros Hv Hg. unfold loads_with. rewrite skip_ws_render by done.
  rewrite read_render; [|done|rewrite length_app; lia|].
  - cbn [mbind option_bind]. rewrite <- (app_nil_r g), skip_ws_white by done. done.
  - destruct Hg as [|c g Hc Hg]; [by intros c|]. intros x [= <-]. by rewrite Hc.
Qed.
End Layouts.

Lemma new_line_white n : white (new_line n).
Proof. constructor; [done|]. generalize (2 * n)%nat. intros k. induction k; by constructor. Qed.

(** [json.dumps(v, indent=2, sort_keys=True) + "\n"] reads back. *)
Lemma loads_indented v : json_ok v -> loads_with (render indent2 0 v ++ [ch 10]) = Some (canon v).
Proof.
  intros Hv. apply loads_render; try done; try (intros n; apply new_line_white); by repeat constructor.
Qed.

(** The canonical encoder is the compact layout. *)
Lemma comma_join_with l : comma_join l = join_with [] l.
Proof. induction l as [|p [|q l] IH]; [done..|]. simpl in *. by rewrite IH. Qed.

Lemma dump_compact v n : dump v = render compact n v.
Proof.
  revert n. induction v as [| | | | |l IH|d IH] using pyval_nested_ind; intros n; try done.
  - cbn [dump render]. rewrite comma_join_with. unfold bracketed.
    assert (E : List.map dump l = List.map (render compact (S n)) l).
    { clear -IH. induction IH as [|v l Hv Hl IHl]; [done|]. simpl. by rewrite (Hv (S n)), IHl. }
    rewrite E. destruct (List.map (render compact (S n)) l); reflexivity.
  - cbn [dump render]. rewrite comma_join_with. unfold bracketed.
    assert (E : List.map (fun kv => (kv.1, dump kv.2)) d = List.map (fun kv => (kv.1, render compact (S n) kv.2)) d).
    { induction IH as [|[k v] l Hv Hl IHl]; [done|]. simpl in *. by rewrite (Hv (S n)), IHl. }
    rewrite E. change (List.map dump_member) with (List.map (member_text compact)).
    destruct (List.map (member_text compact) _); reflexivity.
Qed.

(** [json.loads] undoes the canonical encoder. *)
Lemma loads_with_dump v : json_ok v -> loads_with (dump v) = Some (canon v).
Proof.
  intros Hv. rewrite (dump_compact v 0), <- (app_nil_r (render _ _ _)).
  apply loads_render; try done; try (intros n); by repeat constructor.
Qed.

(** ** Objects read back member by member *)

Definition canon_dict (d : dict) : dict := sort_by key_leb (List.map (fun kv => (kv.1, canon kv.2)) d).

Lemma dict_get_elem {V} k (v : V) d : NoDup d.*1 -> dict_get k d = Some v <-> (k, v) ∈ d.
Proof.
  induction d as [|[k' v'] d IH]; intros Hnd; simpl.
  { split; [done|]. by intros ?%elem_of_nil. }
  apply NoDup_cons in Hnd as [Hk Hnd]. rewrite elem_of_cons.
  destruct (String.eqb_spec k k') as [->|Hne].
  - split; [intros [= ->]; by left|]. intros [[= ->]|Hin]; [done|].
    destruct Hk. apply list_elem_of_fmap. by exists (k', v).
  - rewrite IH by done. split; [by right|]. by intros [[= -> ->]|?].
Qed.

Lemma dict_get_perm {V} k (d d' : list (string * V)) : NoDup d.*1 -> d ≡ₚ d' -> dict_get k d = dict_get k d'.
Proof.
  intros Hnd Hp. assert (Hnd' : NoDup d'.*1) by by rewrite <- Hp.
  destruct (dict_get k d) as [v|] eqn:E.
  - symmetry. apply dict_get_elem; [done|]. rewrite <- Hp. by apply dict_get_elem.
  - destruct (dict_get k d') as [v|] eqn:E'; [|done].
    apply dict_get_elem in E'; [|done]. rewrite <- Hp in E'. apply dict_get_elem in E'; [congruence|done].
Qed.

Lemma dict_get_map {V V'} (f : V -> V') k d :
  dict_get k (List.map (fun kv => (kv.1, f kv.2)) d) = f <$> dict_get k d.
Proof. induction d as [|[k' v] d IH]; [done|]. simpl. by destruct (String.eqb k k'). Qed.

Lemma get_canon k d : NoDup d.*1 -> get k (canon_dict d) = canon (get k d).
Proof.
  intros Hnd. unfold get, canon_dict. rewrite <- (dict_get_perm k (List.map (fun kv => (kv.1, canon kv.2)) d)).
  - rewrite dict_get_map. by destruct (dict_get k d).
  - replace ((List.map (fun kv : string * pyval => (kv.1, canon kv.2)) d).*1) with d.*1; [done|].
    clear Hnd. induction d as [|[k' v] d IH]; [done|]. simpl. by f_equal.
  - symmetry. apply sort_by_perm.
Qed.

(** Values without objects are their own canonical form. *)
Inductive flat : pyval -> Prop :=
| flat_none : flat VNone
| flat_bool b : flat (VBool b)
| flat_int z : flat (VInt z)
| flat_float f : flat (VFloat f)
| flat_str s : flat (VStr s)
| flat_list l : Forall flat l -> flat (VList l).

Lemma canon_flat v : flat v -> canon v = v.
Proof.
  induction v as [| | | | |l IH|] using pyval_nested_ind; intros Hv; try done; [|by inversion Hv].
  inversion Hv as [| | | | |l' Hl]; subst. simpl. f_equal.
  induction IH as [|v l Hv' Hl' IH']; [done|]. apply Forall_cons in Hl as [Hf Hl]. simpl.
  rewrite Hv' by done. f_equal. apply IH'; [by constructor|done].
Qed.

(** ** The text is ASCII *)

Definition ascii_text (l : list ascii) : Prop := Forall (fun c => (nat_of_ascii c <? 128)%nat = true) l.

Lemma utf8_ascii l : ascii_text l -> utf8_decode l = Some l.
Proof. induction 1 as [|c l Hc Hl IH]; [done|]. simpl. by rewrite Hc, IH. Qed.

Lemma escape_ascii c : ascii_text (escape c).
Proof. destruct c as [[] [] [] [] [] [] [] []]; by repeat constructor. Qed.

Lemma dump_string_ascii s : ascii_text (dump_string s).
Proof.
  unfold dump_string. constructor; [done|]. apply Forall_app; split; [|by repeat constructor].
  induction (chars s) as [|c l IH]; [constructor|]. cbn. apply Forall_app; split; [apply escape_ascii|done].
Qed.

Lemma white_ascii g : white g -> ascii_text g.
Proof.
  intros Hg. eapply Forall_impl; [exact Hg|]. intros c Hc. revert Hc. by destruct c as [[] [] [] [] [] [] [] []].
Qed.

Lemma join_with_ascii g l : ascii_text g -> Forall ascii_text l -> ascii_text (join_with g l).
Proof.
  intros Hg. induction 1 as [|p [|p' ps] Hp Hps IH]; [constructor|done|].
  apply Forall_app; split; [done|]. constructor; [done|]. by apply Forall_app.
Qed.

Lemma int_ascii z : ascii_text (chars (str_of_int z)).
Proof.
  destruct (int_text z) as (sg & c & ds & E & Hds & _ & Hsg). rewrite E.
  apply Forall_app; split; [destruct Hsg as [[-> _]|[-> _]]; by repeat constructor|].
  eapply Forall_impl; [exact Hds|]. intros x Hx. revert Hx. by destruct x as [[] [] [] [] [] [] [] []].
Qed.

Section Ascii.
Context (L : layout).
Hypotheses (Hedge : forall n, white (edge L n)) (Hbetween : forall n, white (between L n))
  (Hcolon : white (after_colon L)).

Lemma bracketed_ascii n l r parts : (nat_of_ascii l <? 128)%nat = true -> (nat_of_ascii r <? 128)%nat = true ->
  Forall ascii_text parts -> ascii_text (bracketed L n l r parts).
Proof.
  intros Hl Hr Hp. assert (Hj := join_with_ascii _ _ (white_ascii _ (Hbetween (S n))) Hp).
  pose proof (white_ascii _ (Hedge n)). pose proof (white_ascii _ (Hedge (S n))).
  unfold bracketed. destruct parts; [by repeat constructor|]. constructor; [done|].
  repeat (apply Forall_app; split; [done|]). by repeat constructor.
Qed.

Lemma render_ascii n v : ascii_text (render L n v).
Proof.
  revert n. induction v as [|[]|z|[]|s|l IH|d IH] using pyval_nested_ind; intros n; cbn [render];
    try (by repeat constructor); try apply int_ascii; try apply repr_ascii; try apply dump_string_ascii.
  - apply bracketed_ascii; [done..|]. induction IH; simpl; by constructor.
  - apply bracketed_ascii; [done..|]. rewrite sort_by_map with (lebA := key_leb) by done.
    assert (Hs : Forall (fun kv => forall n, ascii_text (render L n kv.2)) (sort_by key_leb d)) by by rewrite sort_by_perm.
    clear IH. induction Hs as [|[k v] l Hv Hl IHl]; [constructor|]. constructor; [|done].
    unfold member_text. apply Forall_app; split; [apply dump_string_ascii|]. constructor; [done|].
    apply Forall_app; split; [by apply white_ascii|apply Hv].
Qed.
End Ascii.

Lemma dump_ascii v : ascii_text (dump v).
Proof. rewrite (dump_compact v 0). apply render_ascii; try (intros n); constructor. Qed.

Lemma indented_ascii n v : ascii_text (render indent2 n v).
Proof. apply render_ascii; [intros k; apply new_line_white..|by repeat constructor]. Qed.

Lemma json_ok_finite v : json_ok v -> all_finite v = true.
Proof.
  induction v as [| | | | |l IH|d IH] using pyval_nested_ind; intros Hv; try done.
  - by inversion Hv.
  - inversion Hv as [| | | | |l' Hl|]; subst. simpl. apply forallb_forall. intros x Hx%list_elem_of_In.
    rewrite Forall_forall in IH, Hl. by apply IH, Hl.
  - inversion Hv as [| | | | | |d' Hn Hd]; subst. simpl. apply forallb_forall. intros x Hx%list_elem_of_In.
    rewrite Forall_forall in IH, Hd. by apply IH, Hd.
Qed.

End RoundTrip.

Section Canonical.
Context `{FloatText, !FloatLaws}.

Lemma loads_dump v : json_ok v -> loads (dump v) = Some (canon v).
Proof. apply (@loads_with_dump _ _ false). Qed.

(** What a canonical text is read back as, bytes included. *)
Lemma read_canonical v : json_ok v -> (l ← utf8_decode (dump v); loads l) = Some (canon v).
Proof. intros Hv. rewrite utf8_ascii by apply dump_ascii. cbn. by apply loads_dump. Qed.

(** Equal canonical texts come from equal values. *)
Lemma dump_inj v w : json_ok v -> json_ok w -> dump v = dump w -> canon v = canon w.
Proof. intros Hv Hw E. apply loads_dump in Hv, Hw. congruence. Qed.
End Canonical.
