(* ===== verification/Files.v ===== *)
(** * The file system, and what can go wrong in it

    System calls on a directory tree as the os module makes them.  Every call
    consumes one entry of the schedule [faults]: it can fail before or after it took
    effect, be interrupted, or be where the power goes.  A path is its components,
    leaf first; a descriptor is identified with the path it was opened by.  [vis] is
    what calls see, [dur] what is guaranteed to be there after a power loss: names
    become durable with an fsync of their directory, contents with one of the file. *)
From S2P Require Import Prelude Py Effects.
Open Scope Z_scope.

Abbreviation path := (list string).
Abbreviation bytes := (list ascii).

Definition child (d : path) (name : string) : path := name :: d.
Definition parent (p : path) : path := tail p.
Definition leaf (p : path) : string := default ""%string (head p).

(** hashlib.sha256(data).hexdigest(). *)
Class Digest := { sha256 : bytes -> string }.

Inductive node :=
| File (mode : Z) (data : bytes) (synced : bool)
| Dir (mode : Z)
| Symlink (to_dir : option bool)   (** [None]: dangling *)
| Special.

Inductive failure := IOFailure | DriverFailure | Interruption.

Definition raised (f : failure) : exn :=
  match f with
  | IOFailure => OSError "OSError"
  | DriverFailure => SqliteError "OperationalError"
  | Interruption => KeyboardInterrupt
  end.

Inductive fault :=
| NoFault
| Before (f : failure)
| After (f : failure)
| Short (n : nat)         (** a write that takes [n] bytes *)
| AutoRollback            (** a statement whose failure ends the transaction *)
| PowerCut.

Record machine (W : Type) := Machine {
  faults : list fault;
  vis : gmap path node;
  dur : gmap path node;
  env : W
}.
Arguments Machine {W} _ _ _ _.
Arguments faults {W} _.
Arguments vis {W} _.
Arguments dur {W} _.
Arguments env {W} _.

Definition is_directory (n : option node) : bool :=
  match n with Some (Dir _) | Some (Symlink (Some true)) => true | _ => false end.

Definition is_regular (n : option node) : bool :=
  match n with Some (File _ _ _) => true | _ => false end.

(** What survives of a node whose name is durable. *)
Definition durable_node (n : node) : node :=
  match n with File mode _ false => File mode [] false | n => n end.

Definition sync_names (d : path) (v u : gmap path node) : gmap path node :=
  (durable_node <$> filter (fun kv => parent kv.1 = d) v) ∪ filter (fun kv => parent kv.1 <> d) u.

Section Calls.
Context {W : Type}.
Abbreviation K := (M (machine W)).

Definition with_faults (w : machine W) fs := Machine fs (vis w) (dur w) (env w).
Definition with_vis (w : machine W) v := Machine (faults w) v (dur w) (env w).
Definition with_dur (w : machine W) u := Machine (faults w) (vis w) u (env w).
Definition with_env (w : machine W) (e : W) := Machine (faults w) (vis w) (dur w) e.

(** One call, under the next entry of the schedule. *)
Definition sys {A} (eff : K A) : K A := fun w =>
  match faults w with
  | [] => eff w
  | f :: fs =>
      let w := with_faults w fs in
      match f with
      | NoFault | Short _ => eff w
      | Before e => (Raise (raised e), w)
      | AutoRollback => (Raise (raised IOFailure), w)
      | After e => match eff w with (Ok _, w) => (Raise (raised e), w) | r => r end
      | PowerCut => (Raise PowerLoss, w)
      end
  end.

Definition set_node (p : path) (n : node) (w : machine W) := with_vis w (<[p := n]> (vis w)).

Definition os_lstat (p : path) : K (option node) := sys (gets (fun w => vis w !! p)).

Definition os_mkdir (p : path) (mode : Z) : K unit :=
  sys (w ← gets id;
       match vis w !! p with
       | Some _ => raise (OSError "FileExistsError")
       | None => if is_directory (vis w !! parent p) then modify (set_node p (Dir mode))
                 else raise (OSError "FileNotFoundError")
       end).

Definition os_chmod (p : path) (mode : Z) : K unit :=
  sys (w ← gets id;
       match vis w !! p with
       | Some (File _ data s) => modify (set_node p (File mode data s))
       | Some (Dir _) => modify (set_node p (Dir mode))
       | Some _ => mret tt
       | None => raise (OSError "FileNotFoundError")
       end).

(** [os.open(p, O_WRONLY | O_CREAT | O_EXCL | O_NOFOLLOW, mode)]. *)
Definition os_create (p : path) (mode : Z) : K unit :=
  sys (w ← gets id;
       match vis w !! p with
       | Some _ => raise (OSError "FileExistsError")
       | None => if is_directory (vis w !! parent p) then modify (set_node p (File mode [] false))
                 else raise (OSError "FileNotFoundError")
       end).

(** [os.open(p, O_RDONLY | O_NOFOLLOW)] and the [fstat] after it. *)
Definition os_open_read (p : path) : K unit :=
  sys (w ← gets id;
       match vis w !! p with
       | Some (Symlink _) => raise (OSError "OSError")
       | Some _ => mret tt
       | None => raise (OSError "FileNotFoundError")
       end).

Definition os_fstat_regular (p : path) : K bool :=
  sys (gets (fun w => is_regular (vis w !! p))).

(** Reads to the end of the file, in one chunk or in many. *)
Definition os_read (p : path) : K bytes :=
  sys (gets (fun w => match vis w !! p with Some (File _ data _) => data | _ => [] end)).

Definition os_close : K unit := sys (mret tt).

(** The kernel takes at least one byte of a non-empty request. *)
Definition accepted_bytes (w : machine W) (view : bytes) : nat :=
  match faults w with
  | Short n :: _ => Nat.min (Nat.max 1 n) (length view)
  | _ => length view
  end.

Definition os_write (p : path) (view : bytes) : K nat := fun w =>
  let n := accepted_bytes w view in
  sys (_ ← modify (fun w => match vis w !! p with
         | Some (File mode data _) => set_node p (File mode (data ++ take n view) false) w
         | _ => w end);
       mret n) w.

Definition os_fsync (p : path) : K unit :=
  sys (modify (fun w => match vis w !! p with
         | Some (File mode data _) => set_node p (File mode data true) w
         | _ => w end)).

Definition os_rename (a b : path) : K unit :=
  sys (w ← gets id;
       match vis w !! a with
       | None => raise (OSError "FileNotFoundError")
       | Some n =>
           match vis w !! b with
           | Some (Dir _) => raise (OSError "IsADirectoryError")
           | _ => modify (fun w => with_vis w (<[b := n]> (delete a (vis w))))
           end
       end).

Definition os_unlink (p : path) : K unit :=
  sys (w ← gets id;
       match vis w !! p with
       | None => raise (OSError "FileNotFoundError")
       | Some (Dir _) => raise (OSError "IsADirectoryError")
       | Some _ => modify (fun w => with_vis w (delete p (vis w)))
       end).

(** [os.stat(p)] as far as its callers look: is it a directory? *)
Definition os_stat_dir (p : path) : K bool :=
  sys (w ← gets id;
       match vis w !! p with
       | None | Some (Symlink None) => raise (OSError "FileNotFoundError")
       | n => mret (is_directory n)
       end).

(** [path.is_dir()], which answers no for what is not there. *)
Definition path_is_dir (p : path) : K bool := sys (gets (fun w => is_directory (vis w !! p))).

(** [os.fsync] of an open directory. *)
Definition os_fsync_names (d : path) : K unit :=
  sys (modify (fun w => with_dur w (sync_names d (vis w) (dur w)))).

Definition os_open_dir (d : path) : K unit :=
  sys (w ← gets id;
       if is_directory (vis w !! d) then mret tt else raise (OSError "FileNotFoundError")).
End Calls.

Lemma lookup_sync_names d v u p :
  sync_names d v u !! p = if decide (parent p = d) then durable_node <$> v !! p else u !! p.
Proof.
  unfold sync_names. rewrite lookup_union, lookup_fmap, !map_lookup_filter.
  case_decide as E.
  - destruct (v !! p) as [n|]; simpl; [rewrite option_guard_True by done; simpl|].
    + by destruct (u !! p); simpl; [rewrite option_guard_False by tauto|].
    + destruct (u !! p); simpl; [by rewrite option_guard_False by tauto|done].
  - destruct (v !! p) as [n|]; simpl; [rewrite option_guard_False by done; simpl|];
      (destruct (u !! p); simpl; [by rewrite option_guard_True by done|done]).
Qed.

(** Undisturbed: the schedule has nothing more in store. *)
Lemma sys_calm {W A} (eff : M (machine W) A) w : faults w = [] -> sys eff w = eff w.
Proof. intros H. unfold sys. by rewrite H. Qed.

(** ** What calls leave alone *)

(** [I] survives any schedule, any change at the paths in [T] and any fsync. *)
Record respects {W} (T : path -> Prop) (I : machine W -> Prop) : Prop := {
  resp_faults w fs : I w -> I (with_faults w fs);
  resp_set w p n : T p -> I w -> I (set_node p n w);
  resp_delete w p : T p -> I w -> I (with_vis w (delete p (vis w)));
  resp_sync w d : I w -> I (with_dur w (sync_names d (vis w) (dur w)))
}.

(** The file is there, and will be after a power loss. *)
Definition sealed {W} (p : path) (mode : Z) (data : bytes) (w : machine W) : Prop :=
  vis w !! p = Some (File mode data true) /\ dur w !! p = Some (File mode data true).

Section Respects.
Context {W : Type} (T : path -> Prop).

Lemma respects_env (P : W -> Prop) : respects T (fun w => P (env w)).
Proof. by split. Qed.

Lemma respects_seen p n : ~ T p -> respects T (fun w : machine W => vis w !! p = n).
Proof.
  intros Hp. split; simpl; intros w *; try done; intros Ht Hw.
  - rewrite lookup_insert_ne; [done|]. by intros ->.
  - rewrite lookup_delete_ne; [done|]. by intros ->.
Qed.

Lemma respects_sealed p m d : ~ T p -> respects T (sealed (W:=W) p m d).
Proof.
  intros Hp. unfold sealed. split; simpl; intros w *; try done.
  - intros Ht [Hv Hd]. rewrite lookup_insert_ne; [done|]. by intros ->.
  - intros Ht [Hv Hd]. rewrite lookup_delete_ne; [done|]. by intros ->.
  - intros [Hv Hd]. split; [done|]. rewrite lookup_sync_names. case_decide; [by rewrite Hv|done].
Qed.

Lemma respects_vis (v : gmap path node) : (forall p, ~ T p) -> respects T (fun w : machine W => vis w = v).
Proof. intros HT. split; try done; intros w p; [intros n Hp|intros Hp]; by destruct (HT p). Qed.

Lemma respects_and (I J : machine W -> Prop) :
  respects T I -> respects T J -> respects T (fun w => I w /\ J w).
Proof. intros [] []. split; intros; intuition. Qed.

Lemma respects_or (I J : machine W -> Prop) :
  respects T I -> respects T J -> respects T (fun w => I w \/ J w).
Proof. intros [] []. split; intros; intuition. Qed.

Lemma respects_const (P : Prop) : respects (W:=W) T (fun _ => P).
Proof. by split. Qed.

Context (I : machine W -> Prop) (HI : respects T I).

(** A call keeps an invariant when its effect does, whatever the schedule. *)
Lemma keeps_sys {A} (eff : M (machine W) A) : keeps I eff -> keeps I (sys eff).
Proof.
  intros He w Hw. unfold sys. destruct (faults w) as [|f fs]; [by apply He|].
  pose proof (resp_faults _ _ HI w fs Hw) as Hf. specialize (He _ Hf).
  destruct f; [done..| |done|done|done].
  by destruct (eff (with_faults w fs)) as [[a|e] w'].
Qed.

Ltac effect := apply keeps_sys; intros w Hw; cbv [mbind M_bind mret M_ret gets modify raise id]; cbn;
  repeat match goal with |- context [match ?x with _ => _ end] => destruct x eqn:? end; cbn;
  try done; try (by apply HI).

Lemma keeps_read_effect {A} (eff : M (machine W) A) : (forall w, (eff w).2 = w) -> keeps I (sys eff).
Proof. intros He. apply keeps_sys. intros w Hw. by rewrite He. Qed.

Lemma keeps_lstat p : keeps I (os_lstat p). Proof. effect. Qed.
Lemma keeps_open_read p : keeps I (os_open_read p). Proof. unfold os_open_read. effect. Qed.
Lemma keeps_fstat p : keeps I (os_fstat_regular p). Proof. effect. Qed.
Lemma keeps_read p : keeps I (os_read p). Proof. effect. Qed.
Lemma keeps_close : keeps I os_close. Proof. effect. Qed.
Lemma keeps_stat_dir p : keeps I (os_stat_dir p). Proof. unfold os_stat_dir. effect. Qed.
Lemma keeps_is_dir p : keeps I (path_is_dir p). Proof. effect. Qed.
Lemma keeps_open_dir p : keeps I (os_open_dir p). Proof. unfold os_open_dir. effect. Qed.
Lemma keeps_nothing : keeps I (sys (mret tt)). Proof. effect. Qed.
Lemma keeps_fsync_names d : keeps I (os_fsync_names d). Proof. effect. Qed.

Lemma keeps_mkdir p m : T p -> keeps I (os_mkdir p m). Proof. intros. unfold os_mkdir. effect. Qed.
Lemma keeps_chmod p m : T p -> keeps I (os_chmod p m). Proof. intros. unfold os_chmod. effect. Qed.
Lemma keeps_create p m : T p -> keeps I (os_create p m). Proof. intros. unfold os_create. effect. Qed.
Lemma keeps_fsync p : T p -> keeps I (os_fsync p). Proof. intros. unfold os_fsync. effect. Qed.
Lemma keeps_unlink p : T p -> keeps I (os_unlink p). Proof. intros. unfold os_unlink. effect. Qed.

Lemma keeps_write p v : T p -> keeps I (os_write p v).
Proof.
  intros Hp w Hw. unfold os_write. revert w Hw.
  enough (H : forall n, keeps I (sys (_ ← modify (fun w => match vis w !! p with
         | Some (File mode data _) => set_node p (File mode (data ++ take n v) false) w
         | _ => w end); mret n))) by (intros w Hw; by apply H).
  intros n. effect.
Qed.

Lemma keeps_rename a b : T a -> T b -> keeps I (os_rename a b).
Proof.
  intros Ha Hb. unfold os_rename. apply keeps_sys. intros w Hw.
  cbv [mbind M_bind mret M_ret gets modify raise id]. cbn.
  destruct (vis w !! a) as [n|]; [|done].
  assert (Hi : I (with_vis w (<[b := n]> (delete a (vis w))))).
  { change (I (set_node b n (with_vis w (delete a (vis w))))). apply HI; [done|]. by apply HI. }
  destruct (vis w !! b) as [[]|]; done.
Qed.
End Respects.

#[export] Hint Resolve keeps_lstat keeps_open_read keeps_fstat keeps_read keeps_close keeps_stat_dir
  keeps_is_dir keeps_open_dir keeps_nothing keeps_fsync_names keeps_mkdir keeps_chmod keeps_create
  keeps_fsync keeps_unlink keeps_write keeps_rename : keeps.

(** ** What a call that returned has done *)

Section Returned.
Context {W : Type}.
Implicit Types (w : machine W) (p : path).

Lemma sys_ok {A} (eff : M (machine W) A) w a w' :
  sys eff w = (Ok a, w') -> exists fs, eff (with_faults w fs) = (Ok a, w').
Proof.
  unfold sys. destruct (faults w) as [|f fs] eqn:E.
  - intros H. exists []. rewrite <- H. f_equal. destruct w. by simpl in *; subst.
  - destruct f; try done; intros H; exists fs; try done.
    by destruct (eff (with_faults w fs)) as [[]].
Qed.

Ltac returned := intros (fs & H)%sys_ok; revert H;
  cbv [mbind M_bind mret M_ret gets modify raise id]; cbn;
  repeat match goal with |- context [match ?x with _ => _ end] => destruct x eqn:? end;
  intros; simplify_eq; cbn.

Lemma create_ok p m w w' : os_create p m w = (Ok tt, w') -> vis w' !! p = Some (File m [] false).
Proof. unfold os_create. returned. by rewrite lookup_insert_eq. Qed.

Lemma chmod_ok p m m0 d s w w' : os_chmod p m w = (Ok tt, w') ->
  vis w !! p = Some (File m0 d s) -> vis w' !! p = Some (File m d s).
Proof. unfold os_chmod. returned; try done. by rewrite lookup_insert_eq. Qed.

Lemma write_ok p v n m d s w w' : os_write p v w = (Ok n, w') ->
  vis w !! p = Some (File m d s) ->
  vis w' !! p = Some (File m (d ++ take n v) false) /\ (v <> [] -> (1 <= n)%nat).
Proof.
  unfold os_write. intros (fs & H)%sys_ok Hp. revert H.
  cbv [mbind M_bind mret M_ret modify]. cbn. rewrite Hp. intros [= <- <-]. cbn.
  rewrite lookup_insert_eq. split; [done|]. intros Hv. unfold accepted_bytes.
  assert (0 < length v)%nat by (destruct v; simpl; [done|lia]).
  destruct (faults w) as [|[]]; lia.
Qed.

Lemma fsync_ok p m d s w w' : os_fsync p w = (Ok tt, w') ->
  vis w !! p = Some (File m d s) -> vis w' !! p = Some (File m d true).
Proof. unfold os_fsync. returned; try done. by rewrite lookup_insert_eq. Qed.

Lemma rename_ok a b w w' : os_rename a b w = (Ok tt, w') -> vis w' !! b = vis w !! a.
Proof. unfold os_rename. returned; by rewrite lookup_insert_eq. Qed.

Lemma fsync_names_ok d w w' : os_fsync_names d w = (Ok tt, w') ->
  vis w' = vis w /\ dur w' = sync_names d (vis w) (dur w).
Proof. unfold os_fsync_names. by returned. Qed.

Lemma nothing_ok {A} (a b : A) w w' : sys (mret a) w = (Ok b, w') ->
  a = b /\ vis w' = vis w /\ dur w' = dur w /\ env w' = env w.
Proof. by returned. Qed.

Lemma close_ok w w' : os_close w = (Ok tt, w') -> vis w' = vis w /\ dur w' = dur w.
Proof. intros H%nothing_ok. tauto. Qed.

Lemma open_dir_ok d w w' : os_open_dir d w = (Ok tt, w') -> vis w' = vis w /\ dur w' = dur w.
Proof. unfold os_open_dir. by returned. Qed.

Lemma open_read_ok p w w' : os_open_read p w = (Ok tt, w') -> vis w' = vis w /\ dur w' = dur w.
Proof. unfold os_open_read. by returned. Qed.

Lemma read_ok p d w w' : os_read p w = (Ok d, w') ->
  vis w' = vis w /\ d = match vis w !! p with Some (File _ d _) => d | _ => [] end.
Proof. unfold os_read. by returned. Qed.

Lemma fstat_ok p b w w' : os_fstat_regular p w = (Ok b, w') ->
  vis w' = vis w /\ b = is_regular (vis w !! p).
Proof. unfold os_fstat_regular. by returned. Qed.

Lemma lstat_ok p n w w' : os_lstat p w = (Ok n, w') -> vis w' = vis w /\ n = vis w !! p.
Proof. unfold os_lstat. by returned. Qed.
End Returned.
