(* ===== verification/Paths.v ===== *)
(** * Paths as strings

    [os.path] on POSIX as the fence calls it, and the place in the tree of [Files] a
    string names.  Directories are not symlinks here: [..] goes to the parent. *)
From S2P Require Import Prelude Py Effects PyVals Files.
Open Scope Z_scope.

Definition components (s : string) : list string := split_on "/" s.

Definition enter (d : path) (name : string) : path :=
  if String.eqb name "" || String.eqb name "." then d
  else if String.eqb name ".." then parent d else child d name.

(** The current directory stands for the root, where a path does not start. *)
Definition at_path (s : string) : path := fold_left enter (components s) [].

(** The directory [os.path.dirname(s) or "."] names. *)
Definition dir_at (s : string) : path := fold_left enter (removelast (components s)) [].

Definition basename (s : string) : string := List.last (components s) "".

(** ** os.path *)

Definition isabs (s : string) : bool := startswith "/" s.

Definition path_join (a b : string) : string :=
  if isabs b then b else if String.eqb a "" || endswith "/" a then (a ++ b)%string else (a ++ "/" ++ b)%string.

(** The components [normpath] keeps, last first. *)
Definition norm_step (rooted : bool) (kept : list string) (c : string) : list string :=
  if String.eqb c "" || String.eqb c "." then kept
  else if negb (String.eqb c "..") || (negb rooted && match kept with [] => true | _ => false end) ||
          match kept with k :: _ => String.eqb k ".." | [] => false end
  then c :: kept
  else tail kept.

Definition leading_slashes (s : string) : string :=
  if startswith "//" s && negb (startswith "///" s) then "//" else if startswith "/" s then "/" else "".

Definition normpath (s : string) : string :=
  if String.eqb s "" then "."
  else
    let lead := leading_slashes s in
    let kept := fold_left (norm_step (isabs s)) (components s) [] in
    let p := (lead ++ join_str "/" (rev kept))%string in
    if String.eqb p "" then "." else p.

Example normpath_dots : normpath "/a/./b/../c//" = "/a/c"%string. Proof. reflexivity. Qed.
Example normpath_up : normpath "../x/.." = ".."%string. Proof. reflexivity. Qed.
Example normpath_root : normpath "//app" = "//app"%string. Proof. reflexivity. Qed.

(** ** Names next to a name *)

(** [base + suffix] names an entry of the same directory when [suffix] has no slash
    and is too long to make a dot name. *)
Definition suffix_ok (s : string) : bool := str_forall (fun c => negb (is_slash c)) s && (3 <=? String.length s)%nat.

Lemma split_on_nonempty c s : split_on c s <> [].
Proof.
  induction s as [|a s IH]; [done|]. simpl. destruct (Ascii.eqb a c); [done|].
  by destruct (split_on c s).
Qed.

Lemma split_on_suffix base s : str_forall (fun c => negb (is_slash c)) s = true ->
  split_on "/" (base ++ s)%string = removelast (split_on "/" base) ++ [(List.last (split_on "/" base) "" ++ s)%string].
Proof.
  intros Hs. induction base as [|a b IH].
  - change (split_on "/" s = [s]). induction s as [|c s IH]; [done|].
    apply andb_true_iff in Hs as [Hc Hs]. apply negb_true_iff in Hc. unfold is_slash in Hc.
    simpl. by rewrite Hc, IH.
  - change (String a b ++ s)%string with (String a (b ++ s)%string). cbn [split_on]. destruct (Ascii.eqb a "/").
    + rewrite IH. pose proof (split_on_nonempty "/" b). by destruct (split_on "/" b).
    + rewrite IH. destruct (split_on "/" b) as [|w [|w' ws]] eqn:E; [done|done|]. done.
Qed.

Lemma length_append (a b : string) : String.length (a ++ b)%string = (String.length a + String.length b)%nat.
Proof. induction a as [|c a IH]; [done|]. simpl. by rewrite IH. Qed.

Lemma at_path_split s : at_path s = enter (dir_at s) (basename s).
Proof.
  unfold at_path, dir_at, basename, components.
  rewrite (app_removelast_last "" (split_on_nonempty "/" s)) at 1. by rewrite fold_left_app.
Qed.

Lemma enter_long d name : (3 <= String.length name)%nat -> enter d name = child d name.
Proof.
  intros Hn. unfold enter.
  destruct (String.eqb_spec name ""); [subst; simpl in Hn; lia|]. destruct (String.eqb_spec name "."); [subst; simpl in Hn; lia|].
  destruct (String.eqb_spec name ".."); [subst; simpl in Hn; lia|]. done.
Qed.

Lemma at_sibling base s : suffix_ok s = true ->
  at_path (base ++ s)%string = child (dir_at base) (basename base ++ s)%string /\ dir_at (base ++ s)%string = dir_at base.
Proof.
  intros [Hs Hl%Nat.leb_le]%andb_true_iff. unfold at_path, dir_at, basename, components.
  rewrite split_on_suffix by done. rewrite fold_left_app, removelast_last. split; [|done].
  cbn [fold_left]. apply enter_long. rewrite length_append. lia.
Qed.

Lemma append_assoc (a b c : string) : ((a ++ b) ++ c = a ++ b ++ c)%string.
Proof. induction a as [|x a IH]; [done|]. exact (f_equal (String x) IH). Qed.

Lemma append_inj_l (a b c : string) : (a ++ b)%string = (a ++ c)%string -> b = c.
Proof. induction a as [|x a IH]; [done|]. by intros [= ?%IH]. Qed.

Lemma append_nil_inj (a b : string) : a = (a ++ b)%string -> b = ""%string.
Proof.
  intros H. apply (f_equal String.length) in H. rewrite length_append in H.
  destruct b; [done|]. simpl in H. lia.
Qed.

Lemma siblings_differ base s s' : suffix_ok s = true -> suffix_ok s' = true -> s <> s' ->
  at_path (base ++ s)%string <> at_path (base ++ s')%string.
Proof.
  intros [-> _]%(at_sibling base) [-> _]%(at_sibling base) Hne E. injection E as E.
  by apply append_inj_l in E.
Qed.

(** No name is one of its own siblings. *)
Lemma sibling_not_self base s : suffix_ok s = true -> at_path (base ++ s)%string <> at_path base.
Proof.
  intros Hs. pose proof (at_sibling base s Hs) as [E _]. rewrite E, (at_path_split base).
  unfold enter, child, parent. intros F.
  repeat (case_match; [by (apply (f_equal length) in F; revert F; simpl; destruct (dir_at base); simpl; lia)|]).
  injection F as F. symmetry in F. apply append_nil_inj in F. subst. done.
Qed.

Lemma sibling_parent base s : suffix_ok s = true ->
  parent (at_path (base ++ s)%string) = dir_at base /\ dir_at (base ++ s)%string = dir_at base.
Proof. intros [-> ->]%(at_sibling base). done. Qed.
