(* ===== verification/Host.v ===== *)
(** * The host behind the fence (src/backend/app/wal_fence.py, up to preflight)

    The command runner and its vocabulary, what [docker inspect] says of a container,
    who shares a mount and who can start a container, file identities, and the
    descriptor probe.  What happens outside the process is the class [Outside]: a
    state that only the runner and the probe's witness change.  Refusals carry the
    code of their class; their texts are not modelled. *)
From S2P Require Import Prelude Sorting Py Effects PyOps Json PyVals Files Paths.
Open Scope Z_scope.

(** ** Refusals *)

Definition refused (code : string) : exn := Refused code None.
Definition ForbiddenCommand : exn := refused "FORBIDDEN_COMMAND".
Definition DockerCommandFailed : exn := refused "DOCKER_COMMAND_FAILED".
Definition TargetRejected : exn := refused "TARGET_REJECTED".
Definition TargetNotFound : exn := refused "TARGET_NOT_FOUND".
Definition AmbiguousTarget : exn := refused "AMBIGUOUS_TARGET".
Definition MountNotBound : exn := refused "MOUNT_NOT_BOUND".
Definition ScopeMismatch : exn := refused "SCOPE_MISMATCH".
Definition DescriptorsOpen : exn := refused "DESCRIPTORS_OPEN".
Definition ProbeFailed : exn := refused "PROBE_FAILED".
Definition StartAuthorityUnbound : exn := refused "START_AUTHORITY_UNBOUND".

Definition is_refusal (code : string) (e : exn) : bool :=
  match e with Refused c _ => String.eqb c code | _ => false end.

(** ** Outside the process *)

Record CommandResult := {
  argv : list string;
  returncode : Z;
  stdout : string;
  stderr : string;
  timed_out : bool
}.

Class Outside (H : Type) := {
  (** [subprocess.run], or what a caller supplies instead of it. *)
  runner : list string -> option Q -> H -> res CommandResult * H;
  (** [os.stat]: device and inode; [None] is an [OSError]. *)
  stat_id : pyval -> H -> option (Z * Z);
  (** [os.lstat]'s inode and device, and the size of what is no regular file. *)
  lstat_id : path -> H -> Z * Z;
  lstat_size : path -> H -> Z;
  realpath : string -> H -> string;
  (** What a path that is a symlink or a device reads as. *)
  linked : path -> H -> option bytes;
  (** Entering and leaving the visibility witness of a path: a process that holds it open. *)
  witness_enter : string -> H -> res Z * H;
  witness_exit : string -> H -> res unit * H;
  (** The n-th reading of the clock, the n-th draw of [secrets.token_hex]. *)
  clock_reading : nat -> Q;
  token_drawn : nat -> nat -> string;
  getpid : Z;
  getcwd : string;
  (** [str(v)] of a value that is no string. *)
  str_of_val : pyval -> string
}.

(** [secrets.token_hex] answers in hexadecimal digits. *)
Class OutsideLaws {H} `{Outside H} : Prop := {
  token_plain n k : str_forall (fun c => negb (is_slash c)) (token_drawn n k) = true
}.

Record world (H : Type) := World {
  host : H;
  log : list (list string * option Q);   (** every command the runner was given *)
  ticks : nat;
  draws : nat
}.
Arguments World {H} _ _ _ _.
Arguments host {H} _.
Arguments log {H} _.
Arguments ticks {H} _.
Arguments draws {H} _.

(** [hmac.new(key, payload, sha256).hexdigest()]. *)
Class Mac := { hmac_sha256 : bytes -> bytes -> string }.

Section Commands.
Context {H : Type} `{O : Outside H}.
Abbreviation K := (M (machine (world H))).

Definition on_host {A} (f : H -> res A * H) : K A := fun w =>
  let '(r, h) := f (host (env w)) in
  (r, with_env w (World h (log (env w)) (ticks (env w)) (draws (env w)))).

Definition clock : K Q := fun w =>
  let e := env w in
  (Ok (clock_reading (ticks e)), with_env w (World (host e) (log e) (S (ticks e)) (draws e))).

(** [secrets.token_hex(n)]. *)
Definition token_hex (n : nat) : K string := fun w =>
  let e := env w in
  (Ok (token_drawn n (draws e)), with_env w (World (host e) (log e) (ticks e) (S (draws e)))).

(** [str(v)]. *)
Definition py_str (v : pyval) : string := match v with VStr s => s | _ => str_of_val v end.

(** ** Running commands *)

Definition _DESTRUCTIVE_TOKENS : list string :=
  ["kill"; "rm"; "rmi"; "remove"; "prune"; "down"; "volume"; "--volumes"; "-9"; "SIGKILL";
   "--signal=SIGKILL"]%string.
Definition _INFINITE_STOP : string := "--timeout=-1".
Definition _ALLOWED_DOCKER_VERBS : list string := ["ps"; "inspect"; "update"; "stop"; "start"]%string.
Definition _ALLOWED_PROGRAMS : list string := ["docker"; "lsof"]%string.

Definition starts_with_any (prefixes : list string) (s : string) : bool :=
  existsb (fun p => startswith p s) prefixes.

Definition non_forcing_stop (argv : list string) : bool :=
  match List.filter (starts_with_any ["--signal"; "-s"]%string) argv with
  | [] => bool_decide (List.filter (starts_with_any ["--timeout"; "--time"; "-t"]%string) argv = [_INFINITE_STOP])
  | _ => false
  end.

Definition _require_non_forcing_stop (argv : list string) : K unit :=
  if non_forcing_stop argv then mret tt else raise ForbiddenCommand.

(** The runner itself; the log is what the theorems speak of. *)
Definition call_runner (argv : list string) (timeout : option Q) : K CommandResult := fun w =>
  let e := env w in
  on_host (runner argv timeout)
    (with_env w (World (host e) (log e ++ [(argv, timeout)]) (ticks e) (draws e))).

Definition run_host_command (argv : list string) (timeout : option Q) : K CommandResult :=
  match argv with
  | [] => raise ForbiddenCommand
  | program :: rest =>
      if existsb (fun t => str_mem t _DESTRUCTIVE_TOKENS) argv then raise ForbiddenCommand
      else if negb (str_mem program _ALLOWED_PROGRAMS) then raise ForbiddenCommand
      else if String.eqb program "docker" &&
              negb (match rest with verb :: _ => str_mem verb _ALLOWED_DOCKER_VERBS | [] => false end)
      then raise ForbiddenCommand
      else
        _ ← (if String.eqb program "docker" &&
                match rest with verb :: _ => String.eqb verb "stop" | [] => false end
             then _require_non_forcing_stop argv else mret tt);
        call_runner argv timeout
  end.

Definition _docker (args : list string) (timeout : option Q) : K CommandResult :=
  result ← run_host_command ("docker"%string :: args) timeout;
  if timed_out result then mret result
  else if negb (returncode result =? 0) then raise DockerCommandFailed
  else mret result.

(** ** What is observed *)

Definition PROJECT_LABEL : string := "com.docker.compose.project".
Definition SERVICE_LABEL : string := "com.docker.compose.service".

Record ContainerFacts := {
  cf_id : pyval;
  image_id : pyval;
  image_ref : pyval;
  cf_project : pyval;
  cf_service : pyval;
  status : pyval;
  running : bool;
  pid : Z;
  exit_code : Z;
  restart_policy_name : pyval;
  restart_max_retries : Z;
  mounts : list pyval
}.

Definition restart_policy (f : ContainerFacts) : pyval :=
  VDict [("name", restart_policy_name f); ("maximum_retry_count", VInt (restart_max_retries f))]%string.

Definition state (f : ContainerFacts) : pyval :=
  VDict [("status", status f); ("running", VBool (running f)); ("pid", VInt (pid f));
         ("exit_code", VInt (exit_code f))]%string.

Definition EMPTY : pyval := VDict [].

(** [int(v.get(k, 0) or 0)]. *)
Definition int_field (v : pyval) (k : string) : res Z :=
  x ← py_get v k (VInt 0); py_int (py_or x (VInt 0)).

Definition read_facts (raw : pyval) : res ContainerFacts :=
  config ← py_get raw "Config" VNone;
  labels ← py_get (py_or config EMPTY) "Labels" VNone;
  let labels := py_or labels EMPTY in
  host_config ← py_get raw "HostConfig" VNone;
  policy ← py_get (py_or host_config EMPTY) "RestartPolicy" VNone;
  let policy := py_or policy EMPTY in
  st ← py_get raw "State" VNone;
  let st := py_or st EMPTY in
  id ← py_get raw "Id" (VStr "");
  image ← py_get raw "Image" (VStr "");
  ref ← py_get (py_or config EMPTY) "Image" (VStr "");
  project ← py_get labels PROJECT_LABEL (VStr "");
  service ← py_get labels SERVICE_LABEL (VStr "");
  status ← py_get st "Status" (VStr "");
  running ← py_get st "Running" (VBool false);
  pid ← int_field st "Pid";
  code ← int_field st "ExitCode";
  name ← py_get policy "Name" (VStr "");
  retries ← int_field policy "MaximumRetryCount";
  mounts ← py_get raw "Mounts" VNone;
  mounts ← py_iter (py_or mounts (VList []));
  Ok {| cf_id := id; image_id := image; image_ref := ref; cf_project := project; cf_service := service;
        status := status; running := truthy running; pid := pid; exit_code := code;
        restart_policy_name := name; restart_max_retries := retries; mounts := mounts |}.

Definition _inspect (container_id : string) : K ContainerFacts :=
  result ← _docker ["inspect"; "--format"; "{{json .}}"; container_id]%string None;
  raw ← match line ← head (splitlines (strip (stdout result))); loads_any (chars line) with
        | Some raw => mret raw
        | None => raise DockerCommandFailed
        end;
  lift_res (read_facts raw).

Definition _try_inspect (container_id : string) : K (option ContainerFacts) :=
  catch (f ← _inspect container_id; mret (Some f))
        (fun e => if is_refusal "DOCKER_COMMAND_FAILED" e then Some (mret None) else None).

(** [[line.strip() for line in text.splitlines() if line.strip()]]. *)
Definition stripped_lines (text : string) : list string :=
  List.filter str_nonempty (strip <$> splitlines text).

Definition _list_host_containers : K (list string) :=
  result ← _docker ["ps"; "--all"; "--no-trunc"; "--format"; "{{.ID}}"]%string None;
  mret (stripped_lines (stdout result)).

Abbreviation inventory := (list (string * ContainerFacts)).

Definition _host_inventory : K inventory :=
  ids ← _list_host_containers;
  facts ← collect _inspect ids;
  mret (fold_left (fun d '(cid, f) => dict_set cid f d) (zip ids facts) []).

Definition _list_project_containers (project : string) (service : option string) : K (list string) :=
  let label name value := ["--filter"; "label=" ++ name ++ "=" ++ value]%string in
  let argv := ["ps"; "--all"; "--no-trunc"]%string ++ label PROJECT_LABEL project ++
              match service with Some s => label SERVICE_LABEL s | None => [] end ++
              ["--format"; "{{.ID}}"]%string in
  result ← _docker argv None;
  mret (stripped_lines (stdout result)).

(** ** Who shares the mount, who can start a container *)

Record Identity := { id_realpath : string; id_device : Z; id_inode : Z }.

Definition identity_json (i : option Identity) : pyval :=
  match i with
  | Some i => VDict [("realpath", VStr (id_realpath i)); ("device", VInt (id_device i));
                     ("inode", VInt (id_inode i))]%string
  | None => VNone
  end.

(** [os.stat] takes a path or a descriptor. *)
Definition os_stat (v : pyval) : K (Z * Z) :=
  match v with
  | VStr _ | VInt _ | VBool _ =>
      sys (w ← gets id; match stat_id v (host (env w)) with
                        | Some i => mret i
                        | None => raise (OSError "OSError")
                        end)
  | _ => raise TypeError
  end.

(** [os.path.realpath], which does not raise on a path. *)
Definition os_realpath (v : pyval) : K string :=
  match v with
  | VStr s => gets (fun w => realpath s (host (env w)))
  | _ => raise TypeError
  end.

Definition mount_identity (source : pyval) : K (option Identity) :=
  info ← catch (i ← os_stat source; mret (Some i))
               (fun e => if is_os_error e then Some (mret None) else None);
  match info with
  | None => mret None
  | Some (dev, ino) =>
      real ← os_realpath source;
      mret (Some {| id_realpath := real; id_device := dev; id_inode := ino |})
  end.

(** [str(mount.get(k, ""))]. *)
Definition mount_field (mount : pyval) (k : string) : res string :=
  v ← py_get mount k (VStr ""); Ok (py_str v).

(** One container's mounts: does one of them land there, was one of them no answer? *)
Fixpoint mounts_share (identity : Identity) (ms : list pyval) : K (bool * bool) :=
  match ms with
  | [] => mret (false, false)
  | mount :: ms =>
      source ← lift_res (mount_field mount "Source");
      if String.eqb source "" then mounts_share identity ms
      else
        here ← mount_identity (VStr source);
        match here with
        | None => '(shares, _) ← mounts_share identity ms; mret (shares, true)
        | Some here =>
            if (id_device here =? id_device identity) && (id_inode here =? id_inode identity)
            then mret (true, false) else mounts_share identity ms
        end
  end.

Definition _mount_sharers (inv : inventory) (identity : Identity) : K (list string) :=
  answers ← collect (fun '(cid, facts) => a ← mounts_share identity (mounts facts); mret (cid, a)) inv;
  if existsb (fun a => snd (snd a)) answers then raise ScopeMismatch
  else mret (fst <$> List.filter (fun a => fst (snd a)) answers).

Definition DOCKER_SOCKET_PATHS : list string := ["/var/run/docker.sock"; "/run/docker.sock"]%string.

Record StartAuthority := {
  sa_container_id : string;
  sa_service : pyval;
  sa_project : pyval;
  sa_reason : string
}.

Definition authority_json (a : StartAuthority) : pyval :=
  VDict [("container_id", VStr (sa_container_id a)); ("service", sa_service a);
         ("project", sa_project a); ("reason", VStr (sa_reason a))]%string.

Definition is_socket (h : H) (source : string) : bool :=
  str_mem (realpath source h) (List.map (fun p => realpath p h) DOCKER_SOCKET_PATHS) ||
  str_mem source DOCKER_SOCKET_PATHS.

Fixpoint holds_socket (h : H) (ms : list pyval) : res bool :=
  match ms with
  | [] => Ok false
  | mount :: ms => source ← mount_field mount "Source";
                   if is_socket h source then Ok true else holds_socket h ms
  end.

Definition _start_authorities (inv : inventory) : K (list StartAuthority) :=
  w ← gets id;
  let h := host (env w) in
  found ← lift_res (collect_res (fun '(cid, facts) => b ← holds_socket h (mounts facts); Ok (cid, facts, b)) inv);
  mret (sort_by (fun a b => str_leb (sa_container_id a) (sa_container_id b))
    (List.map (fun '(cid, facts, _) => {| sa_container_id := cid; sa_service := cf_service facts;
                                          sa_project := cf_project facts; sa_reason := "docker-socket" |})
      (List.filter (fun x => snd x) found))).

(** [declared] is a set: of strings before the quiesce, of a manifest's values after it. *)
Definition _require_inventory_bound (inv : inventory) (mount_source : pyval) (declared : list pyval) :
    K (list StartAuthority) :=
  identity ← mount_identity mount_source;
  match identity with
  | None => raise ScopeMismatch
  | Some identity =>
      sharing ← _mount_sharers inv identity;
      authorities ← _start_authorities inv;
      let required := List.map VStr (sharing ++ List.map sa_container_id authorities) in
      if existsb (fun a => negb (val_mem (VStr (sa_container_id a)) declared)) authorities
      then raise StartAuthorityUnbound
      else if same_set declared required then mret authorities
      else _ ← lift_res (py_sorted (minus_vals declared required)); raise ScopeMismatch
  end.
End Commands.

Abbreviation inventory := (list (string * ContainerFacts)).
