(* ===== verification/Preflight.v ===== *)
(** * Looking before changing anything (src/backend/app/wal_fence.py)

    File identities, the mount binding, the signed acknowledgement, [preflight] and
    the descriptor probe with its visibility test. *)
From S2P Require Import Prelude Sorting Py Effects PyOps Json PyVals Files Paths Host.
Open Scope Z_scope.

Definition ExternalAuthorityUnacknowledged : exn := refused "EXTERNAL_AUTHORITY_UNACKNOWLEDGED".
Definition ExternalAuthorityUnverified : exn := refused "EXTERNAL_AUTHORITY_UNVERIFIED".

(** The attributes of the caller's dataclass are not checked by Python. *)
Record ExternalAuthorityAck := {
  issuer : pyval;
  issued_at : pyval;
  expires_at : pyval;
  host_id : pyval;
  scope_digest : pyval;
  signature : pyval
}.

Definition ack_json (a : ExternalAuthorityAck) : pyval :=
  VDict [("issuer", issuer a); ("issued_at", issued_at a); ("expires_at", expires_at a);
         ("host_id", host_id a); ("scope_digest", scope_digest a); ("signature", signature a)]%string.

(** [ExternalAuthorityAck( ** stored)]: exactly the six names, or a [TypeError]. *)
Definition ack_of (stored : pyval) : res ExternalAuthorityAck :=
  match stored with
  | VDict d =>
      match dict_get "issuer" d, dict_get "issued_at" d, dict_get "expires_at" d,
            dict_get "host_id" d, dict_get "scope_digest" d, dict_get "signature" d with
      | Some i, Some t0, Some t1, Some h, Some sd, Some sg =>
          if (length d =? 6)%nat
          then Ok {| issuer := i; issued_at := t0; expires_at := t1; host_id := h;
                     scope_digest := sd; signature := sg |}
          else Raise TypeError
      | _, _, _, _, _, _ => Raise TypeError
      end
  | _ => Raise TypeError
  end.

Record ScopedContainer := { service : string; container_id : string }.

Record MountBinding := {
  mb_destination : string;
  mb_source : string;
  mb_type : string;
  mb_rw : bool
}.

Definition mount_json (m : MountBinding) : pyval :=
  VDict [("destination", VStr (mb_destination m)); ("source", VStr (mb_source m));
         ("type", VStr (mb_type m)); ("rw", VBool (mb_rw m))]%string.

Record FileFacts := {
  ff_path : string;
  ff_exists : bool;
  size_bytes : Z;
  inode : option Z;
  device : option Z;
  ff_sha256 : option string
}.

Definition opt_int (o : option Z) : pyval := match o with Some z => VInt z | None => VNone end.
Definition opt_str (o : option string) : pyval := match o with Some s => VStr s | None => VNone end.

Definition file_json (f : FileFacts) : pyval :=
  VDict [("path", VStr (ff_path f)); ("exists", VBool (ff_exists f)); ("size_bytes", VInt (size_bytes f));
         ("inode", opt_int (inode f)); ("device", opt_int (device f)); ("sha256", opt_str (ff_sha256 f))]%string.

(** [identity()], as the values it is compared with. *)
Definition identity (f : FileFacts) : list pyval :=
  [VBool (ff_exists f); VInt (size_bytes f); opt_int (inode f); opt_str (ff_sha256 f)].

Section Look.
Context {H : Type} `{O : Outside H, Sha : Digest, Hmac : Mac, FloatText}.
Abbreviation K := (M (machine (world H))).

(** ** The acknowledgement *)

Definition ack_signing_payload (ack : ExternalAuthorityAck) : bytes :=
  dump (VDict [("issuer", issuer ack); ("issued_at", issued_at ack); ("expires_at", expires_at ack);
               ("host_id", host_id ack); ("scope_digest", scope_digest ack)]%string).

Definition scope_digest_for (host_id : pyval) (container_ids : list pyval) (mount : pyval) : res string :=
  ids ← py_sorted container_ids;
  Ok (sha256 (dump (VDict [("host_id", host_id); ("containers", VList ids); ("mount", mount)]%string))).

(** A text as UTF-8, for Latin-1. *)
Definition utf8_encode (s : string) : bytes :=
  chars s ≫= fun c =>
    let n := nat_of_ascii c in
    if (n <? 128)%nat then [c] else [ch (192 + n / 64); ch (128 + n mod 64)].

Definition ack_lease_binding_for (ack : ExternalAuthorityAck) (lease_id : pyval) (container_ids : list pyval) :
    res string :=
  ids ← py_sorted container_ids;
  Ok (sha256 (ack_signing_payload ack ++ utf8_encode (py_str lease_id) ++ render spaced 0 (VList ids))).

(** [hmac.compare_digest(a, b)] of two strings: ASCII only. *)
Definition is_ascii (s : string) : bool := str_forall (fun c => (nat_of_ascii c <? 128)%nat) s.
Definition compare_digest (a b : string) : res bool :=
  if is_ascii a && is_ascii b then Ok (String.eqb a b) else Raise TypeError.

Definition nonblank (v : pyval) : bool :=
  match v with VStr s => str_nonempty (strip s) | _ => false end.

Definition _verify_ack (ack : option ExternalAuthorityAck) (verifier : option bytes) (host : pyval)
    (container_ids : list pyval) (mount : pyval) (now : Q) : res unit :=
  match ack with
  | None => Raise ExternalAuthorityUnacknowledged
  | Some ack =>
      if negb (forallb nonblank [issuer ack; host_id ack; scope_digest ack; signature ack])
      then Raise ExternalAuthorityUnacknowledged
      else match verifier with
      | None => Raise ExternalAuthorityUnverified
      | Some key =>
          ordered ← py_lt (issued_at ack) (expires_at ack);
          if negb ordered then Raise ExternalAuthorityUnverified
          else
            begun ← py_le (issued_at ack) (VFloat (Fin now));
            open ← (if (begun : bool) then py_le (VFloat (Fin now)) (expires_at ack) else Ok false);
            if negb open then Raise ExternalAuthorityUnverified
            else if negb (py_eqb (host_id ack) host) then Raise ExternalAuthorityUnverified
            else
              expected ← scope_digest_for host container_ids mount;
              same ← compare_digest (py_str (scope_digest ack)) expected;
              if negb same then Raise ExternalAuthorityUnverified
              else
                valid ← compare_digest (py_str (signature ack)) (hmac_sha256 key (ack_signing_payload ack));
                if negb valid then Raise ExternalAuthorityUnverified else Ok tt
      end
  end.

(** ** Files *)

Definition os_lexists (p : path) : K bool :=
  catch (n ← os_lstat p; mret (match n with Some _ => true | None => false end))
        (fun e => if is_os_error e then Some (mret false) else None).

Definition os_isdir (p : path) : K bool :=
  catch (path_is_dir p) (fun e => if is_os_error e then Some (mret false) else None).

Definition os_islink (p : path) : K bool :=
  catch (n ← os_lstat p; mret (match n with Some (Symlink _) => true | _ => false end))
        (fun e => if is_os_error e then Some (mret false) else None).

Definition _sha256 (p : path) : K string :=
  _ ← os_open_read p;
  data ← finally (os_read p) os_close;
  mret (sha256 data).

Definition _file_facts (name : string) : K FileFacts :=
  let p := at_path name in
  info ← os_lstat p;
  match info with
  | None => mret {| ff_path := name; ff_exists := false; size_bytes := 0; inode := None; device := None;
                    ff_sha256 := None |}
  | Some node =>
      h ← gets (fun w => host (env w));
      digest ← match node with File _ _ _ => s ← _sha256 p; mret (Some s) | _ => mret None end;
      let '(ino, dev) := lstat_id p h in
      mret {| ff_path := name; ff_exists := true;
              size_bytes := match node with File _ data _ => Z.of_nat (length data) | _ => lstat_size p h end;
              inode := Some ino; device := Some dev; ff_sha256 := digest |}
  end.

Definition _wal_path (db_path : string) : string := (db_path ++ "-wal")%string.

(** ** The mount *)

Definition _normalise (destination : string) : string :=
  let collapsed := rstrip_slash (normpath ("/" ++ lstrip_slash (strip destination))) in
  if String.eqb collapsed "" then "/" else collapsed.

(** Mounts exactly there, and others above or below it. *)
Fixpoint sort_mounts (wanted : string) (ms : list pyval) : res (list pyval * bool) :=
  match ms with
  | [] => Ok ([], false)
  | mount :: ms =>
      destination ← mount_field mount "Destination";
      let here := _normalise destination in
      '(exact, overlapping) ← sort_mounts wanted ms;
      if String.eqb here wanted then Ok (mount :: exact, overlapping)
      else if String.eqb here "/" || startswith (here ++ "/")%string wanted || startswith (wanted ++ "/")%string here
      then Ok (exact, true)
      else Ok (exact, overlapping)
  end.

Definition _bind_mount (facts : ContainerFacts) (destination : string) : K MountBinding :=
  let wanted := _normalise destination in
  '(exact, overlapping) ← lift_res (sort_mounts wanted (mounts facts));
  match exact with
  | [mount] =>
      if (overlapping : bool) then raise MountNotBound
      else
        rw ← lift_res (py_get mount "RW" (VBool false));
        if negb (truthy rw) then raise MountNotBound
        else
          source ← lift_res (mount_field mount "Source");
          there ← (if isabs source then os_isdir (at_path source) else mret false);
          if negb there then raise MountNotBound
          else
            type ← lift_res (mount_field mount "Type");
            mret {| mb_destination := wanted; mb_source := source; mb_type := type; mb_rw := true |}
  | _ => raise MountNotBound
  end.

Definition _derive_db_path (mount : MountBinding) (db_relpath : string) : res string :=
  if String.eqb db_relpath "" || isabs db_relpath then Raise TargetRejected
  else
    let joined := path_join (mb_source mount) db_relpath in
    let candidate := normpath joined in
    if negb (String.eqb candidate joined) || negb (startswith (mb_source mount ++ "/")%string candidate)
    then Raise TargetRejected else Ok candidate.

(** ** preflight *)

Record Target := {
  t_project : string;
  t_service : string;
  t_container_id : string;
  t_scope : list ScopedContainer;
  t_data_destination : string;
  t_db_relpath : string;
  t_ack : option ExternalAuthorityAck;
  t_verifier : option bytes;
  t_host_id : string
}.

Record Preflight := {
  project : string;
  pf_service : string;
  pf_container_id : string;
  primary : ContainerFacts;
  scope : list ScopedContainer;
  scope_facts : list ContainerFacts;
  mount : MountBinding;
  db_path : string;
  wal_path : string;
  db : FileFacts;
  wal : FileFacts;
  start_authorities : list StartAuthority;
  external_authority_ack : option ExternalAuthorityAck
}.

Definition _COMPOSE_NAME : string -> bool :=
  re_dollar (re_head_class is_alnum (fun c => is_alnum c || char_in_str c "._-") 0 127).

Definition _FULL_CONTAINER_ID : string -> bool :=
  re_dollar (re_class (fun c => is_digit c || chr_in 97 102 c) 64 64).

(** What the arguments alone decide. *)
Definition check_arguments (t : Target) : res unit :=
  if negb (_COMPOSE_NAME (t_project t)) then Raise TargetRejected
  else if negb (_COMPOSE_NAME (t_service t)) then Raise TargetRejected
  else if negb (_FULL_CONTAINER_ID (t_container_id t)) then Raise TargetRejected
  else match t_scope t with
       | [] => Raise ScopeMismatch
       | _ => if forallb (fun e => _FULL_CONTAINER_ID (container_id e)) (t_scope t)
              then Ok tt else Raise TargetRejected
       end.

(** The one container Compose and docker inspect agree on. *)
Definition resolve_target (t : Target) : K ContainerFacts :=
  reported ← _list_project_containers (t_project t) (Some (t_service t));
  match reported with
  | [] => raise TargetNotFound
  | [only] =>
      if negb (String.eqb only (t_container_id t)) then raise AmbiguousTarget
      else
        facts ← _inspect (t_container_id t);
        if negb (py_eqb (cf_project facts) (VStr (t_project t)) && py_eqb (cf_service facts) (VStr (t_service t)))
        then raise AmbiguousTarget
        else if negb (py_eqb (cf_id facts) (VStr (t_container_id t))) then raise AmbiguousTarget
        else mret facts
  | _ => raise AmbiguousTarget
  end.

(** Every declared container is there under its declared service. *)
Fixpoint declared_facts (inv : inventory) (l : list ScopedContainer) : res unit :=
  match l with
  | [] => Ok tt
  | e :: l => match dict_get (container_id e) inv with
              | None => Raise ScopeMismatch
              | Some f => if py_eqb (cf_service f) (VStr (service e)) then declared_facts inv l
                          else Raise ScopeMismatch
              end
  end.

Definition scope_ids (l : list ScopedContainer) : list pyval := List.map (fun e => VStr (container_id e)) l.

Definition facts_in_order (inv : inventory) (l : list ScopedContainer) : res (list ContainerFacts) :=
  collect_res (fun e => match dict_get (container_id e) inv with Some f => Ok f | None => Raise KeyError end) l.

Definition preflight (t : Target) (now : Q) : K Preflight :=
  _ ← lift_res (check_arguments t);
  primary ← resolve_target t;
  mount ← _bind_mount primary (t_data_destination t);
  db_path ← lift_res (_derive_db_path mount (t_db_relpath t));
  db ← _file_facts db_path;
  if negb (ff_exists db) || match ff_sha256 db with Some _ => false | None => true end then raise MountNotBound
  else
    db_link ← os_islink (at_path db_path);
    link ← (if (db_link : bool) then mret true else os_islink (at_path (_wal_path db_path)));
    if (link : bool) then raise TargetRejected
    else
      inv ← _host_inventory;
      let declared := scope_ids (t_scope t) in
      if negb (val_mem (VStr (t_container_id t)) declared) then raise ScopeMismatch
      else
        authorities ← _require_inventory_bound inv (VStr (mb_source mount)) declared;
        _ ← lift_res (declared_facts inv (t_scope t));
        mid ← mount_identity (VStr (mb_source mount));
        _ ← lift_res (_verify_ack (t_ack t) (t_verifier t) (VStr (t_host_id t)) declared (identity_json mid) now);
        let ordered := sort_by (fun a b => str_leb (container_id a) (container_id b)) (t_scope t) in
        facts ← lift_res (facts_in_order inv ordered);
        wal ← _file_facts (_wal_path db_path);
        mret {| project := t_project t; pf_service := t_service t; pf_container_id := t_container_id t;
                primary := primary; scope := ordered; scope_facts := facts; mount := mount;
                db_path := db_path; wal_path := _wal_path db_path; db := db; wal := wal;
                start_authorities := authorities; external_authority_ack := t_ack t |}.

(** ** The descriptor probe *)

Record ProbeEntry := { e_pid : Z; e_command : option string; e_fd : option string; e_path : string }.

Record Probe := {
  p_command : list string;
  p_paths : list string;
  p_returncode : Z;
  p_entries : list ProbeEntry
}.

Definition open_pids (p : Probe) : list Z :=
  remove_dups (sort_by Z.leb (List.map e_pid (p_entries p))).
Definition open_fds (p : Probe) : list (option string) := List.map e_fd (p_entries p).

(** Reading one line of field output after another. *)
Record scan := Scan { s_entries : list ProbeEntry; s_pid : option Z; s_command : option string; s_fd : option string }.

Definition scan_line (s : scan) (line : string) : res scan :=
  match line with
  | EmptyString => Raise IndexError
  | String tag value =>
      if Ascii.eqb tag "p" then
        match parse_int 10 value with
        | Some pid => Ok (Scan (s_entries s) (Some pid) None None)
        | None => Raise ProbeFailed
        end
      else if Ascii.eqb tag "c" then Ok (Scan (s_entries s) (s_pid s) (Some value) (s_fd s))
      else if Ascii.eqb tag "f" then Ok (Scan (s_entries s) (s_pid s) (s_command s) (Some value))
      else if Ascii.eqb tag "n" then
        match s_pid s with
        | None => Raise ProbeFailed
        | Some pid =>
            Ok (Scan (s_entries s ++ [{| e_pid := pid; e_command := s_command s; e_fd := s_fd s; e_path := value |}])
                     (s_pid s) (s_command s) (s_fd s))
        end
      else Raise ProbeFailed
  end.

Fixpoint scan_lines (s : scan) (lines : list string) : res scan :=
  match lines with
  | [] => Ok s
  | line :: lines => s ← scan_line s line; scan_lines s lines
  end.

Definition _run_probe (paths : list string) : K Probe :=
  let argv := ["lsof"; "-F"; "pcfn"; "--"]%string ++ paths in
  result ← run_host_command argv None;
  let out := strip (stdout result) in
  let err := strip (stderr result) in
  if negb ((returncode result =? 0) || (returncode result =? 1)) then raise ProbeFailed
  else if returncode result =? 1 then
    if str_nonempty err then raise ProbeFailed
    else if str_nonempty out then raise ProbeFailed
    else mret {| p_command := argv; p_paths := paths; p_returncode := 1; p_entries := [] |}
  else if negb (str_nonempty out) then raise ProbeFailed
  else
    s ← lift_res (scan_lines (Scan [] None None None) (splitlines out));
    match s_entries s with
    | [] => raise ProbeFailed
    | entries => mret {| p_command := argv; p_paths := paths; p_returncode := 0; p_entries := entries |}
    end.

(** [os.open(p, O_RDONLY)], which follows a symlink. *)
Definition os_open (p : path) : K unit :=
  sys (w ← gets id;
       match vis w !! p with
       | Some (Symlink None) | None => raise (OSError "FileNotFoundError")
       | Some _ => mret tt
       end).

(** What a body did, to be raised after something else. *)
Definition attempt {A} (m : K A) : K (res A) := fun w =>
  match m w with
  | (Raise PowerLoss, w) => (Raise PowerLoss, w)
  | (r, w) => (Ok r, w)
  end.

(** The handles opened before the first failure, and the failure. *)
Fixpoint open_each (paths : list string) : K (list string * option exn) :=
  match paths with
  | [] => mret ([], None)
  | p :: ps =>
      r ← attempt (os_open (at_path p));
      match r with
      | Ok _ => '(opened, failure) ← open_each ps; mret (p :: opened, failure)
      | Raise e => mret ([], Some (if is_os_error e then ProbeFailed else e))
      end
  end.

Record Visibility := {
  v_pid : Z;
  v_witness_pid : Z;
  v_paths : list string;
  v_returncode : Z
}.

Definition has_entry (l : list ProbeEntry) (p : Z) (name : string) : bool :=
  existsb (fun e => (e_pid e =? p) && String.eqb (e_path e) name) l.

(** What the probe has to show while a witness holds the first path open. *)
Definition check_visibility (watched : list string) (witness_pid : Z) : K Visibility :=
  probe ← _run_probe watched;
  if negb (forallb (fun p => has_entry (p_entries probe) getpid p) watched) then raise ProbeFailed
  else if existsb (fun e => negb (e_pid e =? getpid) && (e_pid e =? witness_pid)) (p_entries probe)
  then mret {| v_pid := getpid; v_witness_pid := witness_pid; v_paths := watched;
               v_returncode := p_returncode probe |}
  else raise ProbeFailed.

Definition _verify_probe_visibility (paths : list string) : K Visibility :=
  '(watched, failure) ← open_each paths;
  finally
    (match failure, watched with
     | Some e, _ => raise e
     | None, [] => raise ProbeFailed
     | None, first :: _ =>
         witness_pid ← catch (on_host (witness_enter first))
                             (fun e => if is_os_error e then Some (raise ProbeFailed) else None);
         finally (check_visibility watched witness_pid) (on_host (witness_exit first))
     end)
    (for_each (fun _ => os_close) watched).

Definition _require_no_descriptors (paths : list string) : K (Probe * Visibility) :=
  visibility ← _verify_probe_visibility paths;
  probe ← _run_probe paths;
  match p_entries probe with
  | [] => mret (probe, visibility)
  | _ => raise DescriptorsOpen
  end.
End Look.
