(* ===== verification/Records.v ===== *)
(** * Records that survive a crash (wal_fence.py and the apply record of wal_recovery.py)

    A record is a JSON object sealed with a digest of itself.  [_write_record] puts it
    in place through a scratch file that is flushed and renamed; [_read_record] and
    [read_apply_record] refuse whatever does not carry its own digest. *)
From S2P Require Import Prelude Sorting Py Effects PyOps Json PyVals Files Paths Host Preflight.
Open Scope Z_scope.

Definition SCHEMA : string := "glassops.wal-fence/1".
Definition PREPARED : string := "PREPARED".
Definition QUIESCED : string := "QUIESCED".
Definition RELEASED : string := "RELEASED".
Definition APPLY_SCHEMA : string := "glassops.source-apply/1".
Definition CLAIMED : string := "CLAIMED".
Definition APPLYING : string := "APPLYING".
Definition COMPLETED : string := "COMPLETED".
Definition FAILED : string := "FAILED".

Definition ManifestRejected : exn := refused "MANIFEST_REJECTED".
Definition PreparedRecordRejected : exn := refused "PREPARED_RECORD_REJECTED".
Definition ApplyRecordRejected : exn := refused "APPLY_RECORD_REJECTED".

(** ** Sealing *)

Definition DIGEST_KEY : string := "content_sha256".
Definition without_digest (d : dict) : dict := List.filter (fun kv => negb (String.eqb kv.1 DIGEST_KEY)) d.

Section Seal.
Context `{Sha : Digest, FloatText}.

Definition _digest (record : dict) : string := sha256 (dump (VDict record)).

Definition _seal (data : dict) : dict :=
  let body := without_digest data in body ++ [(DIGEST_KEY, VStr (_digest body))].

Definition _record_digest (body : dict) : string := sha256 (dump (VDict body)).

Definition seal_apply_record (body : dict) : dict :=
  let rest := without_digest body in rest ++ [(DIGEST_KEY, VStr (_record_digest rest))].

(** The bytes of a record: indented, keys sorted, a newline at the end. *)
Definition record_text (d : dict) : bytes := render indent2 0 (VDict d) ++ [ch 10].
End Seal.

(** ** Calls *)

Section Calls.
Context {W : Type}.
Abbreviation K := (M (machine W)).

(** [open(p, "w")]. *)
Definition os_truncate (p : path) : K unit :=
  sys (w ← gets id;
       match vis w !! p with
       | Some (File mode _ _) => modify (set_node p (File mode [] false))
       | Some (Dir _) => raise (OSError "IsADirectoryError")
       | Some _ => mret tt
       | None => if is_directory (vis w !! parent p) then modify (set_node p (File 420 [] false))
                 else raise (OSError "FileNotFoundError")
       end).

(** What flushing a buffered file does: write until everything is taken. *)
Fixpoint flush_buffer (fuel : nat) (p : path) (buffer : bytes) : K unit :=
  match fuel, buffer with
  | S fuel, _ :: _ => n ← os_write p buffer; flush_buffer fuel p (drop n buffer)
  | _, _ => mret tt
  end.

(** [os.path.exists]. *)
Definition os_exists (p : path) : K bool :=
  catch (_ ← os_stat_dir p; mret true) (fun e => if is_os_error e then Some (mret false) else None).

Definition path_isdir (p : path) : K bool :=
  catch (path_is_dir p) (fun e => if is_os_error e then Some (mret false) else None).

(** [os.makedirs(p, mode, exist_ok=True)]: missing parents first, with the default mode. *)
Fixpoint os_makedirs (p : path) (mode : Z) : K unit :=
  _ ← match p with
      | _ :: head =>
          there ← os_exists head;
          if (there : bool) then mret tt
          else catch (os_makedirs head 511)
                     (fun e => match e with OSError "FileExistsError" => Some (mret tt) | _ => None end)
      | [] => mret tt
      end;
  catch (os_mkdir p mode)
        (fun e => if is_os_error e
                  then Some (is_dir ← path_isdir p; if (is_dir : bool) then mret tt else raise e)
                  else None).

Definition fsync_directory (d : path) : K unit :=
  _ ← os_open_dir d;
  finally (os_fsync_names d) os_close.
End Calls.

Section Records.
Context {H : Type} `{O : Outside H, Sha : Digest, FloatText}.
Abbreviation K := (M (machine (world H))).

Definition scratch_of (name : string) (token : string) : string :=
  (name ++ ("." ++ str_of_int getpid ++ "." ++ token ++ ".partial"))%string.

Definition _write_record (name : string) (data : dict) (overwrite : bool) : K dict :=
  _ ← os_makedirs (dir_at name) 448;
  taken ← (if overwrite then mret false else os_lexists (at_path name));
  if (taken : bool) then raise ManifestRejected
  else
    let sealed := _seal data in
    token ← token_hex 8;
    let scratch := at_path (scratch_of name token) in
    let text := record_text sealed in
    _ ← os_truncate scratch;
    _ ← finally (_ ← flush_buffer (length text) scratch text; os_fsync scratch) os_close;
    _ ← os_rename scratch (at_path name);
    _ ← fsync_directory (dir_at name);
    mret sealed.

(** [open(name, encoding="utf-8")] and everything in it. *)
Definition read_text (name : string) : K bytes :=
  let p := at_path name in
  _ ← sys (w ← gets id;
           match vis w !! p with
           | Some (Dir _) => raise (OSError "IsADirectoryError")
           | Some (File _ _ _) => mret tt
           | Some _ => match linked p (host (env w)) with
                       | Some _ => mret tt
                       | None => raise (OSError "FileNotFoundError")
                       end
           | None => raise (OSError "FileNotFoundError")
           end);
  finally (sys (gets (fun w => match vis w !! p with
                               | Some (File _ data _) => data
                               | _ => default [] (linked p (host (env w)))
                               end))) os_close.

(** [json.load] of it: missing or unreadable as JSON is the caller's refusal. *)
Definition load_record (name : string) (error : exn) : K pyval :=
  data ← catch (read_text name)
               (fun e => match e with OSError "FileNotFoundError" => Some (raise error) | _ => None end);
  match text ← utf8_decode data; loads_any text with
  | Some v => mret v
  | None => raise error
  end.

Definition record_dict (v : pyval) : res dict :=
  match v with VDict d => Ok d | _ => Raise AttributeError end.

Definition _read_record (name : string) (st : string) (error : exn) : K (string * dict) :=
  v ← load_record name error;
  d ← lift_res (record_dict v);
  if negb (py_eqb (get "schema" d) (VStr SCHEMA)) then raise error
  else if negb (py_eqb (get "state" d) (VStr st)) then raise error
  else if negb (py_eqb (get DIGEST_KEY d) (VStr (_digest (without_digest d)))) then raise error
  else mret (name, d).

(** [expect_states] is a set of names, or absent. *)
Definition read_apply_record (name : string) (expect_states : option (list string)) : K dict :=
  v ← load_record name ApplyRecordRejected;
  d ← lift_res (record_dict v);
  if negb (py_eqb (get "schema" d) (VStr APPLY_SCHEMA)) then raise ApplyRecordRejected
  else if negb (py_eqb (get DIGEST_KEY d) (VStr (_record_digest (without_digest d)))) then raise ApplyRecordRejected
  else match expect_states with
       | None => mret d
       | Some states =>
           expected ← lift_res (in_strings (get "state" d) states);
           if (expected : bool) then mret d else raise ApplyRecordRejected
       end.

(** ** Prepared records and manifests *)

Record PreparedRecord := { pr_path : string; pr_data : dict }.
Record Manifest := { m_path : string; m_data : dict }.

Definition prepared_path_for (manifest_path : string) : string := (manifest_path ++ ".prepared.json")%string.

Definition read_prepared (name : string) : K PreparedRecord :=
  '(target, data) ← _read_record name PREPARED PreparedRecordRejected;
  mret {| pr_path := target; pr_data := data |}.

Definition read_manifest (name : string) : K Manifest :=
  '(target, data) ← _read_record name QUIESCED ManifestRejected;
  mret {| m_path := target; m_data := data |}.

(** [data.get(k, {}).get(k', dflt)]. *)
Definition get_in (d : dict) (k k' : string) (dflt : pyval) : res pyval :=
  py_get (get_or k EMPTY d) k' dflt.

(** [data[k][k']]. *)
Definition key_in (d : dict) (k k' : string) : res pyval :=
  v ← py_key (VDict d) k; py_key v k'.

Definition m_state (m : Manifest) : pyval := get_or "state" (VStr "") (m_data m).
Definition lease_id (m : Manifest) : res pyval := get_in (m_data m) "lease" "id" (VStr "").
Definition m_db_path (m : Manifest) : res pyval := get_in (m_data m) "database" "db_path" (VStr "").

(** The values of [entry["container_id"] for entry in data["scope"]]. *)
Definition ids_of (scope : pyval) : res (list pyval) :=
  entries ← py_iter scope;
  collect_res (fun e => py_key e "container_id") entries.
End Records.
