(* ===== verification/Fence.v ===== *)
(** * The fence (src/backend/app/wal_fence.py): quiesce, claim, apply, release

    Every operation from [fence] to [release], on files and a host in which anything
    can fail.  The states are files next to the manifest, and which of them exist is
    what decides. *)
From S2P Require Import Prelude Sorting Py Effects PyOps Json PyVals Files Paths Host Preflight Records.
Open Scope Z_scope.

Definition RestartPolicyNotApplied : exn := refused "RESTART_POLICY_NOT_APPLIED".
Definition StopIncomplete : exn := refused "STOP_INCOMPLETE".
Definition FenceStale : exn := refused "FENCE_STALE".
Definition FenceBroken : exn := refused "FENCE_BROKEN".
Definition FenceDrift : exn := refused "FENCE_DRIFT".
Definition FenceScopeMismatch : exn := refused "FENCE_SCOPE_MISMATCH".
Definition ClaimUnavailable : exn := refused "CLAIM_UNAVAILABLE".
Definition ClaimSpent : exn := refused "CLAIM_SPENT".
Definition ApplyAlreadyStarted : exn := refused "APPLY_ALREADY_STARTED".
Definition ClaimInFlight : exn := refused "CLAIM_IN_FLIGHT".
Definition LeaseExceedsAcknowledgement : exn := refused "LEASE_EXCEEDS_ACK".
Definition ReleaseFailed : exn := refused "RELEASE_FAILED".
Definition AlreadyReleased : exn := refused "ALREADY_RELEASED".

Definition is_error (e e' : exn) : bool :=
  match e, e' with Refused c _, Refused c' _ => String.eqb c c' | _, _ => false end.

(** The class of an [open(..., O_CREAT | O_EXCL)] that lost. *)
Definition file_exists (e : exn) : bool :=
  match e with OSError "FileExistsError" => true | _ => false end.

Definition strs (l : list string) : pyval := VList (List.map VStr l).

Section Fence.
Context {H : Type} `{O : Outside H, Sha : Digest, Hmac : Mac, FloatText}.
Abbreviation K := (M (machine (world H))).

(** ** The records of a quiesce *)

Definition _format_policy (name : pyval) (max_retries : Z) : string :=
  if negb (truthy name) then "no"
  else if py_eqb name (VStr "on-failure") && (0 <? max_retries)
  then ("on-failure:" ++ str_of_int max_retries)%string
  else py_str name.

Definition target_json (pre : Preflight) : pyval :=
  VDict [("project", VStr (project pre)); ("service", VStr (pf_service pre));
         ("container_id", VStr (pf_container_id pre)); ("image_id", image_id (primary pre));
         ("image_ref", image_ref (primary pre))]%string.

Definition scope_entry (facts : ContainerFacts) : pyval :=
  VDict [("container_id", cf_id facts); ("service", cf_service facts); ("image_id", image_id facts);
         ("restart_policy_before", restart_policy facts); ("state_before", state facts)]%string.

Definition _prepared_body (pre : Preflight) (prepared_at : Q) : dict :=
  [("schema", VStr SCHEMA); ("state", VStr PREPARED); ("prepared_at", VFloat (Fin prepared_at));
   ("target", target_json pre); ("mount", mount_json (mount pre));
   ("database", VDict [("db_path", VStr (db_path pre)); ("wal_path", VStr (wal_path pre))]);
   ("scope", VList (List.map scope_entry (scope_facts pre)))]%string.

Definition record_scope (r : PreparedRecord) : pyval := get_or "scope" (VList []) (pr_data r).

(** [PreparedRecord.policy_before]. *)
Definition policy_before (r : PreparedRecord) (container_id : pyval) : res pyval :=
  entries ← py_iter (record_scope r);
  (fix go (l : list pyval) : res pyval :=
     match l with
     | [] => Raise PreparedRecordRejected
     | e :: l => cid ← py_key e "container_id";
                 if py_eqb cid container_id then py_key e "restart_policy_before" else go l
     end) entries.

Fixpoint target_matches (target : pyval) (expected : list (string * pyval)) : res unit :=
  match expected with
  | [] => Ok tt
  | (key, value) :: expected =>
      v ← py_get target key VNone;
      if py_eqb v value then target_matches target expected else Raise PreparedRecordRejected
  end.

Definition _require_prepared_matches (r : PreparedRecord) (pre : Preflight) : res unit :=
  _ ← target_matches (get_or "target" EMPTY (pr_data r))
        [("project", VStr (project pre)); ("service", VStr (pf_service pre));
         ("container_id", VStr (pf_container_id pre)); ("image_id", image_id (primary pre))]%string;
  source ← get_in (pr_data r) "mount" "source" VNone;
  if negb (py_eqb source (VStr (mb_source (mount pre)))) then Raise PreparedRecordRejected
  else
    ids ← ids_of (record_scope r);
    recorded ← py_set ids;
    if same_set recorded (scope_ids (scope pre)) then Ok tt
    else _ ← py_sorted recorded; Raise PreparedRecordRejected.

(** ** Quiescing *)

(** [with _operation_lock(manifest_path): body]. *)
Definition _operation_lock {A} (manifest_path : string) (body : K A) : K A :=
  let name := (manifest_path ++ ".lock")%string in
  let p := at_path name in
  _ ← os_makedirs (dir_at name) 448;
  _ ← catch (os_create p 384) (fun e => if file_exists e then Some (raise ManifestRejected) else None);
  finally
    (_ ← os_write p (chars (str_of_int getpid ++ newline)%string);
     _ ← os_fsync p;
     body)
    (_ ← os_close;
     catch (os_rename p (at_path (name ++ ".released")%string))
           (fun e => if is_os_error e then Some (mret tt) else None)).

Definition entry_dict (v : pyval) : res dict :=
  match v with VDict d => Ok d | VList [] | VStr "" => Ok [] | _ => Raise TypeError end.

(** Pinned to [no], and read back. *)
Definition pin_one (entry : dict) : K dict :=
  cid ← lift_res (py_key (VDict entry) "container_id");
  let cid := py_str cid in
  _ ← _docker ["update"; "--restart=no"; cid]%string None;
  after ← _inspect cid;
  if negb (py_eqb (restart_policy_name after) (VStr "no")) then raise RestartPolicyNotApplied
  else mret (dict_set "restart_policy_after" (restart_policy after) entry).

(** Stopped gracefully, under our deadline only, and observed exited. *)
Definition stop_one (deadline : Q) (entry : dict) : K dict :=
  cid ← lift_res (py_key (VDict entry) "container_id");
  let cid := py_str cid in
  result ← _docker ["stop"; _INFINITE_STOP; cid]%string (Some deadline);
  after ← _inspect cid;
  if timed_out result then raise StopIncomplete
  else if running after || negb (py_eqb (status after) (VStr "exited")) then raise StopIncomplete
  else mret (dict_set "state_after_stop" (state after) entry).

Definition opt_name (o : option string) : pyval := match o with Some s => VStr s | None => VNone end.

Definition visibility_json (v : Visibility) : pyval :=
  VDict [("observed_own_fd", VBool true); ("observed_foreign_fd", VBool true); ("pid", VInt (v_pid v));
         ("witness_pid", VInt (v_witness_pid v)); ("paths", strs (v_paths v));
         ("returncode", VInt (v_returncode v))]%string.

Definition fd_probe_json (p : Probe) (v : Visibility) : pyval :=
  VDict [("command", strs (p_command p)); ("paths", strs (p_paths p)); ("returncode", VInt (p_returncode p));
         ("open_pids", VList (List.map VInt (open_pids p))); ("open_fds", VList (List.map opt_name (open_fds p)));
         ("visibility_verified", VBool true); ("visibility", visibility_json v)]%string.

Record Request := {
  target : Target;
  manifest_path : string;
  prepared_path : option string;
  stop_deadline_seconds : Q;
  lease_ttl_seconds : Z
}.

Definition prepared_name (r : Request) : string :=
  match prepared_path r with
  | Some p => if String.eqb p "" then prepared_path_for (manifest_path r) else p
  | None => prepared_path_for (manifest_path r)
  end.

(** The original restart policies, on disk: those of an earlier run when there is one. *)
Definition prepare (r : Request) (pre : Preflight) : K PreparedRecord :=
  let prepared := prepared_name r in
  there ← os_lexists (at_path prepared);
  if (there : bool) then
    record ← read_prepared prepared;
    _ ← lift_res (_require_prepared_matches record pre);
    mret record
  else
    prepared_at ← clock;
    _ ← _write_record prepared (_prepared_body pre prepared_at) false;
    read_prepared prepared.

Definition manifest_body (r : Request) (pre : Preflight) (ack : ExternalAuthorityAck) (entries : list dict)
    (probe : Probe) (v : Visibility) (db wal : FileFacts) (lease : string) (granted_at expires : pyfloat) : dict :=
  [("schema", VStr SCHEMA); ("state", VStr QUIESCED); ("prepared_path", VStr (prepared_name r));
   ("lease", VDict [("id", VStr lease); ("granted_at", VFloat granted_at);
                    ("ttl_seconds", VInt (lease_ttl_seconds r)); ("expires_at", VFloat expires)]);
   ("target", VDict [("project", VStr (t_project (target r))); ("service", VStr (t_service (target r)));
                     ("container_id", VStr (t_container_id (target r)));
                     ("image_id", image_id (primary pre)); ("image_ref", image_ref (primary pre))]);
   ("mount", mount_json (mount pre)); ("scope", VList (List.map VDict entries));
   ("start_authorities", VList (List.map authority_json (start_authorities pre)));
   ("external_authority_ack", ack_json ack); ("host_id", VStr (t_host_id (target r)));
   ("database", VDict [("db_path", VStr (db_path pre)); ("wal_path", VStr (wal_path pre));
                       ("db", file_json db); ("wal", file_json wal)]);
   ("fd_probe", fd_probe_json probe v);
   ("stop_deadline_seconds", VFloat (Fin (stop_deadline_seconds r)))]%string.

(** From the PREPARED record on: everything here changes the host or records it. *)
Definition quiesce (r : Request) (pre : Preflight) (ack : ExternalAuthorityAck) (record : PreparedRecord)
    (granted_at expires : pyfloat) : K Manifest :=
  raw ← lift_res (py_iter (record_scope record));
  entries ← lift_res (collect_res entry_dict raw);
  entries ← collect pin_one entries;
  entries ← collect (stop_one (stop_deadline_seconds r)) entries;
  '(probe, v) ← _require_no_descriptors [db_path pre; wal_path pre];
  db ← _file_facts (db_path pre);
  wal ← _file_facts (wal_path pre);
  lease ← token_hex 16;
  let data := manifest_body r pre ack entries probe v db wal lease granted_at expires in
  ids ← lift_res (collect_res (fun e => py_key (VDict e) "container_id") entries);
  binding ← lift_res (ack_lease_binding_for ack (VStr lease) ids);
  sealed ← _write_record (manifest_path r) (data ++ [("ack_lease_binding", VStr binding)]%string) false;
  mret {| m_path := manifest_path r; m_data := sealed |}.

Definition _fence_locked (r : Request) : K Manifest :=
  now ← clock;
  pre ← preflight (target r) now;
  granted_at ← clock;
  let expires := float_add (Fin granted_at) (Fin (inject_Z (lease_ttl_seconds r))) in
  match external_authority_ack pre with
  | None => raise AttributeError
  | Some ack =>
      past ← lift_res (py_lt (expires_at ack) (VFloat expires));
      if (past : bool) then raise LeaseExceedsAcknowledgement
      else
        taken ← os_lexists (at_path (manifest_path r));
        if (taken : bool) then raise ManifestRejected
        else
          record ← prepare r pre;
          quiesce r pre ack record (Fin granted_at) expires
  end.

Definition fence (r : Request) : K Manifest := _operation_lock (manifest_path r) (_fence_locked r).

(** ** The claim *)

Definition _claim_path (base : string) : string := (base ++ ".claim.json")%string.
Definition _claim_done_path (base : string) : string := (base ++ ".claim.done.json")%string.
Definition _applying_path (base : string) : string := (base ++ ".applying.json")%string.
Definition _release_path (base : string) : string := (base ++ ".release.json")%string.

(** Lease and acknowledgement at one instant. *)
Definition _reverify_manifest_authority (m : Manifest) (verifier : option bytes) (now : Q) : K unit :=
  let data := m_data m in
  ack ← lift_res (match ack_of (py_or (get "external_authority_ack" data) EMPTY) with
                  | Raise TypeError => Raise ExternalAuthorityUnverified
                  | r => r
                  end);
  ids ← lift_res (ids_of (get_or "scope" (VList []) data));
  source ← lift_res (get_in data "mount" "source" (VStr ""));
  mid ← mount_identity source;
  _ ← lift_res (_verify_ack (Some ack) verifier (get_or "host_id" (VStr "") data) ids (identity_json mid) now);
  lease ← lift_res (get_in data "lease" "id" (VStr ""));
  expected ← lift_res (ack_lease_binding_for ack lease ids);
  bound ← lift_res (compare_digest (py_str (get_or "ack_lease_binding" (VStr "") data)) expected);
  if (bound : bool) then mret tt else raise ExternalAuthorityUnverified.

Definition _require_authority_at (m : Manifest) (verifier : option bytes) (now : Q) : K unit :=
  raw ← lift_res (get_in (m_data m) "lease" "expires_at" (VInt 0));
  expires ← lift_res (py_float raw);
  if float_lt expires (Fin now) then raise FenceStale
  else _reverify_manifest_authority m verifier now.

Fixpoint fields_match (record : dict) (checks : list (string * pyval)) (error : exn) : res unit :=
  match checks with
  | [] => Ok tt
  | (name, expected) :: checks =>
      if py_eqb (get name record) expected then fields_match record checks error else Raise error
  end.

Definition _require_claim_binds (name : string) (m : Manifest) (claim_id : option pyval) : K dict :=
  record ← read_apply_record name None;
  lease ← lift_res (lease_id m);
  recorded_db ← lift_res (key_in (m_data m) "database" "db_path");
  let checks := [("lease_id", lease); ("manifest_path", VStr (m_path m)); ("db_path", recorded_db)]%string in
  _ ← lift_res (fields_match record
        (match claim_id with Some c => ("claim_id"%string, c) :: checks | None => checks end) ClaimUnavailable);
  mret record.

Record Capability := {
  manifest : Manifest;
  claim_id : pyval;
  authority_verifier : option bytes
}.

Definition base_of (c : Capability) : string := m_path (manifest c).
Definition claim_record_path (c : Capability) : string := _claim_path (base_of c).

Definition is_active (c : Capability) : K bool :=
  done ← os_lexists (at_path (_claim_done_path (base_of c)));
  if (done : bool) then mret false
  else released ← os_lexists (at_path (_release_path (base_of c))); mret (negb released).

Definition _require_active (c : Capability) : K unit :=
  _ ← _require_claim_binds (claim_record_path c) (manifest c) (Some (claim_id c));
  done ← os_lexists (at_path (_claim_done_path (base_of c)));
  if (done : bool) then raise ClaimSpent
  else
    released ← os_lexists (at_path (_release_path (base_of c)));
    if (released : bool) then raise ClaimSpent else mret tt.

Definition _require_authority (c : Capability) : K Q :=
  now ← clock;
  _ ← _require_authority_at (manifest c) (authority_verifier c) now;
  mret now.

(** An exclusive create with a first write and its flush; [lost] is the refusal. *)
Definition create_exclusive (name : string) (text : bytes) (lost : exn) : K unit :=
  let p := at_path name in
  _ ← catch (os_create p 384) (fun e => if file_exists e then Some (raise lost) else None);
  finally (_ ← os_write p text; os_fsync p) os_close.

(** The pass over the source begins, once, at an instant that was checked. *)
Definition start_apply (c : Capability) (started_at : Q) : K string :=
  apply_id ← token_hex 16;
  _ ← create_exclusive (_applying_path (base_of c)) (chars (apply_id ++ newline)%string) ApplyAlreadyStarted;
  record ← read_apply_record (claim_record_path c) (Some [CLAIMED]);
  _ ← _write_record (claim_record_path c)
        (dict_set "apply_started_at" (VFloat (Fin started_at))
          (dict_set "apply_id" (VStr apply_id) (dict_set "state" (VStr APPLYING) record))) true;
  mret apply_id.

Definition begin_apply (c : Capability) : K string :=
  _ ← _require_active c;
  started_at ← _require_authority c;
  start_apply c started_at.

(** ** The check before the source is opened *)

Record SourceApplyGrant := {
  g_claim_record_path : string;
  g_manifest_path : string;
  g_claim_id : pyval;
  g_lease_id : pyval;
  g_ok : bool;
  g_db_path : pyval;
  g_wal_path : pyval;
  g_db : FileFacts;
  g_wal : FileFacts
}.

Definition os_abspath (s : string) : string := normpath (if isabs s then s else path_join getcwd s).

(** One scoped container, as the inventory has it now. *)
Definition entry_holds (inv : inventory) (entry : pyval) : res unit :=
  cid ← py_key entry "container_id";
  match match cid with VStr s => dict_get s inv | _ => None end with
  | None => Raise FenceBroken
  | Some facts =>
      image ← py_get entry "image_id" VNone;
      if negb (py_eqb (image_id facts) image) then Raise FenceBroken
      else if running facts || negb (py_eqb (status facts) (VStr "exited")) then Raise FenceBroken
      else if negb (py_eqb (restart_policy_name facts) (VStr "no")) then Raise FenceBroken
      else Ok tt
  end.

Fixpoint entries_hold (inv : inventory) (entries : list pyval) : res unit :=
  match entries with
  | [] => Ok tt
  | e :: entries => _ ← entry_holds inv e; entries_hold inv entries
  end.

Definition same_file (current : FileFacts) (snapshot : pyval) : res unit :=
  e ← py_key snapshot "exists";
  s ← py_key snapshot "size_bytes";
  i ← py_key snapshot "inode";
  d ← py_key snapshot "sha256";
  if forallb (fun p => py_eqb p.1 p.2) (zip (identity current) [e; s; i; d]) then Ok tt else Raise FenceDrift.

Definition as_name (v : pyval) : res string := match v with VStr s => Ok s | _ => Raise TypeError end.

(** What the inventory has to show again, at the claim and before the source is opened. *)
Definition require_bound (data : dict) : K inventory :=
  scope ← lift_res (py_key (VDict data) "scope");
  ids ← lift_res (ids_of scope);
  declared ← lift_res (py_set ids);
  inv ← _host_inventory;
  source ← lift_res (key_in data "mount" "source");
  _ ← _require_inventory_bound inv source declared;
  mret inv.

Definition check_before_source_open (c : Capability) (db_path : string) : K SourceApplyGrant :=
  _ ← _require_active c;
  let data := m_data (manifest c) in
  _ ← _require_authority c;
  recorded_db ← lift_res (key_in data "database" "db_path");
  recorded_wal ← lift_res (key_in data "database" "wal_path");
  if negb (py_eqb recorded_db (VStr (os_abspath db_path))) then raise FenceScopeMismatch
  else
    inv ← require_bound data;
    scope ← lift_res (py_key (VDict data) "scope");
    entries ← lift_res (py_iter scope);
    _ ← lift_res (entries_hold inv entries);
    db_name ← lift_res (as_name recorded_db);
    wal_name ← lift_res (as_name recorded_wal);
    _ ← _require_no_descriptors [db_name; wal_name];
    db ← _file_facts db_name;
    wal ← _file_facts wal_name;
    db_then ← lift_res (key_in data "database" "db");
    wal_then ← lift_res (key_in data "database" "wal");
    _ ← lift_res (same_file db db_then);
    _ ← lift_res (same_file wal wal_then);
    _ ← _require_authority c;
    _ ← _require_active c;
    lease ← lift_res (lease_id (manifest c));
    mret {| g_claim_record_path := claim_record_path c; g_manifest_path := base_of c; g_claim_id := claim_id c;
            g_lease_id := lease; g_ok := true; g_db_path := recorded_db; g_wal_path := recorded_wal;
            g_db := db; g_wal := wal |}.

(** ** Finishing *)

Definition _FINISHABLE_FROM (outcome : string) : list string :=
  if String.eqb outcome COMPLETED then [APPLYING] else [CLAIMED; APPLYING].

Definition terminal_body (c : Capability) (outcome : string) (reason : pyval) (lease db wal : pyval) (now : Q) : dict :=
  [("schema", VStr APPLY_SCHEMA); ("state", VStr outcome); ("claim_id", claim_id c); ("lease_id", lease);
   ("manifest_path", VStr (base_of c)); ("db_path", db); ("wal_path", wal);
   ("finished_at", VFloat (Fin now)); ("reason", reason)]%string.

Definition _finish (c : Capability) (outcome : string) (reason : pyval) : K unit :=
  live ← _require_claim_binds (claim_record_path c) (manifest c) (Some (claim_id c));
  let name := _claim_done_path (base_of c) in
  there ← os_lexists (at_path name);
  if (there : bool) then
    existing ← _require_claim_binds name (manifest c) (Some (claim_id c));
    if py_eqb (get "state" existing) (VStr outcome) then mret tt else raise ClaimSpent
  else if negb (existsb (fun s => py_eqb (get "state" live) (VStr s)) (_FINISHABLE_FROM outcome))
  then raise ClaimSpent
  else
    lease ← lift_res (lease_id (manifest c));
    db ← lift_res (key_in (m_data (manifest c)) "database" "db_path");
    wal ← lift_res (key_in (m_data (manifest c)) "database" "wal_path");
    now ← clock;
    _ ← _write_record name (terminal_body c outcome reason lease db wal now) false;
    catch (record ← read_apply_record (claim_record_path c) None;
           _ ← _write_record (claim_record_path c) (dict_set "state" (VStr outcome) record) true;
           mret tt)
          (fun e => if is_os_error e || is_error e ApplyRecordRejected then Some (mret tt) else None).

Definition complete (c : Capability) : K unit := _finish c COMPLETED VNone.
Definition fail (c : Capability) (reason : string) : K unit := _finish c FAILED (VStr reason).

(** ** Taking the claim, and picking it up again *)

Definition reattach (m : Manifest) (verifier : option bytes) : K Capability :=
  record ← _require_claim_binds (_claim_path (m_path m)) m None;
  cid ← lift_res (py_key (VDict record) "claim_id");
  mret {| manifest := m; claim_id := cid; authority_verifier := verifier |}.

Definition claim_body (m : Manifest) (cid : string) (lease db wal : pyval) (claimed_at : Q) : dict :=
  [("schema", VStr APPLY_SCHEMA); ("state", VStr CLAIMED); ("claim_id", VStr cid); ("lease_id", lease);
   ("manifest_path", VStr (m_path m)); ("db_path", db); ("wal_path", wal);
   ("claimed_at", VFloat (Fin claimed_at))]%string.

(** The claim file, written once it has been created. *)
Definition write_claim (m : Manifest) (cid : string) (claimed_at : Q) : K unit :=
  let name := _claim_path (m_path m) in
  let p := at_path name in
  _ ← catch (os_create p 384) (fun e => if file_exists e then Some (raise ClaimUnavailable) else None);
  lease ← lift_res (lease_id m);
  db ← lift_res (key_in (m_data m) "database" "db_path");
  wal ← lift_res (key_in (m_data m) "database" "wal_path");
  let body := record_text (_seal (claim_body m cid lease db wal claimed_at)) in
  _ ← finally (_ ← os_write p body; os_fsync p) os_close;
  fsync_directory (dir_at name).

(** Everything asked before the claim file exists; the instant of the last answer. *)
Definition claim_checks (m : Manifest) (verifier : option bytes) : K Q :=
  let base := m_path m in
  let data := m_data m in
  if negb (py_eqb (get "state" data) (VStr QUIESCED)) then raise ManifestRejected
  else
    released ← os_lexists (at_path (_release_path base));
    if (released : bool) then raise ClaimUnavailable
    else
      spent ← os_lexists (at_path (_claim_done_path base));
      if (spent : bool) then raise ClaimUnavailable
      else
        now ← clock;
        _ ← _require_authority_at m verifier now;
        _ ← require_bound data;
        claimed_at ← clock;
        _ ← _require_authority_at m verifier claimed_at;
        mret claimed_at.

Definition take_claim (m : Manifest) (verifier : option bytes) (claimed_at : Q) : K Capability :=
  cid ← token_hex 16;
  _ ← write_claim m cid claimed_at;
  mret {| manifest := m; claim_id := VStr cid; authority_verifier := verifier |}.

Definition claim (m : Manifest) (verifier : option bytes) : K Capability :=
  claimed_at ← claim_checks m verifier;
  take_claim m verifier claimed_at.
End Fence.
