(* ===== verification/Release.v ===== *)
(** * Putting the restart policies back (release in src/backend/app/wal_fence.py)

    A separate call, by hand.  Nothing on the host changes before every question about
    the claim has an answer. *)
From S2P Require Import Prelude Sorting Py Effects PyOps Json PyVals Files Paths Host Preflight Records Fence.
Open Scope Z_scope.

Section Release.
Context {H : Type} `{O : Outside H, Sha : Digest, Hmac : Mac, FloatText}.
Abbreviation K := (M (machine (world H))).

(** [os.lstat] with every error but absence refused. *)
Definition _release_path_exists (name : string) : K bool :=
  catch (n ← os_lstat (at_path name); mret (match n with Some _ => true | None => false end))
        (fun e => if is_os_error e then Some (raise ReleaseFailed) else None).

Definition _confirm_durable (name : string) : K unit :=
  let p := at_path name in
  catch (_ ← os_open p;
         _ ← finally (os_fsync p) os_close;
         fsync_directory (dir_at name))
        (fun e => if is_os_error e then Some (raise ReleaseFailed) else None).

Definition _read_release_record (name : string) (expect_states : option (list string)) : K dict :=
  catch (read_apply_record name expect_states)
        (fun e => if is_error e ApplyRecordRejected || is_os_error e then Some (raise ReleaseFailed) else None).

Definition _require_durable_terminal (base : string) (lease : pyval) : K dict :=
  let name := _claim_done_path base in
  record ← _read_release_record name (Some [COMPLETED; FAILED]);
  live ← _read_release_record (_claim_path base) None;
  if truthy lease && negb (py_eqb (get "lease_id" live) lease) then raise ReleaseFailed
  else if negb (py_eqb (get "manifest_path" live) (VStr base)) then raise ReleaseFailed
  else
    _ ← lift_res (fields_match record
          [("manifest_path", VStr base); ("claim_id", get "claim_id" live); ("lease_id", get "lease_id" live)]%string
          ReleaseFailed);
    _ ← _confirm_durable name;
    mret record.

Record ReleaseArgs := {
  ra_manifest_path : option string;
  ra_prepared_path : option string;
  start_containers : bool;
  start_allowlist : list string
}.

Record ReleaseRecord := {
  rr_path : string;
  rr_lease_id : pyval;
  restored : list pyval;
  started_containers : list pyval;
  not_started : list pyval
}.

(** The names the arguments come to: the fence's base and its PREPARED record. *)
Definition release_names (a : ReleaseArgs) : option (string * string) :=
  match ra_manifest_path a, ra_prepared_path a with
  | None, None => None
  | Some base, p =>
      Some (base, match p with
                  | Some p => if String.eqb p "" then prepared_path_for base else p
                  | None => prepared_path_for base
                  end)
  | None, Some p =>
      Some (if endswith ".prepared.json" p then str_take (String.length p - 14) p else p, p)
  end.

(** The lease of the manifest, when there is a manifest. *)
Definition release_lease (base : string) (manifest_exists claim_or_done : bool) : K pyval :=
  if manifest_exists then
    catch (m ← read_manifest base; lift_res (lease_id m))
          (fun e => if is_error e ManifestRejected || is_os_error e then Some (raise ReleaseFailed) else None)
  else if claim_or_done then raise ReleaseFailed
  else mret (VStr "").

Definition restore_policy (entry : pyval) : K pyval :=
  cid ← lift_res (py_key entry "container_id");
  before ← lift_res (py_get entry "restart_policy_before" EMPTY);
  name ← lift_res (py_get before "name" (VStr ""));
  let wanted_name := py_or name (VStr "no") in
  wanted_retries ← lift_res (int_field before "maximum_retry_count");
  there ← _try_inspect (py_str cid);
  match there with
  | None => raise ReleaseFailed
  | Some _ =>
      _ ← _docker ["update"; "--restart=" ++ _format_policy wanted_name wanted_retries; py_str cid]%string None;
      after ← _inspect (py_str cid);
      if py_eqb (restart_policy_name after) wanted_name && (restart_max_retries after =? wanted_retries)
      then mret cid else raise ReleaseFailed
  end.

(** Started, with [true], or deliberately left down. *)
Definition start_one (allow : list string) (entry : pyval) : K (pyval * bool) :=
  cid ← lift_res (py_key entry "container_id");
  before ← lift_res (py_get entry "state_before" EMPTY);
  was ← lift_res (py_get before "running" (VBool false));
  allowed ← (if truthy was then mret true else lift_res (in_strings cid allow));
  if negb allowed then mret (cid, false)
  else
    _ ← _docker ["start"; py_str cid]%string None;
    after ← _inspect (py_str cid);
    if negb (running after) then raise ReleaseFailed else mret (cid, true).

Definition release_body (base prepared : string) (lease : pyval) (restored started not_started : list pyval)
    (now : Q) : dict :=
  [("schema", VStr SCHEMA); ("state", VStr RELEASED); ("released_at", VFloat (Fin now));
   ("manifest_path", VStr base); ("prepared_path", VStr prepared); ("lease_id", lease);
   ("restored", VList restored); ("started_containers", VList started); ("not_started", VList not_started)]%string.

(** Everything asked before the first change; the lease. *)
Definition may_release (base : string) : K pyval :=
  manifest_exists ← _release_path_exists base;
  claim_exists ← _release_path_exists (_claim_path base);
  done_exists ← _release_path_exists (_claim_done_path base);
  already_released ← _release_path_exists (_release_path base);
  lease ← release_lease base manifest_exists (claim_exists || done_exists);
  if claim_exists && negb done_exists then
    _ ← os_lexists (at_path (_applying_path base));
    raise ClaimInFlight
  else if (already_released : bool) then raise AlreadyReleased
  else
    _ ← (if claim_exists || done_exists
         then _ ← _require_durable_terminal base lease; mret tt else mret tt);
    mret lease.

(** Everything that changes the host, and the record of it. *)
Definition put_back (a : ReleaseArgs) (base prepared : string) (record : PreparedRecord) (lease : pyval) :
    K ReleaseRecord :=
  entries ← lift_res (py_iter (record_scope record));
  restored ← collect restore_policy entries;
  outcomes ← (if start_containers a then collect (start_one (start_allowlist a)) entries
              else lift_res (collect_res (fun e => cid ← py_key e "container_id"; Ok (cid, false)) entries));
  let started := fst <$> List.filter snd outcomes in
  let left := fst <$> List.filter (fun o => negb (snd o)) outcomes in
  now ← clock;
  _ ← _write_record (_release_path base) (release_body base prepared lease restored started left now) false;
  mret {| rr_path := _release_path base; rr_lease_id := lease; restored := restored;
          started_containers := started; not_started := left |}.

Definition release (a : ReleaseArgs) : K ReleaseRecord :=
  match release_names a with
  | None => raise ManifestRejected
  | Some (base, prepared) =>
      record ← read_prepared prepared;
      lease ← may_release base;
      put_back a base prepared record lease
  end.
End Release.
