(* ===== verification/Steady.v ===== *)
(** * What the fence's operations leave alone

    [steady T D N A I]: the invariant [I] survives any schedule, changes at the paths in
    [T], deletions at those in [D], new names in [N], commands in [A], and whatever
    happens outside the process.  Every operation keeps such an invariant when its own
    paths and commands are among them. *)
From S2P Require Import Prelude Sorting Py Effects PyOps Json PyVals Files Paths Host Preflight Records Fence Release.
Open Scope Z_scope.

(** ** Commands *)

(** What [run_host_command] lets through. *)
Definition admissible (argv : list string) : bool :=
  match argv with
  | [] => false
  | program :: rest =>
      negb (existsb (fun t => str_mem t _DESTRUCTIVE_TOKENS) argv) && str_mem program _ALLOWED_PROGRAMS &&
      (negb (String.eqb program "docker") ||
       match rest with
       | verb :: _ => str_mem verb _ALLOWED_DOCKER_VERBS && (negb (String.eqb verb "stop") || non_forcing_stop argv)
       | [] => false
       end)
  end.

(** Commands that only look. *)
Definition looks (argv : list string) : Prop :=
  match argv with
  | "docker" :: ("ps" | "inspect") :: _ => True
  | "lsof" :: _ => True
  | _ => False
  end%string.

Definition pins (cid : string) (argv : list string) : Prop := argv = ["docker"; "update"; "--restart=no"; cid]%string.
Definition stops (cid : string) (argv : list string) : Prop := argv = ["docker"; "stop"; _INFINITE_STOP; cid]%string.

(** ** Invariants *)

Record steady {H} (T D N : path -> Prop) (A : list string -> Prop) (I : machine (world H) -> Prop) : Prop := {
  st_faults w fs : I w -> I (with_faults w fs);
  st_set w p n : T p -> I w -> I (set_node p n w);
  st_new w p n : N p -> vis w !! p = None -> I w -> I (set_node p n w);
  st_delete w p : D p -> I w -> I (with_vis w (delete p (vis w)));
  st_sync w d : I w -> I (with_dur w (sync_names d (vis w) (dur w)));
  st_outside w h t d : I w -> I (with_env w (World h (log (env w)) t d));
  st_command w argv t : A argv -> I w ->
    I (with_env w (World (host (env w)) (log (env w) ++ [(argv, t)]) (ticks (env w)) (draws (env w))))
}.

Definition anywhere (p : path) : Prop := True.
Definition anything (argv : list string) : Prop := True.
Definition but (p q : path) : Prop := q <> p.

Lemma anywhere_holds p : anywhere p. Proof. done. Qed.
#[export] Hint Resolve anywhere_holds : keeps.

Section Closure.
Context {H : Type} (T D N : path -> Prop) (A : list string -> Prop).
Implicit Types I J : machine (world H) -> Prop.

Lemma steady_and I J : steady T D N A I -> steady T D N A J -> steady T D N A (fun w => I w /\ J w).
Proof. intros [] []. split; intros; intuition. Qed.

Lemma steady_or I J : steady T D N A I -> steady T D N A J -> steady T D N A (fun w => I w \/ J w).
Proof. intros [] []. split; intros; intuition. Qed.

Lemma steady_ex {X} (I : X -> machine (world H) -> Prop) :
  (forall x, steady T D N A (I x)) -> steady T D N A (fun w => exists x, I x w).
Proof. intros HI. split; intros w *; repeat intros ?; match goal with H : exists _, _ |- _ => destruct H as [x Hx] end; exists x; destruct (HI x); eauto. Qed.

Lemma steady_all {X} (I : X -> machine (world H) -> Prop) :
  (forall x, steady T D N A (I x)) -> steady T D N A (fun w => forall x, I x w).
Proof. intros HI. split; intros; destruct (HI x); eauto. Qed.

Lemma steady_const (P : Prop) : steady (H:=H) T D N A (fun _ => P).
Proof. by split. Qed.

Lemma steady_weaken (T' D' N' : path -> Prop) (A' : list string -> Prop) I :
  (forall p, T p -> T' p) -> (forall p, D p -> D' p) -> (forall p, N p -> N' p) -> (forall c, A c -> A' c) ->
  steady T' D' N' A' I -> steady T D N A I.
Proof. intros HT HD HN HA []. split; eauto. Qed.
End Closure.

(** Take a computation apart until calls are left. *)
Ltac handler := let e := fresh "e" in let k := fresh "k" in let E := fresh "E" in
  intros e k E; repeat case_match; simplify_eq.

Ltac keep_step :=
  match goal with
  | |- keeps _ (mret _) => apply keeps_ret
  | |- keeps _ (raise _) => apply keeps_raise
  | |- keeps _ (gets _) => apply keeps_gets
  | |- keeps _ (lift_res _) => apply keeps_lift_res
  | |- keeps _ (match ?x with _ => _ end) => destruct x
  | |- keeps _ (_ ≫= _) => apply keeps_bind; [|intros ?]
  | |- keeps _ (finally _ _) => apply keeps_finally
  | |- keeps _ (catch _ _) => apply keeps_catch; [|handler]
  | |- keeps _ (collect _ _) => apply keeps_collect; intros ?
  | |- keeps _ (for_each _ _) => apply keeps_for_each; intros ?
  end.
Ltac keep := repeat (keep_step || (cbv zeta; progress (eauto with keeps))).

Section Steady.
Context {H : Type} (T D N : path -> Prop) (A : list string -> Prop) (I : machine (world H) -> Prop).
Hypothesis HI : steady T D N A I.

Lemma steady_sys {B} (eff : M (machine (world H)) B) : keeps I eff -> keeps I (sys eff).
Proof.
  intros He w Hw. unfold sys. destruct (faults w) as [|f fs]; [by apply He|].
  pose proof (st_faults _ _ _ _ _ HI w fs Hw) as Hf. specialize (He _ Hf).
  destruct f; [done..| |done|done|done]. by destruct (eff (with_faults w fs)) as [[b|e] w'].
Qed.

Ltac effect := apply steady_sys; intros w Hw; cbv [mbind M_bind mret M_ret gets modify raise id]; cbn;
  repeat match goal with |- context [match ?x with _ => _ end] => destruct x eqn:? end; cbn;
  try done; try (by apply HI); try (by apply (st_new _ _ _ _ _ HI)).

Lemma steady_lstat p : keeps I (os_lstat p). Proof. effect. Qed.
Lemma steady_open_read p : keeps I (os_open_read p). Proof. unfold os_open_read. effect. Qed.
Lemma steady_read p : keeps I (os_read p). Proof. effect. Qed.
Lemma steady_close : keeps I os_close. Proof. effect. Qed.
Lemma steady_stat_dir p : keeps I (os_stat_dir p). Proof. unfold os_stat_dir. effect. Qed.
Lemma steady_is_dir p : keeps I (path_is_dir p). Proof. effect. Qed.
Lemma steady_open_dir p : keeps I (os_open_dir p). Proof. unfold os_open_dir. effect. Qed.
Lemma steady_open p : keeps I (os_open p). Proof. unfold os_open. effect. Qed.
Lemma steady_fsync_names d : keeps I (os_fsync_names d). Proof. effect. Qed.
Lemma steady_mkdir p m : N p -> keeps I (os_mkdir p m). Proof. intros. unfold os_mkdir. effect. Qed.
Lemma steady_create p m : N p -> keeps I (os_create p m). Proof. intros. unfold os_create. effect. Qed.
Lemma steady_truncate p : T p -> N p -> keeps I (os_truncate p). Proof. intros. unfold os_truncate. effect. Qed.
Lemma steady_fsync p : T p -> keeps I (os_fsync p). Proof. intros. unfold os_fsync. effect. Qed.

Lemma steady_write p v : T p -> keeps I (os_write p v).
Proof.
  intros Hp w Hw. unfold os_write. revert w Hw.
  enough (Hn : forall n, keeps I (sys (_ ← modify (fun w => match vis w !! p with
         | Some (File mode data _) => set_node p (File mode (data ++ take n v) false) w
         | _ => w end); mret n))) by (intros w Hw; by apply Hn).
  intros n. effect.
Qed.

Lemma steady_rename a b : D a -> T b -> keeps I (os_rename a b).
Proof.
  intros Ha Hb. unfold os_rename. apply steady_sys. intros w Hw.
  cbv [mbind M_bind mret M_ret gets modify raise id]. cbn.
  destruct (vis w !! a) as [n|]; [|done].
  assert (Hi : I (with_vis w (<[b := n]> (delete a (vis w))))).
  { change (I (set_node b n (with_vis w (delete a (vis w))))). apply HI; [done|]. by apply HI. }
  destruct (vis w !! b) as [[]|]; done.
Qed.

Lemma steady_on_host {B} (f : H -> res B * H) : keeps I (on_host f).
Proof. intros w Hw. unfold on_host. destruct (f (host (env w))) as [r h]. by apply HI. Qed.

Lemma steady_attempt {B} (m : M (machine (world H)) B) : keeps I m -> keeps I (attempt m).
Proof. intros Hm w Hw. specialize (Hm w Hw). unfold attempt. by destruct (m w) as [[b|[]] w']. Qed.

Context `{O : Outside H}.

Lemma steady_clock : keeps I clock. Proof. intros w Hw. by apply HI. Qed.
Lemma steady_token n : keeps I (token_hex n). Proof. intros w Hw. by apply HI. Qed.

Lemma steady_run argv t : (admissible argv = true -> A argv) -> keeps I (run_host_command argv t).
Proof.
  assert (Hc : A argv -> keeps I (call_runner argv t)).
  { intros Ha w Hw. unfold call_runner. apply steady_on_host. by apply HI. }
  unfold run_host_command, _require_non_forcing_stop.
  destruct argv as [|program rest]; [intros _; apply keeps_raise|].
  cbv beta iota delta [admissible].
  destruct (existsb (fun t => str_mem t _DESTRUCTIVE_TOKENS) (program :: rest)); [intros _; apply keeps_raise|].
  destruct (str_mem program _ALLOWED_PROGRAMS); [|intros _; apply keeps_raise].
  destruct (String.eqb program "docker"); cbn [negb andb orb].
  2: { intros HA. by apply Hc, HA. }
  destruct rest as [|verb rest]; [intros _; apply keeps_raise|].
  destruct (str_mem verb _ALLOWED_DOCKER_VERBS); cbn [negb andb]; [|intros _; apply keeps_raise].
  destruct (String.eqb verb "stop"); cbn [negb orb]; [|intros HA; by apply Hc, HA].
  destruct (non_forcing_stop _); [intros HA; by apply Hc, HA|intros _; apply keeps_raise].
Qed.
End Steady.

#[export] Hint Resolve steady_lstat steady_open_read steady_read steady_close steady_stat_dir steady_is_dir
  steady_open_dir steady_open steady_fsync_names steady_mkdir steady_create steady_truncate steady_fsync
  steady_write steady_rename steady_on_host steady_attempt steady_clock steady_token steady_run : keeps.

(** ** Looking *)

Section Looking.
Context {H : Type} `{O : Outside H, Sha : Digest, Hmac : Mac, FloatText}.
Context (T D N : path -> Prop) (A : list string -> Prop) (I : machine (world H) -> Prop).
Hypotheses (HI : steady T D N A I) (Hlook : forall argv, admissible argv = true -> looks argv -> A argv).

Lemma keeps_docker args t : (admissible ("docker"%string :: args) = true -> A ("docker"%string :: args)) ->
  keeps I (_docker args t).
Proof. intros HA. unfold _docker. keep. Qed.

Lemma keeps_inspect cid : keeps I (_inspect cid).
Proof. unfold _inspect. keep. apply keeps_docker. intros. by apply Hlook. Qed.

Lemma keeps_try_inspect cid : keeps I (_try_inspect cid).
Proof. unfold _try_inspect. keep. apply keeps_inspect. Qed.

Lemma keeps_host_inventory : keeps I _host_inventory.
Proof.
  unfold _host_inventory, _list_host_containers. keep; [|apply keeps_inspect].
  apply keeps_docker. intros. by apply Hlook.
Qed.

Lemma keeps_list_project p s : keeps I (_list_project_containers p s).
Proof. unfold _list_project_containers. keep. apply keeps_docker. intros. by apply Hlook. Qed.

Lemma keeps_observed {B} (f : machine (world H) -> B) : keeps I (sys (gets f)).
Proof. apply (steady_sys T D N A I HI). intros w Hw. done. Qed.

Lemma keeps_mount_identity v : keeps I (mount_identity v).
Proof.
  unfold mount_identity, os_stat, os_realpath. keep;
    apply (steady_sys T D N A I HI); intros w Hw; cbv [mbind M_bind gets id]; by destruct (stat_id _ _).
Qed.

Lemma keeps_mounts_share i ms : keeps I (mounts_share i ms).
Proof. induction ms as [|m ms IH]; simpl; keep. apply keeps_mount_identity. Qed.

Lemma keeps_inventory_bound inv s d : keeps I (_require_inventory_bound inv s d).
Proof.
  unfold _require_inventory_bound, _mount_sharers, _start_authorities.
  keep; [apply keeps_mount_identity|apply keeps_mounts_share].
Qed.

Lemma keeps_lexists p : keeps I (os_lexists p). Proof. unfold os_lexists. keep. Qed.
Lemma keeps_isdir p : keeps I (os_isdir p). Proof. unfold os_isdir. keep. Qed.
Lemma keeps_islink p : keeps I (os_islink p). Proof. unfold os_islink. keep. Qed.

Lemma keeps_file_facts p : keeps I (_file_facts p).
Proof. unfold _file_facts, _sha256. keep. Qed.

Hint Resolve keeps_inspect keeps_host_inventory keeps_list_project keeps_mount_identity
  keeps_inventory_bound keeps_lexists keeps_isdir keeps_islink keeps_file_facts keeps_observed : keeps.

Lemma keeps_preflight t now : keeps I (preflight t now).
Proof. unfold preflight, resolve_target, _bind_mount. keep. Qed.

Lemma keeps_run_probe paths : keeps I (_run_probe paths).
Proof. unfold _run_probe. keep. apply steady_run with T D N A; [done|]. intros. by apply Hlook. Qed.

Lemma keeps_open_each paths : keeps I (open_each paths).
Proof. induction paths as [|p ps IH]; simpl; keep. Qed.

Lemma keeps_no_descriptors paths : keeps I (_require_no_descriptors paths).
Proof.
  unfold _require_no_descriptors, _verify_probe_visibility, check_visibility.
  keep; try apply keeps_run_probe; apply keeps_open_each.
Qed.

(** ** Reading records *)

Lemma keeps_read_text name : keeps I (read_text name).
Proof.
  unfold read_text. keep. apply (steady_sys T D N A I HI). intros w Hw.
  cbv [mbind M_bind gets id]. by repeat case_match.
Qed.

Lemma keeps_load_record name e : keeps I (load_record name e).
Proof. unfold load_record. keep. apply keeps_read_text. Qed.

Lemma keeps_read_record name st e : keeps I (_read_record name st e).
Proof. unfold _read_record. keep. apply keeps_load_record. Qed.

Lemma keeps_read_apply name states : keeps I (read_apply_record name states).
Proof. unfold read_apply_record. keep; apply keeps_load_record. Qed.

Lemma keeps_read_prepared name : keeps I (read_prepared name).
Proof. unfold read_prepared. keep. apply keeps_read_record. Qed.

Lemma keeps_read_manifest name : keeps I (read_manifest name).
Proof. unfold read_manifest. keep. apply keeps_read_record. Qed.

Lemma keeps_authority_at m v now : keeps I (_require_authority_at m v now).
Proof. unfold _require_authority_at, _reverify_manifest_authority. keep. Qed.

Lemma keeps_claim_binds name m c : keeps I (_require_claim_binds name m c).
Proof. unfold _require_claim_binds. keep; apply keeps_read_apply. Qed.

Lemma keeps_require_bound data : keeps I (require_bound data).
Proof. unfold require_bound. keep. Qed.

Hint Resolve keeps_read_apply keeps_read_prepared keeps_authority_at keeps_claim_binds keeps_require_bound
  keeps_no_descriptors keeps_preflight keeps_read_manifest : keeps.

Lemma keeps_require_active c : keeps I (_require_active c).
Proof. unfold _require_active. keep. Qed.

Lemma keeps_require_authority c : keeps I (_require_authority c).
Proof. unfold _require_authority. keep. Qed.

Hint Resolve keeps_require_active keeps_require_authority : keeps.

Lemma keeps_check c p : keeps I (check_before_source_open c p).
Proof. unfold check_before_source_open. keep. Qed.

Lemma keeps_reattach m v : keeps I (reattach m v).
Proof. unfold reattach. keep. Qed.
End Looking.

(** ** Writing *)

(** The paths [_write_record] touches for a name. *)
Definition writes {H} `{Outside H} (T D N : path -> Prop) (name : string) : Prop :=
  T (at_path name) /\
  (forall token, T (at_path (scratch_of name token)) /\ D (at_path (scratch_of name token)) /\
                 N (at_path (scratch_of name token))) /\
  (forall q, q `suffix_of` dir_at name -> N q).

Section Writing.
Context {H : Type} `{O : Outside H, Sha : Digest, Hmac : Mac, FloatText}.
Context (T D N : path -> Prop) (A : list string -> Prop) (I : machine (world H) -> Prop).
Hypotheses (HI : steady T D N A I) (Hlook : forall argv, admissible argv = true -> looks argv -> A argv).

Lemma keeps_makedirs p m : (forall q, q `suffix_of` p -> N q) -> keeps I (os_makedirs p m).
Proof.
  revert m. induction p as [|name p IH]; intros m HN; simpl; unfold os_exists, path_isdir; keep.
  apply IH. intros q Hq. apply HN. by apply suffix_cons_r.
Qed.

Lemma keeps_flush_buffer p : T p -> forall n b, keeps I (flush_buffer n p b).
Proof. intros Hp n. induction n as [|n IH]; intros [|c b]; simpl; keep. Qed.

Lemma keeps_fsync_directory d : keeps I (fsync_directory d).
Proof. unfold fsync_directory. keep. Qed.

Lemma keeps_write_record name data ow : writes T D N name -> keeps I (_write_record name data ow).
Proof.
  intros (Ht & Hs & Hd). unfold _write_record.
  assert (HT : forall t, T (at_path (scratch_of name t))) by apply Hs.
  assert (HD : forall t, D (at_path (scratch_of name t))) by apply Hs.
  assert (HN : forall t, N (at_path (scratch_of name t))) by apply Hs.
  keep; [by apply keeps_makedirs|by eapply keeps_lexists|by apply keeps_flush_buffer|apply keeps_fsync_directory].
Qed.

Lemma keeps_create_exclusive name text e : T (at_path name) -> N (at_path name) ->
  keeps I (create_exclusive name text e).
Proof. intros. unfold create_exclusive. keep. Qed.

Lemma keeps_operation_lock {B} name (body : M (machine (world H)) B) : let lock := (name ++ ".lock")%string in
  T (at_path lock) -> D (at_path lock) -> N (at_path lock) -> (forall q, q `suffix_of` dir_at lock -> N q) ->
  T (at_path (lock ++ ".released")%string) -> keeps I body -> keeps I (_operation_lock name body).
Proof. intros lock Ht Hd Hn Hq Hr Hb. unfold _operation_lock. keep. by apply keeps_makedirs. Qed.

(** ** Quiescing *)

Lemma keeps_pin_one entry : (forall cid argv, admissible argv = true -> pins cid argv -> A argv) ->
  keeps I (pin_one entry).
Proof.
  intros HA. unfold pin_one. keep; try (by eapply keeps_inspect).
  eapply keeps_docker; [done|]. intros. by eapply HA.
Qed.

Lemma keeps_stop_one d entry : (forall cid argv, admissible argv = true -> stops cid argv -> A argv) ->
  keeps I (stop_one d entry).
Proof.
  intros HA. unfold stop_one. keep; try (by eapply keeps_inspect).
  eapply keeps_docker; [done|]. intros. by eapply HA.
Qed.

Lemma keeps_prepare r pre : writes T D N (prepared_name r) -> keeps I (prepare r pre).
Proof.
  intros Hw. unfold prepare. keep; try (by eapply keeps_lexists); try (by eapply keeps_read_prepared).
  by apply keeps_write_record.
Qed.

Lemma keeps_quiesce r pre ack record g e : writes T D N (manifest_path r) ->
  (forall cid argv, admissible argv = true -> pins cid argv -> A argv) ->
  (forall cid argv, admissible argv = true -> stops cid argv -> A argv) ->
  keeps I (quiesce r pre ack record g e).
Proof.
  intros Hw Hp Hs. unfold quiesce. keep; try (by eapply keeps_file_facts); try (by eapply keeps_no_descriptors).
  - by apply keeps_pin_one.
  - by apply keeps_stop_one.
  - by apply keeps_write_record.
Qed.

Lemma keeps_fence_locked r : writes T D N (manifest_path r) -> writes T D N (prepared_name r) ->
  (forall cid argv, admissible argv = true -> pins cid argv -> A argv) ->
  (forall cid argv, admissible argv = true -> stops cid argv -> A argv) ->
  keeps I (_fence_locked r).
Proof.
  intros. unfold _fence_locked. keep; [by eapply keeps_preflight|by eapply keeps_lexists|..].
  - by apply keeps_prepare.
  - by apply keeps_quiesce.
Qed.

(** ** Claiming, applying, finishing *)

Lemma keeps_claim_checks m v : keeps I (claim_checks m v).
Proof.
  unfold claim_checks. keep; try (by eapply keeps_lexists); try (by eapply keeps_authority_at).
  by eapply keeps_require_bound.
Qed.

Lemma keeps_write_claim m cid t : T (at_path (_claim_path (m_path m))) -> N (at_path (_claim_path (m_path m))) ->
  keeps I (write_claim m cid t).
Proof. intros. unfold write_claim. keep. apply keeps_fsync_directory. Qed.

Lemma keeps_take_claim m v t : T (at_path (_claim_path (m_path m))) -> N (at_path (_claim_path (m_path m))) ->
  keeps I (take_claim m v t).
Proof. intros. unfold take_claim. keep. by apply keeps_write_claim. Qed.

Lemma keeps_start_apply c t : T (at_path (_applying_path (base_of c))) -> N (at_path (_applying_path (base_of c))) ->
  writes T D N (claim_record_path c) -> keeps I (start_apply c t).
Proof.
  intros. unfold start_apply.
  keep; [by apply keeps_create_exclusive|by eapply keeps_read_apply|by apply keeps_write_record].
Qed.

Lemma keeps_finish c outcome reason : writes T D N (_claim_done_path (base_of c)) ->
  writes T D N (claim_record_path c) -> keeps I (_finish c outcome reason).
Proof.
  intros. unfold _finish.
  keep; try (by eapply keeps_claim_binds); try (by eapply keeps_lexists); try (by apply keeps_write_record);
    by eapply keeps_read_apply.
Qed.

(** ** Releasing *)

Lemma keeps_release_exists name : keeps I (_release_path_exists name).
Proof. unfold _release_path_exists. keep. Qed.

Lemma keeps_read_release name states : keeps I (_read_release_record name states).
Proof. unfold _read_release_record. keep; by eapply keeps_read_apply. Qed.

Lemma keeps_confirm name : T (at_path name) -> keeps I (_confirm_durable name).
Proof. intros. unfold _confirm_durable. keep. apply keeps_fsync_directory. Qed.

Lemma keeps_may_release base : T (at_path (_claim_done_path base)) -> keeps I (may_release base).
Proof.
  intros. unfold may_release, release_lease, _require_durable_terminal.
  keep; try apply keeps_release_exists; try (by eapply keeps_read_manifest); try (by eapply keeps_lexists);
    try apply keeps_read_release; by apply keeps_confirm.
Qed.

Lemma keeps_put_back a base prepared record lease : writes T D N (_release_path base) ->
  (forall verb args, (verb = "update" \/ verb = "start")%string ->
    admissible ("docker" :: verb :: args)%string = true -> A ("docker" :: verb :: args)%string) ->
  keeps I (put_back a base prepared record lease).
Proof.
  intros Hw HA. unfold put_back, restore_policy, start_one.
  keep; try (by apply keeps_write_record); try (by eapply keeps_inspect); try (by eapply keeps_try_inspect);
    (eapply keeps_docker; [done|]; apply HA); [by left|by right].
Qed.
End Writing.
