(* ===== verification/WalSafety.v ===== *)
(** * What the fence never does

    The operations of the fence as the steps of a history, in any order and under any
    schedule of failures: which commands they issue, and that a claim is taken and an
    apply begun at most once per manifest. *)
From S2P Require Import Prelude Sorting Py Effects PyOps Json PyVals Files Paths Host Preflight Records Fence Release Steady.
Open Scope Z_scope.

Section Histories.
Context {H : Type} `{O : Outside H, Sha : Digest, Hmac : Mac, FloatText}.
Abbreviation K := (M (machine (world H))).

(** The stretches an operation may be interrupted between: [claim] is [CheckClaim] and
    then [TakeClaim], [begin_apply] is [CheckApply] and then [StartApply], [release] is
    [AskRelease] and then [PutBack]; by then the answers of the first may be out of date. *)
Inductive step :=
| Quiesce (r : Request)
| CheckClaim (m : Manifest) (v : option bytes)
| TakeClaim (m : Manifest) (v : option bytes) (claimed_at : Q)
| Reattach (m : Manifest) (v : option bytes)
| CheckSource (c : Capability) (db_path : string)
| CheckApply (c : Capability)
| StartApply (c : Capability) (started_at : Q)
| Complete (c : Capability)
| Fail (c : Capability) (reason : string)
| AskRelease (prepared base : string)
| PutBack (a : ReleaseArgs) (base prepared : string) (record : PreparedRecord) (lease : pyval)
| PowerCycle.

Definition ignore {A} (m : K A) : K unit := _ ← m; mret tt.

Definition perform (s : step) : K unit :=
  match s with
  | Quiesce r => ignore (fence r)
  | CheckClaim m v => ignore (claim_checks m v)
  | TakeClaim m v t => ignore (take_claim m v t)
  | Reattach m v => ignore (reattach m v)
  | CheckSource c p => ignore (check_before_source_open c p)
  | CheckApply c => _ ← _require_active c; ignore (_require_authority c)
  | StartApply c t => ignore (start_apply c t)
  | Complete c => complete c
  | Fail c reason => fail c reason
  | AskRelease prepared base => _ ← read_prepared prepared; ignore (may_release base)
  | PutBack a base prepared record lease => ignore (put_back a base prepared record lease)
  | PowerCycle => modify (fun w => with_vis w (dur w))
  end.

(** How often a history does something that counts, and returns from it. *)
Fixpoint times (counts : step -> bool) (history : list step) (w : machine (world H)) : nat :=
  match history with
  | [] => 0
  | s :: history =>
      let '(r, w') := perform s w in
      (if counts s && match r with Ok _ => true | Raise _ => false end then 1 else 0) + times counts history w'
  end.

Definition takes_claim (p : path) (s : step) : bool :=
  match s with TakeClaim m _ _ => bool_decide (at_path (_claim_path (m_path m)) = p) | _ => false end.

Definition starts_apply (p : path) (s : step) : bool :=
  match s with StartApply c _ => bool_decide (at_path (_applying_path (base_of c)) = p) | _ => false end.

(** ** Every step keeps what is steady *)

(** The paths a step may write, remove and create are among [T], [D] and [N]. *)
Definition within (T D N : path -> Prop) (s : step) : Prop :=
  match s with
  | Quiesce r =>
      let lock := (manifest_path r ++ ".lock")%string in
      writes T D N (manifest_path r) /\ writes T D N (prepared_name r) /\
      T (at_path lock) /\ D (at_path lock) /\ N (at_path lock) /\ (forall q, q `suffix_of` dir_at lock -> N q) /\
      T (at_path (lock ++ ".released")%string)
  | TakeClaim m _ _ => T (at_path (_claim_path (m_path m))) /\ N (at_path (_claim_path (m_path m)))
  | StartApply c _ =>
      T (at_path (_applying_path (base_of c))) /\ N (at_path (_applying_path (base_of c))) /\
      writes T D N (claim_record_path c)
  | Complete c | Fail c _ => writes T D N (_claim_done_path (base_of c)) /\ writes T D N (claim_record_path c)
  | AskRelease _ base => T (at_path (_claim_done_path base))
  | PutBack _ base _ _ _ => writes T D N (_release_path base)
  | _ => True
  end.

(** The commands a step may issue. *)
Definition permitted (s : step) (argv : list string) : Prop :=
  match s with
  | Quiesce _ => looks argv \/ exists cid, pins cid argv \/ stops cid argv
  | CheckClaim _ _ | CheckSource _ _ => looks argv
  | PutBack _ _ _ _ _ => looks argv \/ exists verb, (verb = "update" \/ verb = "start")%string /\
      exists args, argv = "docker"%string :: verb :: args
  | _ => False
  end.

Lemma perform_keeps T D N A I s : steady T D N A I -> s <> PowerCycle -> within T D N s ->
  (forall argv, admissible argv = true -> permitted s argv -> A argv) -> keeps I (perform s).
Proof.
  intros HI Hne Hw HA. destruct s; simpl in *; unfold ignore, complete, fail; try done; keep.
  - destruct Hw as (? & ? & ? & ? & ? & ? & ?). eapply keeps_operation_lock; [done..|].
    eapply keeps_fence_locked; try done; intros; apply HA; eauto.
  - by eapply keeps_claim_checks.
  - destruct Hw. by eapply keeps_take_claim.
  - by eapply keeps_reattach.
  - by eapply keeps_check.
  - by eapply keeps_require_active.
  - by eapply keeps_require_authority.
  - destruct Hw as (? & ? & ?). by eapply keeps_start_apply.
  - destruct Hw. by eapply keeps_finish.
  - destruct Hw. by eapply keeps_finish.
  - by eapply keeps_read_prepared.
  - by eapply keeps_may_release.
  - eapply keeps_put_back; try done; [by eauto|]. intros verb args Hv Ha. apply HA; [done|]. right. by eauto.
Qed.

(** ** Commands *)

Lemma log_steady (P : list string -> Prop) l0 :
  steady anywhere anywhere anywhere P
    (fun w : machine (world H) => exists cs, log (env w) = l0 ++ cs /\ Forall (fun c => P c.1) cs).
Proof.
  split; simpl; try done. intros w argv t Ha (cs & -> & Hcs). exists (cs ++ [(argv, t)]).
  rewrite app_assoc. split; [done|]. apply Forall_app; split; [done|]. by constructor.
Qed.

Lemma power_or_not (s : step) : s = PowerCycle \/ s <> PowerCycle.
Proof. destruct s; by (left + right). Qed.

Lemma writes_anything name : writes anywhere anywhere anywhere name.
Proof. done. Qed.

Lemma admissible_stop argv : admissible argv = true -> head argv = Some "docker"%string ->
  argv !! 1%nat = Some "stop"%string ->
  List.filter (starts_with_any ["--timeout"; "--time"; "-t"]%string) argv = [_INFINITE_STOP].
Proof.
  destruct argv as [|program [|verb rest]]; [done|done|]. intros Ha [= ->] [= ->].
  cbv beta iota delta [admissible] in Ha. apply andb_true_iff in Ha as [_ Ha].
  change (negb ("docker" =? "docker")%string) with false in Ha. cbn [orb] in Ha.
  apply andb_true_iff in Ha as [_ Ha]. change (negb ("stop" =? "stop")%string) with false in Ha.
  cbn [orb] in Ha. unfold non_forcing_stop in Ha.
  destruct (List.filter (starts_with_any ["--signal"; "-s"]%string) _); [|done]. by apply bool_decide_eq_true in Ha.
Qed.

Lemma admissible_tokens argv t : admissible argv = true -> t ∈ argv -> t ∉ _DESTRUCTIVE_TOKENS.
Proof.
  destruct argv as [|program rest]; [done|]. intros Ha Ht Hd.
  cbv beta iota delta [admissible] in Ha. apply andb_true_iff in Ha as [[Ha _]%andb_true_iff _].
  apply negb_true_iff in Ha. apply not_true_iff_false in Ha. apply Ha, existsb_exists. exists t.
  split; [by apply list_elem_of_In|]. unfold str_mem. apply existsb_exists. exists t.
  split; [by apply list_elem_of_In|apply String.eqb_refl].
Qed.

(** C12: Whatever fails and whenever, the commands a step issues are among the few it may: a
    quiesce only looks, sets policies to [no] and stops containers, a claim and the check
    before an apply only look, the other steps issue none, and only the second half of a
    release updates or starts; no command holds a destructive token, and a stop has no
    timeout but the infinite one. *)
Theorem commands_within_bounds s w : exists cs,
  log (env (perform s w).2) = log (env w) ++ cs /\
  Forall (fun c => permitted s c.1 /\ (forall t, t ∈ c.1 -> t ∉ _DESTRUCTIVE_TOKENS) /\
    (head c.1 = Some "docker"%string -> c.1 !! 1%nat = Some "stop"%string ->
     List.filter (starts_with_any ["--timeout"; "--time"; "-t"]%string) c.1 = [_INFINITE_STOP])) cs.
Proof.
  destruct (power_or_not s) as [->|Hne]; [exists []; by rewrite app_nil_r|].
  set (P := fun argv => permitted s argv /\ (forall t, t ∈ argv -> t ∉ _DESTRUCTIVE_TOKENS) /\
    (head argv = Some "docker"%string -> argv !! 1%nat = Some "stop"%string ->
     List.filter (starts_with_any ["--timeout"; "--time"; "-t"]%string) argv = [_INFINITE_STOP])).
  apply (perform_keeps _ _ _ P _ s (log_steady P (log (env w))) Hne).
  - by destruct s.
  - intros argv Ha Hp. split; [done|]. split; [by intros t; apply admissible_tokens|by apply admissible_stop].
  - exists []. by rewrite app_nil_r.
Qed.

(** ** Exclusive files *)

(** The file is there and will be after a power loss. *)
Definition present (p : path) (w : machine (world H)) : Prop := is_Some (vis w !! p) /\ is_Some (dur w !! p).

Definition last_char (p : path) : option ascii := last (chars (leaf p)).

Lemma present_steady p A :
  steady anywhere (but p) anywhere A (present p).
Proof.
  unfold present. split; simpl; try done.
  - intros w q n _ [Hv Hd]. split; [|done]. destruct (decide (q = p)) as [->|Hq].
    + rewrite lookup_insert_eq. by eexists.
    + by rewrite lookup_insert_ne.
  - intros w q n _ _ [Hv Hd]. split; [|done]. destruct (decide (q = p)) as [->|Hq].
    + rewrite lookup_insert_eq. by eexists.
    + by rewrite lookup_insert_ne.
  - intros w q Hq [Hv Hd]. split; [|done]. by rewrite lookup_delete_ne.
  - intros w d [Hv Hd]. split; [done|]. rewrite lookup_sync_names. case_decide; [|done].
    destruct Hv as [n ->]. by eexists.
Qed.

Lemma last_char_sibling base s c : suffix_ok s = true -> last (chars s) = Some c ->
  last_char (at_path (base ++ s)%string) = Some c.
Proof.
  intros Hs Hc. destruct (at_sibling base s Hs) as [-> _]. unfold last_char.
  change (leaf (child (dir_at base) ?n)) with n. by rewrite chars_append, last_app, Hc.
Qed.

(** Scratch files and locks never have the name of a record. *)
Lemma scratch_last name token : last_char (at_path (scratch_of name token)) = Some "l"%char.
Proof.
  unfold scratch_of.
  assert (E : (name ++ ("." ++ str_of_int getpid ++ "." ++ token ++ ".partial"))%string =
              ((name ++ "." ++ str_of_int getpid ++ "." ++ token) ++ ".partial")%string).
  { by rewrite !append_assoc. }
  rewrite E. by apply last_char_sibling.
Qed.

Lemma lock_last name : last_char (at_path (name ++ ".lock")%string) = Some "k"%char.
Proof. by apply last_char_sibling. Qed.

Lemma step_keeps_present p s w : last_char p = Some "n"%char -> s <> PowerCycle -> present p w ->
  present p (perform s w).2.
Proof.
  intros Hp Hne. apply (perform_keeps _ _ _ anything _ s (present_steady p _) Hne); [|done].
  assert (Hw : forall name, writes anywhere (but p) anywhere name).
  { intros name. split; [done|]. split; [|done]. intros token. split_and!; [done| |done].
    intros <-. by rewrite scratch_last in Hp. }
  destruct s; simpl; split_and?; try done; try apply Hw. intros <-. by rewrite lock_last in Hp.
Qed.

Lemma present_stays p s w : last_char p = Some "n"%char -> present p w -> present p (perform s w).2.
Proof.
  intros Hp Hw. destruct (power_or_not s) as [->|Hne]; [|by apply step_keeps_present].
  destruct Hw. done.
Qed.

(** ** Runs that return *)

Lemma catch_ok {S B} (m : M S B) h s s' b :
  (forall e k t b t', h e = Some k -> k t <> (Ok b, t')) -> catch m h s = (Ok b, s') -> m s = (Ok b, s').
Proof.
  intros Hh. unfold catch. destruct (m s) as [[a|e] s1]; [done|].
  destruct (h e) as [k|] eqn:E; [|done]. intros Hk. by destruct (Hh _ _ _ _ _ E Hk).
Qed.

Lemma create_returned p m (w w' : machine (world H)) : os_create p m w = (Ok tt, w') ->
  vis w !! p = None /\ vis w' = <[p := File m [] false]> (vis w).
Proof.
  unfold os_create. intros (fs & E)%sys_ok. revert E. cbv [mbind M_bind gets modify raise id]. cbn.
  destruct (vis w !! p) eqn:E; [done|]. by destruct (is_directory _); intros [= <-].
Qed.

Lemma fsync_directory_ok d (w w' : machine (world H)) : fsync_directory d w = (Ok tt, w') ->
  vis w' = vis w /\ forall q, parent q = d -> dur w' !! q = durable_node <$> vis w !! q.
Proof.
  unfold fsync_directory. intros Hr. run_ok.
  repeat match goal with u : unit |- _ => destruct u end.
  match goal with E : os_open_dir _ _ = _ |- _ => apply open_dir_ok in E as [Ev _] end.
  match goal with E : os_fsync_names _ _ = _ |- _ => apply fsync_names_ok in E as [Ev2 Ed] end.
  match goal with E : os_close _ = _ |- _ => apply close_ok in E as [Ev3 Ed3] end.
  split; [congruence|]. intros q Hq. rewrite Ed3, Ed, lookup_sync_names. rewrite decide_True by done. congruence.
Qed.

(** A record that was written: the names of its directory are durable. *)
Lemma write_record_syncs name data ow w d w' : _write_record name data ow w = (Ok d, w') ->
  forall q, parent q = dir_at name -> dur w' !! q = durable_node <$> vis w' !! q.
Proof.
  unfold _write_record. intros Hr q Hq. run_ok. case_match; [by run_ok|]. run_ok.
  repeat match goal with u : unit |- _ => destruct u end.
  match goal with E : fsync_directory _ _ = _ |- _ => apply fsync_directory_ok in E as [Ev Ed] end.
  rewrite Ev. by apply Ed.
Qed.

Lemma seen_steady p A :
  steady anywhere (but p) anywhere A (fun w : machine (world H) => is_Some (vis w !! p)).
Proof.
  split; simpl; try done.
  - intros w q n _ Hv. destruct (decide (q = p)) as [->|Hq]; [by rewrite lookup_insert_eq|by rewrite lookup_insert_ne].
  - intros w q n _ _ Hv. destruct (decide (q = p)) as [->|Hq]; [by rewrite lookup_insert_eq|by rewrite lookup_insert_ne].
  - intros w q Hq Hv. by rewrite lookup_delete_ne.
Qed.

Lemma kept_ok {B} (I : machine (world H) -> Prop) (m : K B) w b w' :
  keeps I m -> m w = (Ok b, w') -> I w -> I w'.
Proof. intros Hm E Hw. specialize (Hm w Hw). by rewrite E in Hm. Qed.

Lemma lift_res_ok {B} (r : res B) (w w' : machine (world H)) b : lift_res r w = (Ok b, w') -> r = Ok b /\ w = w'.
Proof. unfold lift_res. by intros [= -> ->]. Qed.

(** An exclusive create, by what it leaves. *)
Lemma exclusive_ok p m h (w w' : machine (world H)) :
  (forall e k t t', h e = Some k -> k t <> (Ok tt, t')) -> catch (os_create p m) h w = (Ok tt, w') ->
  vis w !! p = None /\ is_Some (vis w' !! p).
Proof.
  intros Hh E. apply catch_ok in E; [|by intros e k t [] t'; apply Hh].
  apply create_returned in E as [Hn Hv]. split; [done|]. rewrite Hv, lookup_insert_eq. by eexists.
Qed.

Lemma lost_handler (error : exn) e (k : K unit) t t' :
  (if file_exists e then Some (raise error) else None) = Some k -> k t <> (Ok tt, t').
Proof. destruct (file_exists e); [|done]. by intros [= <-]. Qed.

(** ** The claim *)

Lemma take_claim_ok m v t w c w' : take_claim m v t w = (Ok c, w') ->
  let p := at_path (_claim_path (m_path m)) in vis w !! p = None /\ present p w'.
Proof.
  intros Hr p. unfold take_claim, write_claim in Hr. fold p in Hr. run_ok.
  repeat match goal with
  | u : unit |- _ => destruct u
  | E : lift_res _ _ = _ |- _ => apply lift_res_ok in E as [_ ->]
  | E : token_hex _ _ = _ |- _ => injection E as <- <-
  end.
  match goal with E : catch _ _ _ = _ |- _ => apply exclusive_ok in E as [Hn Hs]; [|by intros ????; apply lost_handler] end.
  match goal with E : fsync_directory _ _ = _ |- _ => apply fsync_directory_ok in E as [Ev Ed] end.
  assert (Hk : is_Some (vis w' !! p)).
  { rewrite Ev. pose proof (seen_steady p anything) as Hst.
    repeat match goal with
    | E : ?m ?a = (Ok _, ?b) |- is_Some (vis ?b !! p) =>
        refine (kept_ok (fun w => is_Some (vis w !! p)) m a _ b _ E _); [by eauto with keeps|]
    end. done. }
  split; [done|]. split; [done|]. rewrite Ed, <- Ev.
  - destruct Hk as [n ->]. by eexists.
  - unfold p, _claim_path. by destruct (sibling_parent (m_path m) ".claim.json" eq_refl) as [-> ->].
Qed.

Lemma start_apply_ok c t w a w' : start_apply c t w = (Ok a, w') ->
  let p := at_path (_applying_path (base_of c)) in vis w !! p = None /\ present p w'.
Proof.
  intros Hr p. unfold start_apply, create_exclusive in Hr. fold p in Hr. run_ok.
  repeat match goal with u : unit |- _ => destruct u end.
  match goal with E : token_hex _ _ = _ |- _ => injection E as <- <- end.
  match goal with E : catch _ _ _ = _ |- _ => apply exclusive_ok in E as [Hn Hs]; [|by intros ????; apply lost_handler] end.
  assert (Hk : is_Some (vis w' !! p)).
  { pose proof (seen_steady p anything) as Hst.
    assert (Hwr : writes anywhere (but p) anywhere (claim_record_path c)).
    { split; [done|]. split; [|done]. intros token. split_and!; [done| |done].
      intros E. pose proof (scratch_last (claim_record_path c) token) as Hl. rewrite E in Hl.
      unfold p, _applying_path in Hl. by rewrite (last_char_sibling _ ".applying.json" "n") in Hl. }
    repeat match goal with
    | E : ?m ?a = (Ok _, ?b) |- is_Some (vis ?b !! p) =>
        refine (kept_ok (fun w => is_Some (vis w !! p)) m a _ b _ E _);
        [by eauto using keeps_read_apply, keeps_write_record with keeps|]
    end. done. }
  match goal with E : _write_record _ _ _ _ = _ |- _ => pose proof (write_record_syncs _ _ _ _ _ _ E p) as Ed end.
  split; [done|]. split; [done|]. rewrite Ed; [destruct Hk as [n ->]; by eexists|].
  unfold p, claim_record_path, _applying_path, _claim_path.
  destruct (sibling_parent (base_of c) ".applying.json" eq_refl) as [-> _].
  by destruct (sibling_parent (base_of c) ".claim.json" eq_refl) as [_ ->].
Qed.

(** A step that needs a file not to be there, and leaves it there, returns once. *)
Lemma at_most_once p (counts : step -> bool) history w : last_char p = Some "n"%char ->
  (forall s w w', counts s = true -> perform s w = (Ok tt, w') -> vis w !! p = None /\ present p w') ->
  (times counts history w <= 1)%nat /\ (present p w -> times counts history w = 0%nat).
Proof.
  intros Hp Hc. revert w. induction history as [|s history IH]; intros w; [split; simpl; lia|].
  simpl. pose proof (present_stays p s w Hp) as Hst. destruct (perform s w) as [[[]|e] w'] eqn:E; simpl in Hst.
  - destruct (counts s) eqn:Ec; simpl.
    + destruct (Hc s w w' Ec E) as [Hn Hp']. destruct (IH w') as [_ Hz]. rewrite Hz by done.
      split; [lia|]. intros [Hv _]. rewrite Hn in Hv. by destruct Hv.
    + destruct (IH w') as [Hl Hz]. split; [lia|]. intros Hw. by apply Hz, Hst.
  - destruct (IH w') as [Hl Hz]. rewrite andb_false_r. split; [lia|]. intros Hw. by apply Hz, Hst.
Qed.

(** C10: Over any history of steps of any number of processes, interleaved between the checks
    and the act, with failures and power losses anywhere, at most one claim is ever
    taken against a manifest, and at most one apply is ever begun. *)
Theorem one_claim_one_apply base history w :
  (times (takes_claim (at_path (_claim_path base))) history w <= 1)%nat /\
  (times (starts_apply (at_path (_applying_path base))) history w <= 1)%nat.
Proof.
  split; [apply (at_most_once (at_path (_claim_path base)))|apply (at_most_once (at_path (_applying_path base)))].
  - unfold _claim_path. by apply last_char_sibling.
  - intros s v v' Hs Hr. destruct s; try done. simpl in Hs. apply bool_decide_eq_true in Hs as <-.
    unfold perform, ignore in Hr. run_ok. by eapply take_claim_ok.
  - unfold _applying_path. by apply last_char_sibling.
  - intros s v v' Hs Hr. destruct s; try done. simpl in Hs. apply bool_decide_eq_true in Hs as <-.
    unfold perform, ignore in Hr. run_ok. by eapply start_apply_ok.
Qed.
End Histories.
