(* ===== verification/WalRelease.v ===== *)
(** * When release may change the host

    Reading a record changes nothing; a release that issues any command has first
    found no claim at all, or a terminal record that is valid, about this claim and
    durable. *)
From S2P Require Import Prelude Sorting Py Effects PyOps Json PyVals Files Paths Host Preflight Records Fence Release Steady WalSafety.
Open Scope Z_scope.

Section Reading.
Context {H : Type} `{O : Outside H, Sha : Digest, Hmac : Mac, FloatText}.
Abbreviation K := (M (machine (world H))).
Implicit Types w : machine (world H).

(** ** Reads *)

(** Only the schedule has moved on. *)
Definition later (w w' : machine (world H)) : Prop := exists fs, w' = with_faults w fs.

Lemma later_refl w : later w w.
Proof. exists (faults w). by destruct w. Qed.

Lemma later_trans w1 w2 w3 : later w1 w2 -> later w2 w3 -> later w1 w3.
Proof. intros [fs ->] [fs' ->]. by exists fs'. Qed.

Lemma later_same w w' : later w w' -> vis w' = vis w /\ dur w' = dur w /\ env w' = env w.
Proof. by intros [fs ->]. Qed.

(** A computation that reads: whatever its outcome, only the schedule moves on. *)
Definition reads {B} (m : K B) : Prop := forall w0, keeps (later w0) m.

Lemma reads_sys {B} (eff : K B) : (forall w, (eff w).2 = w) -> reads (sys eff).
Proof.
  intros He w0 w Hw. unfold sys. destruct (faults w) as [|f fs]; [by rewrite He|].
  assert (Hf : later w0 (with_faults w fs)) by (eapply later_trans; [exact Hw|by exists fs]).
  pose proof (He (with_faults w fs)) as E.
  destruct f; simpl; rewrite ?E; try done. by destruct (eff (with_faults w fs)) as [[b|e] w']; simpl in *; subst.
Qed.

Lemma reads_lexists p : reads (os_lexists p).
Proof. intros w0. unfold os_lexists. keep. by apply reads_sys. Qed.

Lemma reads_text name : reads (read_text name).
Proof.
  intros w0. unfold read_text. keep; apply reads_sys; intros w; [|done..].
  cbv [mbind M_bind gets id]. by repeat case_match.
Qed.

Lemma reads_load name e : reads (load_record name e).
Proof. intros w0. unfold load_record. keep. apply reads_text. Qed.

Lemma reads_record name st e : reads (_read_record name st e).
Proof. intros w0. unfold _read_record. keep. apply reads_load. Qed.

Lemma reads_apply name states : reads (read_apply_record name states).
Proof. intros w0. unfold read_apply_record. keep; apply reads_load. Qed.

Lemma reads_prepared name : reads (read_prepared name).
Proof. intros w0. unfold read_prepared. keep. apply reads_record. Qed.

Lemma reads_manifest name : reads (read_manifest name).
Proof. intros w0. unfold read_manifest. keep. apply reads_record. Qed.

Lemma reads_exists name : reads (_release_path_exists name).
Proof. intros w0. unfold _release_path_exists. keep. by apply reads_sys. Qed.

Lemma reads_release_record name states : reads (_read_release_record name states).
Proof. intros w0. unfold _read_release_record. keep; apply reads_apply. Qed.

Lemma reads_lease base b b' : reads (release_lease base b b').
Proof. intros w0. unfold release_lease. keep; apply reads_manifest. Qed.

Lemma reads_ok {B} (m : K B) w b w' : reads m -> m w = (Ok b, w') -> later w w'.
Proof. intros Hm E. specialize (Hm w w (later_refl w)). by rewrite E in Hm. Qed.

(** ** What a record that was read looked like *)

Definition text_at (name : string) w : option bytes :=
  match vis w !! at_path name with
  | Some (File _ data _) => Some data
  | Some (Dir _) | None => None
  | Some _ => linked (at_path name) (host (env w))
  end.

Definition json_at (name : string) w : option pyval :=
  t ← text_at name w; l ← utf8_decode t; loads_any l.

Lemma later_json name w w' : later w w' -> json_at name w' = json_at name w.
Proof. by intros [fs ->]. Qed.

Definition sealed_record (d : dict) : Prop :=
  py_eqb (get DIGEST_KEY d) (VStr (_digest (without_digest d))) = true.

Definition fence_record_at (name st : string) w (d : dict) : Prop :=
  json_at name w = Some (VDict d) /\ get "schema" d = VStr SCHEMA /\ get "state" d = VStr st /\ sealed_record d.

Definition apply_record_at (name : string) w (d : dict) : Prop :=
  json_at name w = Some (VDict d) /\ get "schema" d = VStr APPLY_SCHEMA /\ sealed_record d.

Lemma read_text_ok name w t w' : read_text name w = (Ok t, w') -> text_at name w = Some t.
Proof.
  unfold read_text, text_at. intros Hr. run_ok.
  match goal with E : sys (gets id ≫= _) _ = _ |- _ => apply sys_ok in E as (fs & E); rename E into E1 end.
  match goal with E : sys (gets _) _ = _ |- _ => apply sys_ok in E as (fs2 & E); apply gets_ok in E as [E2 _] end.
  cbv [mbind M_bind gets mret M_ret raise id] in E1. cbn [vis env with_faults] in E1.
  destruct (vis w !! at_path name) as [[]|] eqn:En;
    try destruct (linked (at_path name) (host (env w))) as [l|] eqn:El; simplify_eq; cbn in *;
    by rewrite ?En, ?El.
Qed.

Lemma load_record_ok name e w v w' : load_record name e w = (Ok v, w') -> json_at name w = Some v.
Proof.
  unfold load_record. intros Hr. run_ok.
  match goal with E : catch _ _ _ = _ |- _ =>
    apply catch_ok, read_text_ok in E; [|by intros; repeat case_match; simplify_eq] end.
  unfold json_at. match goal with E : text_at name w = Some ?t |- _ => rewrite E; simpl end.
  destruct (utf8_decode _ ≫= _) as [v'|]; by run_ok.
Qed.

Lemma negb_if (b : bool) {B} (m k : K B) w c w' :
  (if negb b then m else k) w = (Ok c, w') -> (forall w1, m w1 <> (Ok c, w')) -> b = true /\ k w = (Ok c, w').
Proof. destruct b; simpl; [done|]. intros E Hm. by destruct (Hm w). Qed.

Lemma raise_never {B} e (b : B) w w' : (raise e : K B) w <> (Ok b, w').
Proof. done. Qed.

(** Take one guard of a run that returned. *)
Ltac passed H := apply negb_if in H as [? H]; [|intros ?; apply raise_never].

Lemma read_apply_ok name states w d w' : read_apply_record name states w = (Ok d, w') ->
  apply_record_at name w d /\
  match states with Some l => exists s, s ∈ l /\ get "state" d = VStr s | None => True end.
Proof.
  unfold read_apply_record. intros Hr. apply bind_ok in Hr as (v & w1 & Hl & Hr).
  apply load_record_ok in Hl. apply bind_ok in Hr as (d' & w2 & Hd & Hr).
  apply lift_res_ok in Hd as [Hd ->]. destruct v as [| | | | | |d0]; try done. injection Hd as ->.
  passed Hr. passed Hr.
  match goal with E : py_eqb (get "schema" _) _ = true |- _ => apply py_eqb_str in E as Hs end.
  destruct states as [l|].
  - apply bind_ok in Hr as (b & w3 & Hb & Hr). apply lift_res_ok in Hb as [Hb ->].
    destruct b; [|by run_ok]. run_ok. split; [done|].
    unfold in_strings in Hb. destruct (py_hashable _); [|done]. injection Hb as Hb.
    apply existsb_exists in Hb as (s & Hin%list_elem_of_In & Es%py_eqb_str). by exists s.
  - run_ok. done.
Qed.

Lemma read_record_ok name st e w t d w' : _read_record name st e w = (Ok (t, d), w') ->
  t = name /\ fence_record_at name st w d.
Proof.
  unfold _read_record. intros Hr. apply bind_ok in Hr as (v & w1 & Hl & Hr).
  apply load_record_ok in Hl. apply bind_ok in Hr as (d' & w2 & Hd & Hr).
  apply lift_res_ok in Hd as [Hd ->]. destruct v as [| | | | | |d0]; try done. injection Hd as ->.
  passed Hr. passed Hr. passed Hr. apply mret_ok in Hr as [[= <- <-] _].
  repeat match goal with E : py_eqb (get _ _) (VStr _) = true |- _ => apply py_eqb_str in E end.
  split; [done|]. split_and!; try done. unfold sealed_record. by apply py_eqb_str.
Qed.

Lemma read_release_ok name states w d w' : _read_release_record name states w = (Ok d, w') ->
  read_apply_record name states w = (Ok d, w').
Proof. intros E. apply catch_ok in E; [done|]. intros ????? Hk. by repeat case_match; simplify_eq. Qed.

Lemma exists_ok name w b w' : _release_path_exists name w = (Ok b, w') ->
  later w w' /\ b = bool_decide (is_Some (vis w !! at_path name)).
Proof.
  intros E. split; [by eapply reads_ok; [apply reads_exists|]|].
  apply catch_ok in E; [|by intros; repeat case_match; simplify_eq]. run_ok.
  match goal with E : os_lstat _ _ = _ |- _ => apply lstat_ok in E as [_ ->] end.
  by destruct (vis w !! at_path name); simplify_eq.
Qed.

(** ** Durable records *)

Lemma fsync_directory_env d w w' : fsync_directory d w = (Ok tt, w') -> env w' = env w.
Proof.
  intros E. refine (kept_ok (fun v => env v = env w) _ _ _ _ _ E eq_refl).
  unfold fsync_directory. keep; intros v Hv; unfold os_open_dir, os_fsync_names, os_close, sys;
    cbv [mbind M_bind gets mret M_ret raise id modify]; repeat case_match; by simplify_eq/=.
Qed.


(** What calls see of the file is what a power loss leaves of it. *)
Definition durable (name : string) w : Prop := dur w !! at_path name = vis w !! at_path name.

(** The flushed flag apart, the same files and the same commands. *)
Definition same_files w w' : Prop :=
  env w' = env w /\ forall p,
    vis w' !! p = vis w !! p \/
    exists m d s, vis w !! p = Some (File m d s) /\ vis w' !! p = Some (File m d true).

Lemma same_files_refl w w' : vis w' = vis w -> env w' = env w -> same_files w w'.
Proof. intros Ev Ee. split; [done|]. intros p. left. by rewrite Ev. Qed.

Lemma same_files_json name w w' : same_files w w' -> json_at name w' = json_at name w.
Proof.
  intros [Ee Hp]. unfold json_at, text_at. rewrite Ee.
  destruct (Hp (at_path name)) as [->|(m & d & s & -> & ->)]; done.
Qed.

Lemma same_files_none p w w' : same_files w w' -> vis w !! p = None -> vis w' !! p = None.
Proof. intros [_ Hp] Hn. destruct (Hp p) as [->|(m & d & s & E & _)]; [done|congruence]. Qed.

Lemma fsync_effect p w w' : os_fsync p w = (Ok tt, w') -> env w' = env w /\
  vis w' = match vis w !! p with Some (File m d _) => <[p := File m d true]> (vis w) | _ => vis w end.
Proof.
  unfold os_fsync. intros (fs & E)%sys_ok. cbv [modify] in E. injection E as <-. cbn.
  by destruct (vis w !! p) as [[]|].
Qed.

Lemma open_ok p w w' : os_open p w = (Ok tt, w') -> later w w'.
Proof.
  intros E. refine (reads_ok _ _ _ _ _ E). apply reads_sys. intros v.
  cbv [mbind M_bind gets id]. by repeat case_match.
Qed.

Lemma confirm_ok name w w' : dir_at name = parent (at_path name) -> _confirm_durable name w = (Ok tt, w') ->
  same_files w w' /\ durable name w'.
Proof.
  intros Hd E. apply catch_ok in E; [|by intros; repeat case_match; simplify_eq].
  run_ok. repeat match goal with u : unit |- _ => destruct u end.
  match goal with E : os_open _ _ = _ |- _ => apply open_ok, later_same in E as (Ov & _ & Oe) end.
  match goal with E : os_fsync _ _ = _ |- _ => apply fsync_effect in E as [Fe Fv] end.
  match goal with E : os_close _ = _ |- _ => apply nothing_ok in E as (_ & Cv & _ & Ce) end.
  match goal with E : fsync_directory _ _ = _ |- _ =>
    pose proof (fsync_directory_env _ _ _ E) as De; apply fsync_directory_ok in E as [Dv Dd] end.
  assert (Ev : vis w' = match vis w !! at_path name with
                        | Some (File m d _) => <[at_path name := File m d true]> (vis w) | _ => vis w end).
  { rewrite Dv, Cv, Fv, Ov. done. }
  split.
  - split; [congruence|]. intros p. rewrite Ev.
    destruct (vis w !! at_path name) as [[m d s| | |]|] eqn:En; try by left.
    destruct (decide (p = at_path name)) as [->|Hp].
    + right. exists m, d, s. split; [done|]. by rewrite lookup_insert_eq.
    + left. by rewrite lookup_insert_ne.
  - unfold durable. rewrite Dd by done. rewrite <- Dv, Ev.
    destruct (vis w !! at_path name) as [[m d s| | |]|] eqn:En; try by rewrite En.
    by rewrite lookup_insert_eq.
Qed.

(** ** The questions before the first change *)

(** No claim was ever taken, as far as the files say. *)
Definition unclaimed (base : string) w : Prop :=
  vis w !! at_path (_claim_path base) = None /\ vis w !! at_path (_claim_done_path base) = None.

(** The claim is spent: a terminal record that is whole, about this claim, of this fence,
    and still there after a power loss. *)
Definition spent (base : string) w : Prop := exists record live m lease,
  apply_record_at (_claim_done_path base) w record /\
  (get "state" record = VStr COMPLETED \/ get "state" record = VStr FAILED) /\
  apply_record_at (_claim_path base) w live /\
  fence_record_at base QUIESCED w m /\ lease_id {| m_path := base; m_data := m |} = Ok lease /\
  (truthy lease = true -> py_eqb (get "lease_id" live) lease = true) /\
  get "manifest_path" live = VStr base /\ get "manifest_path" record = VStr base /\
  py_eqb (get "claim_id" record) (get "claim_id" live) = true /\
  py_eqb (get "lease_id" record) (get "lease_id" live) = true /\
  durable (_claim_done_path base) w.

Lemma fields_match_ok record checks e : fields_match record checks e = Ok tt ->
  Forall (fun c => py_eqb (get c.1 record) c.2 = true) checks.
Proof.
  induction checks as [|[name expected] checks IH]; simpl; [by constructor|].
  destruct (py_eqb (get name record) expected) eqn:E; [|done]. intros Hm. constructor; [done|by apply IH].
Qed.

Lemma durable_terminal_ok base lease w d w' : _require_durable_terminal base lease w = (Ok d, w') ->
  same_files w w' /\ durable (_claim_done_path base) w' /\ exists live,
  apply_record_at (_claim_done_path base) w d /\
  (get "state" d = VStr COMPLETED \/ get "state" d = VStr FAILED) /\
  apply_record_at (_claim_path base) w live /\
  (truthy lease = true -> py_eqb (get "lease_id" live) lease = true) /\
  get "manifest_path" live = VStr base /\ get "manifest_path" d = VStr base /\
  py_eqb (get "claim_id" d) (get "claim_id" live) = true /\
  py_eqb (get "lease_id" d) (get "lease_id" live) = true.
Proof.
  unfold _require_durable_terminal. intros Hr.
  apply bind_ok in Hr as (record & w1 & E1 & Hr). apply bind_ok in Hr as (live & w2 & E2 & Hr).
  pose proof (reads_ok _ _ _ _ (reads_release_record _ _) E1) as L1.
  pose proof (reads_ok _ _ _ _ (reads_release_record _ _) E2) as L2.
  apply read_release_ok, read_apply_ok in E1 as [A1 (st & Hin & Hst)].
  apply read_release_ok, read_apply_ok in E2 as [A2 _].
  destruct (truthy lease && negb (py_eqb (get "lease_id" live) lease)) eqn:El; [by run_ok|].
  passed Hr. match goal with E : py_eqb (get "manifest_path" live) _ = true |- _ => apply py_eqb_str in E as Hm end.
  apply bind_ok in Hr as ([] & w3 & E3 & Hr). apply lift_res_ok in E3 as [E3 ->].
  apply bind_ok in Hr as ([] & w4 & E4 & Hr). apply mret_ok in Hr as [-> ->].
  apply confirm_ok in E4 as [Hs Hd].
  2: { unfold _claim_done_path. by destruct (sibling_parent base ".claim.done.json" eq_refl) as [-> ->]. }
  apply fields_match_ok in E3. rewrite !Forall_cons in E3. destruct E3 as (F1 & F2 & F3 & _). simpl in F1, F2, F3.
  pose proof (later_same _ _ (later_trans _ _ _ L1 L2)) as (V & _ & En).
  split; [|split; [done|]].
  { destruct Hs as [He Hp]. split; [congruence|]. intros p. specialize (Hp p). by rewrite V in Hp. }
  exists live. split_and!; try done.
  - apply elem_of_cons in Hin as [->|[->|[]%elem_of_nil]%elem_of_cons]; auto.
  - unfold apply_record_at in *. by rewrite (later_json _ _ _ L1) in A2.
  - intros Ht. rewrite Ht in El. by apply negb_false_iff in El.
  - by apply py_eqb_str.
Qed.

Lemma release_lease_ok base b b' w lease w' : release_lease base b b' w = (Ok lease, w') ->
  (b = true /\ exists m, fence_record_at base QUIESCED w m /\ lease_id {| m_path := base; m_data := m |} = Ok lease)
  \/ (b = false /\ b' = false).
Proof.
  unfold release_lease. destruct b; [left|right; by destruct b'; [run_ok|]]. split; [done|].
  apply catch_ok in H1; [|by intros; repeat case_match; simplify_eq]. run_ok.
  match goal with E : read_manifest _ _ = _ |- _ => unfold read_manifest in E end. run_ok.
  repeat match goal with E : lift_res _ _ = _ |- _ => apply lift_res_ok in E as [? ->] end.
  match goal with x : _ * _ |- _ => destruct x end.
  match goal with E : _read_record _ _ _ _ = _ |- _ => apply read_record_ok in E as [-> ?] end.
  run_ok. by eexists.
Qed.

Lemma may_release_ok base w lease w' : may_release base w = (Ok lease, w') ->
  env w' = env w /\ (unclaimed base w' \/ spent base w').
Proof.
  unfold may_release. intros Hr.
  apply bind_ok in Hr as (b1 & w1 & E1 & Hr). apply exists_ok in E1 as [L1 B1].
  apply bind_ok in Hr as (b2 & w2 & E2 & Hr). apply exists_ok in E2 as [L2 B2].
  apply bind_ok in Hr as (b3 & w3 & E3 & Hr). apply exists_ok in E3 as [L3 B3].
  apply bind_ok in Hr as (b4 & w4 & E4 & Hr). apply exists_ok in E4 as [L4 _].
  apply bind_ok in Hr as (lease' & w5 & E5 & Hr).
  pose proof (reads_ok _ _ _ _ (reads_lease _ _ _) E5) as L5. apply release_lease_ok in E5.
  assert (L14 : later w w4) by (eapply later_trans; [|exact L4]; eapply later_trans; [|exact L3];
    by eapply later_trans).
  destruct (later_same _ _ (later_trans _ _ _ L14 L5)) as (V & _ & Ev).
  destruct (later_same _ _ L1) as (V1 & _ & _). destruct (later_same _ _ (later_trans _ _ _ L1 L2)) as (V2 & _ & _).
  rewrite V1 in B2. rewrite V2 in B3.
  destruct (b2 && negb b3) eqn:Ec; [by run_ok|]. destruct b4; [by run_ok|].
  apply bind_ok in Hr as ([] & w6 & E6 & Hr). apply mret_ok in Hr as [-> ->].
  destruct (b2 || b3) eqn:Eo.
  - run_ok. match goal with E : _require_durable_terminal _ _ _ = _ |- _ =>
      apply durable_terminal_ok in E as (Hs & Hd & live & A1 & St & A2 & Hl & M1 & M2 & C & L) end.
    split; [destruct Hs; congruence|]. right.
    destruct E5 as [(_ & m & Hm & Hlease)|[_ Hf]]; [|congruence].
    exists x, live, m, lease. unfold apply_record_at, fence_record_at in *.
    rewrite !(same_files_json _ _ _ Hs). rewrite <- (later_json _ _ _ L5) in Hm.
    destruct_and?. by split_and!.
  - apply mret_ok in E6 as [_ ->]. apply orb_false_iff in Eo as [-> ->]. split; [done|]. left.
    symmetry in B2, B3. apply bool_decide_eq_false, eq_None_not_Some in B2, B3.
    unfold unclaimed. rewrite V. done.
Qed.

Lemma reads_env {B} (m : K B) e : reads m -> keeps (fun v => env v = e) m.
Proof. intros Hm w Hw. destruct (later_same _ _ (Hm w w (later_refl w))) as (_ & _ & ->). done. Qed.

Lemma may_release_env base w : env (may_release base w).2 = env w.
Proof.
  enough (Hk : keeps (fun v => env v = env w) (may_release base)) by by apply Hk.
  pose proof (respects_env (W:=world H) anywhere (fun e => e = env w)) as HR.
  unfold may_release, _require_durable_terminal, _confirm_durable, fsync_directory.
  keep; try (by apply reads_env, reads_exists); try (by apply reads_env, reads_lease);
    try (by apply reads_env, reads_release_record); try (by apply reads_env, reads_lexists).
  apply reads_env, reads_sys. intros v. cbv [mbind M_bind gets id]. by repeat case_match.
Qed.

(** C13: Whatever fails and whenever, a release that issues any command at all has, just
    before its first one, either found neither a claim nor a terminal record, or read a
    terminal record that is whole, belongs to the live claim, the lease and this
    manifest, says COMPLETED or FAILED, and survives a power loss. *)
Theorem release_waits_for_the_claim a w :
  log (env (release a w).2) = log (env w) \/
  exists base prepared record lease w1, release_names a = Some (base, prepared) /\
    release a w = put_back a base prepared record lease w1 /\ log (env w1) = log (env w) /\
    (unclaimed base w1 \/ spent base w1).
Proof.
  unfold release. destruct (release_names a) as [[base prepared]|] eqn:En; [|by left].
  pose proof (reads_prepared prepared w w (later_refl w)) as L.
  destruct (read_prepared prepared w) as [[record|e] w1] eqn:E1; simpl in L;
    destruct (later_same _ _ L) as (_ & _ & Ee).
  2: { left. unfold mbind, M_bind. rewrite E1. simpl. by rewrite Ee. }
  destruct (may_release base w1) as [[lease|e] w2] eqn:E2.
  - right. exists base, prepared, record, lease, w2. pose proof (may_release_ok _ _ _ _ E2) as [Ev Hs].
    split_and!; [done| |by rewrite Ev, Ee|done]. unfold mbind, M_bind. by rewrite E1, E2.
  - left. unfold mbind, M_bind. rewrite E1, E2. simpl.
    pose proof (may_release_env base w1) as Hk. rewrite E2 in Hk. simpl in Hk. by rewrite Hk, Ee.
Qed.
End Reading.
