(* ===== verification/WalRecords.v ===== *)
(** * Sealed records read back

    A record that was written is whole, durable and its own digest: what is read of it,
    before or after a power loss, is what was written. *)
From S2P Require Import Prelude Sorting Py Effects PyOps Json PyVals Files Paths Host Preflight Records Fence Release Steady WalSafety WalRelease.
From stdpp Require Import sorting.
Open Scope Z_scope.

(** ** Members in key order *)

Lemma sort_keys_perm {V} (l l' : list (string * V)) : NoDup l.*1 -> l ≡ₚ l' -> sort_by key_leb l = sort_by key_leb l'.
Proof.
  intros Hnd Hp. apply (StronglySorted_unique_strong (fun x y => key_leb x y = true)).
  - intros [k v] [k' v'] H1 H2 Hle Hge. unfold key_leb in *. simpl in *.
    assert (k = k') as -> by (by apply str_leb_antisym).
    rewrite sort_by_perm in H1. rewrite sort_by_perm, <- Hp in H2.
    apply (dict_get_elem k' v l Hnd) in H1. apply (dict_get_elem k' v' l Hnd) in H2. congruence.
  - apply sort_by_sorted; intros *; [apply str_leb_total|apply str_leb_trans].
  - apply sort_by_sorted; intros *; [apply str_leb_total|apply str_leb_trans].
  - by rewrite !sort_by_perm.
Qed.

Section Digests.
Context `{FloatText, !FloatLaws, Sha : Digest}.

Lemma keys_map {V V'} (f : V -> V') (d : list (string * V)) :
  (List.map (fun kv => (kv.1, f kv.2)) d).*1 = d.*1.
Proof. induction d as [|[k v] d IH]; [done|]. simpl. by f_equal. Qed.

(** The canonical text does not see the order of members. *)
Lemma dump_perm (d d' : dict) : NoDup d.*1 -> d ≡ₚ d' -> dump (VDict d) = dump (VDict d').
Proof.
  intros Hnd Hp. cbn [dump]. do 3 f_equal. f_equal. apply sort_keys_perm; [by rewrite keys_map|].
  by apply Permutation_map.
Qed.

Lemma dump_canon v : json_ok v -> dump (canon v) = dump v.
Proof.
  induction v as [| | | | |l IH|d IH] using pyval_nested_ind; intros Hv; try done.
  - inversion Hv as [| | | | |l' Hl|]; subst. cbn [canon dump]. do 3 f_equal. rewrite map_map.
    apply map_ext_in. intros v Hin%list_elem_of_In. rewrite Forall_forall in IH, Hl. by apply IH, Hl.
  - inversion Hv as [| | | | | |d' Hnd Hd]; subst. cbn [canon].
    rewrite <- (dump_perm (List.map (fun kv => (kv.1, canon kv.2)) d)); [|by rewrite keys_map|by rewrite sort_by_perm].
    cbn [dump]. do 3 f_equal. f_equal. rewrite map_map. f_equal.
    apply map_ext_in. intros [k v] Hin%list_elem_of_In. rewrite Forall_forall in IH, Hd. simpl. f_equal.
    by apply (IH _ Hin), (Hd _ Hin).
Qed.

Lemma filter_map_keys (p : string -> bool) (f : pyval -> pyval) (d : dict) :
  List.filter (fun kv => p kv.1) (List.map (fun kv => (kv.1, f kv.2)) d) =
  List.map (fun kv => (kv.1, f kv.2)) (List.filter (fun kv => p kv.1) d).
Proof. induction d as [|[k v] d IH]; [done|]. simpl. destruct (p k); simpl; by rewrite IH. Qed.

Lemma filter_perm {V} (p : V -> bool) (l l' : list V) : l ≡ₚ l' -> List.filter p l ≡ₚ List.filter p l'.
Proof.
  induction 1 as [|x l l' _ IH|x y l|l l' l'' _ IH1 _ IH2]; simpl; [done| | |by rewrite IH1].
  - destruct (p x); by rewrite IH.
  - destruct (p x), (p y); try done. apply Permutation_swap.
Qed.

Lemma keys_filter (p : string -> bool) (d : dict) :
  (List.filter (fun kv => p kv.1) d).*1 = List.filter p d.*1.
Proof. induction d as [|[k v] d IH]; [done|]. simpl. destruct (p k); simpl; [by f_equal|done]. Qed.

Lemma without_digest_nodup (d : dict) : NoDup d.*1 -> NoDup (without_digest d).*1.
Proof. intros Hnd. unfold without_digest. rewrite (keys_filter (fun k => negb (String.eqb k DIGEST_KEY))). by apply NoDup_list_filter. Qed.

(** The digest of a record read back is the digest of the record. *)
Lemma digest_canon (d : dict) : json_ok (VDict d) -> _digest (without_digest (canon_dict d)) = _digest (without_digest d).
Proof.
  intros Hd. inversion Hd as [| | | | | |d' Hnd Hv]; subst. unfold _digest. f_equal.
  assert (Hw : json_ok (VDict (without_digest d))).
  { constructor; [by apply without_digest_nodup|]. rewrite Forall_forall in *. unfold without_digest.
    intros kv Hin%list_elem_of_In%List.filter_In. apply Hv, list_elem_of_In. tauto. }
  rewrite <- (dump_canon _ Hw). cbn [canon].
  transitivity (dump (VDict (List.map (fun kv => (kv.1, canon kv.2)) (without_digest d)))).
  - symmetry. apply dump_perm; [rewrite keys_map; by apply without_digest_nodup|].
    unfold without_digest, canon_dict. rewrite <- (filter_map_keys (fun k => negb (String.eqb k DIGEST_KEY)) canon).
    apply filter_perm. by rewrite sort_by_perm.
  - apply dump_perm; [rewrite keys_map; by apply without_digest_nodup|]. by rewrite sort_by_perm.
Qed.

Lemma without_digest_app (d : dict) v : without_digest (d ++ [(DIGEST_KEY, v)]) = without_digest d.
Proof. unfold without_digest. rewrite List.filter_app. simpl. by rewrite app_nil_r. Qed.

Lemma without_digest_twice (d : dict) : without_digest (without_digest d) = without_digest d.
Proof. unfold without_digest. apply filter_filter_weaken. done. Qed.

Lemma digest_key_fresh (d : dict) : DIGEST_KEY ∉ (without_digest d).*1.
Proof.
  unfold without_digest. rewrite (keys_filter (fun k => negb (String.eqb k DIGEST_KEY))).
  intros Hin%list_elem_of_In%List.filter_In. destruct Hin as [_ Hk]. by rewrite String.eqb_refl in Hk.
Qed.

Lemma get_app_fresh k (d d' : dict) : k ∉ d.*1 -> get k (d ++ d') = get k d'.
Proof.
  unfold get. induction d as [|[k' v] d IH]; [done|]. simpl. intros [Hne Hk]%not_elem_of_cons.
  destruct (String.eqb_spec k k'); [done|]. by apply IH.
Qed.

Lemma lookup_app_ne k k' v (d : dict) : k <> k' -> dict_get k (d ++ [(k', v)]) = dict_get k d.
Proof.
  intros Hne. induction d as [|[k2 v2] d IH]; simpl.
  - by destruct (String.eqb_spec k k').
  - by destruct (String.eqb k k2).
Qed.

Lemma lookup_without k (d : dict) : k <> DIGEST_KEY -> dict_get k (without_digest d) = dict_get k d.
Proof.
  intros Hne. unfold without_digest. induction d as [|[k2 v2] d IH]; [done|]. simpl.
  destruct (String.eqb_spec k2 DIGEST_KEY) as [->|]; simpl.
  - rewrite IH. by destruct (String.eqb_spec k DIGEST_KEY).
  - by destruct (String.eqb k k2).
Qed.

Lemma lookup_seal k (d : dict) : k <> DIGEST_KEY -> dict_get k (_seal d) = dict_get k d.
Proof. intros Hne. unfold _seal. rewrite lookup_app_ne by done. by apply lookup_without. Qed.

(** What sealing leaves of a record: the same members, and its own digest. *)
Lemma seal_ok (d : dict) : json_ok (VDict d) ->
  json_ok (VDict (_seal d)) /\ sealed_record (canon_dict (_seal d)) /\
  forall k, k <> DIGEST_KEY -> get k (canon_dict (_seal d)) = canon (get k d).
Proof.
  intros Hd. inversion Hd as [| | | | | |d' Hnd Hv]; subst.
  pose proof (without_digest_nodup _ Hnd) as Hwn. pose proof (digest_key_fresh d) as Hf.
  assert (Hok : json_ok (VDict (_seal d))).
  { unfold _seal. constructor.
    - rewrite fmap_app. apply NoDup_app. split_and!; [done| |by apply NoDup_singleton].
      intros k Hk Hin. apply list_elem_of_singleton in Hin as ->. done.
    - apply Forall_app; split; [|by repeat constructor]. rewrite Forall_forall in *.
      intros kv Hin%list_elem_of_In%List.filter_In. apply Hv, list_elem_of_In. tauto. }
  assert (Hkeys : NoDup (_seal d).*1) by by inversion Hok.
  split; [done|]. split.
  - unfold sealed_record. rewrite digest_canon by done. rewrite get_canon by done.
    unfold _seal. rewrite get_app_fresh, without_digest_app, without_digest_twice by done.
    apply py_eqb_str. reflexivity.
  - intros k Hne. rewrite get_canon by done. f_equal. unfold get. by rewrite lookup_seal.
Qed.
End Digests.

(** ** Writing *)

Section Written.
Context {H : Type} `{O : Outside H, !OutsideLaws, Sha : Digest, Hmac : Mac, FloatText}.
Implicit Types w : machine (world H).

Lemma str_forall_chars p s : str_forall p s = true <-> Forall (fun c => p c = true) (chars s).
Proof.
  induction s as [|c s IH]; simpl; [by split|]. rewrite andb_true_iff, IH.
  change (chars (String c s)) with (c :: chars s). by rewrite Forall_cons.
Qed.

Lemma int_no_slash z : Forall (fun c => negb (is_slash c) = true) (chars (str_of_int z)).
Proof.
  destruct (int_text z) as (sg & c & ds & -> & Hds & _ & Hsg). apply Forall_app; split.
  - destruct Hsg as [[-> _]|[-> _]]; by repeat constructor.
  - eapply Forall_impl; [exact Hds|]. intros x Hx. revert Hx. by destruct x as [[] [] [] [] [] [] [] []].
Qed.

Lemma scratch_sibling name n k :
  at_path (scratch_of name (token_drawn n k)) =
    child (dir_at name) (basename name ++ "." ++ str_of_int getpid ++ "." ++ token_drawn n k ++ ".partial")%string /\
  at_path (scratch_of name (token_drawn n k)) <> at_path name.
Proof.
  assert (Hs : suffix_ok ("." ++ str_of_int getpid ++ "." ++ token_drawn n k ++ ".partial")%string = true).
  { unfold suffix_ok. apply andb_true_iff; split.
    - apply str_forall_chars. rewrite !chars_append. rewrite !Forall_app.
      split_and!; try (by repeat constructor); [apply int_no_slash|apply str_forall_chars, token_plain].
    - rewrite !length_append. cbn [String.length]. apply Nat.leb_le. lia. }
  split; [by apply at_sibling|by apply sibling_not_self].
Qed.

(** No symlink or device sits where a scratch file is to be created. *)
Definition no_link_at (p : path) w : Prop :=
  match vis w !! p with Some (Symlink _) | Some Special => False | _ => True end.

Definition free_of_links (name : string) w : Prop :=
  forall n k, no_link_at (at_path (scratch_of name (token_drawn n k))) w.

(** The name's last component is a file name. *)
Definition proper_name (name : string) : Prop := at_path name = child (dir_at name) (basename name).

Lemma flush_ok p n : forall b m d x w w', (length b <= n)%nat -> vis w !! p = Some (File m d x) ->
  flush_buffer n p b w = (Ok tt, w') -> exists x', vis w' !! p = Some (File m (d ++ b) x').
Proof.
  induction n as [|n IH]; intros b m d x w w' Hl Hp Hr.
  - destruct b; [|simpl in Hl; lia]. simpl in Hr. run_ok. rewrite app_nil_r. by eexists.
  - destruct b as [|c b]; simpl in Hr; [run_ok; rewrite app_nil_r; by eexists|].
    apply bind_ok in Hr as (k & w1 & Ew & Hr). apply write_ok with (m := m) (d := d) (s := x) in Ew as [Hv Hk]; [|done].
    specialize (Hk ltac:(done)).
    assert (Hd : (length (drop k (c :: b)) <= n)%nat) by (rewrite length_drop; simpl in *; lia).
    apply (IH _ _ _ _ _ _ Hd Hv) in Hr as [x' Hx].
    exists x'. rewrite Hx. do 2 f_equal. by rewrite <- app_assoc, take_drop.
Qed.

Lemma truncate_ok p w w' : no_link_at p w -> os_truncate p w = (Ok tt, w') ->
  exists m, vis w' !! p = Some (File m [] false).
Proof.
  unfold no_link_at, os_truncate. intros Hn (fs & E)%sys_ok. revert E.
  cbv [mbind M_bind gets modify raise mret M_ret id]. cbn.
  destruct (vis w !! p) as [[]|]; try done; [|destruct (is_directory _); [|done]];
    intros [= <-]; simpl; rewrite lookup_insert_eq; by eexists.
Qed.

Lemma seen_node_steady (p : path) n A :
  steady (but p) (but p) (but p) A (fun w => vis w !! p = n).
Proof.
  unfold but. split; simpl; try done; intros w q; intros.
  - by rewrite lookup_insert_ne.
  - by rewrite lookup_insert_ne.
  - by rewrite lookup_delete_ne.
Qed.

(** What a write that returned has left behind, whatever failed on the way. *)
Lemma write_record_ok name data ow w d w' : proper_name name -> free_of_links name w ->
  _write_record name data ow w = (Ok d, w') ->
  d = _seal data /\ exists m, vis w' !! at_path name = Some (File m (record_text (_seal data)) true) /\
  durable name w'.
Proof.
  intros Hn Hfree Hr. pose proof (write_record_syncs _ _ _ _ _ _ Hr (at_path name)) as Hdur.
  rewrite Hn in Hdur. specialize (Hdur eq_refl). rewrite <- Hn in Hdur.
  unfold _write_record in Hr. apply bind_ok in Hr as ([] & w1 & E1 & Hr).
  apply bind_ok in Hr as (taken & w2 & E2 & Hr). destruct taken; [by run_ok|].
  apply bind_ok in Hr as (token & w3 & E3 & Hr). unfold token_hex in E3. injection E3 as <- <-.
  set (k := draws (env w2)) in *. set (s := at_path (scratch_of name (token_drawn 8 k))) in *.
  destruct (scratch_sibling name 8 k) as [Es Hne].
  assert (Hs : vis w2 !! s = vis w !! s).
  { pose proof (seen_node_steady s (vis w !! s) anything) as Hst.
    refine (kept_ok (fun v => vis v !! s = vis w !! s) _ _ _ _ _ E2 _);
      [destruct ow; [apply keeps_ret|by eapply keeps_lexists]|].
    refine (kept_ok (fun v => vis v !! s = vis w !! s) _ _ _ _ _ E1 eq_refl).
    eapply keeps_makedirs; [exact Hst|]. intros q Hq Eq. subst q. unfold s in Hq. rewrite Es in Hq.
    apply suffix_length in Hq. simpl in Hq. lia. }
  apply bind_ok in Hr as ([] & w4 & E4 & Hr).
  apply truncate_ok in E4 as [m Hm]; [|specialize (Hfree 8%nat k); fold s in Hfree; unfold no_link_at in *; simpl; by rewrite Hs].
  apply bind_ok in Hr as ([] & w5 & E5 & Hr). apply finally_ok in E5 as (w6 & E5 & E6).
  apply bind_ok in E5 as ([] & w7 & E5 & E7).
  apply (flush_ok _ _ _ _ _ _ _ _ (Nat.le_refl _) Hm) in E5 as [x Hx]. rewrite app_nil_l in Hx.
  apply (fsync_ok _ _ _ _ _ _ E7) in Hx. apply close_ok in E6 as [E6 _].
  apply bind_ok in Hr as ([] & w8 & E8 & Hr). apply rename_ok in E8.
  apply bind_ok in Hr as ([] & w9 & E9 & Hr). apply fsync_directory_ok in E9 as [E9 _]. run_ok.
  split; [done|]. exists m.
  assert (Hv : vis w' !! at_path name = Some (File m (record_text (_seal data)) true)).
  { rewrite E9, E8, E6. done. }
  split; [done|]. unfold durable. rewrite Hdur, Hv. done.
Qed.
End Written.

(** ** Reading back *)

Section ReadsBack.
Context {H : Type} `{O : Outside H, !OutsideLaws, Sha : Digest, Hmac : Mac, FloatText, !FloatLaws}.
Implicit Types w : machine (world H).

(** Undisturbed, a record that is there is read. *)
Lemma read_record_calm name st e d w : faults w = [] -> fence_record_at name st w d ->
  _read_record name st e w = (Ok (name, d), w).
Proof.
  intros Hf (Hj & Hsc & Hst & Hse). unfold json_at in Hj.
  destruct (text_at name w) as [t|] eqn:Ht; [|done]. simpl in Hj.
  assert (Er : read_text name w = (Ok t, w)).
  { unfold read_text, mbind, M_bind, finally, os_close. rewrite !sys_calm by done.
    cbv [mbind M_bind gets mret M_ret raise id]. unfold text_at in Ht. revert Ht.
    destruct (vis w !! at_path name) as [[]|] eqn:En; try destruct (linked _ _) eqn:El;
      intros; simplify_eq/=; rewrite !sys_calm by done; by rewrite ?En, ?El. }
  unfold _read_record, load_record. unfold mbind at 1, M_bind at 1. unfold mbind at 1, M_bind at 1.
  unfold catch. rewrite Er. rewrite Hj. cbv [mbind M_bind mret M_ret lift_res]. cbn [record_dict].
  rewrite Hsc, Hst. unfold sealed_record in Hse. rewrite Hse.
  rewrite !(proj2 (py_eqb_str (VStr _) _) eq_refl). done.
Qed.

(** The power goes and comes back, and nothing fails from then on. *)
Definition restarted w : machine (world H) := Machine [] (dur w) (dur w) (env w).

End ReadsBack.
