(* ===== verification/WalQuiesce.v ===== *)
(** * Quiescing: written down before, and what the manifest says after

    No restart policy moves before the PREPARED record is in place; a manifest speaks
    of pinned, exited containers and of no more authority than was acknowledged. *)
From S2P Require Import Prelude Sorting Py Effects PyOps Json PyVals Files Paths Host Preflight Records Fence Release Steady WalSafety WalRelease WalRecords.
Open Scope Z_scope.

Lemma hoare_collect_in {S B A} (f : B -> M S A) (P : B -> Prop) (Q : A -> Prop) l (I : S -> Prop) X :
  Forall P l -> (forall x, P x -> hoare I (f x) (fun a s => I s /\ Q a) X) ->
  hoare I (collect f l) (fun r s => I s /\ Forall Q r) X.
Proof.
  intros Hl Hf. induction Hl as [|x l Hx Hl IH]; simpl; [intros s Hs; by split|].
  eapply hoare_bind; [by apply Hf|]. intros a s [Hi Hq]. specialize (IH s Hi). unfold mbind, M_bind.
  destruct (collect f l s) as [[r|e] s1]; [|done]. destruct IH as [Hi2 Hr]. split; [done|]. by constructor.
Qed.

Section Quiesce.
Context {H : Type} `{O : Outside H, !OutsideLaws, Sha : Digest, Hmac : Mac, FloatText}.
Implicit Types w : machine (world H).

(** ** The commands of a quiesce *)

(** Looking, and pinning or stopping one of these containers. *)
Definition quiets (ids : list pyval) (argv : list string) : Prop :=
  looks argv \/ exists cid, cid ∈ ids /\ (pins (py_str cid) argv \/ stops (py_str cid) argv).

Definition logged (P : list string -> Prop) (w0 w : machine (world H)) : Prop :=
  exists cs, log (env w) = log (env w0) ++ cs /\ Forall (fun c => P c.1) cs.

Lemma logged_steady P w0 : steady anywhere anywhere anywhere P (logged P w0).
Proof. apply log_steady. Qed.

Lemma logged_weaken (P Q : list string -> Prop) w0 w : (forall argv, P argv -> Q argv) -> logged P w0 w -> logged Q w0 w.
Proof. intros HPQ (cs & E & Hcs). exists cs. split; [done|]. eapply Forall_impl; [exact Hcs|]. intros c. apply HPQ. Qed.

Section Phases.
Context (T D N : path -> Prop) (ids : list pyval) (I : machine (world H) -> Prop).
Hypothesis HI : steady T D N (quiets ids) I.

Definition of_ids (entry : dict) : Prop := forall cid, dict_get "container_id" entry = Some cid -> cid ∈ ids.

Lemma look_quiets argv : admissible argv = true -> looks argv -> quiets ids argv.
Proof. intros _ Hl. by left. Qed.

Lemma hoare_pin entry : of_ids entry -> hoare I (pin_one entry) (fun e w => I w /\ of_ids e) (fun _ => I).
Proof.
  intros Hin. unfold pin_one, py_key. unfold of_ids in *.
  destruct (dict_get "container_id" entry) as [cid|] eqn:Hc; [|by intros w Hw]. specialize (Hin _ eq_refl).
  eapply hoare_bind with (Q := fun v w => I w /\ v = cid); [by intros w Hw|]. intros v.
  apply hoare_pure. intros E. subst v.
  eapply hoare_bind; [apply hoare_keeps; eapply keeps_docker; [exact HI|]; intros _; right; exists cid; split; [done|by left]|].
  intros ?. eapply hoare_bind; [apply hoare_keeps; by eapply keeps_inspect; [exact HI|apply look_quiets]|].
  intros after. destruct (negb _); [by intros w Hw|]. intros w Hw. split; [done|].
  intros cid'. rewrite dict_get_set_ne, Hc by done. by intros [= <-].
Qed.

Lemma hoare_stop d entry : of_ids entry -> hoare I (stop_one d entry) (fun e w => I w /\ of_ids e) (fun _ => I).
Proof.
  intros Hin. unfold stop_one, py_key. unfold of_ids in *.
  destruct (dict_get "container_id" entry) as [cid|] eqn:Hc; [|by intros w Hw]. specialize (Hin _ eq_refl).
  eapply hoare_bind with (Q := fun v w => I w /\ v = cid); [by intros w Hw|]. intros v.
  apply hoare_pure. intros E. subst v.
  eapply hoare_bind; [apply hoare_keeps; eapply keeps_docker; [exact HI|]; intros _; right; exists cid; split; [done|by right]|].
  intros result. eapply hoare_bind; [apply hoare_keeps; by eapply keeps_inspect; [exact HI|apply look_quiets]|].
  intros after. destruct (timed_out result); [by intros w Hw|]. destruct (_ || _); [by intros w Hw|].
  intros w Hw. split; [done|]. intros cid'. rewrite dict_get_set_ne, Hc by done. by intros [= <-].
Qed.
End Phases.

Lemma collect_res_cons {X A} (f : X -> res A) x l r : collect_res f (x :: l) = Ok r ->
  exists a r', f x = Ok a /\ collect_res f l = Ok r' /\ r = a :: r'.
Proof.
  simpl. intros (a & Ha & Hr)%res_bind_ok. apply res_bind_ok in Hr as (r' & Hl & [= <-]). by exists a, r'.
Qed.

(** The containers a record speaks of. *)
Definition ids_in (raw : list pyval) : list pyval :=
  omap (fun e => match py_key e "container_id" with Ok c => Some c | Raise _ => None end) raw.

Definition record_ids (d : dict) : list pyval :=
  match py_iter (get_or "scope" (VList []) d) with Ok raw => ids_in raw | Raise _ => [] end.

Lemma entries_of_ids raw : forall entries, collect_res entry_dict raw = Ok entries -> Forall (of_ids (ids_in raw)) entries.
Proof.
  induction raw as [|v raw IH]; intros entries He; [injection He as <-; constructor|].
  apply collect_res_cons in He as (e & es & Hv & He & ->). unfold ids_in. cbn [omap list_omap]. fold (ids_in raw).
  constructor.
  - intros cid E. destruct v as [| | | |[]|[]|d]; try done; injection Hv as <-; try done.
    unfold py_key. rewrite E. by left.
  - eapply Forall_impl; [by apply IH|]. intros x Hx cid E. specialize (Hx cid E).
    destruct (py_key v "container_id"); [by right|done].
Qed.

(** ** The PREPARED record *)

Definition prepared_at (r : Request) : path := at_path (prepared_name r).

(** The file stands as it is, and durably so when it is [fresh]. *)
Definition pinned_file (p : path) (m : Z) (text : bytes) (s fresh : bool) w : Prop :=
  vis w !! p = Some (File m text s) /\ (fresh = true -> s = true /\ dur w !! p = Some (File m text true)).

Definition reads_as (text : bytes) (st : string) (d : dict) : Prop :=
  (l ← utf8_decode text; loads_any l) = Some (VDict d) /\
  get "schema" d = VStr SCHEMA /\ get "state" d = VStr st /\ sealed_record d.

(** In place, readable, and durable when this run wrote it. *)
Definition recorded (r : Request) (w0 : machine (world H)) (d : dict) w : Prop :=
  exists m text s, reads_as text PREPARED d /\
    pinned_file (prepared_at r) m text s (bool_decide (vis w0 !! prepared_at r = None)) w.

Lemma pinned_steady p m text s fresh A : steady (but p) (but p) anywhere A (pinned_file p m text s fresh).
Proof.
  unfold but, pinned_file. split; simpl; try done.
  - intros w q n Hq [Hv Hd]. by rewrite lookup_insert_ne.
  - intros w q n _ Hn [Hv Hd]. rewrite lookup_insert_ne; [done|]. intros ->. congruence.
  - intros w q Hq [Hv Hd]. by rewrite lookup_delete_ne.
  - intros w d [Hv Hd]. split; [done|]. intros Hf. destruct (Hd Hf) as [-> Hdd]. split; [done|].
    rewrite lookup_sync_names. case_decide; [by rewrite Hv|done].
Qed.

Lemma keeps_quiesce_record T D N I r pre ack record g e :
  steady T D N (quiets (record_ids (pr_data record))) I -> writes T D N (manifest_path r) ->
  keeps I (quiesce r pre ack record g e).
Proof.
  intros HI Hw. set (ids := record_ids (pr_data record)) in *.
  enough (Hh : hoare I (quiesce r pre ack record g e) (fun _ => I) (fun _ => I)).
  { intros w Hi. specialize (Hh w Hi). by destruct (quiesce _ _ _ _ _ _ w) as [[]]. }
  unfold quiesce. apply hoare_lift; [|done]. intros raw Hraw. apply hoare_lift; [|done]. intros entries He.
  assert (Hids : Forall (of_ids ids) entries).
  { unfold ids, record_ids. unfold record_scope in Hraw. rewrite Hraw. by apply entries_of_ids. }
  eapply hoare_bind; [by eapply (hoare_collect_in _ _ (of_ids ids)); [exact Hids|intros x; by apply hoare_pin with T D N]|].
  intros pinned. apply hoare_pure. intros Hp.
  eapply hoare_bind; [by eapply (hoare_collect_in _ _ (of_ids ids)); [exact Hp|intros x; by apply hoare_stop with T D N]|].
  intros stopped. apply hoare_pure. intros _.
  apply hoare_keeps. pose proof (look_quiets ids) as Hl.
  keep; try (by eapply keeps_no_descriptors); try (by eapply keeps_file_facts). by eapply keeps_write_record.
Qed.

(** ** No policy moves before *)

Definition untouched (r : Request) (w0 : machine (world H)) w : Prop := forall q,
  (q = prepared_at r \/ exists n k, q = at_path (scratch_of (prepared_name r) (token_drawn n k))) ->
  vis w !! q = vis w0 !! q.

Definition outside_prepared (r : Request) (q : path) : Prop :=
  ~ (q = prepared_at r \/ exists n k, q = at_path (scratch_of (prepared_name r) (token_drawn n k))).

Lemma untouched_steady r w0 A :
  steady (outside_prepared r) (outside_prepared r) (outside_prepared r) A (untouched r w0).
Proof.
  unfold outside_prepared, untouched. split; simpl; try done; intros w q; intros.
  - rewrite lookup_insert_ne; [by auto|]. by intros ->.
  - rewrite lookup_insert_ne; [by auto|]. by intros ->.
  - rewrite lookup_delete_ne; [by auto|]. by intros ->.
Qed.

Definition default_record (r : Request) : Prop := prepared_path r = None.

Lemma default_name r : default_record r -> prepared_name r = (manifest_path r ++ ".prepared.json")%string.
Proof. unfold prepared_name. by intros ->. Qed.

Lemma prepared_proper r : default_record r -> proper_name (prepared_name r) /\
  dir_at (prepared_name r) = dir_at (manifest_path r).
Proof.
  intros Hd. rewrite default_name by done. unfold proper_name.
  pose proof (at_path_split (manifest_path r ++ ".prepared.json")%string) as E.
  destruct (at_sibling (manifest_path r) ".prepared.json" eq_refl) as [E1 ->].
  split; [|done]. rewrite E1. f_equal. unfold basename, components.
  rewrite split_on_suffix by done. by rewrite last_last.
Qed.

(** The paths of the record and its scratch files are all files of its directory. *)
Lemma prepared_depth r q : default_record r -> ~ outside_prepared r q -> ~ q `suffix_of` dir_at (manifest_path r).
Proof.
  intros Hd Hq Hs. apply Hq. intros [->|(n & k & ->)]; apply suffix_length in Hs.
  - unfold prepared_at in Hs. destruct (prepared_proper r Hd) as [E1 E2]. rewrite E1, E2 in Hs. simpl in Hs. lia.
  - destruct (scratch_sibling (prepared_name r) n k) as [E _]. destruct (prepared_proper r Hd) as [_ E2].
    rewrite E, E2 in Hs. simpl in Hs. lia.
Qed.

Lemma prepare_ok r pre w0 record w w' : default_record r -> free_of_links (prepared_name r) w0 ->
  no_link_at (prepared_at r) w0 -> untouched r w0 w -> prepare r pre w = (Ok record, w') ->
  recorded r w0 (pr_data record) w'.
Proof.
  intros Hd Hfree Hlink Hu. destruct (prepared_proper r Hd) as [Hn _].
  assert (Hp : vis w !! prepared_at r = vis w0 !! prepared_at r) by (apply Hu; by left).
  assert (Hread : forall m text s v v', vis v !! prepared_at r = Some (File m text s) ->
    read_prepared (prepared_name r) v = (Ok record, v') -> reads_as text PREPARED (pr_data record) /\ later v v').
  { intros m text s v v' Hv Hr. split; [|by eapply reads_ok; [apply reads_prepared|]].
    unfold read_prepared in Hr. apply bind_ok in Hr as ([t d] & v1 & E & Hr). apply mret_ok in Hr as [<- ->].
    apply read_record_ok in E as [_ (E & Hrest)]. unfold json_at, text_at in E.
    change (at_path (prepared_name r)) with (prepared_at r) in E. rewrite Hv in E. simpl in E. by split. }
  unfold prepare. intros Hr. apply bind_ok in Hr as (there & w1 & E1 & Hr).
  pose proof (reads_ok _ _ _ _ (reads_lexists _) E1) as L1. destruct (later_same _ _ L1) as (V1 & _ & _).
  destruct there.
  - assert (Hsome : is_Some (vis w0 !! prepared_at r)).
    { rewrite <- Hp. unfold os_lexists, catch in E1.
      destruct ((n ← os_lstat _; _) w) as [[b|e] w2] eqn:E; [|by destruct (is_os_error e)].
      injection E1 as -> ->. run_ok. match goal with E : os_lstat _ _ = _ |- _ => apply lstat_ok in E as [_ ->] end.
      change (at_path (prepared_name r)) with (prepared_at r) in *. by destruct (vis w !! prepared_at r). }
    apply bind_ok in Hr as (rec & w2 & E2 & Hr). apply bind_ok in Hr as ([] & w3 & E3 & Hr).
    apply lift_res_ok in E3 as [_ ->]. apply mret_ok in Hr as [-> ->].
    assert (Hfile : exists m text s, vis w1 !! prepared_at r = Some (File m text s)).
    { unfold read_prepared in E2. apply bind_ok in E2 as ([t d] & v1 & E & _).
      apply read_record_ok in E as [_ (E & _)]. unfold json_at, text_at in E. rewrite V1 in E |- *.
      change (at_path (prepared_name r)) with (prepared_at r) in E.
      unfold no_link_at in Hlink. rewrite <- Hp in Hlink. destruct (vis w !! prepared_at r) as [[m t' s'| | |]|]; try done.
      by eexists _, _, _. }
    destruct Hfile as (m & text & s & Hf). destruct (Hread _ _ _ _ _ Hf E2) as [Hr L2].
    exists m, text, s. split; [done|]. destruct (later_same _ _ L2) as (V2 & _ & _). split; [by rewrite V2|].
    intros Hb%bool_decide_eq_true. rewrite Hb in Hsome. by destruct Hsome.
  - apply bind_ok in Hr as (t & w2 & E2 & Hr). unfold clock in E2. injection E2 as <- <-.
    apply bind_ok in Hr as (d & w3 & E3 & Hr).
    apply write_record_ok in E3 as (_ & m & Hv & Hdur); [|done|].
    2: { intros n k. specialize (Hfree n k). unfold no_link_at in *. simpl. rewrite V1, Hu; [done|]. right. by exists n, k. }
    change (at_path (prepared_name r)) with (prepared_at r) in Hv.
    destruct (Hread _ _ _ _ _ Hv Hr) as [Hra L2]. destruct (later_same _ _ L2) as (V2 & D2 & _).
    eexists _, _, _. split; [exact Hra|]. split; [by rewrite V2|]. intros _. split; [done|].
    rewrite D2. unfold durable in Hdur. change (at_path (prepared_name r)) with (prepared_at r) in Hdur. by rewrite Hdur.
Qed.

(** Either nothing but looking has happened, or the record is in place and only its
    containers were touched. *)
Definition recorded_before (r : Request) (w0 : machine (world H)) w : Prop :=
  logged looks w0 w \/ exists d, recorded r w0 d w /\ logged (quiets (record_ids d)) w0 w.

Lemma recorded_before_steady r w0 :
  steady (but (prepared_at r)) (but (prepared_at r)) anywhere (fun _ => False) (recorded_before r w0).
Proof.
  assert (Hlog : forall P, steady (but (prepared_at r)) (but (prepared_at r)) anywhere (fun _ => False) (logged P w0)).
  { intros P. by eapply steady_weaken; [..|apply (logged_steady P)]. }
  apply steady_or; [done|]. apply steady_ex. intros d. apply steady_and; [|done].
  unfold recorded. repeat (apply steady_ex; intros ?). apply steady_and; [apply steady_const|]. apply pinned_steady.
Qed.

Lemma lock_apart r sfx : default_record r -> suffix_ok sfx = true -> last (chars sfx) = Some "k"%char \/ last (chars sfx) = Some "d"%char ->
  outside_prepared r (at_path (manifest_path r ++ sfx)%string).
Proof.
  intros Hd Hs Hl Hq. assert (E : last_char (at_path (manifest_path r ++ sfx)%string) = last (chars sfx)).
  { destruct Hl as [Hl|Hl]; rewrite Hl; by apply last_char_sibling. }
  destruct Hq as [Hq|(n & k & Hq)]; rewrite Hq in E.
  - unfold prepared_at in E. rewrite default_name in E by done.
    rewrite (last_char_sibling _ ".prepared.json" "n") in E by done. destruct Hl; congruence.
  - rewrite scratch_last in E. destruct Hl; congruence.
Qed.

(** Nothing but looking so far, and the record's names as they were. *)
Definition looking (r : Request) (w0 : machine (world H)) w : Prop := logged looks w0 w /\ untouched r w0 w.

Lemma hoare_still {S B} (I : S -> Prop) (X : exn -> S -> Prop) (m : M S B) :
  keeps I m -> (forall e s, I s -> X e s) -> hoare I m (fun _ => I) X.
Proof. intros Hk HX. eapply hoare_weaken; [by apply hoare_keeps|done|done|]. exact HX. Qed.

Section First.
Context (r : Request) (w0 : machine (world H)).
Hypotheses (Hd : default_record r) (Hfree : free_of_links (prepared_name r) w0) (Hlink : no_link_at (prepared_at r) w0).

Lemma looking_steady : steady (outside_prepared r) (outside_prepared r) (outside_prepared r) looks (looking r w0).
Proof. apply steady_and; [|apply untouched_steady]. by eapply steady_weaken; [..|apply (logged_steady looks)]. Qed.

Lemma looking_before w : looking r w0 w -> recorded_before r w0 w.
Proof. intros [Hl _]. by left. Qed.

Lemma outside_but q : outside_prepared r q -> but (prepared_at r) q.
Proof. intros Hq E. apply Hq. by left. Qed.

Lemma outside_dir q : q `suffix_of` dir_at (manifest_path r) -> outside_prepared r q.
Proof. intros Hq Hn. apply (prepared_depth r q Hd); [|done]. unfold outside_prepared. tauto. Qed.

Lemma manifest_beside : writes (but (prepared_at r)) (but (prepared_at r)) anywhere (manifest_path r).
Proof.
  assert (Hp : forall token, but (prepared_at r) (at_path (scratch_of (manifest_path r) token))).
  { intros token E. pose proof (scratch_last (manifest_path r) token) as Hc. rewrite E in Hc.
    unfold prepared_at in Hc. rewrite default_name in Hc by done.
    by rewrite (last_char_sibling _ ".prepared.json" "n") in Hc. }
  split; [|by split]. unfold but, prepared_at. rewrite default_name by done. intros E. symmetry in E.
  by apply sibling_not_self in E.
Qed.

(** With the record in place, the rest of the quiesce keeps to it. *)
Lemma quiesce_recorded pf ack record g e w : logged looks w0 w -> recorded r w0 (pr_data record) w ->
  recorded_before r w0 (quiesce r pf ack record g e w).2.
Proof.
  intros Hl (m & text & s & Hra & Hpin). set (ids := record_ids (pr_data record)).
  set (I := fun v => logged (quiets ids) w0 v /\
    pinned_file (prepared_at r) m text s (bool_decide (vis w0 !! prepared_at r = None)) v).
  assert (HI : steady (but (prepared_at r)) (but (prepared_at r)) anywhere (quiets ids) I).
  { apply steady_and; [|apply pinned_steady]. by eapply steady_weaken; [..|apply (logged_steady (quiets ids))]. }
  assert (HIw : I w) by (split; [eapply logged_weaken; [|exact Hl]; by left|done]).
  destruct (keeps_quiesce_record _ _ _ I r pf ack record g e HI manifest_beside w HIw) as [Hlq Hpq].
  right. exists (pr_data record). split; [|done]. by exists m, text, s.
Qed.

Lemma locked_recorded : hoare (looking r w0) (_fence_locked r) (fun _ => recorded_before r w0)
  (fun _ => recorded_before r w0).
Proof.
  pose proof looking_steady as Hs. pose proof looking_before as HX.
  assert (HXe : forall (e : exn) s, looking r w0 s -> recorded_before r w0 s) by done.
  unfold _fence_locked.
  eapply hoare_bind; [apply hoare_still; [by eapply steady_clock|exact HXe]|]. intros now.
  eapply hoare_bind; [apply hoare_still; [by eapply keeps_preflight|exact HXe]|]. intros pf.
  eapply hoare_bind; [apply hoare_still; [by eapply steady_clock|exact HXe]|]. intros granted.
  cbv zeta. destruct (external_authority_ack pf) as [ack|]; [|by intros v Hv; apply HX].
  apply hoare_lift; [|exact HXe]. intros past _. destruct past; [by intros v Hv; apply HX|].
  eapply hoare_bind; [apply hoare_still; [by eapply keeps_lexists|exact HXe]|]. intros taken.
  destruct taken; [by intros v Hv; apply HX|].
  eapply hoare_bind with (Q := fun record v => logged looks w0 v /\ recorded r w0 (pr_data record) v).
  - eapply hoare_weaken; [apply (hoare_split (logged looks w0) (untouched r w0)
      (prepare r pf) (fun record => recorded r w0 (pr_data record)))|done|done|by intros e v Hv; left].
    + eapply keeps_prepare; [apply logged_steady|by apply writes_anything].
    + intros v record v' Hu Hr. by eapply prepare_ok.
  - intros record v [Hl Hr]. pose proof (fun e => quiesce_recorded pf ack record (Fin granted) e v Hl Hr) as Hq.
    match goal with |- context [quiesce ?a ?b ?c ?d ?e ?g v] => specialize (Hq g); by destruct (quiesce a b c d e g v) as [[]] end.
Qed.

Lemma fence_recorded : hoare (looking r w0) (fence r) (fun _ => recorded_before r w0) (fun _ => recorded_before r w0).
Proof.
  pose proof looking_steady as Hs. pose proof (recorded_before_steady r w0) as Hb.
  assert (HXe : forall (e : exn) s, looking r w0 s -> recorded_before r w0 s) by (intros _; apply looking_before).
  assert (Hlock : outside_prepared r (at_path (manifest_path r ++ ".lock")%string))
    by (apply lock_apart; [done|done|by left]).
  assert (Hrel : outside_prepared r (at_path ((manifest_path r ++ ".lock") ++ ".released")%string))
    by (rewrite append_assoc; apply lock_apart; [done|done|by right]).
  pose proof (outside_but _ Hlock). pose proof (outside_but _ Hrel).
  unfold fence, _operation_lock. cbv zeta.
  eapply hoare_bind; [apply hoare_still; [eapply keeps_makedirs; [exact Hs|]|exact HXe]|].
  { intros q Hq. apply outside_dir. by destruct (sibling_parent (manifest_path r) ".lock" eq_refl) as [_ <-]. }
  intros ?. eapply hoare_bind; [apply hoare_still; [apply keeps_catch; [by eapply steady_create|]|exact HXe]|].
  { handler. apply keeps_raise. }
  intros ?. apply hoare_finally.
  - eapply hoare_bind; [apply (hoare_still (looking r w0)); [by eapply steady_write|exact HXe]|]. intros ?.
    eapply hoare_bind; [apply (hoare_still (looking r w0)); [by eapply steady_fsync|exact HXe]|]. intros ?.
    apply locked_recorded.
  - intros ?. apply hoare_still; [|done]. keep.
  - intros ? _. apply hoare_still; [|done]. keep.
Qed.

End First.

End Quiesce.
