(* ===== verification/WalGrant.v ===== *)
(** * What a manifest and a grant stand for

    A quiesce that returns has seen every container that could interfere, pinned and
    stopped the declared ones and promised no more than was signed for; a grant repeats
    all of it at the moment the source is about to be opened. *)
From S2P Require Import Prelude Sorting Py Effects PyOps Json PyVals Files Paths Host Preflight Records Fence Release Steady WalSafety WalRelease WalRecords.
Open Scope Z_scope.

Section Grant.
Context {H : Type} `{O : Outside H, Sha : Digest, Hmac : Mac, FloatText}.
Implicit Types w : machine (world H).

(** ** Who can interfere *)

(** A mount of this storage, as the host answers now. *)
Definition lands_on (h : H) (dev ino : Z) (mount : pyval) : Prop := exists s,
  mount_field mount "Source" = Ok s /\ s <> ""%string /\ stat_id (VStr s) h = Some (dev, ino).

(** Every container of the inventory that can write to the storage behind [source], or
    start others through the docker socket, is declared. *)
Definition covered (h : H) (inv : inventory) (source : pyval) (declared : list pyval) : Prop :=
  exists dev ino, stat_id source h = Some (dev, ino) /\
  forall cid facts, (cid, facts) ∈ inv ->
    Exists (lands_on h dev ino) (mounts facts) \/ holds_socket h (mounts facts) = Ok true ->
    val_mem (VStr cid) declared = true.

Definition keeps_env {B} (m : M (machine (world H)) B) : Prop := forall e, keeps (fun v => env v = e) m.

Lemma env_ok {B} (m : M (machine (world H)) B) w b w' : keeps_env m -> m w = (Ok b, w') -> env w' = env w.
Proof. intros Hm E. by apply (kept_ok (fun v => env v = env w) m w b w' (Hm _) E). Qed.

Lemma identity_env v : keeps_env (mount_identity v).
Proof.
  intros e. unfold mount_identity, os_stat, os_realpath.
  keep; apply reads_env, reads_sys; intros u; cbv [mbind M_bind gets id]; by destruct (stat_id _ _).
Qed.

Lemma share_env i ms : keeps_env (mounts_share i ms).
Proof. intros e. induction ms as [|m ms IH]; simpl; keep. apply identity_env. Qed.

Lemma sharers_env inv i : keeps_env (_mount_sharers inv i).
Proof. intros e. unfold _mount_sharers. keep. apply share_env. Qed.

Lemma identity_ok v i w w' : mount_identity v w = (Ok (Some i), w') ->
  stat_id v (host (env w)) = Some (id_device i, id_inode i).
Proof.
  unfold mount_identity. intros Hr. apply bind_ok in Hr as (info & w1 & E & Hr).
  destruct info as [[dev ino]|]; [|by apply mret_ok in Hr as [? _]].
  apply bind_ok in Hr as (real & w2 & _ & Hr). apply mret_ok in Hr as [[= <-] _]. simpl.
  unfold catch in E. destruct ((x ← os_stat v; mret (Some x)) w) as [[x|e] w3] eqn:Es.
  2: { by destruct (is_os_error e). }
  injection E as -> ->. apply bind_ok in Es as (x & w4 & Es & Hm). apply mret_ok in Hm as [[= ->] _].
  unfold os_stat in Es. assert (Hsys : sys (w ← gets id; match stat_id v (host (env w)) with
      | Some i => mret i | None => raise (OSError "OSError") end) w = (Ok (dev, ino), w4)) by by destruct v.
  apply sys_ok in Hsys as (fs & Hs). cbv [mbind M_bind gets id mret M_ret raise] in Hs. simpl in Hs.
  destruct (stat_id v (host (env w))); by simplify_eq.
Qed.

Lemma share_ok i ms w b w' : mounts_share i ms w = (Ok (b, false), w') ->
  Exists (lands_on (host (env w)) (id_device i) (id_inode i)) ms -> b = true.
Proof.
  revert b w. induction ms as [|m ms IH]; intros b w Hr He; [by inversion He|]. simpl in Hr.
  apply bind_ok in Hr as (s & w1 & Es & Hr). apply lift_res_ok in Es as [Es ->].
  destruct (String.eqb_spec s "") as [->|Hne].
  - apply (IH b w1 Hr). apply Exists_cons in He as [(s' & Hs & Hn & _)|He]; [congruence|done].
  - apply bind_ok in Hr as (here & w2 & Ei & Hr). destruct here as [here|].
    2: { apply bind_ok in Hr as ([? ?] & w3 & _ & Hr). by apply mret_ok in Hr as [[= _ ?] _]. }
    pose proof (env_ok _ _ _ _ (identity_env _) Ei) as Ee. apply identity_ok in Ei.
    destruct ((_ =? _) && (_ =? _)) eqn:Ec; [by apply mret_ok in Hr as [[= <-] _]|].
    apply (IH b w2 Hr). rewrite Ee. apply Exists_cons in He as [(s' & Hs & Hn & Hst)|He]; [|done].
    rewrite Es in Hs. injection Hs as ->. rewrite Ei in Hst. injection Hst as Hd Hi.
    rewrite Hd, Hi, !Z.eqb_refl in Ec. done.
Qed.

Lemma collect_ok {S X B} (f : X -> M S B) l (s s' : S) r : collect f l s = (Ok r, s') ->
  Forall2 (fun x b => exists t t', f x t = (Ok b, t')) l r.
Proof.
  revert s r. induction l as [|x l IH]; intros s r Hr; simpl in Hr; [run_ok; constructor|].
  apply bind_ok in Hr as (b & s1 & Eb & Hr). apply bind_ok in Hr as (bs & s2 & El & Hr).
  apply mret_ok in Hr as [<- <-]. constructor; [by eexists _, _|by eapply IH].
Qed.

Lemma collect_env {X B} (f : X -> M (machine (world H)) B) l w r w' : (forall x, keeps_env (f x)) ->
  collect f l w = (Ok r, w') -> Forall2 (fun x b => exists t t', f x t = (Ok b, t') /\ env t = env w) l r.
Proof.
  intros Hf. revert w r. induction l as [|x l IH]; intros s r Hr; simpl in Hr; [run_ok; constructor|].
  apply bind_ok in Hr as (b & s1 & Eb & Hr). apply bind_ok in Hr as (bs & s2 & El & Hr).
  apply mret_ok in Hr as [<- <-]. constructor; [by eexists _, _|].
  rewrite <- (env_ok _ _ _ _ (Hf x) Eb). by eapply IH.
Qed.

Lemma sharers_ok inv i w l w' : _mount_sharers inv i w = (Ok l, w') ->
  forall cid facts, (cid, facts) ∈ inv ->
    Exists (lands_on (host (env w)) (id_device i) (id_inode i)) (mounts facts) -> cid ∈ l.
Proof.
  unfold _mount_sharers. intros Hr. apply bind_ok in Hr as (answers & w1 & E & Hr).
  destruct (existsb _ answers) eqn:Eu; [by run_ok|]. apply mret_ok in Hr as [<- _].
  apply collect_env in E; [|intros [? ?] e; keep; apply share_env]. intros cid facts Hin Hex.
  apply list_elem_of_lookup in Hin as [k Hk]. destruct (Forall2_lookup_l _ _ _ _ _ E Hk) as (a & Ha & t & t' & Et & Ee).
  apply bind_ok in Et as ([b u] & t1 & Et & Hm). apply mret_ok in Hm as [<- _].
  assert (u = false) as ->.
  { apply not_true_iff_false. intros ->. apply not_true_iff_false in Eu. apply Eu, existsb_exists.
    exists (cid, (b, true)). split; [by apply list_elem_of_In; eapply list_elem_of_lookup_2|done]. }
  apply share_ok in Et; [|by rewrite Ee]. subst b. apply list_elem_of_fmap. exists (cid, (true, false)).
  split; [done|]. apply list_elem_of_In, List.filter_In. split; [|done].
  by apply list_elem_of_In; eapply list_elem_of_lookup_2.
Qed.

Lemma collected {X A} (f : X -> res A) l r : collect_res f l = Ok r -> Forall2 (fun x a => f x = Ok a) l r.
Proof.
  revert r. induction l as [|x l IH]; intros r Hr; [injection Hr as <-; constructor|].
  simpl in Hr. apply res_bind_ok in Hr as (a & Ha & Hr). apply res_bind_ok in Hr as (r' & Hl & [= <-]).
  constructor; [done|by apply IH].
Qed.

Lemma authorities_ok inv w l w' : _start_authorities inv w = (Ok l, w') ->
  w' = w /\ forall cid facts, (cid, facts) ∈ inv -> holds_socket (host (env w)) (mounts facts) = Ok true ->
    cid ∈ List.map sa_container_id l.
Proof.
  unfold _start_authorities. intros Hr. apply bind_ok in Hr as (w1 & w2 & E & Hr).
  apply gets_ok in E as [<- <-]. apply bind_ok in Hr as (found & w3 & E & Hr). apply lift_res_ok in E as [E ->].
  apply mret_ok in Hr as [<- <-]. split; [done|]. intros cid facts Hin Hs. apply collected in E.
  apply list_elem_of_lookup in Hin as [k Hk]. destruct (Forall2_lookup_l _ _ _ _ _ E Hk) as (a & Ha & Hb).
  unfold id in Hb. rewrite Hs in Hb. injection Hb as <-.
  apply list_elem_of_In, in_map_iff. eexists. split; [|apply list_elem_of_In; rewrite sort_by_perm;
    apply list_elem_of_In, in_map_iff; exists (cid, facts, true); split; [done|apply List.filter_In; split; [|done]]].
  - done.
  - apply list_elem_of_In. by eapply list_elem_of_lookup_2.
Qed.

Lemma same_set_mem l l' v : same_set l l' = true -> v ∈ l' -> val_mem v l = true.
Proof.
  unfold same_set, subset_vals. intros [_ Hs]%andb_true_iff Hin. rewrite forallb_forall in Hs.
  by apply Hs, list_elem_of_In.
Qed.

(** The check of the whole host, by what it leaves no room for. *)
Lemma bound_ok inv source declared w l w' : _require_inventory_bound inv source declared w = (Ok l, w') ->
  covered (host (env w)) inv source declared.
Proof.
  unfold _require_inventory_bound. intros Hr. apply bind_ok in Hr as (i & w1 & Ei & Hr).
  destruct i as [i|]; [|by run_ok]. pose proof (env_ok _ _ _ _ (identity_env _) Ei) as E1.
  apply identity_ok in Ei. apply bind_ok in Hr as (sharing & w2 & Es & Hr).
  pose proof (env_ok _ _ _ _ (sharers_env _ _) Es) as E2. pose proof (sharers_ok _ _ _ _ _ Es) as Hs.
  apply bind_ok in Hr as (authorities & w3 & Ea & Hr). apply authorities_ok in Ea as [-> Ha].
  destruct (existsb _ authorities); [by run_ok|]. destruct (same_set declared _) eqn:Ess; [|by run_ok].
  exists (id_device i), (id_inode i). split; [done|]. intros cid facts Hin Hor.
  rewrite E1 in Hs. rewrite E2, E1 in Ha.
  eapply same_set_mem; [exact Ess|]. apply list_elem_of_In, in_map. apply list_elem_of_In, elem_of_app.
  destruct Hor as [He|Hh]; [left; by eapply Hs|right; by eapply Ha].
Qed.

(** ** Taking guards of runs that returned *)

Lemma raise_if (b : bool) {B} e (k : M (machine (world H)) B) w c w' :
  (if b then raise e else k) w = (Ok c, w') -> b = false /\ k w = (Ok c, w').
Proof. by destruct b. Qed.

Lemma raise_res (b : bool) {B} e (k : res B) c : (if b then Raise e else k) = Ok c -> b = false /\ k = Ok c.
Proof. by destruct b. Qed.

(** ** Preflight *)

(** The acknowledgement verifies for this host, these containers and this storage. *)
Definition acknowledged (ack : ExternalAuthorityAck) (verifier : option bytes) (host : pyval) (ids : list pyval) : Prop :=
  exists mount now, _verify_ack (Some ack) verifier host ids mount now = Ok tt.

Lemma preflight_ok t now w pre w' : preflight t now w = (Ok pre, w') ->
  exists ack, t_ack t = Some ack /\ external_authority_ack pre = Some ack /\
    acknowledged ack (t_verifier t) (VStr (t_host_id t)) (scope_ids (t_scope t)) /\
    exists inv h, covered h inv (VStr (mb_source (mount pre))) (scope_ids (t_scope t)) /\
      Forall (fun e => exists f, dict_get (container_id e) inv = Some f) (t_scope t).
Proof.
  unfold preflight. intros Hr. apply bind_ok in Hr as (? & w1 & _ & Hr).
  apply bind_ok in Hr as (prim & w2 & _ & Hr). apply bind_ok in Hr as (mnt & w3 & _ & Hr).
  apply bind_ok in Hr as (dbp & w4 & _ & Hr). apply bind_ok in Hr as (dbf & w5 & _ & Hr).
  apply raise_if in Hr as [_ Hr]. apply bind_ok in Hr as (? & w6 & _ & Hr). apply bind_ok in Hr as (? & w7 & _ & Hr).
  apply raise_if in Hr as [_ Hr]. apply bind_ok in Hr as (inv & w8 & _ & Hr).
  apply raise_if in Hr as [_ Hr]. apply bind_ok in Hr as (auths & w9 & Eb & Hr). apply bound_ok in Eb.
  apply bind_ok in Hr as ([] & w10 & Ed & Hr). apply lift_res_ok in Ed as [Ed ->].
  apply bind_ok in Hr as (mid & w11 & _ & Hr). apply bind_ok in Hr as ([] & w12 & Ev & Hr).
  apply lift_res_ok in Ev as [Ev ->]. apply bind_ok in Hr as (facts & w13 & _ & Hr).
  apply bind_ok in Hr as (wf & w14 & _ & Hr). apply mret_ok in Hr as [<- _]. simpl.
  destruct (t_ack t) as [ack|]; [|done]. exists ack. split_and!; [done|done|by eexists _, _|].
  eexists inv, _. split; [exact Eb|]. clear -Ed.
  induction (t_scope t) as [|e l IH]; [constructor|]. simpl in Ed.
  destruct (dict_get (container_id e) inv) as [f|] eqn:E; [|done].
  destruct (py_eqb _ _); [|done]. constructor; [by exists f|by apply IH].
Qed.

(** ** The manifest of a quiesce *)

(** The entry of a container that was pinned, read back as pinned, stopped and seen exited. *)
Definition quiet_entry (e : dict) : Prop := exists policy st,
  dict_get "restart_policy_after" e = Some policy /\ py_get policy "name" VNone = Ok (VStr "no") /\
  dict_get "state_after_stop" e = Some st /\ py_get st "running" VNone = Ok (VBool false) /\
  py_get st "status" VNone = Ok (VStr "exited").

Definition pinned_entry (e : dict) : Prop := exists policy,
  dict_get "restart_policy_after" e = Some policy /\ py_get policy "name" VNone = Ok (VStr "no").

Lemma pin_ok e w e' w' : pin_one e w = (Ok e', w') -> pinned_entry e'.
Proof.
  unfold pin_one. intros Hr. apply bind_ok in Hr as (cid & w1 & _ & Hr). apply bind_ok in Hr as (? & w2 & _ & Hr).
  apply bind_ok in Hr as (after & w3 & _ & Hr). apply raise_if in Hr as [Hp Hr]. apply mret_ok in Hr as [<- _].
  apply negb_false_iff, py_eqb_str in Hp. exists (restart_policy after). rewrite dict_get_set_eq. split; [done|].
  unfold restart_policy. by rewrite Hp.
Qed.

Lemma stop_ok d e w e' w' : pinned_entry e -> stop_one d e w = (Ok e', w') -> quiet_entry e'.
Proof.
  intros (policy & Hp & Hn). unfold stop_one. intros Hr. apply bind_ok in Hr as (cid & w1 & _ & Hr).
  apply bind_ok in Hr as (result & w2 & _ & Hr). apply bind_ok in Hr as (after & w3 & _ & Hr).
  apply raise_if in Hr as [_ Hr]. apply raise_if in Hr as [[Hu Hs]%orb_false_iff Hr]. apply mret_ok in Hr as [<- _].
  apply negb_false_iff, py_eqb_str in Hs. exists policy, (state after).
  rewrite dict_get_set_ne, dict_get_set_eq by done. split_and!; try done; unfold state; by rewrite ?Hs, ?Hu.
Qed.

Lemma write_record_value name data ow w d w' : _write_record name data ow w = (Ok d, w') -> d = _seal data.
Proof.
  unfold _write_record. intros Hr. apply bind_ok in Hr as (? & w1 & _ & Hr). apply bind_ok in Hr as (? & w2 & _ & Hr).
  apply raise_if in Hr as [_ Hr]. apply bind_ok in Hr as (? & w3 & _ & Hr).
  repeat (apply bind_ok in Hr as (? & ? & _ & Hr)). by apply mret_ok in Hr as [<- _].
Qed.


(** ** The grant *)

(** The lease is running and the stored acknowledgement verifies, for one instant. *)
Definition authority_holds (m : Manifest) (verifier : option bytes) : Prop := exists now raw expires ack host ids mount,
  get_in (m_data m) "lease" "expires_at" (VInt 0) = Ok raw /\ py_float raw = Ok expires /\
  float_lt expires (Fin now) = false /\
  ack_of (py_or (get "external_authority_ack" (m_data m)) EMPTY) = Ok ack /\
  ids_of (get_or "scope" (VList []) (m_data m)) = Ok ids /\
  _verify_ack (Some ack) verifier host ids mount now = Ok tt.

(** The container of a scope entry is there, exited, pinned and of the recorded image. *)
Definition holding_entry (inv : inventory) (e : pyval) : Prop := exists cid facts image,
  py_key e "container_id" = Ok (VStr cid) /\ dict_get cid inv = Some facts /\ running facts = false /\
  status facts = VStr "exited" /\ restart_policy_name facts = VStr "no" /\
  py_get e "image_id" VNone = Ok image /\ py_eqb (image_id facts) image = true.

(** A file is the one the manifest recorded: existence, size, inode and digest. *)
Definition recorded_as (current : FileFacts) (snapshot : pyval) : Prop := exists l,
  collect_res (py_key snapshot) ["exists"; "size_bytes"; "inode"; "sha256"]%string = Ok l /\
  Forall2 (fun a b => py_eqb a b = true) (identity current) l.

(** The claim file is whole and about this capability. *)
Definition claim_is_live (c : Capability) w : Prop := exists live,
  apply_record_at (claim_record_path c) w live /\ py_eqb (get "claim_id" live) (claim_id c) = true /\
  get "manifest_path" live = VStr (base_of c).

Lemma authority_ok m v now w w' : _require_authority_at m v now w = (Ok tt, w') -> authority_holds m v.
Proof.
  unfold _require_authority_at, _reverify_manifest_authority. intros Hr.
  apply bind_ok in Hr as (raw & w1 & E1 & Hr). apply lift_res_ok in E1 as [E1 ->].
  apply bind_ok in Hr as (expires & w2 & E2 & Hr). apply lift_res_ok in E2 as [E2 ->].
  apply raise_if in Hr as [El Hr]. apply bind_ok in Hr as (ack & w3 & E3 & Hr). apply lift_res_ok in E3 as [E3 ->].
  apply bind_ok in Hr as (ids & w4 & E4 & Hr). apply lift_res_ok in E4 as [E4 ->].
  apply bind_ok in Hr as (source & w5 & _ & Hr). apply bind_ok in Hr as (mid & w6 & _ & Hr).
  apply bind_ok in Hr as ([] & w7 & E7 & Hr). apply lift_res_ok in E7 as [E7 ->].
  exists now, raw, expires, ack, (get_or "host_id" (VStr "") (m_data m)), ids, (identity_json mid).
  split_and!; try done. destruct (ack_of _) as [a|[]]; by simplify_eq.
Qed.

Lemma require_authority_ok c w q w' : _require_authority c w = (Ok q, w') ->
  authority_holds (manifest c) (authority_verifier c).
Proof.
  unfold _require_authority. intros Hr. apply bind_ok in Hr as (now & w1 & _ & Hr).
  apply bind_ok in Hr as ([] & w2 & E & _). by eapply authority_ok.
Qed.

Lemma reads_claim_binds name m c : reads (_require_claim_binds name m c).
Proof. intros w0. unfold _require_claim_binds. keep; apply reads_apply. Qed.

Lemma reads_active c : reads (_require_active c).
Proof.
  intros w0. unfold _require_active. keep; first [apply reads_claim_binds | apply reads_lexists].
Qed.

Lemma active_ok c w w' : _require_active c w = (Ok tt, w') -> claim_is_live c w'.
Proof.
  intros Hr. pose proof (reads_ok _ _ _ _ (reads_active c) Hr) as L.
  unfold _require_active in Hr. apply bind_ok in Hr as (live & w1 & E & _).
  unfold _require_claim_binds in E. apply bind_ok in E as (record & w2 & Er & E). apply read_apply_ok in Er as [Ha _].
  apply bind_ok in E as (lease & w3 & _ & E). apply bind_ok in E as (db & w4 & _ & E).
  apply bind_ok in E as ([] & w5 & Ef & E). apply lift_res_ok in Ef as [Ef _]. apply mret_ok in E as [-> _].
  apply fields_match_ok in Ef. rewrite !Forall_cons in Ef. destruct Ef as (F1 & _ & F3 & _). simpl in F1, F3.
  exists live. unfold apply_record_at in *. rewrite (later_json _ _ _ L). split_and!; try done; try apply Ha.
  by apply py_eqb_str.
Qed.

Lemma entries_hold_ok inv l : entries_hold inv l = Ok tt -> Forall (holding_entry inv) l.
Proof.
  induction l as [|e l IH]; [by constructor|]. simpl. intros ([] & He & Hl)%res_bind_ok.
  constructor; [|by apply IH]. unfold entry_holds in He. apply res_bind_ok in He as (cid & Hc & He).
  destruct cid as [| | | |cid| |]; try done. destruct (dict_get cid inv) as [facts|] eqn:Ef; [|done].
  apply res_bind_ok in He as (image & Hi & He).
  apply raise_res in He as [E1 He]. apply raise_res in He as [[E2 E3]%orb_false_iff He]. apply raise_res in He as [E4 _].
  apply negb_false_iff in E1, E3, E4. apply py_eqb_str in E3, E4. by exists cid, facts, image.
Qed.

Lemma all_equal l l' : length l = length l' -> forallb (fun p => py_eqb p.1 p.2) (zip l l') = true ->
  Forall2 (fun a b => py_eqb a b = true) l l'.
Proof.
  revert l'. induction l as [|a l IH]; intros [|b l'] E; try done.
  simpl. intros [Hab Hl]%andb_prop. constructor; [done|]. apply IH; [by injection E|done].
Qed.

Lemma same_file_ok f s : same_file f s = Ok tt -> recorded_as f s.
Proof.
  unfold same_file. intros (e & He & Hr)%res_bind_ok. apply res_bind_ok in Hr as (z & Hz & Hr).
  apply res_bind_ok in Hr as (i & Hi & Hr). apply res_bind_ok in Hr as (d & Hd & Hr).
  exists [e; z; i; d]. simpl. rewrite He, Hz, Hi, Hd. split; [done|].
  apply all_equal; [done|]. by destruct (forallb _ _).
Qed.

End Grant.
