(* ===== verification/WalSample.v ===== *)
(** * A concrete host behind the fence

    Two containers on a scripted docker, a database with its WAL, and the runs of the
    fence on it: the witnesses of the theorems about quiescing, claiming and releasing. *)
From S2P Require Import Prelude Sorting Py Effects PyOps Json PyVals Files Paths Host Preflight Records Fence Release Steady WalSafety WalRelease WalRecords WalQuiesce WalGrant.
Open Scope Z_scope.

(** ** Library instances *)

#[export] Instance wal_floats : FloatText := {|
  float_repr q := if Qeq_bool q 0 then "0.0" else if Qeq_bool q 100 then "100.0" else "1000.0";
  is_float q := q = 0%Q \/ q = 100%Q \/ q = 1000%Q
|}%string.

#[export] Instance wal_float_laws : FloatLaws.
Proof.
  split.
  - intros q [|c r] Hq Hr; [by destruct Hq as [-> |[-> | ->]]|].
    destruct (Hr c eq_refl) as [Hd He].
    assert (Hspan : span is_digit (c :: r) = ([], c :: r)) by (simpl; by rewrite Hd).
    destruct Hq as [-> |[-> | ->]]; destruct c as [[][][][][][][][]]; try discriminate; vm_compute; reflexivity.
  - intros q. unfold float_repr. simpl. destruct (Qeq_bool q 0), (Qeq_bool q 100); repeat constructor.
  - by intros q [-> |[-> | ->]].
Qed.

(** A checksum in place of SHA-256. *)
Definition checksum (b : bytes) : string :=
  str_of_int (fold_left (fun a c => (a * 257 + Z.of_nat (nat_of_ascii c)) mod 2305843009213693951) b 7).

#[export] Instance wal_digest : Digest := {| sha256 := checksum |}.
#[export] Instance wal_mac : Mac := {| hmac_sha256 key text := checksum (key ++ text) |}.

(** ** A scripted docker *)

Record box := Box { policy : string; retries : Z; up : bool }.

Record docker_host := Docker { boxes : list (string * box); witness : option string }.

Definition hex_id (c : ascii) : string := of_chars (repeat c 64).
Definition app_id : string := hex_id "a"%char.
Definition proxy_id : string := hex_id "b"%char.

(** Where a container reaches the host: the application its data directory, the proxy the
    docker socket, any other the whole file system. *)
Definition box_source (cid : string) : string :=
  if String.eqb cid app_id then "/data" else if String.eqb cid proxy_id then "/var/run/docker.sock" else "/".

Definition box_mounts (cid : string) : pyval :=
  VList [VDict [("Source", VStr (box_source cid));
                ("Destination", VStr (if String.eqb cid app_id then "/app/data" else box_source cid));
                ("RW", VBool true); ("Type", VStr "bind")]]%string.

Definition box_json (cid : string) (b : box) : pyval :=
  VDict [("Id", VStr cid); ("Image", VStr "sha256:1");
    ("Config", VDict [("Image", VStr "glassops");
       ("Labels", VDict [(PROJECT_LABEL, VStr "glassops");
                         (SERVICE_LABEL, VStr (if String.eqb cid app_id then "app" else if String.eqb cid proxy_id then "proxy" else "other"))])]);
    ("HostConfig", VDict [("RestartPolicy", VDict [("Name", VStr (policy b)); ("MaximumRetryCount", VInt (retries b))])]);
    ("State", VDict [("Status", VStr (if up b then "running" else "exited")); ("Running", VBool (up b))]);
    ("Mounts", box_mounts cid)]%string.

Definition set_policy (flag : string) (b : box) : box :=
  let name := str_drop 10 flag in
  if startswith "on-failure:" name
  then Box "on-failure" (default 0 (parse_int 10 (str_drop 11 name))) (up b) else Box name 0 (up b).

Definition answer (argv : list string) (out : string) : res CommandResult :=
  Ok {| argv := argv; returncode := 0; stdout := out; stderr := ""; timed_out := false |}.
Definition failed (argv : list string) : res CommandResult :=
  Ok {| argv := argv; returncode := 1; stdout := ""; stderr := ""; timed_out := false |}.

Definition lines (l : list string) : string := join_str newline l.

Definition change (argv : list string) (cid : string) (f : box -> box) (h : docker_host) :
    res CommandResult * docker_host :=
  match dict_get cid (boxes h) with
  | Some b => (answer argv cid, Docker (dict_set cid (f b) (boxes h)) (witness h))
  | None => (failed argv, h)
  end.

Definition run_docker (argv : list string) (_ : option Q) (h : docker_host) : res CommandResult * docker_host :=
  match argv with
  | ["docker"; "inspect"; _; _; cid] =>
      (match dict_get cid (boxes h) with
       | Some b => answer argv (of_chars (dump (box_json cid b)))
       | None => failed argv end, h)
  | ["docker"; "update"; flag; cid] => change argv cid (set_policy flag) h
  | ["docker"; "stop"; _; cid] => change argv cid (fun b => Box (policy b) (retries b) false) h
  | ["docker"; "start"; cid] => change argv cid (fun b => Box (policy b) (retries b) true) h
  | "docker" :: "ps" :: rest =>
      (answer argv (if (4 <? length rest)%nat then app_id else lines (fst <$> boxes h)), h)
  | "lsof" :: _ :: _ :: _ :: paths =>
      (match witness h with
       | Some _ => answer argv (lines (["p1"; "cpython"; "f3"] ++ List.map (fun p => "n" ++ p) paths ++
                                       ["p2"; "cpython"; "f3"] ++ List.map (fun p => "n" ++ p) (take 1 paths)))
       | None => failed argv end, h)
  | _ => (failed argv, h)
  end%string.

#[export] Instance wal_outside : Outside docker_host := {|
  runner := run_docker;
  stat_id v _ := match v with
                 | VStr s => if String.eqb s "/data" then Some (1, 42) else Some (1, 7)
                 | _ => None end;
  lstat_id p _ := (Z.of_nat (length p), 1);
  lstat_size _ _ := 0;
  realpath s _ := s;
  linked _ _ := None;
  witness_enter p h := (Ok 2, Docker (boxes h) (Some p));
  witness_exit p h := (Ok tt, Docker (boxes h) None);
  clock_reading _ := 100%Q;
  token_drawn n k := of_chars (repeat "0"%char n) ++ str_of_int (Z.of_nat k);
  getpid := 1;
  getcwd := "/";
  str_of_val _ := ""
|}%string.

Definition start_host : docker_host :=
  Docker [(app_id, Box "on-failure" 3 true); (proxy_id, Box "always" 0 true)] None.

Definition wal_tree : gmap path node := list_to_map [
  ([], Dir 493); (["data"], Dir 448); (["db"; "data"], File 384 (chars "pages") true);
  (["db-wal"; "data"], File 384 (chars "frames") true)]%string.

Definition start_machine (fs : list fault) : machine (world docker_host) :=
  Machine fs wal_tree wal_tree (World start_host [] 0 0).

Definition unsigned : ExternalAuthorityAck := {|
  issuer := VStr "ops"; issued_at := VFloat (Fin 0); expires_at := VFloat (Fin 1000); host_id := VStr "h1";
  scope_digest := VStr (match scope_digest_for (VStr "h1") [VStr app_id; VStr proxy_id]
      (VDict [("realpath", VStr "/data"); ("device", VInt 1); ("inode", VInt 42)]) with Ok d => d | _ => "" end);
  signature := VStr "" |}%string.

Definition key : bytes := chars "k".

Definition sample_ack : ExternalAuthorityAck := {|
  issuer := issuer unsigned; issued_at := issued_at unsigned; expires_at := expires_at unsigned;
  host_id := host_id unsigned; scope_digest := scope_digest unsigned;
  signature := VStr (hmac_sha256 key (ack_signing_payload unsigned)) |}.

Definition sample_request : Request := {|
  target := {| t_project := "glassops"; t_service := "app"; t_container_id := app_id;
               t_scope := [{| service := "proxy"; container_id := proxy_id |};
                           {| service := "app"; container_id := app_id |}];
               t_data_destination := "/app/data"; t_db_relpath := "db"; t_ack := Some sample_ack;
               t_verifier := Some key; t_host_id := "h1" |};
  manifest_path := "/run/m"; prepared_path := None; stop_deadline_seconds := 100%Q; lease_ttl_seconds := 900
|}%string.

#[export] Instance wal_outside_laws : OutsideLaws.
Proof.
  split. intros n k. simpl. apply str_forall_chars. rewrite chars_append. apply Forall_app; split; [|apply int_no_slash].
  rewrite chars_of_chars. induction n; by constructor.
Qed.

(** ** The runs *)

Definition is_ok {A} (r : res A) : bool := match r with Ok _ => true | Raise _ => false end.

Lemma is_ok_run {A W} (m : M W A) w : is_ok (m w).1 = true -> exists a w', m w = (Ok a, w').
Proof. destruct (m w) as [[a|e] w']; [by eexists _, _|done]. Qed.

Definition start := start_machine [].

Definition claimed : M (machine (world docker_host)) Capability :=
  m ← fence sample_request; claim m (Some key).

Definition sample_args : ReleaseArgs := {|
  ra_manifest_path := Some "/run/m"%string; ra_prepared_path := None; start_containers := true;
  start_allowlist := []
|}.

(** No link anywhere: no scratch file meets one. *)
Lemma no_links p fs : no_link_at p (start_machine fs).
Proof.
  unfold no_link_at. change (vis (start_machine fs)) with wal_tree.
  destruct (wal_tree !! p) as [[]|] eqn:E; try done; exfalso; revert E; unfold wal_tree; simpl;
    rewrite !lookup_insert_Some, lookup_empty; intros E; decompose [and or] E; done.
Qed.

Definition sample_record : dict :=
  [("schema", VStr SCHEMA); ("state", VStr RELEASED); ("restored", VList [VStr app_id; VInt 3])]%string.

Lemma sample_record_ok : json_ok (VDict sample_record).
Proof. constructor; [by apply (bool_decide_unpack (NoDup sample_record.*1))|]. repeat constructor. Qed.





(** ** Flaws *)

Definition overlap : M (machine (world docker_host)) ReleaseRecord :=
  m ← fence sample_request;
  record ← read_prepared "/run/m.prepared.json";
  lease ← may_release "/run/m";
  c ← claim m (Some key);
  _ ← check_before_source_open c "/data/db";
  _ ← begin_apply c;
  put_back sample_args "/run/m" "/run/m.prepared.json" record lease.

(** A release asks its questions, then a claim is taken, checked and begins to apply, and
    then the release goes on: it returns, with the containers running again while the
    claim is APPLYING. *)
Theorem release_claim_race :
  is_ok (overlap start).1 = true /\
  boxes (host (env (overlap start).2)) = boxes start_host /\
  is_Some (vis (overlap start).2 !! at_path (_applying_path "/run/m")) /\
  vis (overlap start).2 !! at_path (_claim_done_path "/run/m") = None.
Proof. split_and!; [vm_compute; reflexivity..|vm_compute; by eexists|vm_compute; reflexivity]. Qed.

(** The machine after a run whose directory fsync of the PREPARED record failed, and after
    a second run that met with a power loss once it had pinned the containers. *)
Definition reused : machine (world docker_host) :=
  let w := (fence sample_request (start_machine (repeat NoFault 32 ++ [Before IOFailure]))).2 in
  (fence sample_request (with_faults w (repeat NoFault 26 ++ [PowerCut]))).2.

(** A PREPARED record that an earlier run left is trusted without a fsync: both policies
    are [no], and no power-safe record says what they were. *)
Theorem reused_record_not_durable :
  (fun b => policy b.2) <$> boxes (host (env reused)) = ["no"; "no"]%string /\
  dur reused !! at_path "/run/m.prepared.json" = None.
Proof. split; vm_compute; reflexivity. Qed.

(** A container that mounts a directory above the data directory shares its storage and is
    no sharer to [_mount_sharers]: undeclared and running, it does not stop the fence. *)
Definition with_outsider : machine (world docker_host) :=
  with_env start (World (Docker (boxes start_host ++ [(hex_id "c"%char, Box "always" 0 true)]) None) [] 0 0).

Theorem parent_mount_unseen :
  is_ok (fence sample_request with_outsider).1 = true /\
  dict_get (hex_id "c"%char) (boxes (host (env (fence sample_request with_outsider).2))) = Some (Box "always" 0 true).
Proof. split; vm_compute; reflexivity. Qed.
