(* ===== verification/Sql.v ===== *)
(** * SQLite tables as account_state_transfer.py uses them

    Storage classes, PRAGMA table_info and foreign_key_list rows, SELECT in key
    order, INSERT with its constraints, the AUTOINCREMENT high-water table, and one
    connection with its transaction on the machine of [Files].  SQLite itself is
    not under src/: what a column's affinity makes of a value is the parameter
    [affine] of [Sqlite]. *)
From S2P Require Import Prelude Sorting Py Effects PyOps Files.
Open Scope Z_scope.

Inductive sqlv :=
| SNull
| SInt (z : Z)
| SReal (f : pyfloat)
| SText (s : string)
| SBlob (b : bytes).

Class Sqlite := {
  affine : string -> sqlv -> sqlv;
  (** Whether [PRAGMA foreign_keys=ON] takes effect in this build of the library. *)
  foreign_keys_available : bool
}.

(** A row of PRAGMA table_info and one of PRAGMA foreign_key_list. *)
Record col := Col {
  c_cid : Z; c_name : string; c_type : string; c_notnull : Z; c_dflt : option string; c_pk : Z
}.
Record fkey := Fkey {
  fk_id : Z; fk_seq : Z; fk_table : string; fk_from : string; fk_to : string;
  fk_update : string; fk_delete : string; fk_match : string
}.

#[export] Instance col_eq_dec : EqDecision col.
Proof. solve_decision. Defined.
#[export] Instance fkey_eq_dec : EqDecision fkey.
Proof. solve_decision. Defined.

Abbreviation row := (list sqlv).

Record table := Table {
  t_info : list col;
  t_fks : list fkey;
  t_auto : bool;       (** declared AUTOINCREMENT *)
  t_rows : list row    (** in rowid order *)
}.

Record sdb := Sdb {
  tables : gmap string table;
  sqlite_sequence : option (gmap string (option Z))
}.

(** ** Comparison *)

Definition sql_class (v : sqlv) : nat :=
  match v with SNull => 0 | SInt _ | SReal _ => 1 | SText _ => 2 | SBlob _ => 3 end.

Definition sql_number (v : sqlv) : pyfloat :=
  match v with SInt z => Fin (inject_Z z) | SReal f => f | _ => NaN end.

(** Not greater: SQLite stores no NaN. *)
Definition number_leb (x y : pyfloat) : bool := negb (float_ge x y && negb (float_ge y x)).

Definition sql_leb (x y : sqlv) : bool :=
  match x, y with
  | SText a, SText b => str_leb a b
  | SBlob a, SBlob b => str_leb (of_chars a) (of_chars b)
  | _, _ => (sql_class x <? sql_class y)%nat ||
            ((sql_class x =? sql_class y)%nat &&
             ((sql_class x =? 0)%nat || number_leb (sql_number x) (sql_number y)))
  end.

Definition sql_eqb (x y : sqlv) : bool := sql_leb x y && sql_leb y x.

Fixpoint keys_leb (x y : list sqlv) : bool :=
  match x, y with
  | [], _ => true
  | _, [] => false
  | a :: x, b :: y => if sql_eqb a b then keys_leb x y else sql_leb a b
  end.

Definition keys_eqb (x y : list sqlv) : bool := keys_leb x y && keys_leb y x.

Lemma sql_leb_total x y : sql_leb x y = true \/ sql_leb y x = true.
Proof.
  assert (Hn : forall a b, number_leb a b = true \/ number_leb b a = true).
  { intros a b. unfold number_leb. destruct (float_ge a b), (float_ge b a); simpl; auto. }
  destruct x, y; simpl; auto using str_leb_total.
Qed.

Lemma keys_leb_total x y : keys_leb x y = true \/ keys_leb y x = true.
Proof.
  revert y. induction x as [|a x IH]; intros [|b y]; simpl; auto.
  unfold sql_eqb. destruct (sql_leb_total a b) as [E|E]; destruct (sql_leb a b) eqn:E1, (sql_leb b a) eqn:E2;
    simpl; auto; congruence.
Qed.

(** ** Columns and keys *)

Definition columns_of (info : list col) : list string := List.map c_name info.

(** The primary key's columns, in key order. *)
Definition pk_columns (info : list col) : list string :=
  List.map c_name (sort_by (fun a b => c_pk a <=? c_pk b) (List.filter (fun c => 0 <? c_pk c) info)).

Fixpoint column_value (info : list col) (name : string) (r : row) : sqlv :=
  match info, r with
  | c :: info, v :: r => if String.eqb (c_name c) name then v else column_value info name r
  | _, _ => SNull
  end.

Definition key_of (info : list col) (r : row) : list sqlv :=
  List.map (fun c => column_value info c r) (pk_columns info).

(** [SELECT columns ... ORDER BY primary key]; ties, which only NULL keys can
    have, come in rowid order. *)
Definition select_by_key (t : table) : list row :=
  sort_by (fun a b => keys_leb (key_of (t_info t) a) (key_of (t_info t) b)) (t_rows t).

(** The name of an INTEGER PRIMARY KEY, which aliases the rowid. *)
Definition rowid_alias (info : list col) : option string :=
  match List.filter (fun c => 0 <? c_pk c) info with
  | [c] => if String.eqb (c_type c) "INTEGER" then Some (c_name c) else None
  | _ => None
  end.

Definition with_rows (t : table) (rs : list row) := Table (t_info t) (t_fks t) (t_auto t) rs.
Definition put_table (name : string) (t : table) (d : sdb) : sdb :=
  Sdb (<[name := t]> (tables d)) (sqlite_sequence d).
Definition rows_of (name : string) (d : sdb) : list row :=
  match tables d !! name with Some t => t_rows t | None => [] end.

Definition max_of (l : list Z) : option Z :=
  match l with [] => None | z :: l => Some (fold_left Z.max l z) end.

Definition int_of (v : sqlv) : option Z := match v with SInt z => Some z | _ => None end.

(** [SELECT max(pk)] of an integer key. *)
Definition max_rowid (t : table) (pk : string) : option Z :=
  max_of (omap (fun r => int_of (column_value (t_info t) pk r)) (t_rows t)).

Definition seq_of (name : string) (d : sdb) : option Z :=
  match sqlite_sequence d with Some m => default None (m !! name) | None => None end.

(** ** INSERT *)

Section Insert.
Context `{Sqlite}.

Fixpoint apply_affinity (info : list col) (r : row) : row :=
  match info, r with
  | c :: info, v :: r => affine (c_type c) v :: apply_affinity info r
  | _, _ => []
  end.

Fixpoint set_column (info : list col) (name : string) (x : sqlv) (r : row) : row :=
  match info, r with
  | c :: info, v :: r => if String.eqb (c_name c) name then x :: r else v :: set_column info name x r
  | _, r => r
  end.

(** An absent rowid is the next one; anything but an integer is a datatype mismatch. *)
Definition settle_rowid (name : string) (d : sdb) (t : table) (r : row) : option (row * option Z) :=
  match rowid_alias (t_info t) with
  | None => Some (r, None)
  | Some pk =>
      match column_value (t_info t) pk r with
      | SInt z => Some (r, Some z)
      | SNull =>
          let used := default 0 (max_rowid t pk) in
          let z := 1 + (if t_auto t then Z.max used (default 0 (seq_of name d)) else used) in
          Some (set_column (t_info t) pk (SInt z) r, Some z)
      | _ => None
      end
  end.

Definition not_null_ok (info : list col) (r : row) : bool :=
  forallb (fun c => negb (c_notnull c =? 1) || negb (sql_class (column_value info (c_name c) r) =? 0)%nat) info.

Definition key_free (t : table) (r : row) : bool :=
  let k := key_of (t_info t) r in
  existsb (fun v => (sql_class v =? 0)%nat) k || (length k =? 0)%nat ||
  negb (existsb (fun r' => keys_eqb k (key_of (t_info t) r')) (t_rows t)).

(** The row references a parent that is there. *)
Definition fk_holds (d : sdb) (info : list col) (r : row) (f : fkey) : bool :=
  let v := column_value info (fk_from f) r in
  (sql_class v =? 0)%nat ||
  match tables d !! fk_table f with
  | Some p => existsb (fun pr => sql_eqb v (column_value (t_info p) (fk_to f) pr)) (t_rows p)
  | None => false
  end.

Definition insert_row (name : string) (r : row) (d : sdb) : res sdb :=
  match tables d !! name with
  | None => Raise (SqliteError "OperationalError")
  | Some t =>
      match settle_rowid name d t (apply_affinity (t_info t) r) with
      | None => Raise (SqliteError "IntegrityError")
      | Some (r, rowid) =>
          if negb (not_null_ok (t_info t) r) || negb (key_free t r)
             || negb (forallb (fk_holds d (t_info t) r) (t_fks t))
          then Raise (SqliteError "IntegrityError")
          else
            let d := put_table name (with_rows t (t_rows t ++ [r])) d in
            Ok (match rowid, t_auto t with
                | Some z, true => Sdb (tables d)
                    ((fun m => <[name := Some (Z.max z (default 0 (default None (m !! name))))]> m)
                       <$> sqlite_sequence d)
                | _, _ => d
                end)
      end
  end.
End Insert.

(** DELETE FROM users WHERE email = v, with the cascades that reference it. *)
Definition delete_where (name column : string) (v : sqlv) (d : sdb) : sdb :=
  let gone info c r := negb (sql_class v =? 0)%nat && sql_eqb (column_value info c r) v in
  let cascade (t : table) :=
    fold_left (fun t f => if String.eqb (fk_table f) name && String.eqb (fk_to f) column
                             && String.eqb (fk_delete f) "CASCADE"
                          then with_rows t (List.filter (fun r => negb (gone (t_info t) (fk_from f) r)) (t_rows t))
                          else t) (t_fks t) t in
  let d := Sdb (cascade <$> tables d) (sqlite_sequence d) in
  match tables d !! name with
  | Some t => put_table name (with_rows t (List.filter (fun r => negb (gone (t_info t) column r)) (t_rows t))) d
  | None => d
  end.

(** PRAGMA foreign_key_check: how many rows lack a parent. *)
Definition violations (d : sdb) : nat :=
  sum_list_with (fun nt => sum_list_with
    (fun r => length (List.filter (fun f => negb (fk_holds d (t_info nt.2) r f)) (t_fks nt.2)))
    (t_rows nt.2)) (map_to_list (tables d)).

(** ** One connection *)

Record store := Store {
  target : sdb;          (** what is committed *)
  tx : option sdb        (** what the open transaction sees *)
}.

Section Connection.
Abbreviation K := (M (machine store)).

Definition seen (w : machine store) : sdb := default (target (env w)) (tx (env w)).

Definition with_tx (t : option sdb) (w : machine store) := with_env w (Store (target (env w)) t).

(** One statement: it fails like any call, or takes the transaction with it. *)
Definition sql {A} (eff : K A) : K A := fun w =>
  match faults w with
  | AutoRollback :: fs => (Raise (raised DriverFailure), with_tx None (with_faults w fs))
  | _ => sys eff w
  end.

Definition sql_read {A} (f : sdb -> A) : K A := sql (gets (fun w => f (seen w))).

(** A write outside a transaction would be committed at once. *)
Definition sql_write (f : sdb -> res sdb) : K unit :=
  sql (w ← gets id;
       d ← lift_res (f (seen w));
       modify (fun w => with_env w (match tx (env w) with
                                    | Some _ => Store (target (env w)) (Some d)
                                    | None => Store d None end))).

Definition sql_begin : K unit :=
  sql (w ← gets id;
       match tx (env w) with
       | Some _ => raise (SqliteError "OperationalError")
       | None => modify (with_tx (Some (target (env w))))
       end).

Definition sql_commit : K unit :=
  sql (w ← gets id;
       match tx (env w) with
       | None => raise (SqliteError "OperationalError")
       | Some d => modify (fun w => with_env w (Store d None))
       end).

Definition sql_rollback : K unit :=
  sql (w ← gets id;
       match tx (env w) with
       | None => raise (SqliteError "OperationalError")
       | Some _ => modify (with_tx None)
       end).

(** Closing abandons what was not committed. *)
Definition sql_close : K unit := sys (modify (with_tx None)).
End Connection.
