(* ===== verification/Calm.v ===== *)
(** * Undisturbed runs

    Runs of system calls and statements when the schedule has nothing in store: what
    each returns and what it makes of the tree and of the environment. *)
From S2P Require Import Prelude Py Effects PyOps Files Sql.
Open Scope Z_scope.

(** From any undisturbed machine with tree [v] and environment [e], [m] returns [a]
    and leaves the tree [v'] and the environment [e']. *)
Definition goes {W A : Type} (v : gmap path node) (e : W) (m : M (machine W) A) (a : A)
    (v' : gmap path node) (e' : W) : Prop :=
  forall u, exists u', m (Machine [] v u e) = (Ok a, Machine [] v' u' e').

Section Rules.
Context {W : Type}.
Implicit Types (v : gmap path node) (e : W) (p : path).

Lemma goes_ret {A} v e (a : A) : goes v e (mret a) a v e.
Proof. intros u. by exists u. Qed.

Lemma goes_bind {A B} v e (m : M (machine W) A) (k : A -> M (machine W) B) a v1 e1 b v2 e2 :
  goes v e m a v1 e1 -> goes v1 e1 (k a) b v2 e2 -> goes v e (m ≫= k) b v2 e2.
Proof.
  intros Hm Hk u. destruct (Hm u) as [u1 E1]. destruct (Hk u1) as [u2 E2].
  exists u2. unfold mbind, M_bind. by rewrite E1.
Qed.

Lemma goes_lift {A} v e (a : A) : goes v e (lift_res (Ok a)) a v e.
Proof. intros u. by exists u. Qed.

Lemma goes_catch {A} v e (m : M (machine W) A) h a v' e' : goes v e m a v' e' -> goes v e (catch m h) a v' e'.
Proof. intros Hm u. destruct (Hm u) as [u' E]. exists u'. unfold catch. by rewrite E. Qed.

Lemma goes_on_exception {A} v e (m : M (machine W) A) h a v' e' :
  goes v e m a v' e' -> goes v e (on_exception m h) a v' e'.
Proof. apply goes_catch. Qed.

Lemma goes_finally {A} v e (m : M (machine W) A) c a v1 e1 v2 e2 :
  goes v e m a v1 e1 -> goes v1 e1 c tt v2 e2 -> goes v e (finally m c) a v2 e2.
Proof.
  intros Hm Hc u. destruct (Hm u) as [u1 E1]. destruct (Hc u1) as [u2 E2].
  exists u2. unfold finally. by rewrite E1, E2.
Qed.

Lemma goes_for_each {X} v e (f : X -> M (machine W) unit) l :
  (forall x, x ∈ l -> goes v e (f x) tt v e) -> goes v e (for_each f l) tt v e.
Proof.
  intros Hf. induction l as [|x l IH]; simpl; [apply goes_ret|].
  eapply goes_bind; [apply Hf; by left|]. apply IH. intros y Hy. apply Hf. by right.
Qed.

Lemma goes_collect {X A} v e (f : X -> M (machine W) A) g l :
  (forall x, x ∈ l -> goes v e (f x) (g x) v e) -> goes v e (collect f l) (List.map g l) v e.
Proof.
  intros Hf. induction l as [|x l IH]; simpl; [apply goes_ret|].
  eapply goes_bind; [apply Hf; by left|]. eapply goes_bind; [|apply goes_ret].
  apply IH. intros y Hy. apply Hf. by right.
Qed.

(** A call does its effect. *)
Lemma goes_sys {A} v e (eff : M (machine W) A) a v' e' : goes v e eff a v' e' -> goes v e (sys eff) a v' e'.
Proof. intros He u. rewrite sys_calm by done. apply He. Qed.

Lemma goes_gets {A} v e (f : machine W -> A) a :
  (forall u, f (Machine [] v u e) = a) -> goes v e (gets f) a v e.
Proof. intros Hf u. exists u. unfold gets. by rewrite Hf. Qed.

Ltac call := apply goes_sys; intros u; eexists; cbv [mbind M_bind mret M_ret gets modify raise id]; cbn;
  repeat match goal with H : _ !! _ = _ |- _ => rewrite H; cbn end;
  repeat match goal with H : is_directory _ = _ |- _ => rewrite H; cbn end; reflexivity.

Lemma goes_lstat v e p : goes v e (os_lstat p) (v !! p) v e.
Proof. call. Qed.

Lemma goes_close v e : goes v e os_close tt v e.
Proof. call. Qed.

Lemma goes_nothing v e : goes v e (sys (mret tt)) tt v e.
Proof. call. Qed.

Lemma goes_is_dir v e p : goes v e (path_is_dir p) (is_directory (v !! p)) v e.
Proof. call. Qed.

Lemma goes_stat_dir v e p n : v !! p = Some n -> n <> Symlink None ->
  goes v e (os_stat_dir p) (is_directory (v !! p)) v e.
Proof.
  intros Hp Hn. unfold os_stat_dir. apply goes_sys. intros u. exists u.
  cbv [mbind M_bind mret M_ret gets raise id]. cbn. rewrite Hp. by destruct n as [| |[]|].
Qed.

Lemma goes_mkdir v e p m : v !! p = None -> is_directory (v !! parent p) = true ->
  goes v e (os_mkdir p m) tt (<[p := Dir m]> v) e.
Proof. intros. unfold os_mkdir. call. Qed.

Lemma goes_chmod_dir v e p m m0 : v !! p = Some (Dir m0) -> goes v e (os_chmod p m) tt (<[p := Dir m]> v) e.
Proof. intros. unfold os_chmod. call. Qed.

Lemma goes_chmod v e p m m0 d s : v !! p = Some (File m0 d s) ->
  goes v e (os_chmod p m) tt (<[p := File m d s]> v) e.
Proof. intros. unfold os_chmod. call. Qed.

Lemma goes_create v e p m : v !! p = None -> is_directory (v !! parent p) = true ->
  goes v e (os_create p m) tt (<[p := File m [] false]> v) e.
Proof. intros. unfold os_create. call. Qed.

Lemma goes_fsync v e p m d s : v !! p = Some (File m d s) ->
  goes v e (os_fsync p) tt (<[p := File m d true]> v) e.
Proof. intros. unfold os_fsync. call. Qed.

Lemma goes_open_read v e p m d s : v !! p = Some (File m d s) -> goes v e (os_open_read p) tt v e.
Proof. intros. unfold os_open_read. call. Qed.

Lemma goes_fstat v e p : goes v e (os_fstat_regular p) (is_regular (v !! p)) v e.
Proof. call. Qed.

Lemma goes_read v e p m d s : v !! p = Some (File m d s) -> goes v e (os_read p) d v e.
Proof. intros. unfold os_read. call. Qed.

Lemma goes_write v e p m d s view : v !! p = Some (File m d s) ->
  goes v e (os_write p view) (length view) (<[p := File m (d ++ view) false]> v) e.
Proof.
  intros Hp u. exists u. unfold os_write, sys. cbv [mbind M_bind mret M_ret modify]. cbn. rewrite Hp. cbn. by rewrite take_ge.
Qed.

Lemma goes_rename v e a b n : v !! a = Some n -> (forall m, v !! b <> Some (Dir m)) ->
  goes v e (os_rename a b) tt (<[b := n]> (delete a v)) e.
Proof.
  intros Ha Hb. unfold os_rename. apply goes_sys. intros u. exists u.
  cbv [mbind M_bind mret M_ret gets modify raise id]. cbn. rewrite Ha.
  destruct (v !! b) as [[]|] eqn:E; try done. by destruct (Hb mode).
Qed.

Lemma goes_unlink v e p n : v !! p = Some n -> (forall m, n <> Dir m) ->
  goes v e (os_unlink p) tt (delete p v) e.
Proof.
  intros Hp Hn. unfold os_unlink. apply goes_sys. intros u. exists u.
  cbv [mbind M_bind mret M_ret gets modify raise id]. cbn. rewrite Hp.
  destruct n; try done. by destruct (Hn mode).
Qed.

Lemma goes_open_dir v e d : is_directory (v !! d) = true -> goes v e (os_open_dir d) tt v e.
Proof. intros. unfold os_open_dir. call. Qed.

Lemma goes_fsync_names v e d : goes v e (os_fsync_names d) tt v e.
Proof. call. Qed.
End Rules.

(** ** Statements *)

Section Statements.
Implicit Types (v : gmap path node) (t d : sdb).

Lemma goes_sql {A} v (e : store) (eff : M (machine store) A) a v' e' : goes v e eff a v' e' -> goes v e (sql eff) a v' e'.
Proof. intros He u. unfold sql. cbn. by apply goes_sys. Qed.

Lemma goes_sql_read {A} v e (f : sdb -> A) : goes v e (sql_read f) (f (default (target e) (tx e))) v e.
Proof. apply goes_sql, goes_gets. by intros u. Qed.

Lemma goes_sql_ask {A} v t d (f : sdb -> A) : goes v (Store t (Some d)) (sql_read f) (f d) v (Store t (Some d)).
Proof. apply goes_sql_read. Qed.

Lemma goes_sql_write v t d f d' : f d = Ok d' ->
  goes v (Store t (Some d)) (sql_write f) tt v (Store t (Some d')).
Proof.
  intros Hf. apply goes_sql. intros u. exists u. cbv [mbind M_bind gets modify lift_res id]. cbn. by rewrite Hf.
Qed.

Lemma goes_begin v t : goes v (Store t None) sql_begin tt v (Store t (Some t)).
Proof. apply goes_sql. intros u. by exists u. Qed.

Lemma goes_commit v t d : goes v (Store t (Some d)) sql_commit tt v (Store d None).
Proof. apply goes_sql. intros u. by exists u. Qed.

Lemma goes_sql_close v t x : goes v (Store t x) sql_close tt v (Store t None).
Proof. apply goes_sys. intros u. by exists u. Qed.
End Statements.
