(* ===== verification/Transfer.v ===== *)
(** * Account state transfer (src/backend/app/account_state_transfer.py)

    Export of the account tables and secret.key into a bundle directory, and their
    restore into a freshly initialised database, on the machine of [Files] and
    [Sql]: every system call and every statement can fail, be interrupted or be
    where the power goes.  A refusal carries the code of its class; its text names
    tables and paths only and is not modelled. *)
From S2P Require Import Prelude Sorting Py Effects PyOps Json Files Sql.
Open Scope Z_scope.

Definition FORMAT : string := "glassops-account-state/1".
Definition MANIFEST_NAME : string := "manifest.json".
Definition SECRET_KEY_NAME : string := "secret.key".
Definition COMPLETE_MARKER : string := "COMPLETE".
Definition REPORT_NAME : string := "report.json".
Definition INITIAL_ADMIN_PASSWORD_FILE : string := "initial_admin_password".

Definition PRESERVED_TABLES : list string :=
  ["users"; "user_host_accounts"; "alert_config"; "token_blacklist"; "audit_log"]%string.
Definition AUTOINCREMENT_TABLES : list string := ["audit_log"]%string.
Definition CUTOVER_KEY : string := "metric_agg_cutover_raw_id".

Definition EXPECTED_TABLES : list (string * list col) := [
  ("users", [
    Col 0 "email" "TEXT" 0 None 1;
    Col 1 "password_hash" "TEXT" 1 None 0;
    Col 2 "totp_secret" "TEXT" 0 None 0;
    Col 3 "totp_enabled" "INTEGER" 0 (Some "0") 0;
    Col 4 "must_change_password" "INTEGER" 0 (Some "0") 0;
    Col 5 "created_at" "REAL" 1 None 0;
    Col 6 "role" "TEXT" 1 (Some "'user'") 0;
    Col 7 "is_active" "INTEGER" 1 (Some "1") 0;
    Col 8 "tokens_valid_after" "REAL" 1 (Some "0") 0]);
  ("user_host_accounts", [
    Col 0 "user_email" "TEXT" 1 None 1;
    Col 1 "agent_id" "TEXT" 1 None 2;
    Col 2 "host_user" "TEXT" 1 None 0]);
  ("alert_config", [
    Col 0 "id" "INTEGER" 0 (Some "1") 1;
    Col 1 "config" "TEXT" 1 None 0]);
  ("token_blacklist", [
    Col 0 "token_hash" "TEXT" 0 None 1;
    Col 1 "expires_at" "REAL" 1 None 0]);
  ("audit_log", [
    Col 0 "id" "INTEGER" 0 None 1;
    Col 1 "timestamp" "REAL" 1 None 0;
    Col 2 "user_email" "TEXT" 1 None 0;
    Col 3 "action" "TEXT" 1 None 0;
    Col 4 "agent_id" "TEXT" 1 (Some "''") 0;
    Col 5 "detail" "TEXT" 1 (Some "'{}'") 0]);
  ("runtime_config", [
    Col 0 "key" "TEXT" 0 None 1;
    Col 1 "value" "TEXT" 1 None 0])]%string.

Definition EXPECTED_FOREIGN_KEYS (table : string) : list fkey :=
  if String.eqb table "user_host_accounts"
  then [Fkey 0 0 "users" "user_email" "email" "NO ACTION" "CASCADE" "NONE"] else [].

(** ** Refusals *)

Definition refuse (code : string) : exn := Refused code None.
Definition PathRejected : exn := refuse "PATH_REJECTED".
Definition SchemaMismatch : exn := refuse "SCHEMA_MISMATCH".
Definition RuntimeConfigNotEmpty : exn := refuse "RUNTIME_CONFIG_NOT_EMPTY".
Definition BundleRejected : exn := refuse "BUNDLE_REJECTED".
Definition TargetNotFresh : exn := refuse "TARGET_NOT_FRESH".
Definition VerificationFailed : exn := refuse "VERIFICATION_FAILED".
Definition RestoreInterrupted (aftermath : string) : exn :=
  Refused "RESTORE_INTERRUPTED" (Some aftermath).
Definition ManualVerificationRequired : exn := refuse "MANUAL_VERIFICATION_REQUIRED".

(** The opening words stand for the whole text. *)
Definition RETRY_GUIDANCE : string := "State: the target database is back in its fresh state".

(** ** Canonical encoding *)

Definition strs (l : list string) : pyval := VList (List.map VStr l).

Definition expected_info (table : string) : list col := default [] (dict_get table EXPECTED_TABLES).
Definition _columns (table : string) : list string := columns_of (expected_info table).

Section Encoding.
Context `{Sqlite, FloatText, Digest}.

Definition canonical_bytes (obj : pyval) : res bytes := dumps obj.

Definition table_digest (columns rows : pyval) : res string :=
  b ← canonical_bytes (VDict [("columns", columns); ("rows", rows)]%string);
  Ok (sha256 b).

Definition _encode_value (v : sqlv) : res pyval :=
  match v with
  | SNull => Ok VNone
  | SText s => Ok (VStr s)
  | SInt z => Ok (VInt z)
  | SReal (Fin q) => Ok (VFloat (Fin q))
  | SReal _ | SBlob _ => Raise SchemaMismatch
  end.

Definition _decode_value (v : pyval) : res pyval :=
  match v with
  | VNone | VStr _ | VInt _ | VFloat (Fin _) => Ok v
  | _ => Raise BundleRejected
  end.

Definition _load_json (data : bytes) : res dict :=
  match text ← utf8_decode data; loads text with
  | Some (VDict d) => Ok d
  | _ => Raise BundleRejected
  end.

Definition _encode_rows (rows : list row) : res pyval :=
  rs ← collect_res (fun r => vs ← collect_res _encode_value r; Ok (VList vs)) rows;
  Ok (VList rs).

(** ** Files *)

Section OnFiles.
Context {W : Type}.
Abbreviation K := (M (machine W)).

Definition _lstat (p : path) : K (option node) := os_lstat p.

Definition _require_regular_file (p : path) : K unit :=
  st ← _lstat p;
  match st with Some (File _ _ _) => mret tt | _ => raise PathRejected end.

Definition _require_directory (p : path) (follow_symlink : bool) : K unit :=
  st ← _lstat p;
  match st with
  | None => raise PathRejected
  | Some (Symlink _) =>
      if follow_symlink then
        is_dir ← os_stat_dir p;
        if (is_dir : bool) then mret tt else raise PathRejected
      else raise PathRejected
  | Some (Dir _) => mret tt
  | Some _ => raise PathRejected
  end.

Definition _require_absent (p : path) : K unit :=
  st ← _lstat p;
  match st with
  | Some _ => raise PathRejected
  | None => is_dir ← path_is_dir (parent p);
            if (is_dir : bool) then mret tt else raise PathRejected
  end.

Definition _read_all (p : path) : K bytes := os_read p.

Definition _read_private (p : path) : K bytes :=
  _ ← os_open_read p;
  finally (reg ← os_fstat_regular p;
           if (reg : bool) then _read_all p else raise PathRejected) os_close.

Definition _fsync_dir (d : path) : K unit :=
  _ ← os_open_dir d;
  finally (os_fsync_names d) os_close.

Definition _make_private_dir (p : path) : K unit :=
  _ ← catch (os_mkdir p 448)
            (fun e => match e with OSError "FileExistsError" => Some (raise PathRejected) | _ => None end);
  _ ← os_chmod p 448;
  _fsync_dir (parent p).

(** [while view: written = os.write(fd, view); view = view[written:]]. *)
Fixpoint write_all (fuel : nat) (p : path) (view : bytes) : K unit :=
  match fuel, view with
  | S fuel, _ :: _ => written ← os_write p view; write_all fuel p (drop written view)
  | _, _ => mret tt
  end.

Definition tmp_of (p : path) : path := child (parent p) ("." ++ leaf p ++ ".tmp")%string.

Definition _write_private_file (p : path) (data : bytes) (replace : bool) : K unit :=
  _ ← (if replace then mret tt
       else st ← _lstat p; match st with Some _ => raise PathRejected | None => mret tt end);
  let tmp := tmp_of p in
  st ← _lstat tmp;
  match st with
  | Some _ => raise PathRejected
  | None =>
      _ ← os_create tmp 384;
      _ ← on_exception
            (_ ← finally (_ ← os_chmod tmp 384;
                          _ ← write_all (length data) tmp data;
                          os_fsync tmp) os_close;
             os_rename tmp p)
            (fun e => _ ← catch (os_unlink tmp)
                                (fun e' => if is_os_error e' then Some (mret tt) else None);
                      raise e);
      _fsync_dir (parent p)
  end.

Definition _reconfirm_identical_key (p : path) (data : bytes) : K bool :=
  _ ← os_open_read p;
  same ← finally (reg ← os_fstat_regular p;
                  if negb reg then raise PathRejected
                  else
                    found ← _read_all p;
                    if negb (bool_decide (found = data)) then mret false
                    else _ ← os_chmod p 384; _ ← os_fsync p; mret true) os_close;
  if (same : bool) then _ ← _fsync_dir (parent p); mret true else mret false.

Definition _install_secret_key (p : path) (data : bytes) (expected_sha : string) : K bool :=
  st ← _lstat p;
  there ← match st with
          | None => mret false
          | Some (File _ _ _) => _reconfirm_identical_key p data
          | Some _ => raise PathRejected
          end;
  if (there : bool) then mret false
  else
    _ ← _write_private_file p data true;
    found ← _read_private p;
    if String.eqb (sha256 found) expected_sha then mret true else raise VerificationFailed.

(** ** Schema and tables, over any way of asking a question of a database *)

Section Queries.
Variable query : forall A, (sdb -> A) -> K A.
Arguments query {A} _.

Definition verify_schema : K unit :=
  for_each (fun '(table, expected) =>
    actual ← query (fun d => match tables d !! table with Some t => t_info t | None => [] end);
    if negb (bool_decide (actual = expected)) then raise SchemaMismatch
    else
      keys ← query (fun d => match tables d !! table with Some t => t_fks t | None => [] end);
      if bool_decide (keys = EXPECTED_FOREIGN_KEYS table) then mret tt else raise SchemaMismatch)
    EXPECTED_TABLES.

Definition rows_by_key (table : string) (d : sdb) : list row :=
  match tables d !! table with Some t => select_by_key t | None => [] end.

Definition _read_table (table : string) : K (list string * pyval) :=
  rows ← query (rows_by_key table);
  rs ← lift_res (_encode_rows rows);
  mret (_columns table, rs).

Definition _has_sequence_table : K bool :=
  query (fun d => match sqlite_sequence d with Some _ => true | None => false end).

Definition _read_autoincrement : K (list (string * option Z)) :=
  have ← _has_sequence_table;
  collect (fun table =>
    high ← (if (have : bool) then query (seq_of table) else mret None);
    mret (table, high)) AUTOINCREMENT_TABLES.

(** LIKE ignores case and its underscore stands for any character. *)
Definition is_internal (name : string) : bool :=
  startswith "sqlite" (lower name) && (7 <=? String.length name)%nat.

Definition user_tables (d : sdb) : list string :=
  sort_by str_leb (List.filter (fun n => negb (is_internal n)) (map_to_list (tables d)).*1).

Definition _user_tables : K (list string) := query user_tables.

Definition _count (table : string) : K Z :=
  query (fun d => Z.of_nat (length (rows_of table d))).

Definition text_is (v : sqlv) (s : string) : bool :=
  match v with SText t => String.eqb t s | _ => false end.

Definition cell (table column : string) (r : row) : sqlv :=
  column_value (expected_info table) column r.

(** What one table of the target adds to the answer so far. *)
Definition fresh_table (bootstrap : sqlv) (table : string) : K sqlv :=
  if String.eqb table "runtime_config" then
    rows ← query (rows_of "runtime_config");
    if forallb (fun r => text_is (cell table "key" r) CUTOVER_KEY && text_is (cell table "value" r) "0") rows
    then mret bootstrap else raise TargetNotFresh
  else
    n ← _count table;
    if String.eqb table "users" then
      if n =? 0 then mret bootstrap
      else if 1 <? n then raise TargetNotFresh
      else
        rows ← query (rows_of "users");
        let r := default [] (head rows) in
        if text_is (cell "users" "role" r) "admin" then mret (cell "users" "email" r)
        else raise TargetNotFresh
    else if n =? 0 then mret bootstrap else raise TargetNotFresh.

Fixpoint fresh_tables (bootstrap : sqlv) (names : list string) : K sqlv :=
  match names with
  | [] => mret bootstrap
  | table :: names => b ← fresh_table bootstrap table; fresh_tables b names
  end.

(** The email of the bootstrap admin; [SNull] is None. *)
Definition _assert_fresh : K sqlv :=
  names ← _user_tables;
  fresh_tables SNull names.

Definition _other_table_counts : K (list (string * Z)) :=
  names ← _user_tables;
  collect (fun table => n ← _count table; mret (table, n))
    (List.filter (fun t => negb (str_mem t PRESERVED_TABLES) && negb (String.eqb t "runtime_config")) names).
End Queries.

(** ** Export *)

Definition path_text (p : path) : string :=
  fold_right (fun name acc => (acc ++ "/" ++ name)%string) ""%string p.

Record ExportReport := {
  ex_bundle_dir : string;
  ex_source_db : string;
  ex_row_counts : list (string * Z);
  ex_table_digests : list (string * string);
  ex_autoincrement : list (string * option Z);
  ex_manifest_sha256 : string;
  ex_secret_key_sha256 : string;
  ex_secret_key_size : Z
}.

Definition py_option (o : option Z) : pyval := match o with Some z => VInt z | None => VNone end.
Definition auto_json (l : list (string * option Z)) : pyval :=
  VDict (List.map (fun kv => (kv.1, py_option kv.2)) l).

Definition json_len (v : pyval) : Z := match v with VList l => Z.of_nat (length l) | _ => 0 end.

Definition table_entry (t : string * (list string * pyval)) : res (string * pyval) :=
  let '(name, (columns, rows)) := t in
  digest ← table_digest (strs columns) rows;
  Ok (name, VDict [("columns", strs columns); ("rows", rows);
                   ("row_count", VInt (json_len rows)); ("digest", VStr digest)]%string).

Definition manifest_of (entries : list (string * pyval)) (auto : list (string * option Z))
    (secret : bytes) : pyval :=
  VDict [("format", VStr FORMAT); ("tables", VDict entries); ("autoincrement", auto_json auto);
         ("secret_key", VDict [("sha256", VStr (sha256 secret));
                               ("size", VInt (Z.of_nat (length secret)))])]%string.

Section Export.
(** The database as the read transaction sees it, its WAL included. *)
Variable source : sdb.

Definition ro {A} (f : sdb -> A) : K A := sys (mret (f source)).

Definition export_rows : K (list (string * (list string * pyval)) * list (string * option Z)) :=
  _ ← sys (mret tt);
  finally
    (_ ← sys (mret tt);
     _ ← sys (mret tt);
     _ ← verify_schema (@ro);
     pending ← _count (@ro) "runtime_config";
     if negb (pending =? 0) then raise RuntimeConfigNotEmpty
     else
       tables ← collect (fun t => x ← _read_table (@ro) t; mret (t, x)) PRESERVED_TABLES;
       autoincrement ← _read_autoincrement (@ro);
       _ ← sys (mret tt);
       mret (tables, autoincrement))
    (sys (mret tt)).

Definition export_bundle (source_db bundle_dir data_dir : path) : K ExportReport :=
  let secret_path := child data_dir SECRET_KEY_NAME in
  _ ← _require_regular_file source_db;
  _ ← _require_regular_file secret_path;
  _ ← _require_absent bundle_dir;
  secret ← _read_private secret_path;
  if bool_decide (secret = []) then raise PathRejected
  else
    '(tables, autoincrement) ← export_rows;
    let secret_sha := sha256 secret in
    entries ← lift_res (collect_res table_entry tables);
    body ← lift_res (canonical_bytes (manifest_of entries autoincrement secret));
    let manifest_sha := sha256 body in
    _ ← _make_private_dir bundle_dir;
    _ ← _write_private_file (child bundle_dir MANIFEST_NAME) body false;
    _ ← _write_private_file (child bundle_dir SECRET_KEY_NAME) secret false;
    marker ← lift_res (canonical_bytes (VDict [
      ("format", VStr FORMAT); ("manifest_sha256", VStr manifest_sha);
      ("secret_key_sha256", VStr secret_sha); ("source_db", VStr (path_text source_db))]%string));
    _ ← _write_private_file (child bundle_dir COMPLETE_MARKER) marker false;
    digests ← lift_res (collect_res (fun t => d ← table_digest (strs t.2.1) t.2.2; Ok (t.1, d)) tables);
    mret {| ex_bundle_dir := path_text bundle_dir; ex_source_db := path_text source_db;
            ex_row_counts := List.map (fun t => (t.1, json_len t.2.2)) tables;
            ex_table_digests := digests; ex_autoincrement := autoincrement;
            ex_manifest_sha256 := manifest_sha; ex_secret_key_sha256 := secret_sha;
            ex_secret_key_size := Z.of_nat (length secret) |}.
End Export.
End OnFiles.

(** ** Reading a bundle *)

Definition str_is (v : pyval) (s : string) : bool :=
  match v with VStr t => String.eqb t s | _ => false end.

Definition strs_are (v : pyval) (l : list string) : bool :=
  match v with
  | VList vs => (length vs =? length l)%nat && forallb (fun p => str_is p.1 p.2) (zip vs l)
  | _ => false
  end.

Definition number_is (v : pyval) (n : Z) : bool :=
  match py_num v with Some (Fin q) => Qeq_bool q (inject_Z n) | _ => false end.

Definition rows_shaped (width : nat) (v : pyval) : option (list pyval) :=
  match v with
  | VList rs => if forallb (fun r => match r with VList l => (length l =? width)%nat | _ => false end) rs
                then Some rs else None
  | _ => None
  end.

Definition require (b : bool) : res unit := if b then Ok tt else Raise BundleRejected.

Definition manifest_entry (tables : dict) (table : string) : res unit :=
  match get table tables with
  | VDict entry =>
      let columns := get "columns" entry in
      let rows := get "rows" entry in
      _ ← require (strs_are columns (_columns table));
      match rows_shaped (length (_columns table)) rows with
      | None => Raise BundleRejected
      | Some rs =>
          _ ← require (number_is (get "row_count" entry) (Z.of_nat (length rs)));
          digest ← table_digest columns rows;
          require (str_is (get "digest" entry) digest)
      end
  | _ => Raise BundleRejected
  end.

Definition high_water_ok (v : pyval) : bool :=
  match v with VNone => true | VInt z => 0 <=? z | _ => false end.

Definition _validate_manifest (manifest : dict) : res unit :=
  _ ← require (str_is (get "format" manifest) FORMAT);
  match get "tables" manifest with
  | VDict tables =>
      _ ← require (forallb (fun kv => str_mem kv.1 PRESERVED_TABLES) tables);
      _ ← require (forallb (fun t => match dict_get t tables with Some _ => true | None => false end)
                     PRESERVED_TABLES);
      _ ← collect_res (manifest_entry tables) PRESERVED_TABLES;
      _ ← require (match get "autoincrement" manifest with
                   | VDict auto => forallb (fun kv => str_mem kv.1 AUTOINCREMENT_TABLES && high_water_ok kv.2) auto
                       && forallb (fun t => match dict_get t auto with Some _ => true | None => false end)
                            AUTOINCREMENT_TABLES
                   | _ => false
                   end);
      require (match get "secret_key" manifest with
               | VDict secret => match get "sha256" secret, get "size" secret with
                                 | VStr _, VInt size => 0 <? size
                                 | _, _ => false
                                 end
               | _ => false
               end)
  | _ => Raise BundleRejected
  end.

Definition sub_dict (k : string) (d : dict) : dict :=
  match get k d with VDict d => d | _ => [] end.

Definition entry_of (manifest : dict) (table : string) : dict :=
  sub_dict table (sub_dict "tables" manifest).

Definition items (v : pyval) : list pyval := match v with VList l => l | _ => [] end.

Definition decode_table (manifest : dict) (table : string) : res (list (list pyval)) :=
  collect_res (fun r => collect_res _decode_value (items r)) (items (get "rows" (entry_of manifest table))).

(** ** Restore *)

Record RestoreReport := {
  re_run_dir : string;
  re_bundle_dir : string;
  re_target_db : string;
  re_row_counts : list (string * Z);
  re_table_digests : list (string * string);
  re_autoincrement : list (string * option Z);
  re_monitoring_rows : list (string * Z);
  re_foreign_key_violations : Z;
  re_bootstrap_admin_removed : sqlv;
  re_initial_admin_password_removed : bool;
  re_secret_key_sha256 : string;
  re_secret_key_installed : bool;
  re_manifest_sha256 : string
}.

Definition as_dict (r : RestoreReport) : pyval :=
  VDict [("run_dir", VStr (re_run_dir r)); ("bundle_dir", VStr (re_bundle_dir r));
         ("target_db", VStr (re_target_db r));
         ("row_counts", VDict (List.map (fun kv => (kv.1, VInt kv.2)) (re_row_counts r)));
         ("table_digests", VDict (List.map (fun kv => (kv.1, VStr kv.2)) (re_table_digests r)));
         ("autoincrement", auto_json (re_autoincrement r));
         ("monitoring_rows", VDict (List.map (fun kv => (kv.1, VInt kv.2)) (re_monitoring_rows r)));
         ("foreign_key_violations", VInt (re_foreign_key_violations r));
         ("bootstrap_admin_removed",
            match re_bootstrap_admin_removed r with SText s => VStr s | SInt z => VInt z
            | SReal f => VFloat f | _ => VNone end);
         ("initial_admin_password_removed", VBool (re_initial_admin_password_removed r));
         ("secret_key_sha256", VStr (re_secret_key_sha256 r));
         ("secret_key_installed", VBool (re_secret_key_installed r));
         ("manifest_sha256", VStr (re_manifest_sha256 r))]%string.

Abbreviation R := (M (machine store)).

Abbreviation q := (@sql_read).

(** A Python value as a bound parameter: an INTEGER has 64 bits. *)
Definition bind_param (v : pyval) : res sqlv :=
  match v with
  | VNone => Ok SNull
  | VInt z => if (- Z.pow 2 63 <=? z) && (z <? Z.pow 2 63) then Ok (SInt z) else Raise OverflowError
  | VFloat f => Ok (SReal f)
  | VStr s => Ok (SText s)
  | _ => Raise TypeError
  end.

Definition is_sqlite_error (e : exn) : bool :=
  match e with SqliteError _ | IntegrityError => true | _ => false end.

Definition _rollback_quietly : R unit :=
  catch sql_rollback (fun e => if is_exception e then Some (mret tt) else None).

(** [None]: the target has been proven fresh again; otherwise the reason. *)
Definition _return_target_to_fresh : R (option string) :=
  rolled ← catch (_ ← sql_rollback; mret None)
                 (fun e => if is_exception e then Some (mret (Some "rollback failed"%string)) else None);
  match rolled with
  | Some reason => mret (Some reason)
  | None =>
      catch (_ ← _assert_fresh q; mret None)
            (fun e => if is_exception e then Some (mret (Some "fresh re-check failed"%string)) else None)
  end.

Definition delete_sequence (table : string) (d : sdb) : res sdb :=
  match sqlite_sequence d with
  | Some m => Ok (Sdb (tables d) (Some (delete table m)))
  | None => Raise (SqliteError "OperationalError")
  end.

Definition insert_sequence (table : string) (seq : sqlv) (d : sdb) : res sdb :=
  match sqlite_sequence d with
  | Some m => Ok (Sdb (tables d) (Some (<[table := int_of seq]> m)))
  | None => Raise (SqliteError "OperationalError")
  end.

Definition _integer_pk (table : string) : string := default ""%string (head (pk_columns (expected_info table))).

(** One table's high-water: the larger of the recorded one and the largest id. *)
Definition apply_high_water (wanted : dict) (table : string) : R (string * option Z) :=
  max_id ← q _ (fun d => match tables d !! table with
                         | Some t => default 0 (max_rowid t (_integer_pk table)) | None => 0 end);
  match get table wanted with
  | VInt seq =>
      let high := Z.max seq max_id in
      _ ← sql_write (delete_sequence table);
      v ← lift_res (bind_param (VInt high));
      _ ← sql_write (insert_sequence table v);
      mret (table, Some high)
  | _ => high ← q _ (seq_of table); mret (table, high)
  end.

Definition _apply_autoincrement (wanted : dict) : R (list (string * option Z)) :=
  collect (apply_high_water wanted) AUTOINCREMENT_TABLES.

Definition insert_params (table : string) (r : list pyval) : R unit :=
  vs ← lift_res (collect_res bind_param r);
  sql_write (insert_row table vs).

(** The rows of one table; a driver error becomes a refusal. *)
Definition apply_table (decoded : string -> list (list pyval)) (table : string) : R unit :=
  catch (for_each (insert_params table) (decoded table))
        (fun e => if is_sqlite_error e then Some (raise VerificationFailed) else None).

Definition apply_bundle (manifest : dict) (decoded : string -> list (list pyval)) (bootstrap : sqlv)
    : R (list (string * option Z)) :=
  _ ← match bootstrap with
      | SNull => mret tt
      | email => sql_write (fun d => Ok (delete_where "users" "email" email d))
      end;
  _ ← for_each (apply_table decoded) PRESERVED_TABLES;
  _apply_autoincrement (sub_dict "autoincrement" manifest).

(** One restored table against its manifest entry: its row count and digest. *)
Definition reread_table (manifest : dict) (table : string) : R (string * (Z * string)) :=
  '(columns, rows) ← _read_table q table;
  digest ← lift_res (table_digest (strs columns) rows);
  let n := json_len rows in
  let entry := entry_of manifest table in
  if number_is (get "row_count" entry) n && str_is (get "digest" entry) digest
  then mret (table, (n, digest)) else raise VerificationFailed.

Definition reread_high_water (x : string * option Z) : R unit :=
  match x.2 with
  | None => mret tt
  | Some high =>
      seq ← q _ (seq_of x.1);
      if bool_decide (seq = Some high) then mret tt else raise VerificationFailed
  end.

(** Everything that is proven about the rows before the key is touched. *)
Definition verify_restored (manifest : dict) (autoincrement : list (string * option Z))
    : R (list (string * (Z * string)) * list (string * Z)) :=
  bad ← q _ violations;
  if negb (bad =? 0)%nat then raise VerificationFailed
  else
    checked ← collect (reread_table manifest) PRESERVED_TABLES;
    _ ← for_each reread_high_water autoincrement;
    monitoring ← _other_table_counts q;
    if forallb (fun kv => kv.2 =? 0) monitoring then mret (checked, monitoring)
    else raise VerificationFailed.

Record bundle := Bundle {
  b_manifest : dict;
  b_manifest_sha : string;
  b_secret : bytes;
  b_secret_sha : string;
  b_decoded : string -> list (list pyval)
}.

(** The bundle's three files, checked against each other. *)
Definition read_bundle (bundle_dir : path) : R bundle :=
  raw ← _read_private (child bundle_dir COMPLETE_MARKER);
  marker ← lift_res (_load_json raw);
  body ← _read_private (child bundle_dir MANIFEST_NAME);
  let manifest_sha := sha256 body in
  if negb (str_is (get "format" marker) FORMAT) || negb (str_is (get "manifest_sha256" marker) manifest_sha)
  then raise BundleRejected
  else
    manifest ← lift_res (_load_json body);
    _ ← lift_res (_validate_manifest manifest);
    secret ← _read_private (child bundle_dir SECRET_KEY_NAME);
    let secret_sha := sha256 secret in
    let recorded := sub_dict "secret_key" manifest in
    if negb (str_is (get "sha256" recorded) secret_sha)
       || negb (number_is (get "size" recorded) (Z.of_nat (length secret)))
       || negb (str_is (get "secret_key_sha256" marker) secret_sha)
    then raise BundleRejected
    else
      rows ← lift_res (collect_res (decode_table manifest) PRESERVED_TABLES);
      mret (Bundle manifest manifest_sha secret secret_sha
              (fun t => default [] (dict_get t (zip PRESERVED_TABLES rows)))).

Definition restored_facts : Type :=
  list (string * (Z * string)) * list (string * Z) * list (string * option Z) * bool * sqlv.

(** From the first change to COMMIT: rows, proof, key, COMMIT. *)
Definition commit_bundle (b : bundle) (target_secret : path) (bootstrap : sqlv) : R restored_facts :=
  autoincrement ← apply_bundle (b_manifest b) (b_decoded b) bootstrap;
  '(checked, monitoring) ← verify_restored (b_manifest b) autoincrement;
  installed ← _install_secret_key target_secret (b_secret b) (b_secret_sha b);
  _ ← sql_commit;
  mret (checked, monitoring, autoincrement, installed, bootstrap).

(** A failure before COMMIT leaves with a verdict on the target. *)
Definition stopped (e : exn) : R restored_facts :=
  unconfirmed ← _return_target_to_fresh;
  match unconfirmed with
  | Some _ => raise ManualVerificationRequired
  | None => match e with
            | Refused code _ => raise (Refused code (Some RETRY_GUIDANCE))
            | _ => raise (RestoreInterrupted RETRY_GUIDANCE)
            end
  end.

Definition restore_transaction (b : bundle) (target_secret : path) : R restored_facts :=
  _ ← sys (mret tt);
  finally
    (_ ← sql (mret tt);
     on ← q _ (fun _ => foreign_keys_available);
     if negb (on : bool) then raise VerificationFailed
     else
       _ ← sql_begin;
       bootstrap ← on_exception (_ ← verify_schema q; _assert_fresh q)
                                (fun e => _ ← _rollback_quietly; raise e);
       on_exception (commit_bundle b target_secret bootstrap) stopped)
    sql_close.

Definition remove_password_file (p : path) : R bool :=
  catch (_ ← os_unlink p; mret true)
        (fun e => if is_os_error e then Some (mret false) else None).

Definition restore_checks (bundle_dir target_db run_dir data_dir : path) : R unit :=
  _ ← _require_directory bundle_dir false;
  _ ← for_each (fun name => _require_regular_file (child bundle_dir name))
        [COMPLETE_MARKER; MANIFEST_NAME; SECRET_KEY_NAME];
  _ ← _require_regular_file target_db;
  _ ← _require_directory data_dir true;
  st ← _lstat (child data_dir SECRET_KEY_NAME);
  _ ← match st with None | Some (File _ _ _) => mret tt | Some _ => raise PathRejected end;
  _require_absent run_dir.

Definition restore_bundle (bundle_dir target_db run_dir data_dir : path) : R RestoreReport :=
  _ ← restore_checks bundle_dir target_db run_dir data_dir;
  b ← read_bundle bundle_dir;
  _ ← _make_private_dir run_dir;
  facts ← restore_transaction b (child data_dir SECRET_KEY_NAME);
  let '(checked, monitoring, autoincrement, installed, bootstrap) := (facts : restored_facts) in
  removed ← remove_password_file (child data_dir INITIAL_ADMIN_PASSWORD_FILE);
  let report := {|
    re_run_dir := path_text run_dir; re_bundle_dir := path_text bundle_dir;
    re_target_db := path_text target_db;
    re_row_counts := List.map (fun x => (x.1, x.2.1)) checked;
    re_table_digests := List.map (fun x => (x.1, x.2.2)) checked;
    re_autoincrement := autoincrement; re_monitoring_rows := monitoring;
    re_foreign_key_violations := 0; re_bootstrap_admin_removed := bootstrap;
    re_initial_admin_password_removed := removed; re_secret_key_sha256 := b_secret_sha b;
    re_secret_key_installed := installed; re_manifest_sha256 := b_manifest_sha b |} in
  text ← lift_res (canonical_bytes (as_dict report));
  _ ← _write_private_file (child run_dir REPORT_NAME) text false;
  marker ← lift_res (canonical_bytes (VDict [
    ("format", VStr FORMAT); ("report_sha256", VStr (sha256 text));
    ("manifest_sha256", VStr (b_manifest_sha b)); ("secret_key_sha256", VStr (b_secret_sha b))]%string));
  _ ← _write_private_file (child run_dir COMPLETE_MARKER) marker false;
  mret report.

(** ** Command line: the exit code *)

Definition exit_code {A} (r : res A) : option Z :=
  match r with
  | Ok _ => Some 0
  | Raise (Refused _ _) => Some 2
  | Raise e => if is_exception e then Some 1 else None
  end.
End Encoding.
