(* ===== verification/TransferSafety.v ===== *)
(** * What the transfer guarantees whatever goes wrong

    Theorems about [export_bundle] and [restore_bundle] for every schedule of
    failures, interruptions and power cuts. *)
From S2P Require Import Prelude Sorting Py Effects PyOps Json Files Sql Transfer.
Open Scope Z_scope.

Section Safety.
Context `{Sqlite, FloatText, Digest}.

(** ** What each helper touches *)

Section Touched.
Context {W : Type} (T : path -> Prop) (I : machine W -> Prop) (HI : respects T I).

Lemma keeps_regular_file p : keeps I (_require_regular_file p).
Proof.
  unfold _require_regular_file, _lstat. apply keeps_bind; [eauto with keeps|].
  intros [[]|]; eauto with keeps.
Qed.

Lemma keeps_directory p b : keeps I (_require_directory p b).
Proof.
  unfold _require_directory, _lstat. apply keeps_bind; [eauto with keeps|].
  intros [[| | |]|]; eauto with keeps.
Qed.

Lemma keeps_absent p : keeps I (_require_absent p).
Proof.
  unfold _require_absent, _lstat. apply keeps_bind; [eauto with keeps|].
  intros [n|]; [eauto with keeps|]. apply keeps_bind; [eauto with keeps|].
  intros []; eauto with keeps.
Qed.

Lemma keeps_read_private p : keeps I (_read_private p).
Proof.
  unfold _read_private, _read_all. apply keeps_bind; [eauto with keeps|]. intros _.
  apply keeps_finally; [|eauto with keeps]. apply keeps_bind; [eauto with keeps|].
  intros []; eauto with keeps.
Qed.

Lemma keeps_fsync_dir d : keeps I (_fsync_dir d).
Proof. unfold _fsync_dir. eauto 6 with keeps. Qed.

Lemma keeps_private_dir p : T p -> keeps I (_make_private_dir p).
Proof.
  intros Hp. unfold _make_private_dir. apply keeps_bind; [|intros _].
  - apply keeps_catch; [eauto with keeps|]. intros e k Hk.
    repeat case_match; simplify_eq; eauto with keeps.
  - apply keeps_bind; [eauto with keeps|]. intros _. apply keeps_fsync_dir.
Qed.

Lemma keeps_write_all fuel p v : T p -> keeps I (write_all fuel p v).
Proof.
  intros Hp. revert v. induction fuel as [|fuel IH]; intros [|c v]; simpl; eauto with keeps.
Qed.

Lemma keeps_private_file p data r : T p -> T (tmp_of p) -> keeps I (_write_private_file p data r).
Proof.
  intros Hp Ht. unfold _write_private_file, _lstat.
  apply keeps_bind.
  { destruct r; [eauto with keeps|]. apply keeps_bind; [eauto with keeps|]. intros []; eauto with keeps. }
  intros _. apply keeps_bind; [eauto with keeps|]. intros [n|]; [eauto with keeps|].
  apply keeps_bind; [eauto with keeps|]. intros _. apply keeps_bind; [|intros _; apply keeps_fsync_dir].
  apply keeps_on_exception.
  - apply keeps_bind; [|eauto with keeps]. apply keeps_finally; [|eauto with keeps].
    apply keeps_bind; [eauto with keeps|]. intros _.
    apply keeps_bind; [by apply keeps_write_all|]. eauto with keeps.
  - intros e. apply keeps_bind; [|eauto with keeps]. apply keeps_catch; [eauto with keeps|].
    intros e' k Hk. destruct (is_os_error e'); simplify_eq. eauto with keeps.
Qed.

Lemma keeps_reconfirm p data : T p -> keeps I (_reconfirm_identical_key p data).
Proof.
  intros Hp. unfold _reconfirm_identical_key, _read_all. apply keeps_bind; [eauto with keeps|]. intros _.
  apply keeps_bind; [|intros []; [|eauto with keeps]].
  - apply keeps_finally; [|eauto with keeps]. apply keeps_bind; [eauto with keeps|].
    intros []; simpl; [|eauto with keeps]. apply keeps_bind; [eauto with keeps|]. intros found.
    case_bool_decide; simpl; eauto with keeps.
  - apply keeps_bind; [apply keeps_fsync_dir|]. eauto with keeps.
Qed.

Lemma keeps_install p data sha : T p -> T (tmp_of p) -> keeps I (_install_secret_key p data sha).
Proof.
  intros Hp Ht. unfold _install_secret_key, _lstat. apply keeps_bind; [eauto with keeps|].
  intros st. apply keeps_bind.
  - destruct st as [[]|]; eauto using keeps_reconfirm with keeps.
  - intros []; [eauto with keeps|]. apply keeps_bind; [by apply keeps_private_file|]. intros _.
    apply keeps_bind; [apply keeps_read_private|]. intros found.
    destruct (String.eqb _ _); eauto with keeps.
Qed.
End Touched.

Hint Resolve keeps_regular_file keeps_directory keeps_absent keeps_read_private keeps_fsync_dir
  keeps_private_dir keeps_private_file keeps_install : keeps.

(** ** What each helper leaves behind *)

Section Leaves.
Context {W : Type}.
Implicit Types (w : machine W) (p : path).

Lemma fsync_dir_ok d w w' : _fsync_dir d w = (Ok tt, w') ->
  vis w' = vis w /\ dur w' = sync_names d (vis w) (dur w).
Proof.
  unfold _fsync_dir. intros Hr. run_ok.
  destruct x. repeat match goal with
  | H : os_open_dir _ _ = _ |- _ => apply open_dir_ok in H as [? ?]
  | H : os_fsync_names _ _ = _ |- _ => apply fsync_names_ok in H as [? ?]
  | H : os_close _ = _ |- _ => apply close_ok in H as [? ?] end.
  split; congruence.
Qed.

Lemma fsync_dir_seals p m d w w' : _fsync_dir (parent p) w = (Ok tt, w') ->
  vis w !! p = Some (File m d true) -> sealed p m d w'.
Proof.
  intros [Hv Hd]%fsync_dir_ok Hp. unfold sealed. rewrite Hv, Hd, lookup_sync_names.
  rewrite decide_True by done. by rewrite Hp.
Qed.

Lemma write_all_ok fuel p v m d s w w' : (length v <= fuel)%nat ->
  write_all fuel p v w = (Ok tt, w') -> vis w !! p = Some (File m d s) ->
  exists s', vis w' !! p = Some (File m (d ++ v) s').
Proof.
  revert v d s w. induction fuel as [|fuel IH]; intros v d s w Hf Hr Hp.
  - destruct v; [|simpl in Hf; lia]. simpl in Hr. run_ok. rewrite app_nil_r. eauto.
  - destruct v as [|c v]; simpl in Hr; run_ok; [rewrite app_nil_r; eauto|].
    match goal with H : os_write _ _ _ = _ |- _ => eapply write_ok in H as [Hv Hn]; [|exact Hp] end.
    specialize (Hn ltac:(done)). eapply IH in H3; [|rewrite length_drop; simpl in *; lia|exact Hv].
    destruct H3 as [s' Hs]. exists s'. rewrite Hs. by rewrite <- app_assoc, take_drop.
Qed.

Lemma write_count p v n w w' : os_write p v w = (Ok n, w') -> v <> [] -> (1 <= n)%nat.
Proof.
  unfold os_write. intros (fs & [= <- <-])%sys_ok Hv.
  assert (0 < length v)%nat by (destruct v; simpl; [done|lia]).
  unfold accepted_bytes. destruct (faults w) as [|[]]; lia.
Qed.

Lemma write_all_fuel n p v w : (length v <= n)%nat -> write_all n p v w = write_all (length v) p v w.
Proof.
  revert v w. induction n as [n IH] using lt_wf_ind. intros v w Hn.
  destruct v as [|c v]; [by destruct n|]. destruct n as [|n]; simpl in Hn; [lia|]. cbn [length write_all].
  unfold mbind, M_bind. destruct (os_write p (c :: v) w) as [[k|e] w1] eqn:E; [|done].
  apply write_count in E; [|done]. assert (Hl : (length (drop k (c :: v)) <= length v)%nat) by (rewrite length_drop; simpl; lia).
  rewrite (IH n) by lia. rewrite (IH (length v)) by lia. done.
Qed.

(** C38: The loop that hands a file to the kernel ends.  Every call takes at least one
    byte, so as many rounds as there are bytes are enough, however short the writes
    and whatever fails; and when it returns, the file has received every byte. *)
Theorem write_all_ends n p view (w : machine W) : (length view <= n)%nat ->
  write_all n p view w = write_all (length view) p view w /\
  forall m d s w', vis w !! p = Some (File m d s) -> write_all n p view w = (Ok tt, w') ->
    exists s', vis w' !! p = Some (File m (d ++ view) s').
Proof.
  intros Hn. split; [by apply write_all_fuel|]. intros m d s w' Hp Hr. by eapply write_all_ok.
Qed.

(** Follow one named node through a chain of calls that returned. *)
Ltac follow := repeat match goal with
  | H : os_close _ = (Ok ?u, _) |- _ => destruct u; apply close_ok in H as [? ?]
  | H : os_open_read _ _ = (Ok ?u, _) |- _ => destruct u; apply open_read_ok in H as [? ?]
  | H : os_fstat_regular _ _ = _ |- _ => apply fstat_ok in H as [? ?]
  | H : os_read _ _ = _ |- _ => apply read_ok in H as [? ?]
  | H : _read_all _ _ = _ |- _ => apply read_ok in H as [? ?]
  | H : _lstat _ _ = _ |- _ => apply lstat_ok in H as [? ?]
  | H : os_lstat _ _ = _ |- _ => apply lstat_ok in H as [? ?]
  end.

Lemma private_body_ok tmp p data w w' : vis w !! tmp = Some (File 384 [] false) ->
  (_ ← finally (_ ← os_chmod tmp 384; _ ← write_all (length data) tmp data; os_fsync tmp) os_close;
   os_rename tmp p) w = (Ok tt, w') -> vis w' !! p = Some (File 384 data true).
Proof.
  intros Ht Hr. run_ok. repeat match goal with x : unit |- _ => destruct x end.
  match goal with H : os_chmod _ _ _ = _ |- _ => eapply chmod_ok in H; [|exact Ht] end.
  match goal with H : write_all _ _ _ _ = _, Hv : _ = Some (File 384 [] _) |- _ =>
    eapply write_all_ok in H as [s Hs]; [|done|exact Hv] end. simpl in Hs.
  match goal with H : os_fsync _ _ = _ |- _ => eapply fsync_ok in H as Hy; [|exact Hs] end.
  match goal with H : os_rename _ _ _ = _ |- _ => apply rename_ok in H as -> end.
  follow. congruence.
Qed.

(** A write that returned: the file is whole, private and durable. *)
Lemma private_file_ok p data r w w' :
  _write_private_file p data r w = (Ok tt, w') -> sealed p 384 data w'.
Proof.
  unfold _write_private_file. intros Hr. run_ok. destruct (_ : option node); run_ok.
  repeat match goal with x : unit |- _ => destruct x end.
  match goal with H : os_create _ _ _ = _ |- _ => apply create_ok in H as Hc end.
  match goal with H : on_exception _ _ _ = _ |- _ => apply on_exception_ok in H end.
  - eapply fsync_dir_seals; [done|]. by eapply private_body_ok.
  - intros e s b s' Hh. by run_ok.
Qed.

Lemma read_private_ok p d w w' : _read_private p w = (Ok d, w') ->
  vis w' = vis w /\ exists m s, vis w !! p = Some (File m d s).
Proof.
  unfold _read_private. intros Hr. run_ok. destruct (_ : bool) eqn:Hb; run_ok. follow. subst.
  assert (E : vis w = vis x0) by congruence. rewrite E.
  split; [congruence|]. destruct (vis x0 !! p) as [[]|] eqn:Ep; try done.
  eexists _, _. by rewrite H3, Ep.
Qed.

Lemma reconfirm_ok p data w w' :
  _reconfirm_identical_key p data w = (Ok true, w') -> sealed p 384 data w'.
Proof.
  unfold _reconfirm_identical_key. intros Hr. run_ok.
  destruct (_ : bool) eqn:Hb in *; run_ok; [|done].
  match goal with H : (if negb ?b then _ else _) _ = _ |- _ => destruct b eqn:Hreg; simpl in H; run_ok end.
  match goal with H : (if negb ?b then _ else _) _ = _ |- _ => destruct b eqn:Heq; simpl in H; run_ok end;
    [|done].
  apply bool_decide_eq_true in Heq as ->. repeat match goal with x : unit |- _ => destruct x end.
  eapply fsync_dir_seals; [done|]. follow. subst.
  match goal with H : true = is_regular ?n |- _ => destruct n as [[m d s| | |]|] eqn:Ep; try done end.
  match goal with H : os_chmod _ _ ?w1 = _ |- _ =>
    eapply chmod_ok in H as Hc; [|trans (vis w1 !! p); [done|];
      replace (vis w1) with (vis x0) by congruence; exact Ep] end.
  match goal with H : os_fsync _ _ = _ |- _ => eapply fsync_ok in H as Hf; [|exact Hc] end.
  replace (vis x5) with (vis x0) by congruence. rewrite Ep. congruence.
Qed.

(** An installed key: these bytes, private and durable, whoever put them there. *)
Lemma install_ok p data sha b w w' :
  _install_secret_key p data sha w = (Ok b, w') -> sealed p 384 data w'.
Proof.
  unfold _install_secret_key. intros Hr. run_ok.
  match goal with H : (if ?c then mret false else _) _ = _ |- _ => destruct c; run_ok end.
  - repeat case_match; run_ok; try done. by eapply reconfirm_ok.
  - match goal with H : (if String.eqb ?a ?b then _ else _) _ = _ |- _ => destruct (String.eqb a b); run_ok end.
    repeat match goal with x : unit |- _ => destruct x end.
    match goal with Hw : _write_private_file _ _ _ _ = _, Hr : _read_private _ _ = _ |- _ =>
      apply private_file_ok in Hw; pose proof (keeps_read_private (fun _ => False) (sealed p 384 data)
        (respects_sealed _ p 384 data (fun f => f)) p _ Hw) as Hk; rewrite Hr in Hk end.
    exact Hk.
Qed.

Lemma rename_hoare a b n : a <> b ->
  hoare (fun w => vis w !! b = None /\ vis w !! a = Some n) (os_rename (W:=W) a b)
    (fun _ w => True) (fun _ w => vis w !! b = None \/ vis w !! b = Some n).
Proof.
  intros Hab w [Hb Ha]. unfold os_rename, sys.
  destruct (faults w) as [|[] fs]; cbv [mbind M_bind gets modify raise id]; cbn;
    rewrite ?Ha, ?Hb; cbn; auto. right. by rewrite lookup_insert_eq.
Qed.

Section Seen.
Context (p : path) (data : bytes) (Hne : tmp_of p <> p).
Let complete := Some (File 384 data true).
Let absent (w : machine W) := vis w !! p = None.
Let seen (w : machine W) := vis w !! p = None \/ vis w !! p = complete.
Let T (x : path) := x = tmp_of p.

Local Lemma absent_respects : respects T absent.
Proof. apply respects_seen. unfold T. congruence. Qed.

Local Lemma seen_respects : respects T seen.
Proof. apply respects_or; apply respects_seen; unfold T; congruence. Qed.

Hint Resolve absent_respects seen_respects : keeps.

Lemma private_body_seen :
  hoare (fun w => absent w /\ vis w !! tmp_of p = Some (File 384 [] false))
    (_ ← finally (_ ← os_chmod (tmp_of p) 384;
                  _ ← write_all (length data) (tmp_of p) data; os_fsync (tmp_of p)) os_close;
     os_rename (tmp_of p) p)
    (fun _ w => vis w !! p = complete) (fun _ => seen).
Proof.
  eapply (hoare_weaken _ _ _ (fun _ w => True /\ vis w !! p = complete) _ (fun _ => seen));
    [|intros w Hw; exact (conj I Hw)|tauto|done].
  intros w [_ [Ha Ht]].
  match goal with |- match ?m w with _ => _ end => destruct (m w) as [[[]|e] w'] eqn:E end.
  { split; [done|]. by eapply private_body_ok. }
  revert E. set (m1 := finally _ os_close).
  assert (Hm1 : hoare (fun w => absent w /\ vis w !! tmp_of p = Some (File 384 [] false)) m1
    (fun _ w => absent w /\ vis w !! tmp_of p = Some (File 384 data true)) (fun _ => absent)).
  { apply hoare_split.
    - subst m1. apply keeps_finally; [|eapply keeps_close; eauto with keeps].
      apply keeps_bind; [eapply keeps_chmod; eauto with keeps; done|]. intros _.
      apply keeps_bind; [eapply keeps_write_all; eauto with keeps; done|]. intros _.
      eapply keeps_fsync; eauto with keeps. done.
    - intros s a s' Hs Hr. subst m1. run_ok. repeat match goal with x : unit |- _ => destruct x end.
      match goal with H : os_chmod _ _ _ = _ |- _ => eapply chmod_ok in H; [|exact Hs] end.
      match goal with H : write_all _ _ _ _ = _, Hv : _ = Some (File 384 [] _) |- _ =>
        eapply write_all_ok in H as [b Hb]; [|done|exact Hv] end. simpl in Hb.
      match goal with H : os_fsync _ _ = _ |- _ => eapply fsync_ok in H as Hy; [|exact Hb] end.
      follow. congruence. }
  specialize (Hm1 w (conj Ha Ht)). cbv [mbind M_bind]. destruct (m1 w) as [[[]|e'] w1]; intros E; simplify_eq.
  - pose proof (rename_hoare _ _ _ Hne w1 Hm1) as Hn. rewrite E in Hn. exact Hn.
  - by left.
Qed.

(** The name shows up only by the rename, with the whole content. *)
Lemma private_file_seen :
  hoare absent (_write_private_file p data false) (fun _ => sealed p 384 data) (fun _ => seen).
Proof.
  assert (Hk : forall A (m : M (machine W) A), keeps absent m -> hoare absent m (fun _ => absent) (fun _ => seen)).
  { intros A m Hm. eapply hoare_weaken; [by apply hoare_keeps|done|done|by left]. }
  unfold _write_private_file, _lstat. eapply hoare_bind.
  { apply Hk. apply keeps_bind; [eauto with keeps|]. intros []; eauto with keeps. }
  intros u1. eapply hoare_bind; [apply Hk; eauto with keeps|]. intros [n|].
  { intros w Hw. by left. }
  eapply (hoare_bind _ _ _ (fun _ w => absent w /\ vis w !! tmp_of p = Some (File 384 [] false))).
  { eapply (hoare_weaken (fun w => absent w /\ True) _ _
      (fun _ w => absent w /\ vis w !! tmp_of p = Some (File 384 [] false)));
      [apply hoare_split|by auto|by auto|by left].
    - eapply keeps_create; eauto with keeps. done.
    - intros s u s' _ Hr. destruct u. by eapply create_ok. }
  intros _. eapply (hoare_bind _ _ _ (fun _ w => vis w !! p = complete)).
  - eapply hoare_on_exception; [apply private_body_seen| |done]. intros e _.
    eapply hoare_bind; [apply hoare_keeps|intros u2; by intros w Hw].
    apply keeps_catch; [eapply keeps_unlink; eauto with keeps; done|].
    intros e' k Hk'. destruct (is_os_error e'); simplify_eq. eauto with keeps.
  - intros _ w Hw. destruct (_fsync_dir (parent p) w) as [[[]|e] w'] eqn:E.
    + by eapply fsync_dir_seals.
    + right. pose proof (keeps_fsync_dir (fun _ => False) (fun w : machine W => vis w !! p = complete)
        (respects_seen _ _ _ (fun f => f)) (parent p) w Hw) as Hf. by rewrite E in Hf.
Qed.
End Seen.
End Leaves.

(** ** Reading one state of a database *)

Definition info_of (t : string) (d : sdb) : list col :=
  match tables d !! t with Some t => t_info t | None => [] end.
Definition fks_of (t : string) (d : sdb) : list fkey :=
  match tables d !! t with Some t => t_fks t | None => [] end.

Definition schema_ok (d : sdb) : Prop :=
  Forall (fun te => info_of te.1 d = te.2 /\ fks_of te.1 d = EXPECTED_FOREIGN_KEYS te.1) EXPECTED_TABLES.

(** A table as it is read: in key order, encoded. *)
Definition read_as (d : sdb) (t : string) (x : list string * pyval) : Prop :=
  x.1 = _columns t /\ _encode_rows (rows_by_key t d) = Ok x.2.

Section Reading.
Context {W : Type} (query : forall A, (sdb -> A) -> M (machine W) A).
Arguments query {A} _.
Context (d : sdb) (I : machine W -> Prop) (X : exn -> machine W -> Prop).
Hypothesis answers : forall A (f : sdb -> A),
  hoare I (query f) (fun a w => I w /\ a = f d) X.
Hypothesis may_raise : forall e w, I w -> X e w.

(** A query and what is done with its answer. *)
Lemma ask {A B} (f : sdb -> A) (k : A -> M (machine W) B) Q :
  hoare I (k (f d)) Q X -> hoare I (query f ≫= k) Q X.
Proof.
  intros Hk. eapply hoare_bind; [apply answers|]. intros a w [Hw ->]. by apply Hk.
Qed.

Lemma hoare_pure_ret {A} (a : A) (P : A -> Prop) : P a ->
  hoare I (mret a : M (machine W) A) (fun b w => I w /\ P b) X.
Proof. by intros HP w Hw. Qed.

Lemma hoare_refuse {A} e Q : hoare I (raise e : M (machine W) A) Q X.
Proof. intros w Hw. by apply may_raise. Qed.

Lemma verify_schema_reads : hoare I (verify_schema (@query)) (fun _ w => I w /\ schema_ok d) X.
Proof.
  unfold verify_schema, schema_ok. induction EXPECTED_TABLES as [|[t exp] l IH]; simpl.
  { intros w Hw. by split; [|constructor]. }
  eapply (hoare_bind _ _ _ (fun _ w => I w /\ (info_of t d = exp /\ fks_of t d = EXPECTED_FOREIGN_KEYS t))).
  - apply ask. case_bool_decide as E1; simpl; [|apply hoare_refuse].
    apply ask. case_bool_decide as E2; [|apply hoare_refuse]. by apply hoare_pure_ret.
  - intros _ w [Hw Ht]. specialize (IH w Hw).
    destruct (for_each _ l w) as [[[]|e] w']; [|done]. destruct IH as [Hw' Hl].
    split; [done|]. by constructor.
Qed.

Lemma count_reads t : hoare I (_count (@query) t)
  (fun n w => I w /\ n = Z.of_nat (length (rows_of t d))) X.
Proof. apply answers. Qed.

Lemma read_table_reads t : hoare I (_read_table (@query) t) (fun x w => I w /\ read_as d t x) X.
Proof.
  unfold _read_table. apply ask. intros w Hw. unfold mbind, M_bind, lift_res.
  destruct (_encode_rows (rows_by_key t d)) as [rs|e] eqn:E; [|by apply may_raise].
  by repeat split.
Qed.

Lemma read_autoincrement_reads : hoare I (_read_autoincrement (@query))
  (fun x w => I w /\ x = List.map (fun t => (t, seq_of t d)) AUTOINCREMENT_TABLES) X.
Proof.
  unfold _read_autoincrement, _has_sequence_table. apply ask.
  eapply (hoare_weaken I I _ (fun x w => I w /\ Forall2 (fun t y => y = (t, seq_of t d)) AUTOINCREMENT_TABLES x));
    [|done| |done].
  - apply hoare_collect. intros t. unfold seq_of. destruct (sqlite_sequence d) as [m|] eqn:E.
    + apply ask. rewrite E. by apply hoare_pure_ret.
    + by intros w Hw.
  - intros x w [Hw Hx]. split; [done|]. unfold AUTOINCREMENT_TABLES in *.
    inversion Hx as [|? ? ? ? Hh Ht]; subst. by inversion Ht; subst.
Qed.

Lemma other_counts_reads : hoare I (_other_table_counts (@query))
  (fun x w => I w /\ Forall2 (fun t y => y = (t, Z.of_nat (length (rows_of t d))))
     (List.filter (fun t => negb (str_mem t PRESERVED_TABLES) && negb (String.eqb t "runtime_config"))
        (user_tables d)) x) X.
Proof.
  unfold _other_table_counts, _user_tables. apply ask. apply hoare_collect. intros t.
  unfold _count. apply ask. by apply hoare_pure_ret.
Qed.
End Reading.

(** ** Export *)

Section Exporting.
Context {W : Type} (source : sdb).

Lemma ro_answers T (I : machine W -> Prop) : respects T I -> forall A (f : sdb -> A),
  hoare I (ro source f) (fun a w => I w /\ a = f source) (fun _ => I).
Proof.
  intros HI A f w Hw.
  assert (Hk : keeps I (ro source f)) by (eapply keeps_read_effect; [exact HI|done]).
  specialize (Hk w Hw). destruct (ro source f w) as [[a|e] w'] eqn:E; [|done].
  split; [done|]. by apply nothing_ok in E as (-> & _).
Qed.

(** The manifest body says exactly what the read transaction sees. *)
Definition exported (secret body : bytes) : Prop := exists tables entries,
  Forall2 (fun t y => y.1 = t /\ read_as source t y.2) PRESERVED_TABLES tables /\
  collect_res table_entry tables = Ok entries /\
  canonical_bytes (manifest_of entries
    (List.map (fun t => (t, seq_of t source)) AUTOINCREMENT_TABLES) secret) = Ok body /\
  rows_of "runtime_config" source = [] /\ schema_ok source.

Lemma export_rows_reads T (I : machine W -> Prop) : respects T I ->
  hoare I (export_rows source)
    (fun x w => I w /\ (Forall2 (fun t y => y.1 = t /\ read_as source t y.2) PRESERVED_TABLES x.1 /\
       x.2 = List.map (fun t => (t, seq_of t source)) AUTOINCREMENT_TABLES /\
       rows_of "runtime_config" source = [] /\ schema_ok source)) (fun _ => I).
Proof.
  intros HI. unfold export_rows.
  pose proof (ro_answers T I HI) as Hro.
  assert (Hn : hoare I (sys (W:=W) (mret tt)) (fun _ => I) (fun _ => I)).
  { apply hoare_keeps. eapply keeps_nothing; eauto. }
  eapply hoare_bind; [exact Hn|]. intros u1. apply hoare_finally; [|intros a; apply hoare_pure; intros Ha|].
  - eapply hoare_bind; [exact Hn|]. intros u2. eapply hoare_bind; [exact Hn|]. intros u3.
    eapply hoare_bind; [by apply (verify_schema_reads (@ro _ source) source I)|]. intros u4.
    apply hoare_pure. intros Hschema. apply (ask _ _ _ _ Hro).
    destruct (rows_of "runtime_config" source) eqn:Erc; [|by intros w Hw].
    change (negb (Z.of_nat (length (@nil row)) =? 0)) with false. cbv iota.
    eapply hoare_bind.
    { apply (hoare_collect _ _ I (fun t y => y.1 = t /\ read_as source t y.2)). intros t.
      eapply hoare_bind; [by apply (read_table_reads (@ro _ source) source I)|]. intros x.
      apply hoare_pure. intros Hx w Hw. by repeat split; [|apply Hx..]. }
    intros ts. apply hoare_pure. intros Hts.
    eapply hoare_bind; [by apply (read_autoincrement_reads (@ro _ source) source I)|]. intros au.
    apply hoare_pure. intros ->. eapply hoare_bind; [exact Hn|]. by intros u5 w Hw.
  - eapply hoare_weaken; [exact Hn|done|by auto|done].
  - intros e _. exact Hn.
Qed.

Definition marker_of (body secret : bytes) (source_db : path) : pyval :=
  VDict [("format", VStr FORMAT); ("manifest_sha256", VStr (sha256 body));
         ("secret_key_sha256", VStr (sha256 secret)); ("source_db", VStr (path_text source_db))]%string.

(** A bundle is complete: both files are durable and the marker pins them. *)
Definition bundle_sealed (source_db dir data : path) (v0 : gmap path node) (w : machine W) : Prop :=
  exists body secret marker mode s,
    v0 !! child data SECRET_KEY_NAME = Some (File mode secret s) /\ secret <> [] /\
    exported secret body /\ canonical_bytes (marker_of body secret source_db) = Ok marker /\
    sealed (child dir MANIFEST_NAME) 384 body w /\ sealed (child dir SECRET_KEY_NAME) 384 secret w /\
    vis w !! child dir COMPLETE_MARKER = Some (File 384 marker true).

Lemma read_private_seen p v : hoare (fun w : machine W => vis w = v) (_read_private p)
  (fun d w => vis w = v /\ exists m s, v !! p = Some (File m d s)) (fun _ w => vis w = v).
Proof.
  intros w Hw. assert (Hk : respects (fun _ => False) (fun w : machine W => vis w = v))
    by (apply respects_vis; tauto).
  pose proof (keeps_read_private _ _ Hk p w Hw) as Hv.
  destruct (_read_private p w) as [[d|e] w'] eqn:E; [|done]. split; [done|].
  apply read_private_ok in E as [_ ?]. by rewrite <- Hw.
Qed.

(** Writing one file of a directory: the others stay as they are. *)
Lemma private_file_beside T (I : machine W -> Prop) p data : respects T I -> T p -> T (tmp_of p) ->
  hoare I (_write_private_file p data false) (fun _ w => I w /\ sealed p 384 data w) (fun _ => I).
Proof.
  intros HI Hp Ht w Hw. pose proof (keeps_private_file T I HI p data false Hp Ht w Hw) as Hk.
  destruct (_write_private_file p data false w) as [[[]|e] w'] eqn:E; [|done].
  split; [done|]. by eapply private_file_ok.
Qed.

Lemma tmp_of_ne p : tmp_of p <> p.
Proof.
  unfold tmp_of, child, parent, leaf. destruct p as [|n p]; [done|]. simpl. intros [= Hn].
  apply (f_equal (fun s => length (chars s))) in Hn.
  change (String "." (n ++ ".tmp")) with ("." ++ (n ++ ".tmp"))%string in Hn.
  rewrite !chars_append, !length_app in Hn. cbn in Hn. lia.
Qed.

Lemma tmp_of_child d n : tmp_of (child d n) = child d ("." ++ n ++ ".tmp").
Proof. done. Qed.

Lemma export_marker_hoare source_db dir data v0 : v0 !! child dir COMPLETE_MARKER = None ->
  hoare (fun w => vis w = v0) (export_bundle source source_db dir data)
    (fun _ w => bundle_sealed source_db dir data v0 w)
    (fun _ w => vis w !! child dir COMPLETE_MARKER = None \/ bundle_sealed source_db dir data v0 w).
Proof.
  intros Hc. set (D := fun w : machine W => vis w = v0).
  set (A := fun w : machine W => vis w !! child dir COMPLETE_MARKER = None).
  assert (HD : respects (fun _ => False) D) by (apply respects_vis; tauto).
  set (X := fun (_ : exn) (w : machine W) => A w \/ bundle_sealed source_db dir data v0 w).
  assert (HDX : forall w, D w -> A w) by (intros w Hw; unfold A; by rewrite Hw).
  assert (HX : forall {A'} (m : M (machine W) A') Q, hoare D m Q (fun _ => D) -> hoare D m Q X).
  { intros A' m Q Hm. eapply hoare_weaken; [exact Hm|done|done|]. intros e w Hw. left. by apply HDX. }
  unfold export_bundle. cbv zeta.
  eapply hoare_bind; [apply HX, hoare_keeps; eapply keeps_regular_file; eauto|intros u1].
  eapply hoare_bind; [apply HX, hoare_keeps; eapply keeps_regular_file; eauto|intros u2].
  eapply hoare_bind; [apply HX, hoare_keeps; eapply keeps_absent; eauto|intros u3].
  eapply hoare_bind; [apply HX, read_private_seen|]. intros secret. apply hoare_pure. intros (m & sy & Hsec).
  case_bool_decide as Hne; [intros w Hw; left; by apply HDX|].
  eapply hoare_bind; [apply HX; eapply export_rows_reads; eauto|]. intros [ts au]. apply hoare_pure.
  cbn [fst snd]. intros (Hts & -> & Hrc & Hsch). apply hoare_lift; [|intros e w Hw; left; by apply HDX].
  intros entries Hent. apply hoare_lift; [|intros e w Hw; left; by apply HDX]. intros body Hbody.
  assert (Hex : exported secret body) by (exists ts, entries; by repeat split).
  assert (Hpre : hoare D (_make_private_dir dir) (fun _ => A) X).
  { set (T := fun p : path => p = dir). assert (HA : respects T A).
    { apply respects_seen. unfold T. intros E. apply (f_equal length) in E. simpl in E. lia. }
    eapply (hoare_weaken A); [apply hoare_keeps; by eapply (keeps_private_dir T)|exact HDX|auto|by left]. }
  eapply hoare_bind; [exact Hpre|intros u4]. clear Hpre.
  set (T := fun n p => p = child dir n \/ p = tmp_of (child dir n)).
  assert (HXA : forall {A'} (m : M (machine W) A') P Q,
            hoare P m Q (fun _ w => A w) -> hoare P m Q X).
  { intros A' m' P Q Hm. eapply hoare_weaken; [exact Hm|done|done|]. intros e w Hw. by left. }
  eapply hoare_bind; [apply HXA, (private_file_beside (T MANIFEST_NAME))|intros u5].
  { apply respects_seen. unfold T. rewrite tmp_of_child. by intros [|]. } { by left. } { by right. }
  eapply hoare_bind; [eapply hoare_weaken;
    [apply (private_file_beside (T SECRET_KEY_NAME)
       (fun w => A w /\ sealed (child dir MANIFEST_NAME) 384 body w))|done|intros u w Hw; exact Hw|]|intros u6].
  { apply respects_and; [apply respects_seen|apply respects_sealed]; unfold T; rewrite tmp_of_child; by intros [|]. }
  { by left. } { by right. } { intros e w [Hw _]. by left. }
  apply hoare_lift; [|intros e w [[Hw _] _]; by left]. intros marker Hmarker.
  assert (Hfin : forall w, (sealed (child dir MANIFEST_NAME) 384 body w /\
      sealed (child dir SECRET_KEY_NAME) 384 secret w) /\
      vis w !! child dir COMPLETE_MARKER = Some (File 384 marker true) ->
    bundle_sealed source_db dir data v0 w).
  { intros w [[Hm Hs] Hv]. exists body, secret, marker, m, sy. by split_and!. }
  set (S2 := fun w : machine W => sealed (child dir MANIFEST_NAME) 384 body w /\
      sealed (child dir SECRET_KEY_NAME) 384 secret w).
  assert (HS2 : respects (T COMPLETE_MARKER) S2).
  { apply respects_and; apply respects_sealed; unfold T; rewrite tmp_of_child; by intros [|]. }
  eapply hoare_bind.
  - eapply (hoare_weaken (fun w => S2 w /\ A w)).
    + apply hoare_frame; [|apply private_file_seen, tmp_of_ne].
      eapply keeps_private_file; [exact HS2|by left|by right].
    + intros w [[Ha Hm] Hs]. exact (conj (conj Hm Hs) Ha).
    + intros u w Hw. exact Hw.
    + intros e w [Hs [Ha|Hv]]; [by left|]. right. by apply Hfin.
  - intros u7. apply hoare_lift.
    + intros digests _ w [Hs [Hv _]]. by apply Hfin.
    + intros e w [Hs [Hv _]]. right. by apply Hfin.
Qed.
End Exporting.

(** C7: Whatever happens during an export, a bundle whose marker has appeared is
    complete: manifest and key are durable, the manifest says exactly what the
    source holds, the key is the source's, and the marker pins both digests. *)
Theorem export_marker_last {W} (source : sdb) source_db dir data (w : machine W) :
  vis w !! child dir COMPLETE_MARKER = None ->
  let w' := (export_bundle source source_db dir data w).2 in
  vis w' !! child dir COMPLETE_MARKER <> None ->
  bundle_sealed source source_db dir data (vis w) w'.
Proof.
  intros Hc w' Hw'. pose proof (export_marker_hoare source source_db dir data _ Hc w eq_refl) as Hx.
  subst w'. destruct (export_bundle _ _ _ _ w) as [[r|e] w']; [done|]. by destruct Hx as [Hx|Hx].
Qed.

(** ** Restore *)

Abbreviation mach := (machine store).

(** What the database must hold for the bundle to be restored in it: every
    preserved table reads back with the recorded count and digest, no dangling
    reference, no monitoring rows, and no id that could be issued again. *)
Definition table_restored (b : bundle) (d : sdb) (t : string) : Prop :=
  exists rs digest, _encode_rows (rows_by_key t d) = Ok rs /\
    table_digest (strs (_columns t)) rs = Ok digest /\
    number_is (get "row_count" (entry_of (b_manifest b) t)) (json_len rs) = true /\
    str_is (get "digest" (entry_of (b_manifest b) t)) digest = true.

Definition high_water_restored (b : bundle) (d : sdb) (t : string) : Prop :=
  forall seq, get t (sub_dict "autoincrement" (b_manifest b)) = VInt seq ->
  exists high, seq_of t d = Some high /\ seq <= high.

Definition restored (b : bundle) (d : sdb) : Prop :=
  Forall (table_restored b d) PRESERVED_TABLES /\ violations d = 0%nat /\
  Forall (high_water_restored b d) AUTOINCREMENT_TABLES /\
  Forall (fun t => rows_of t d = [])
    (List.filter (fun t => negb (str_mem t PRESERVED_TABLES) && negb (String.eqb t "runtime_config"))
       (user_tables d)).

(** The bundle's rows are committed and its key is in place for good. *)
Definition committed (b : bundle) (ts : path) (w : mach) : Prop :=
  tx (env w) = None /\ restored b (target (env w)) /\ sealed ts 384 (b_secret b) w.

Definition retry_safe (e : exn) : Prop := exists code, e = Refused code (Some RETRY_GUIDANCE).

Section Restoring.
Context (t0 : sdb).
Let kept (w : mach) := target (env w) = t0.
Let inside (w : mach) := target (env w) = t0 /\ tx (env w) <> None.
Let K0 (_ : exn) := kept.

Lemma raised_not_retry f : ~ retry_safe (raised f).
Proof. intros [c Hc]. by destruct f. Qed.

(** A statement: [eff] judged as a call, and the transaction lost on the way. *)
Lemma sql_hoare {A} (P : mach -> Prop) (eff : M mach A) (Q : A -> mach -> Prop) X :
  (forall w fs, P w -> P (with_faults w fs)) ->
  hoare P eff Q X -> (forall f w, P w -> X (raised f) w) -> (forall w, P w -> X PowerLoss w) ->
  (forall f a w, Q a w -> X (raised f) w) ->
  (forall w fs, P w -> X (raised DriverFailure) (with_tx None (with_faults w fs))) ->
  hoare P (sql eff) Q X.
Proof.
  intros Hf He Hb Hp Ha Hr w Hw. unfold sql, sys.
  destruct (faults w) as [|f fs]; [by apply He|]. specialize (Hf w fs Hw). specialize (He _ Hf).
  destruct f; try done; [by apply Hb| |by apply Hr|by apply Hp].
  destruct (eff (with_faults w fs)) as [[a|e] w']; [by eapply Ha|done].
Qed.

Lemma kept_respects T : respects T kept.
Proof. apply (respects_env T (fun e => target e = t0)). Qed.

Lemma keeps_sql_read {A} (f : sdb -> A) : keeps kept (sql_read f).
Proof.
  intros w Hw. unfold sql_read, sql. destruct (faults w) as [|[] ?] eqn:E; try exact Hw;
    by apply (keeps_sys _ kept (kept_respects (fun _ => False)) _ (keeps_gets _ _)).
Qed.

Lemma sql_read_answers e d : e = Store t0 (Some d) -> forall A (f : sdb -> A),
  hoare (fun w => env w = e) (sql_read f) (fun a w => env w = e /\ a = f d) K0.
Proof.
  intros -> A f. unfold sql_read.
  apply (sql_hoare (fun w => env w = _)); unfold K0, kept.
  - done.
  - intros w Hw. cbn. unfold seen. by rewrite Hw.
  - intros g w Hw. by rewrite Hw.
  - intros w Hw. by rewrite Hw.
  - intros g a w [Hw _]. by rewrite Hw.
  - intros w fs Hw. cbn. by rewrite Hw.
Qed.

Lemma hoare_env {A} (P : store -> Prop) (m : M mach A) Q X :
  (forall e, P e -> hoare (fun w => env w = e) m Q X) -> hoare (fun w => P (env w)) m Q X.
Proof. intros Hm w Hw. by apply (Hm (env w) Hw). Qed.

(** A write stays inside the transaction. *)
Lemma sql_write_inside f : hoare inside (sql_write f) (fun _ => inside) K0.
Proof.
  unfold sql_write. apply sql_hoare; unfold inside, K0, kept.
  - done.
  - intros w [Ht Hx]. cbv [mbind M_bind gets modify lift_res id]. cbn.
    destruct (f (seen w)) as [d|e]; [|done]. cbn. destruct (tx (env w)); [done|tauto].
  - by intros g w [? _].
  - by intros w [? _].
  - by intros g a w [? _].
  - by intros w fs [? _].
Qed.

Lemma sql_read_inside {A} (f : sdb -> A) : hoare inside (sql_read f) (fun _ => inside) K0.
Proof.
  apply (hoare_env (fun e => target e = t0 /\ tx e <> None)). intros [t [d|]] [Ht Hx]; [|done].
  simpl in Ht. subst t. eapply hoare_weaken; [by apply (sql_read_answers (Store t0 (Some d)) d)|done| |done].
  intros a w [Hw _]. unfold inside. by rewrite Hw.
Qed.

Lemma inside_kept : forall e w, inside w -> K0 e w.
Proof. by intros e w [? _]. Qed.

Lemma insert_params_inside t r : hoare inside (insert_params t r) (fun _ => inside) K0.
Proof.
  unfold insert_params. apply hoare_lift; [|apply inside_kept]. intros vs _. apply sql_write_inside.
Qed.

Lemma apply_table_inside dec t : hoare inside (apply_table dec t) (fun _ => inside) K0.
Proof.
  unfold apply_table. eapply hoare_catch.
  - apply hoare_for_each. intros r. apply insert_params_inside.
  - intros e. destruct (is_sqlite_error e); [by intros w Hw|done].
Qed.

(** The recorded high-water is never lowered. *)
Definition applied_high (wanted : dict) (t : string) (x : string * option Z) : Prop :=
  x.1 = t /\ forall seq, get t wanted = VInt seq -> exists high, x.2 = Some high /\ seq <= high.

Lemma apply_high_water_inside wanted t :
  hoare inside (apply_high_water wanted t) (fun x w => inside w /\ applied_high wanted t x) K0.
Proof.
  unfold apply_high_water. eapply hoare_bind; [apply sql_read_inside|]. intros max_id.
  assert (Hother : (forall seq, get t wanted <> VInt seq) ->
    hoare inside (high ← sql_read (seq_of t); mret (t, high))
      (fun x w => inside w /\ applied_high wanted t x) K0).
  { intros Hn. eapply hoare_bind; [apply sql_read_inside|]. intros high w Hw.
    split; [done|]. split; [done|]. intros seq Hs. by destruct (Hn seq). }
  destruct (get t wanted) as [| |seq| | | |] eqn:Eg; try (by apply Hother).
  eapply hoare_bind; [apply sql_write_inside|]. intros u1.
  apply hoare_lift; [|apply inside_kept]. intros v _.
  eapply hoare_bind; [apply sql_write_inside|]. intros u2 w Hw. split; [done|]. split; [done|].
  intros seq' Hseq. rewrite Eg in Hseq. injection Hseq as <-. eexists. split; [done|]. lia.
Qed.

Lemma apply_bundle_inside manifest dec boot : hoare inside (apply_bundle manifest dec boot)
  (fun au w => inside w /\ Forall2 (applied_high (sub_dict "autoincrement" manifest)) AUTOINCREMENT_TABLES au) K0.
Proof.
  unfold apply_bundle. eapply (hoare_bind _ _ _ (fun _ => inside)).
  { destruct boot; try apply sql_write_inside. by intros w Hw. }
  intros u1. eapply hoare_bind; [apply hoare_for_each; intros t; apply apply_table_inside|]. intros u2.
  unfold _apply_autoincrement. apply hoare_collect. intros t. apply apply_high_water_inside.
Qed.

Section Checking.
Context (b : bundle) (d : sdb).
Let e := Store t0 (Some d).
Let at_e (w : mach) := env w = e.

Lemma at_e_answers : forall A (f : sdb -> A), hoare at_e (sql_read f) (fun a w => at_e w /\ a = f d) K0.
Proof. intros A f. by apply (sql_read_answers e d). Qed.

Lemma at_e_raise : forall x w, at_e w -> K0 x w.
Proof. intros x w Hw. unfold K0, kept. by rewrite Hw. Qed.

Lemma reread_table_reads t : hoare at_e (reread_table (b_manifest b) t)
  (fun _ w => at_e w /\ table_restored b d t) K0.
Proof.
  unfold reread_table.
  eapply hoare_bind; [apply (read_table_reads (@sql_read) d at_e K0 at_e_answers at_e_raise)|].
  intros [cs rs]. apply hoare_pure. intros [Hc Hr]. cbn [fst snd] in *. subst cs.
  apply hoare_lift; [|apply at_e_raise]. intros digest Hd.
  destruct (number_is _ _) eqn:Hn; [|by apply (hoare_refuse at_e K0 at_e_raise)].
  destruct (str_is _ _) eqn:Hs; [|by apply (hoare_refuse at_e K0 at_e_raise)].
  intros w Hw. split; [done|]. by exists rs, digest.
Qed.

Lemma verify_restored_reads au :
  Forall2 (applied_high (sub_dict "autoincrement" (b_manifest b))) AUTOINCREMENT_TABLES au ->
  hoare at_e (verify_restored (b_manifest b) au) (fun _ w => at_e w /\ restored b d) K0.
Proof.
  intros Hau. unfold verify_restored.
  pose proof (@ask _ (@sql_read) d at_e K0 at_e_answers) as Hask.
  apply Hask. destruct (violations d) eqn:Hv; [|by apply (hoare_refuse at_e K0 at_e_raise)].
  change (negb (0 =? 0)%nat) with false. cbv iota.
  eapply hoare_bind; [apply (hoare_collect _ _ at_e (fun t _ => table_restored b d t)); apply reread_table_reads|].
  intros checked. apply hoare_pure. intros Htabs.
  assert (Htabs' : Forall (table_restored b d) PRESERVED_TABLES).
  { clear -Htabs. induction Htabs; by constructor. }
  eapply (hoare_bind _ _ _ (fun _ w => at_e w /\ Forall (high_water_restored b d) AUTOINCREMENT_TABLES)).
  { clear Htabs Htabs'. induction Hau as [|t [t' h] l l' [Ht Hh] Hl IH]; simpl.
    - intros w Hw. by split; [|constructor].
    - simpl in Ht, Hh. subst t'.
      eapply (hoare_bind _ _ _ (fun _ w => at_e w /\ high_water_restored b d t)).
      + unfold reread_high_water. destruct h as [h|]; simpl.
        * apply Hask. case_bool_decide as E; [|by apply (hoare_refuse at_e K0 at_e_raise)].
          intros w Hw. split; [done|]. intros seq Hs. destruct (Hh seq Hs) as (high & [= <-] & ?). eauto.
        * intros w Hw. split; [done|]. intros seq Hs. by destruct (Hh seq Hs) as (high & ? & ?).
      + intros _. apply hoare_pure. intros Ht. eapply hoare_weaken; [exact IH|done| |done].
        intros u w [Hw Hr]. split; [done|]. by constructor. }
  intros u1. apply hoare_pure. intros Hhigh.
  eapply hoare_bind; [apply (other_counts_reads (@sql_read) d at_e K0 at_e_answers)|].
  intros monitoring. apply hoare_pure. intros Hmon.
  destruct (forallb _ monitoring) eqn:Hz; [|by apply (hoare_refuse at_e K0 at_e_raise)].
  intros w Hw. split; [done|]. split_and!; [done|done|done|].
  clear -Hmon Hz. induction Hmon as [|t y l l' -> Hl IH]; [by constructor|].
  simpl in Hz. apply andb_true_iff in Hz as [Hz Hz']. constructor; [|by apply IH].
  apply Z.eqb_eq in Hz. destruct (rows_of t d); simpl in Hz; [done|lia].
Qed.
End Checking.

Context (b : bundle) (ts : path).
Let done_ (w : mach) := committed b ts w.
Let either (_ : exn) (w : mach) := kept w \/ done_ w.

Lemma commit_hoare d :
  hoare (fun w => env w = Store t0 (Some d) /\ restored b d /\ sealed ts 384 (b_secret b) w)
    sql_commit (fun _ => done_) either.
Proof.
  unfold sql_commit. apply sql_hoare; unfold either, kept, done_.
  - done.
  - intros w (He & Hr & Hs). cbv [mbind M_bind gets modify id]. cbn. by rewrite He.
  - intros g w (He & _). left. by rewrite He.
  - intros w (He & _). left. by rewrite He.
  - intros g u w Hw. by right.
  - intros w fs (He & _). left. cbn. by rewrite He.
Qed.

Lemma commit_bundle_hoare boot :
  hoare inside (commit_bundle b ts boot) (fun _ => done_) either.
Proof.
  assert (HK : forall {A} P (m : M mach A) Q, hoare P m Q K0 -> hoare P m Q either).
  { intros A P m Q Hm. eapply hoare_weaken; [exact Hm|done|done|]. intros e w Hw. by left. }
  unfold commit_bundle. eapply hoare_bind; [apply HK, apply_bundle_inside|]. intros au.
  apply hoare_pure. intros Hau.
  apply (hoare_env (fun e => target e = t0 /\ tx e <> None)). intros [t [d|]] [Ht Hx]; [|done].
  simpl in Ht. subst t. eapply hoare_bind; [apply HK, (verify_restored_reads b d au Hau)|].
  intros [checked monitoring]. apply hoare_pure. intros Hr.
  eapply (hoare_bind _ _ _ (fun _ w => env w = Store t0 (Some d) /\ restored b d /\ sealed ts 384 (b_secret b) w)).
  - apply HK. intros w Hw.
    pose proof (keeps_install (fun _ => True) _ (respects_env _ (fun e => e = Store t0 (Some d)))
      ts (b_secret b) (b_secret_sha b) I I w Hw) as Hk.
    destruct (_install_secret_key ts (b_secret b) (b_secret_sha b) w) as [[i|e] w'] eqn:E.
    + split; [done|]. split; [done|]. by eapply install_ok.
    + unfold K0, kept. simpl in Hk. by rewrite Hk.
  - intros installed. eapply hoare_bind; [apply commit_hoare|]. by intros u w Hw.
Qed.

(** Everything that only reads, rolls back or closes leaves the commit alone. *)
Lemma keeps_sql {A} (eff : M mach A) (I : mach -> Prop) :
  (forall w fs, I w -> I (with_faults w fs)) -> (forall w fs, I w -> I (with_tx None (with_faults w fs))) ->
  keeps I eff -> keeps I (sql eff).
Proof.
  intros Hf Hr He w Hw. unfold sql, sys. destruct (faults w) as [|f fs]; [by apply He|].
  pose proof (Hf w fs Hw) as Hw'. specialize (He _ Hw').
  destruct f; try done; [|by apply Hr].
  by destruct (eff (with_faults w fs)) as [[]].
Qed.

Lemma keeps_rollback : keeps kept sql_rollback.
Proof.
  unfold sql_rollback. apply keeps_sql; [done|done|]. intros w Hw.
  cbv [mbind M_bind gets modify raise id]. cbn. by destruct (tx (env w)).
Qed.

Lemma keeps_assert_fresh : keeps kept (_assert_fresh (@sql_read)).
Proof.
  unfold _assert_fresh, _user_tables. apply keeps_bind; [apply keeps_sql_read|]. intros names.
  generalize SNull. induction names as [|t names IH]; intros boot; simpl; [eauto with keeps|].
  apply keeps_bind; [|done]. unfold fresh_table, _count.
  repeat first [apply keeps_if | apply keeps_bind; [apply keeps_sql_read|intros ?]]; eauto with keeps.
Qed.

Lemma keeps_verify_schema : keeps kept (verify_schema (@sql_read)).
Proof.
  unfold verify_schema. apply keeps_for_each. intros [t exp].
  repeat first [apply keeps_if | apply keeps_bind; [apply keeps_sql_read|intros ?]]; eauto with keeps.
Qed.

Lemma keeps_to_fresh : keeps kept _return_target_to_fresh.
Proof.
  unfold _return_target_to_fresh. apply keeps_bind.
  - apply keeps_catch; [apply keeps_bind; [apply keeps_rollback|eauto with keeps]|].
    intros e k Hk. destruct (is_exception e); simplify_eq. eauto with keeps.
  - intros [r|]; [eauto with keeps|].
    apply keeps_catch; [apply keeps_bind; [apply keeps_assert_fresh|eauto with keeps]|].
    intros e k Hk. destruct (is_exception e); simplify_eq. eauto with keeps.
Qed.

Lemma rollback_refuses (P : mach -> Prop) :
  (forall w fs, P w -> P (with_faults w fs)) -> (forall w fs, P w -> P (with_tx None (with_faults w fs))) ->
  (forall w, P w -> tx (env w) = None) ->
  hoare P sql_rollback (fun _ _ => False) (fun e w => P w /\ ~ retry_safe e).
Proof.
  intros Hf Hr Hn w Hw. unfold sql_rollback, sql, sys.
  destruct (faults w) as [|f fs] eqn:E; cbv [mbind M_bind gets modify raise id].
  { rewrite (Hn w Hw). split; [done|]. by intros [? ?]. }
  pose proof (Hf w fs Hw) as Hw'.
  destruct f; cbn; rewrite ?(Hn w Hw); try (split; [done|]; first [apply raised_not_retry|by intros [? ?]]).
  split; [by apply Hr|]. apply (raised_not_retry DriverFailure).
Qed.

Lemma done_faults w fs : done_ w -> done_ (with_faults w fs).
Proof. done. Qed.

Lemma done_no_tx w fs : done_ w -> done_ (with_tx None (with_faults w fs)).
Proof. by intros (? & ? & ?). Qed.

(** Once committed, a failure on the way out is never reported as retry-safe. *)
Definition outcome (e : exn) (w : mach) : Prop := kept w \/ (done_ w /\ ~ retry_safe e).

Lemma stopped_hoare e : hoare (either e) (stopped e) (fun _ => done_) outcome.
Proof.
  intros w [Hw|Hw].
  - assert (Hk : keeps kept (stopped e)).
    { unfold stopped. apply keeps_bind; [apply keeps_to_fresh|]. intros [r|]; [eauto with keeps|].
      destruct e; eauto with keeps. }
    specialize (Hk w Hw). destruct (stopped e w) as [[x|e'] w'] eqn:E; [|by left].
    exfalso. unfold stopped in E. run_ok. destruct x0; run_ok. by destruct e; run_ok.
  - enough (Hs : hoare done_ (stopped e) (fun _ => done_) (fun e w => done_ w /\ ~ retry_safe e)).
    { specialize (Hs w Hw). destruct (stopped e w) as [[]]; [done|by right]. }
    unfold stopped, _return_target_to_fresh.
    eapply (hoare_bind _ _ _ (fun r w => done_ w /\ r <> None)).
    + eapply (hoare_bind _ _ _ (fun r w => done_ w /\ r <> None)).
      * eapply hoare_catch.
        -- eapply hoare_bind; [apply (rollback_refuses done_)|by intros u w' []].
           ++ apply done_faults. ++ apply done_no_tx. ++ by intros w' (? & _).
        -- intros e'. destruct (is_exception e'); [by intros w' [? _]|by intros w' ?].
      * intros [r|] w' [Hw' Hr]; [done|done].
    + intros [r|] w' [Hw' Hr]; [|done]. split; [done|]. by intros [? ?].
Qed.

Lemma begin_inside : hoare (fun w => env w = Store t0 None) sql_begin (fun _ => inside) K0.
Proof.
  unfold sql_begin. apply sql_hoare; unfold inside, K0, kept.
  - done.
  - intros w Hw. cbv [mbind M_bind gets modify raise id]. cbn. rewrite Hw. cbn. by rewrite Hw.
  - intros g w Hw. by rewrite Hw.
  - intros w Hw. by rewrite Hw.
  - by intros g u w [? _].
  - intros w fs Hw. cbn. by rewrite Hw.
Qed.

Lemma verify_schema_inside : hoare inside (verify_schema (@sql_read)) (fun _ => inside) K0.
Proof.
  unfold verify_schema. apply hoare_for_each. intros [t exp].
  eapply hoare_bind; [apply sql_read_inside|]. intros x. destruct (negb _).
  { intros w Hw. by apply inside_kept. }
  eapply hoare_bind; [apply sql_read_inside|]. intros y. case_bool_decide; [by intros w Hw|].
  intros w Hw. by apply inside_kept.
Qed.

Lemma fresh_inside : hoare inside (_assert_fresh (@sql_read)) (fun _ => inside) K0.
Proof.
  assert (Hr : forall {A} e, hoare inside (raise e : M mach A) (fun _ => inside) K0)
    by (intros A e w Hw; by apply inside_kept).
  assert (Hm : forall {A} (a : A), hoare inside (mret a : M mach A) (fun _ => inside) K0)
    by (intros A a w Hw; done).
  unfold _assert_fresh, _user_tables. eapply hoare_bind; [apply sql_read_inside|]. intros names.
  generalize SNull. induction names as [|t names IH]; intros boot; simpl; [apply Hm|].
  eapply (hoare_bind _ _ _ (fun _ => inside)); [|done]. unfold fresh_table, _count.
  destruct (String.eqb t "runtime_config").
  { eapply hoare_bind; [apply sql_read_inside|]. intros rows. destruct (forallb _ rows); auto. }
  eapply hoare_bind; [apply sql_read_inside|]. intros n.
  destruct (String.eqb t "users"); [|destruct (n =? 0); auto].
  destruct (n =? 0); [auto|]. destruct (1 <? n); [auto|].
  eapply hoare_bind; [apply sql_read_inside|]. intros rows. cbv zeta. destruct (text_is _ _); auto.
Qed.

Lemma close_done : hoare done_ sql_close (fun _ => done_) outcome.
Proof.
  intros w Hw. unfold sql_close, sys. assert (Hw' := Hw). destruct Hw' as (? & ? & ?).
  destruct (faults w) as [|f fs]; [done|].
  destruct f; try done; right; (split; [done|]); try apply raised_not_retry. by intros [? ?].
Qed.

Lemma close_kept : keeps kept sql_close.
Proof. unfold sql_close. apply (keeps_sys (fun _ => False)); [apply kept_respects|]. by intros w Hw. Qed.

Lemma transaction_hoare :
  hoare (fun w => env w = Store t0 None) (restore_transaction b ts) (fun _ => done_) outcome.
Proof.
  set (P := fun w : mach => env w = Store t0 None).
  assert (HPk : forall w, P w -> kept w) by (intros w Hw; unfold kept; by rewrite Hw).
  assert (HK : forall {A} P (m : M mach A) Q, hoare P m Q K0 -> hoare P m Q outcome).
  { intros A P' m Q Hm. eapply hoare_weaken; [exact Hm|done|done|]. intros e w Hw. by left. }
  assert (HKP : forall {A} (m : M mach A), keeps P m -> hoare P m (fun _ => P) outcome).
  { intros A m Hm. eapply hoare_weaken; [by apply (hoare_keeps P)|done|done|].
    intros e w Hw. left. by apply HPk. }
  assert (HPt : forall w fs, P w -> P (with_tx None (with_faults w fs))).
  { intros w fs Hw. unfold P in *. cbn. by rewrite Hw. }
  unfold restore_transaction. eapply hoare_bind.
  { apply HKP. apply (keeps_nothing (fun _ => False)). apply (respects_env _ (fun e => e = Store t0 None)). }
  intros u1. apply hoare_finally.
  - eapply hoare_bind; [apply HKP, keeps_sql; auto; apply keeps_ret|]. intros u2.
    eapply hoare_bind; [apply HKP; unfold sql_read; apply keeps_sql; auto; apply keeps_gets|]. intros on.
    destruct (negb on); [intros w Hw; left; by apply HPk|].
    eapply hoare_bind; [apply HK, begin_inside|]. intros u3.
    eapply (hoare_bind _ _ _ (fun _ => inside)).
    + apply HK. eapply hoare_on_exception; [| |by intros w Hw].
      * eapply hoare_bind; [apply verify_schema_inside|]. intros u4. apply fresh_inside.
      * intros e _. eapply (hoare_bind _ _ _ (fun _ => kept)); [|by intros u w Hw].
        apply hoare_keeps. apply keeps_catch; [apply keeps_rollback|].
        intros e' k Hk. destruct (is_exception e'); simplify_eq. apply keeps_ret.
    + intros boot. eapply hoare_on_exception; [apply commit_bundle_hoare| |].
      * intros e _. apply stopped_hoare.
      * intros w [Hw|Hw]; [by left|]. right. split; [done|]. by intros [? ?].
  - intros f. apply close_done.
  - intros e _ w [Hw|[Hw He]].
    + pose proof (close_kept w Hw) as Hc. destruct (sql_close w) as [[]]; by left.
    + pose proof (close_done w Hw) as Hc. destruct (sql_close w) as [[]]; [by right|done].
Qed.

(** What the caller can rely on after [restore_transaction] and the writes behind it. *)
Lemma outcome_respects T e : ~ T ts -> respects T (outcome e).
Proof.
  intros HT. apply respects_or; [apply kept_respects|]. apply respects_and; [|apply respects_const].
  unfold done_, committed. apply respects_and; [apply (respects_env T (fun e => tx e = None))|].
  apply respects_and; [apply (respects_env T (fun e => restored b (target e)))|by apply respects_sealed].
Qed.

Lemma done_respects T : ~ T ts -> respects T done_.
Proof.
  intros HT. unfold done_, committed. apply respects_and; [apply (respects_env T (fun e => tx e = None))|].
  apply respects_and; [apply (respects_env T (fun e => restored b (target e)))|by apply respects_sealed].
Qed.
End Restoring.

Definition content (v : gmap path node) (p : path) (data : bytes) : Prop :=
  exists mode s, v !! p = Some (File mode data s).

(** What a bundle read and accepted from [dir] is. *)
Definition bundle_at (v : gmap path node) (dir : path) (b : bundle) : Prop :=
  exists raw marker body rows,
    content v (child dir COMPLETE_MARKER) raw /\ _load_json raw = Ok marker /\
    content v (child dir MANIFEST_NAME) body /\ _load_json body = Ok (b_manifest b) /\
    b_manifest_sha b = sha256 body /\ str_is (get "manifest_sha256" marker) (b_manifest_sha b) = true /\
    _validate_manifest (b_manifest b) = Ok tt /\
    content v (child dir SECRET_KEY_NAME) (b_secret b) /\ b_secret_sha b = sha256 (b_secret b) /\
    str_is (get "secret_key_sha256" marker) (b_secret_sha b) = true /\
    collect_res (decode_table (b_manifest b)) PRESERVED_TABLES = Ok rows /\
    b_decoded b = fun t => default [] (dict_get t (zip PRESERVED_TABLES rows)).

Lemma read_bundle_reads v dir : hoare (fun w : mach => vis w = v) (read_bundle dir)
  (fun b w => vis w = v /\ bundle_at v dir b) (fun _ w => vis w = v).
Proof.
  set (D := fun w : mach => vis w = v).
  assert (HD : forall (e : exn) w, D w -> D w) by done.
  unfold read_bundle. eapply hoare_bind; [apply read_private_seen|]. intros raw.
  apply hoare_pure. intros Hraw. apply hoare_lift; [|by auto]. intros marker Hmarker.
  eapply hoare_bind; [apply read_private_seen|]. intros body. apply hoare_pure. intros Hbody.
  destruct (negb _ || negb _) eqn:E1; [by intros w Hw|].
  apply orb_false_iff in E1 as [E1 E2]. apply negb_false_iff in E2.
  apply hoare_lift; [|by auto]. intros manifest Hman. apply hoare_lift; [|by auto]. intros [] Hval.
  eapply hoare_bind; [apply read_private_seen|]. intros secret. apply hoare_pure. intros Hsec.
  destruct (negb _ || negb _ || negb _) eqn:E3; [by intros w Hw|].
  apply orb_false_iff in E3 as [E3 E4]. apply negb_false_iff in E4.
  apply hoare_lift; [|by auto]. intros rows Hrows w Hw. split; [done|].
  exists raw, marker, body, rows. by split_and!.
Qed.

Lemma restore_checks_keep bundle_dir target_db run_dir data_dir (I : mach -> Prop) :
  respects (fun _ => False) I -> keeps I (restore_checks bundle_dir target_db run_dir data_dir).
Proof.
  intros HI. unfold restore_checks, _lstat.
  apply keeps_bind; [by eapply keeps_directory|]. intros _.
  apply keeps_bind; [apply keeps_for_each; intros n; by eapply keeps_regular_file|]. intros _.
  apply keeps_bind; [by eapply keeps_regular_file|]. intros _.
  apply keeps_bind; [by eapply keeps_directory|]. intros _.
  apply keeps_bind; [by eapply keeps_lstat|]. intros st.
  apply keeps_bind; [destruct st as [[]|]; eauto with keeps|]. intros _. by eapply keeps_absent.
Qed.

(** The transaction touches no file but the key and its temporary. *)
Section Walk.
Context (T : path -> Prop) (I : mach -> Prop) (HI : respects T I).
Hypothesis HE : forall w e, I w -> I (with_env w e).

Lemma walk_sql {A} (eff : M mach A) : keeps I eff -> keeps I (sql eff).
Proof.
  intros He. apply keeps_sql; [by apply HI| |done]. intros w fs Hw. by apply HE, HI.
Qed.

Lemma walk_read {A} (f : sdb -> A) : keeps I (sql_read f).
Proof. apply walk_sql, keeps_gets. Qed.

Ltac statement := apply walk_sql; intros w Hw; cbv [mbind M_bind gets modify raise lift_res id]; cbn;
  repeat (case_match; cbn); simplify_eq; try done; by apply HE.

Lemma walk_write f : keeps I (sql_write f). Proof. unfold sql_write. statement. Qed.
Lemma walk_begin : keeps I sql_begin. Proof. unfold sql_begin. statement. Qed.
Lemma walk_commit : keeps I sql_commit. Proof. unfold sql_commit. statement. Qed.
Lemma walk_rollback : keeps I sql_rollback. Proof. unfold sql_rollback. statement. Qed.
Lemma walk_close : keeps I sql_close.
Proof. unfold sql_close. eapply keeps_sys; [exact HI|]. intros w Hw. by apply HE. Qed.

Ltac walk_step := first
  [ apply keeps_ret | apply keeps_raise | apply keeps_lift_res | apply walk_read | apply walk_write
  | apply walk_begin | apply walk_commit | apply walk_rollback | apply walk_close
  | (eapply keeps_nothing; exact HI)
  | apply keeps_bind; [|intros ?] | apply keeps_finally | apply keeps_on_exception; [|intros ?]
  | apply keeps_for_each; intros ? | apply keeps_collect; intros ?
  | apply keeps_catch; [|intros ? ? ?] | case_match; simplify_eq ].
Ltac walk := repeat walk_step.

Lemma walk_schema : keeps I (verify_schema (@sql_read)).
Proof. unfold verify_schema. walk. Qed.

Lemma walk_fresh : keeps I (_assert_fresh (@sql_read)).
Proof.
  unfold _assert_fresh, _user_tables. apply keeps_bind; [apply walk_read|]. intros names.
  generalize SNull. induction names as [|t names IH]; intros boot; simpl; [walk|].
  apply keeps_bind; [|done]. unfold fresh_table, _count. walk.
Qed.

Lemma walk_transaction b ts : T ts -> T (tmp_of ts) -> keeps I (restore_transaction b ts).
Proof.
  intros H3 H4. unfold restore_transaction, commit_bundle, apply_bundle, apply_table, insert_params,
    _apply_autoincrement, apply_high_water, verify_restored, reread_table, _read_table,
    reread_high_water, _other_table_counts, _user_tables, _count, stopped, _return_target_to_fresh,
    _rollback_quietly.
  repeat first [apply walk_schema | apply walk_fresh | (apply walk_sql; apply keeps_ret)
    | (eapply keeps_install; [exact HI|assumption|assumption]) | walk_step].
Qed.
End Walk.

(** The file names a restore writes to, none of which is another's temporary. *)
Lemma restore_names data_dir run_dir :
  let ts := child data_dir SECRET_KEY_NAME in
  let marker := child run_dir COMPLETE_MARKER in
  marker <> ts /\ marker <> tmp_of ts /\
  (forall n, n <> COMPLETE_MARKER -> marker <> child run_dir n).
Proof. split_and!; [done|done|]. intros n Hn [=]. congruence. Qed.

(** What a run of the restore can have come to. *)
Record restore_verdict (bundle_dir run_dir data_dir : path) (w : mach)
    (r : res RestoreReport) (w' : mach) : Prop := {
  (** all or nothing *)
  verdict_target : target (env w') = target (env w) \/
    exists b, bundle_at (vis w) bundle_dir b /\ committed b (child data_dir SECRET_KEY_NAME) w';
  (** only an untouched target is called safe to retry *)
  verdict_retry e : r = Raise e -> retry_safe e -> target (env w') = target (env w);
  (** the marker speaks for rows and key together *)
  verdict_marker : vis w' !! child run_dir COMPLETE_MARKER <> None ->
    exists b, bundle_at (vis w) bundle_dir b /\ committed b (child data_dir SECRET_KEY_NAME) w';
  verdict_ok rep : r = Ok rep ->
    exists marker, sealed (child run_dir COMPLETE_MARKER) 384 marker w'
}.

(** File operations never claim that a retry is safe. *)
Section Clean.
Context {W : Type}.

Definition clean {A} (m : M (machine W) A) : Prop := forall w e w', m w = (Raise e, w') -> ~ retry_safe e.

Lemma clean_ret {A} (a : A) : clean (mret a). Proof. by intros w e w' [=]. Qed.

Lemma clean_raise {A} e : ~ retry_safe e -> clean (raise e : M (machine W) A).
Proof. by intros He w e' w' [= <- <-]. Qed.

Lemma clean_gets {A} (f : machine W -> A) : clean (gets f). Proof. by intros w e w' [=]. Qed.
Lemma clean_modify (f : machine W -> machine W) : clean (modify f). Proof. by intros w e w' [=]. Qed.

Lemma clean_bind {A B} (m : M (machine W) A) (k : A -> M (machine W) B) :
  clean m -> (forall a, clean (k a)) -> clean (m ≫= k).
Proof.
  intros Hm Hk w e w'. unfold mbind, M_bind. destruct (m w) as [[a|e1] w1] eqn:E.
  - apply Hk.
  - intros [= -> ->]. by eapply Hm.
Qed.

Lemma clean_sys {A} (eff : M (machine W) A) : clean eff -> clean (sys eff).
Proof.
  intros He w e w'. unfold sys. destruct (faults w) as [|f fs]; [apply He|].
  destruct f; try apply He.
  - intros [= <- <-]. apply raised_not_retry.
  - destruct (eff (with_faults w fs)) as [[a|e1] w1] eqn:E; intros [= <- <-]; [apply raised_not_retry|by eapply He].
  - intros [= <- <-]. apply (raised_not_retry IOFailure).
  - intros [= <- <-]. by intros [? ?].
Qed.

Lemma clean_catch {A} (m : M (machine W) A) h :
  clean m -> (forall e k, ~ retry_safe e -> h e = Some k -> clean k) -> clean (catch m h).
Proof.
  intros Hm Hh w e w'. unfold catch. destruct (m w) as [[a|e1] w1] eqn:E; [done|].
  specialize (Hm w e1 w1 E). destruct (h e1) as [k|] eqn:E2; [by apply (Hh e1 k)|]. by intros [= <- <-].
Qed.

Lemma clean_on_exception {A} (m : M (machine W) A) h :
  clean m -> (forall e, ~ retry_safe e -> clean (h e)) -> clean (on_exception m h).
Proof.
  intros Hm Hh. apply clean_catch; [done|]. intros e k He Hk. destruct e; simplify_eq; by apply Hh.
Qed.

Lemma clean_finally {A} (m : M (machine W) A) c : clean m -> clean c -> clean (finally m c).
Proof.
  intros Hm Hc w e w'. unfold finally. specialize (Hm w). destruct (m w) as [[a|e1] w1].
  - specialize (Hc w1). destruct (c w1) as [[]]; [done|]. intros [= <- <-]. by eapply Hc.
  - specialize (Hm e1 w1 eq_refl). specialize (Hc w1).
    destruct e1, (c w1) as [[]]; intros [= <- <-]; try done; by eapply Hc.
Qed.

Lemma clean_lift {A} (r : res A) : (forall e, r = Raise e -> ~ retry_safe e) -> clean (lift_res r : M (machine W) A).
Proof. intros Hr w e w' [= E <-]. by apply Hr. Qed.

Ltac clean_walk := repeat first
  [ apply clean_ret | (apply clean_raise; by intros [? ?]) | apply clean_gets | apply clean_modify
  | (apply clean_raise; assumption)
  | apply clean_bind; [|intros ?] | apply clean_sys | apply clean_finally
  | apply clean_on_exception; [|intros ? ?] | apply clean_catch; [|intros ? ? ? ?]
  | case_match; simplify_eq ].

Lemma clean_write p v : clean (os_write p v).
Proof.
  intros w e w'. unfold os_write.
  assert (H3 : forall n, clean (sys (_ ← modify (fun w => match vis w !! p with
         | Some (File mode data _) => set_node p (File mode (data ++ take n v) false) w
         | _ => w end); mret n))) by (intros n; clean_walk).
  apply H3.
Qed.

Lemma clean_write_all fuel p v : clean (write_all fuel p v).
Proof.
  revert v. induction fuel as [|fuel IH]; intros [|c v]; simpl; try apply clean_ret.
  apply clean_bind; [apply clean_write|]. intros n. apply IH.
Qed.

Lemma clean_private_file p data r : clean (_write_private_file p data r).
Proof.
  unfold _write_private_file, _lstat, os_lstat, os_create, os_chmod, os_fsync, os_close, os_rename,
    os_unlink, _fsync_dir, os_open_dir, os_fsync_names.
  repeat first [apply clean_write_all | progress clean_walk].
Qed.
End Clean.

Lemma clean_remove p : clean (remove_password_file p).
Proof.
  unfold remove_password_file, os_unlink. apply clean_catch.
  - apply clean_bind; [|intros; apply clean_ret]. apply clean_sys, clean_bind; [apply clean_gets|].
    intros w. case_match; [case_match|]; try apply clean_modify; apply clean_raise; by intros [? ?].
  - intros e k He Hk. destruct (is_os_error e); simplify_eq. apply clean_ret.
Qed.

Lemma canonical_not_retry v e : canonical_bytes v = Raise e -> ~ retry_safe e.
Proof. unfold canonical_bytes, dumps. destruct (all_finite v); intros [= <-]. by intros [? ?]. Qed.

Section Verdict.
Context (bundle_dir target_db run_dir data_dir : path) (t0 : sdb) (v0 : gmap path node).
Let ts := child data_dir SECRET_KEY_NAME.
Let marker_path := child run_dir COMPLETE_MARKER.
Let no_marker (w : mach) := vis w !! marker_path = None.
Let start (w : mach) := env w = Store t0 None.

(** Before the transaction: the target as it was; after it: one of two outcomes. *)
Let X (e : exn) (w : mach) :=
  (target (env w) = t0 /\ no_marker w) \/
  (~ retry_safe e /\ exists b, bundle_at v0 bundle_dir b /\ committed b ts w).

Lemma start_X : forall e w, start w /\ no_marker w -> X e w.
Proof. intros e w [Hs Hn]. left. unfold start in Hs. by rewrite Hs. Qed.

Lemma start_respects T : ~ T marker_path -> respects T (fun w => start w /\ no_marker w).
Proof.
  intros HT. apply respects_and; [apply (respects_env T (fun e => e = Store t0 None))|by apply respects_seen].
Qed.

(** A step after the commit that leaves key and marker alone. *)
Lemma after_commit {A} T b (m : M mach A) : bundle_at v0 bundle_dir b -> ~ T ts -> ~ T marker_path ->
  (forall I : mach -> Prop, respects T I -> keeps I m) -> clean m ->
  hoare (fun w => committed b ts w /\ no_marker w) m (fun _ w => committed b ts w /\ no_marker w) X.
Proof.
  intros Hb H3 H4 Hk Hc w Hw.
  assert (HI : respects T (fun w => committed b ts w /\ no_marker w)).
  { apply respects_and; [by apply (done_respects b ts)|by apply respects_seen]. }
  specialize (Hk _ HI w Hw). destruct (m w) as [[a|e] w'] eqn:E; [done|].
  right. split; [by eapply Hc|]. exists b. by destruct Hk.
Qed.

Lemma restore_hoare : v0 !! marker_path = None ->
  hoare (fun w => start w /\ vis w = v0) (restore_bundle bundle_dir target_db run_dir data_dir)
    (fun _ w => exists marker b, sealed marker_path 384 marker w /\ bundle_at v0 bundle_dir b /\ committed b ts w) X.
Proof.
  intros Hv0. set (D := fun w : mach => start w /\ vis w = v0).
  assert (HD : respects (fun _ => False) D).
  { apply respects_and; [apply (respects_env _ (fun e => e = Store t0 None))|apply respects_vis; tauto]. }
  assert (HDn : forall w, D w -> start w /\ no_marker w).
  { intros w [Hs Hw]. split; [done|]. unfold no_marker. by rewrite Hw. }
  assert (HDX : forall e w, D w -> X e w) by (intros e w Hw; by apply start_X, HDn).
  unfold restore_bundle. eapply (hoare_bind _ _ _ (fun _ => D)).
  { eapply (hoare_weaken D _ _ (fun _ => D) _ (fun _ => D));
      [apply hoare_keeps, restore_checks_keep, HD|auto|auto|apply HDX]. }
  intros u1. eapply (hoare_bind _ _ _ (fun b w => D w /\ bundle_at v0 bundle_dir b)).
  { intros w [Hs Hw]. pose proof (read_bundle_reads v0 bundle_dir w Hw) as Hr.
    assert (Hk : keeps (fun w : mach => start w) (read_bundle bundle_dir)).
    { assert (HS : respects (fun _ => False) (fun w : mach => start w))
        by apply (respects_env _ (fun e => e = Store t0 None)).
      unfold read_bundle. repeat first [ (eapply keeps_read_private; exact HS) | apply keeps_ret
        | apply keeps_raise | apply keeps_lift_res | apply keeps_bind; [|intros ?] | case_match ]. }
    specialize (Hk w Hs). destruct (read_bundle bundle_dir w) as [[b|e] w']; [|by apply HDX].
    destruct Hr as [Hv Hb]. done. }
  intros b. apply hoare_pure. intros Hb.
  eapply (hoare_bind _ _ _ (fun _ w => start w /\ no_marker w)).
  { set (T := fun p => p = run_dir). assert (HT : ~ T marker_path).
    { unfold T, marker_path. intros E. apply (f_equal length) in E. simpl in E. lia. }
    eapply (hoare_weaken (fun w => start w /\ no_marker w) _ _ (fun _ w => start w /\ no_marker w)
      _ (fun _ w => start w /\ no_marker w));
      [apply hoare_keeps, (keeps_private_dir T); [by apply start_respects|done]|exact HDn|auto|apply start_X]. }
  intros u2. eapply (hoare_bind _ _ _ (fun _ w => committed b ts w /\ no_marker w)).
  { change (child data_dir SECRET_KEY_NAME) with ts. intros w [Hs Hn].
    pose proof (transaction_hoare t0 b ts w Hs) as Ht.
    set (T := fun p => p = ts \/ p = tmp_of ts).
    assert (Hk : keeps no_marker (restore_transaction b ts)).
    { apply (walk_transaction T); [apply respects_seen; unfold T, ts, marker_path; by intros [|]|done|by left|by right]. }
    specialize (Hk w Hn). destruct (restore_transaction b ts w) as [[x|e] w']; [exact (conj Ht Hk)|].
    destruct Ht as [Ht|[Ht He]]; [left; exact (conj Ht Hk)|right].
    split; [exact He|]. exists b. exact (conj Hb Ht). }
  intros facts. destruct facts as [[[[checked monitoring] au] installed] boot].
  assert (HL : forall A (r : res A) (k : A -> M mach RestoreReport) Q, (forall e, r = Raise e -> ~ retry_safe e) ->
    (forall a, hoare (fun w => committed b ts w /\ no_marker w) (k a) Q X) ->
    hoare (fun w => committed b ts w /\ no_marker w) (lift_res r ≫= k) Q X).
  { intros A r k Q Hr Hk w [Hw Hn]. unfold mbind, M_bind, lift_res. destruct r as [a|e]; [by apply Hk|].
    right. split; [by apply Hr|]. by exists b. }
  eapply (hoare_bind _ _ _ (fun _ w => committed b ts w /\ no_marker w)).
  { apply (after_commit (fun p => p = child data_dir INITIAL_ADMIN_PASSWORD_FILE)); [done|done|done| |apply clean_remove].
    intros I HI. unfold remove_password_file. apply keeps_catch.
    - apply keeps_bind; [by eapply keeps_unlink|]. intros; apply keeps_ret.
    - intros e k Hk. destruct (is_os_error e); simplify_eq. apply keeps_ret. }
  intros removed. apply HL; [intros e; apply canonical_not_retry|]. intros text.
  eapply (hoare_bind _ _ _ (fun _ w => committed b ts w /\ no_marker w)).
  { set (p := child run_dir REPORT_NAME). apply (after_commit (fun x => x = p \/ x = tmp_of p)); [done| | | |apply clean_private_file].
    - by intros [|].
    - by intros [|].
    - intros I HI. eapply keeps_private_file; [exact HI|by left|by right]. }
  intros u3. apply HL; [intros e; apply canonical_not_retry|]. intros marker.
  eapply (hoare_bind _ _ _ (fun _ w => sealed marker_path 384 marker w /\ committed b ts w)).
  - change (child run_dir COMPLETE_MARKER) with marker_path.
    intros w [Hw Hn]. pose proof (private_file_seen marker_path marker (tmp_of_ne _) w Hn) as Hs.
    set (T := fun x => x = marker_path \/ x = tmp_of marker_path).
    assert (Hk : keeps (committed b ts) (_write_private_file marker_path marker false)).
    { apply (keeps_private_file T); [|by left|by right]. apply (done_respects b ts). by intros [|]. }
    specialize (Hk w Hw). destruct (_write_private_file marker_path marker false w) as [[u|e] w'] eqn:E;
      [exact (conj Hs Hk)|].
    right. split; [by eapply clean_private_file|]. exists b. exact (conj Hb Hk).
  - intros u4 w [Hm Hw]. exists marker, b. done.
Qed.
End Verdict.

(** A restore that returned has restored some bundle it found there. *)
Lemma restore_returned bundle_dir target_db run_dir data_dir v u t0 fs rep w' :
  v !! child run_dir COMPLETE_MARKER = None ->
  restore_bundle bundle_dir target_db run_dir data_dir (Machine fs v u (Store t0 None)) = (Ok rep, w') ->
  exists b, bundle_at v bundle_dir b /\ restored b (target (env w')).
Proof.
  intros Hv E. pose proof (restore_hoare bundle_dir target_db run_dir data_dir t0 v Hv
    (Machine fs v u (Store t0 None)) (conj eq_refl eq_refl)) as Hr. rewrite E in Hr.
  destruct Hr as (_ & b & _ & Hb & _ & Hres & _). eauto.
Qed.

(** C5: Whatever goes wrong during a restore, the target is untouched or holds the
    bundle with its key durably in place; only an untouched target is reported as
    safe to retry; and a COMPLETE marker in the run directory speaks for both. *)
Theorem restore_all_or_nothing bundle_dir target_db run_dir data_dir (w : mach) :
  tx (env w) = None -> vis w !! child run_dir COMPLETE_MARKER = None ->
  let '(r, w') := restore_bundle bundle_dir target_db run_dir data_dir w in
  restore_verdict bundle_dir run_dir data_dir w r w'.
Proof.
  intros Htx Hm. destruct (env w) as [t0 tx0] eqn:He. simpl in Htx. subst tx0.
  pose proof (restore_hoare bundle_dir target_db run_dir data_dir t0 (vis w) Hm w (conj He eq_refl)) as Hr.
  destruct (restore_bundle _ _ _ _ w) as [[rep|e] w'].
  - destruct Hr as (marker & b & Hs & Hb & Hc). split; [right; eauto|done|eauto|eauto].
  - destruct Hr as [[Ht Hn]|[Hne [b [Hb Hc]]]]; split; try done.
    + left. by rewrite He.
    + intros e' _ _. by rewrite He.
    + right. eauto.
    + by intros e' [= <-].
    + eauto.
Qed.
End Safety.
