(* ===== verification/TransferRoundtrip.v ===== *)
(** * The transfer carries the accounts over

    A bundle reads back as what was exported; a restore of it into a fresh database
    succeeds when nothing interferes and leaves the exported rows; and what was
    restored is pinned by the digests whatever happened. *)
From S2P Require Import Prelude Sorting Py Effects PyOps Json Files Sql Transfer TransferSafety.
Open Scope Z_scope.

Section Roundtrip.
Context `{Sqlite, FloatText, !FloatLaws, Digest}.

(** ** Rows a database can hold *)

Definition int64 (z : Z) : Prop := - Z.pow 2 63 <= z < Z.pow 2 63.

Definition value_ok (v : sqlv) : Prop :=
  match v with
  | SNull | SText _ => True
  | SInt z => int64 z
  | SReal (Fin q) => is_float q
  | _ => False
  end.

Definition enc (v : sqlv) : pyval :=
  match v with
  | SInt z => VInt z
  | SReal f => VFloat f
  | SText s => VStr s
  | _ => VNone
  end.

Definition enc_rows (rows : list row) : pyval := VList (List.map (fun r => VList (List.map enc r)) rows).

Lemma encode_ok v : value_ok v -> _encode_value v = Ok (enc v).
Proof. by destruct v as [| |[]| |]. Qed.

Lemma decode_ok v : value_ok v -> _decode_value (enc v) = Ok (enc v).
Proof. by destruct v as [| |[]| |]. Qed.

Lemma bind_ok_value v : value_ok v -> bind_param (enc v) = Ok v.
Proof.
  destruct v as [|z|[]| |]; simpl; try done. intros [Hlo Hhi].
  by rewrite (proj2 (Z.leb_le _ _) Hlo), (proj2 (Z.ltb_lt _ _) Hhi).
Qed.

Lemma collect_res_map {X A} (f : X -> res A) (g : X -> A) l :
  (forall x, x ∈ l -> f x = Ok (g x)) -> collect_res f l = Ok (List.map g l).
Proof.
  intros Hf. induction l as [|x l IH]; [done|]. simpl. rewrite Hf by by left.
  cbn. rewrite IH; [done|]. intros y Hy. apply Hf. by right.
Qed.

Definition rows_ok (rows : list row) : Prop := Forall (Forall value_ok) rows.

Lemma encode_rows_ok rows : rows_ok rows -> _encode_rows rows = Ok (enc_rows rows).
Proof.
  intros Hr. unfold _encode_rows, enc_rows.
  rewrite (collect_res_map _ (fun r => VList (List.map enc r))); [done|].
  intros r Hin. rewrite (collect_res_map _ enc); [done|]. intros v Hv. apply encode_ok.
  unfold rows_ok in Hr. rewrite Forall_forall in Hr. specialize (Hr r Hin).
  rewrite Forall_forall in Hr. by apply Hr.
Qed.

(** The other way round: what was encoded is what the encoder gives. *)
Lemma encode_value_enc v x : _encode_value v = Ok x -> x = enc v.
Proof. destruct v as [| |[]| |]; by intros [=]. Qed.

Lemma collect_res_ok {X A} (f : X -> res A) (g : X -> A) l r :
  (forall x a, f x = Ok a -> a = g x) -> collect_res f l = Ok r -> r = List.map g l.
Proof.
  intros Hf. revert r. induction l as [|x l IH]; intros r; simpl; [by intros [=]|].
  destruct (f x) as [a|e] eqn:E; [|done]. cbn. destruct (collect_res f l) as [r'|e]; [|done].
  cbn. intros [= <-]. by rewrite (Hf x a E), (IH r').
Qed.

Lemma encode_rows_enc rows x : _encode_rows rows = Ok x -> x = enc_rows rows.
Proof.
  unfold _encode_rows. destruct (collect_res _ rows) as [rs|e] eqn:E; [|done]. intros [= <-].
  unfold enc_rows. f_equal. eapply collect_res_ok; [|exact E].
  intros r a (vs & E' & [= <-])%res_bind_ok.
  f_equal. by eapply collect_res_ok; [apply encode_value_enc|].
Qed.

Lemma enc_json v : value_ok v -> json_ok (enc v) /\ flat (enc v).
Proof. destruct v as [|z|[]|s|]; simpl; try done; intros Hv; by split; constructor. Qed.

Lemma enc_rows_json rows : rows_ok rows -> json_ok (enc_rows rows) /\ flat (enc_rows rows).
Proof.
  intros Hr. unfold enc_rows. split; constructor; apply Forall_map; eapply Forall_impl; try exact Hr;
    intros r Hv; constructor; apply Forall_map; eapply Forall_impl; try exact Hv; intros v; apply enc_json.
Qed.

Lemma enc_rows_finite rows : rows_ok rows -> all_finite (enc_rows rows) = true.
Proof.
  intros Hr. unfold enc_rows. cbn [all_finite]. apply forallb_forall. intros x Hx.
  apply in_map_iff in Hx as (r & <- & Hin). cbn [all_finite]. apply forallb_forall. intros y Hy.
  apply in_map_iff in Hy as (v & <- & Hv). unfold rows_ok in Hr. rewrite Forall_forall in Hr.
  specialize (Hr r (proj2 (list_elem_of_In _ _) Hin)). rewrite Forall_forall in Hr.
  specialize (Hr v (proj2 (list_elem_of_In _ _) Hv)). by destruct v as [| |[]| |].
Qed.

Lemma strs_json l : json_ok (strs l) /\ flat (strs l) /\ all_finite (strs l) = true.
Proof.
  unfold strs. split_and!; [constructor|constructor|]; induction l; simpl; try constructor; try done; constructor.
Qed.

(** ** Digests *)

Definition digest_text (columns rows : pyval) : bytes :=
  dump (VDict [("columns", columns); ("rows", rows)]%string).

Lemma table_digest_ok columns rows d : table_digest columns rows = Ok d -> d = sha256 (digest_text columns rows).
Proof. unfold table_digest, canonical_bytes, dumps. destruct (all_finite _); by intros [=]. Qed.

Lemma table_digest_total cs rows : rows_ok rows ->
  table_digest (strs cs) (enc_rows rows) = Ok (sha256 (digest_text (strs cs) (enc_rows rows))).
Proof.
  intros Hr. unfold table_digest, canonical_bytes, dumps. cbn [all_finite forallb snd].
  destruct (strs_json cs) as (_ & _ & ->). by rewrite enc_rows_finite.
Qed.

Lemma digest_text_ok cs rows : json_ok rows -> flat rows ->
  json_ok (VDict [("columns", strs cs); ("rows", rows)]%string) /\
  canon (VDict [("columns", strs cs); ("rows", rows)]%string) = VDict [("columns", strs cs); ("rows", rows)]%string.
Proof.
  intros Hj Hf. destruct (strs_json cs) as (Hc & Hcf & _). split.
  - constructor; [|apply Forall_cons; split; [exact Hc|apply Forall_cons; split; [exact Hj|constructor]]].
    simpl. repeat constructor; set_solver.
  - cbn [canon List.map fst snd]. by rewrite !canon_flat.
Qed.

(** Equal digests: equal rows, or two texts with one hash. *)
Lemma digest_inj cs rows rows' : json_ok rows -> flat rows -> json_ok rows' -> flat rows' ->
  sha256 (digest_text (strs cs) rows) = sha256 (digest_text (strs cs) rows') ->
  rows = rows' \/ exists x y, x <> y /\ sha256 x = sha256 y.
Proof.
  intros Hj Hf Hj' Hf' E.
  destruct (decide (digest_text (strs cs) rows = digest_text (strs cs) rows')) as [Et|Hne]; [left|right; eauto].
  destruct (digest_text_ok cs rows Hj Hf) as [Hd Hcd], (digest_text_ok cs rows' Hj' Hf') as [Hd' Hcd'].
  pose proof (dump_inj _ _ Hd Hd' Et) as Hi. rewrite Hcd, Hcd' in Hi. by injection Hi.
Qed.

(** ** The manifest read back *)

Section Manifest.
Context (source : sdb) (secret : bytes).
Let rows t := rows_by_key t source.

Definition source_values_ok : Prop :=
  Forall (fun t => rows_ok (rows_by_key t source)) PRESERVED_TABLES /\ secret <> [] /\
  Forall (fun t => match seq_of t source with Some z => 0 <= z | None => True end) AUTOINCREMENT_TABLES.

Definition entry_fields (t : string) : dict :=
  [("columns", strs (_columns t)); ("rows", enc_rows (rows t));
   ("row_count", VInt (Z.of_nat (length (rows t))));
   ("digest", VStr (sha256 (digest_text (strs (_columns t)) (enc_rows (rows t)))))]%string.

Definition entries : dict := List.map (fun t => (t, VDict (entry_fields t))) PRESERVED_TABLES.

Definition manifest0 : dict :=
  [("format", VStr FORMAT); ("tables", VDict entries);
   ("autoincrement", auto_json (List.map (fun t => (t, seq_of t source)) AUTOINCREMENT_TABLES));
   ("secret_key", VDict [("sha256", VStr (sha256 secret));
                         ("size", VInt (Z.of_nat (length secret)))])]%string.

Definition manifest1 : dict := canon_dict manifest0.

Lemma fields_nodup t : NoDup (entry_fields t).*1.
Proof. cbn. repeat constructor; set_solver. Qed.

Lemma entries_nodup : NoDup entries.*1.
Proof. cbn. repeat constructor; set_solver. Qed.

Lemma manifest_nodup : NoDup manifest0.*1.
Proof. cbn. repeat constructor; set_solver. Qed.

Hypothesis Hok : source_values_ok.

Lemma preserved_rows_ok t : t ∈ PRESERVED_TABLES -> rows_ok (rows t).
Proof. intros Ht. destruct Hok as [Hr _]. rewrite Forall_forall in Hr. by apply Hr. Qed.

Lemma exported_manifest body : exported source secret body -> body = dump (VDict manifest0).
Proof.
  intros (ts & es & Hts & Hes & Hb & _ & _).
  assert (E : es = entries).
  { unfold entries. destruct Hok as [Hr _]. clear Hb. revert es Hes.
    induction Hts as [|t [t' [cs rs]] l l' [Ht [Hc Hx]] Hl IH]; intros es Hes; simpl in *.
    - by injection Hes.
    - subst t' cs. apply encode_rows_enc in Hx as ->. apply Forall_cons in Hr as [Hr Hr'].
      rewrite table_digest_total in Hes by done. cbn in Hes.
      apply res_bind_ok in Hes as (es' & Hes' & [= <-]). f_equal; [|by apply IH].
      unfold entry_fields, rows. do 6 f_equal. by rewrite length_map. }
  subst es. unfold canonical_bytes, dumps in Hb. case_match; [by injection Hb|done].
Qed.

Lemma entry_json t : t ∈ PRESERVED_TABLES -> json_ok (VDict (entry_fields t)).
Proof.
  intros Ht. constructor; [apply fields_nodup|].
  apply Forall_cons; split; [apply strs_json|]. apply Forall_cons; split.
  { by apply enc_rows_json, preserved_rows_ok. }
  repeat (apply Forall_cons; split); constructor.
Qed.

Lemma manifest_json : json_ok (VDict manifest0).
Proof.
  constructor; [apply manifest_nodup|]. unfold manifest0.
  repeat (apply Forall_cons; split); cbn [snd]; try constructor.
  - apply entries_nodup.
  - unfold entries. apply Forall_map, Forall_forall. intros t Ht. cbn. by apply entry_json.
  - cbn. repeat constructor; set_solver.
  - cbn. apply Forall_cons; split; [|done]. cbn. destruct (seq_of _ _); constructor.
  - cbn. repeat constructor; set_solver.
  - repeat (apply Forall_cons; split); cbn; constructor.
Qed.

Lemma load_manifest : _load_json (dump (VDict manifest0)) = Ok manifest1.
Proof. unfold _load_json. rewrite (read_canonical _ manifest_json). done. Qed.

Lemma tables_read_back : get "tables" manifest1 = VDict (canon_dict entries).
Proof. unfold manifest1. by rewrite get_canon by apply manifest_nodup. Qed.

Lemma dict_get_entries t : t ∈ PRESERVED_TABLES -> dict_get t entries = Some (VDict (entry_fields t)).
Proof.
  intros Ht. apply dict_get_elem; [apply entries_nodup|]. unfold entries.
  apply list_elem_of_In, in_map_iff. exists t. split; [done|]. by apply list_elem_of_In.
Qed.

Lemma entry_read_back t : t ∈ PRESERVED_TABLES ->
  get t (canon_dict entries) = VDict (canon_dict (entry_fields t)) /\
  entry_of manifest1 t = canon_dict (entry_fields t).
Proof.
  intros Ht. assert (E : get t (canon_dict entries) = VDict (canon_dict (entry_fields t))).
  { rewrite get_canon by apply entries_nodup. unfold get at 1. by rewrite dict_get_entries. }
  split; [done|]. unfold entry_of, sub_dict. rewrite tables_read_back. by rewrite E.
Qed.

Lemma field_read_back t k : get k (canon_dict (entry_fields t)) = canon (get k (entry_fields t)).
Proof. apply get_canon, fields_nodup. Qed.

Lemma rows_read_back t : t ∈ PRESERVED_TABLES -> get "rows" (canon_dict (entry_fields t)) = enc_rows (rows t).
Proof. intros Ht. rewrite field_read_back. apply canon_flat. by apply enc_rows_json, preserved_rows_ok. Qed.

Lemma strs_are_strs l : strs_are (strs l) l = true.
Proof.
  unfold strs_are, strs. rewrite length_map, Nat.eqb_refl. simpl.
  induction l as [|x l IH]; [done|]. simpl. by rewrite String.eqb_refl.
Qed.

Lemma number_is_refl z : number_is (VInt z) z = true.
Proof. unfold number_is. simpl. by apply Qeq_bool_iff. Qed.

Lemma rows_shaped_enc n rs : Forall (fun r => length r = n) rs ->
  rows_shaped n (enc_rows rs) = Some (List.map (fun r => VList (List.map enc r)) rs).
Proof.
  intros Hl. unfold rows_shaped, enc_rows. replace (forallb _ _) with true; [done|].
  symmetry. apply forallb_forall. intros x Hx. apply in_map_iff in Hx as (r & <- & Hin).
  rewrite Forall_forall in Hl. rewrite length_map. apply Nat.eqb_eq, Hl. by apply list_elem_of_In.
Qed.

Hypothesis Hwidth : Forall (fun t => Forall (fun r : row => length r = length (_columns t)) (rows_by_key t source))
  PRESERVED_TABLES.

Lemma entry_valid t : t ∈ PRESERVED_TABLES -> manifest_entry (canon_dict entries) t = Ok tt.
Proof.
  intros Ht. unfold manifest_entry. rewrite (proj1 (entry_read_back t Ht)).
  rewrite rows_read_back by done. rewrite !field_read_back.
  change (get "columns" (entry_fields t)) with (strs (_columns t)).
  change (get "row_count" (entry_fields t)) with (VInt (Z.of_nat (length (rows t)))).
  change (get "digest" (entry_fields t)) with
    (VStr (sha256 (digest_text (strs (_columns t)) (enc_rows (rows t))))).
  rewrite (canon_flat (strs _)) by apply strs_json. rewrite strs_are_strs. cbn [canon require mbind res_bind].
  rewrite rows_shaped_enc by (rewrite Forall_forall in Hwidth; by apply Hwidth).
  rewrite length_map, number_is_refl. cbn [require mbind res_bind].
  rewrite table_digest_total by by apply preserved_rows_ok. cbn [mbind res_bind str_is].
  by rewrite String.eqb_refl.
Qed.

Lemma collect_unit {A} (f : A -> res unit) l : (forall x, x ∈ l -> f x = Ok tt) ->
  exists us, collect_res f l = Ok us.
Proof.
  intros Hf. induction l as [|x l IH]; [by eexists|]. simpl. rewrite Hf by by left. cbn.
  destruct IH as [us ->]; [|by eexists]. intros y Hy. apply Hf. by right.
Qed.

Lemma canon_keys d : (canon_dict d).*1 ≡ₚ d.*1.
Proof.
  unfold canon_dict. rewrite sort_by_perm. replace ((List.map _ d).*1) with d.*1; [done|].
  induction d as [|[k v] d IH]; [done|]. simpl. by f_equal.
Qed.

Lemma dict_get_canon k d : NoDup d.*1 -> dict_get k (canon_dict d) = canon <$> dict_get k d.
Proof.
  intros Hnd. rewrite <- dict_get_map. symmetry. apply dict_get_perm.
  - replace ((List.map _ d).*1) with d.*1; [done|]. clear Hnd. induction d as [|[k' v] d IH]; [done|].
    simpl. by f_equal.
  - symmetry. apply sort_by_perm.
Qed.

Lemma manifest_get k : get k manifest1 = canon (get k manifest0).
Proof. apply get_canon, manifest_nodup. Qed.

Lemma auto_read_back : get "autoincrement" manifest1 =
  VDict [("audit_log", py_option (seq_of "audit_log" source))]%string.
Proof. rewrite manifest_get. cbn. by destruct (seq_of _ _). Qed.

Lemma secret_read_back : get "secret_key" manifest1 =
  VDict [("sha256", VStr (sha256 secret)); ("size", VInt (Z.of_nat (length secret)))]%string.
Proof. rewrite manifest_get. done. Qed.

Lemma manifest_valid : _validate_manifest manifest1 = Ok tt.
Proof.
  unfold _validate_manifest. rewrite (manifest_get "format"%string).
  change (str_is (canon (get "format" manifest0)) FORMAT) with true. cbn [require mbind res_bind].
  rewrite tables_read_back.
  replace (forallb (fun kv => str_mem kv.1 PRESERVED_TABLES) (canon_dict entries)) with true.
  2:{ symmetry. apply forallb_forall. intros [k v] Hin. cbn [fst].
      assert (Hk : k ∈ entries.*1).
      { rewrite <- canon_keys. apply list_elem_of_fmap. exists (k, v). split; [done|]. by apply list_elem_of_In. }
      change (entries.*1) with PRESERVED_TABLES in Hk. unfold str_mem. apply existsb_exists. exists k.
      split; [by apply list_elem_of_In|apply String.eqb_refl]. }
  replace (forallb (fun t => match dict_get t (canon_dict entries) with Some _ => true | None => false end)
             PRESERVED_TABLES) with true.
  2:{ symmetry. apply forallb_forall. intros t Ht%list_elem_of_In.
      rewrite dict_get_canon by apply entries_nodup. by rewrite dict_get_entries. }
  cbn [require mbind res_bind].
  destruct (collect_unit (manifest_entry (canon_dict entries)) PRESERVED_TABLES) as [us ->].
  { intros t Ht. by apply entry_valid. }
  cbn [mbind res_bind]. rewrite auto_read_back, secret_read_back.
  assert (Hhw : high_water_ok (py_option (seq_of "audit_log" source)) = true).
  { destruct Hok as (_ & _ & Ha). apply Forall_cons in Ha as [Ha _].
    destruct (seq_of "audit_log" source); [|done]. simpl. by apply Z.leb_le. }
  cbn [forallb fst snd]. rewrite Hhw.
  destruct Hok as (_ & Hne & _). cbn. destruct secret; [done|]. done.
Qed.

Lemma decode_read_back t : t ∈ PRESERVED_TABLES ->
  decode_table manifest1 t = Ok (List.map (List.map enc) (rows t)).
Proof.
  intros Ht. unfold decode_table. rewrite (proj2 (entry_read_back t Ht)), rows_read_back by done.
  pose proof (preserved_rows_ok t Ht) as Hr. unfold rows_ok in Hr. cbn [items enc_rows].
  induction Hr as [|r rs Hv Hr IH]; [done|]. cbn [List.map collect_res items].
  rewrite (collect_res_map _ id).
  - rewrite IH. cbn [mbind res_bind]. by rewrite List.map_id.
  - intros x Hx. apply list_elem_of_In, in_map_iff in Hx as (v & <- & Hin). apply decode_ok.
    rewrite Forall_forall in Hv. apply Hv. by apply list_elem_of_In.
Qed.
End Manifest.

Lemma require_ok b : require b = Ok tt -> b = true.
Proof. by destruct b. Qed.

Lemma str_is_eq v s : str_is v s = true -> v = VStr s.
Proof. destruct v; try done. simpl. by intros ->%String.eqb_eq. Qed.

Lemma strs_are_eq v l : strs_are v l = true -> v = strs l.
Proof.
  unfold strs_are. destruct v as [| | | | |vs|]; try done. intros [Hl Hf]%andb_true_iff.
  apply Nat.eqb_eq in Hl. unfold strs. f_equal. revert l Hl Hf.
  induction vs as [|v vs IH]; intros [|s l] Hl Hf; try done. simpl in *.
  apply andb_true_iff in Hf as [Hv Hf]. apply str_is_eq in Hv as ->. f_equal. apply IH; [lia|done].
Qed.

(** A canonical text reads back.  Any object of strings, integers, booleans, None,
    representable floats, lists and objects with distinct keys is encoded, and the
    bytes decode to the same object with its keys in order. *)
Theorem canonical_json_roundtrip d : json_ok (VDict d) ->
  exists b, canonical_bytes (VDict d) = Ok b /\ _load_json b = Ok (canon_dict d).
Proof.
  intros Hd. unfold canonical_bytes, dumps. rewrite json_ok_finite by done. eexists. split; [done|].
  unfold _load_json. by rewrite (read_canonical _ Hd).
Qed.

(** Whatever the target holds after a restore that committed is what the manifest
    says, row by row, or two different texts with one SHA-256 have been found. *)
Theorem digest_pins_rows v dir b d t : bundle_at v dir b -> restored b d ->
  t ∈ PRESERVED_TABLES -> rows_ok (rows_by_key t d) ->
  json_ok (get "rows" (entry_of (b_manifest b) t)) -> flat (get "rows" (entry_of (b_manifest b) t)) ->
  get "rows" (entry_of (b_manifest b) t) = enc_rows (rows_by_key t d) \/
  exists x y, x <> y /\ sha256 x = sha256 y.
Proof.
  intros (raw & marker & body & rws & _ & _ & _ & _ & _ & _ & Hval & _) (Htabs & _) Ht Hr Hj Hf.
  rewrite Forall_forall in Htabs. destruct (Htabs t Ht) as (rs & dg & He & Hd & _ & Hs).
  apply encode_rows_enc in He as ->. apply table_digest_ok in Hd as ->.
  assert (Hent : manifest_entry (sub_dict "tables" (b_manifest b)) t = Ok tt).
  { unfold _validate_manifest in Hval. apply res_bind_ok in Hval as ([] & _ & Hval). unfold sub_dict.
    destruct (get "tables" (b_manifest b)) as [| | | | | |ts]; try done.
    apply res_bind_ok in Hval as (_ & _ & Hval). apply res_bind_ok in Hval as (_ & _ & Hval).
    apply res_bind_ok in Hval as (us & Hall & _). revert Ht. clear Htabs. revert us Hall.
    induction PRESERVED_TABLES as [|t' l IH]; intros us Hall Ht; [by apply elem_of_nil in Ht|].
    cbn in Hall. apply res_bind_ok in Hall as ([] & H3 & Hall). apply res_bind_ok in Hall as (us' & Hall & _).
    apply elem_of_cons in Ht as [->|Ht]; [exact H3|]. exact (IH _ Hall Ht). }
  unfold manifest_entry in Hent. unfold entry_of in *. set (tabs := sub_dict "tables" (b_manifest b)) in *.
  unfold sub_dict in Hs, Hj, Hf |- *. destruct (get t tabs) as [| | | | | |entry]; try done.
  apply res_bind_ok in Hent as ([] & Hc & Hent).
  case_match; [|done]. apply res_bind_ok in Hent as ([] & _ & Hent).
  apply res_bind_ok in Hent as (dg & Hdg & Hent).
  apply require_ok in Hc, Hent. apply strs_are_eq in Hc. rewrite Hc in Hdg.
  apply table_digest_ok in Hdg as ->. apply str_is_eq in Hs, Hent.
  apply (digest_inj (_columns t)); [done|done|by apply enc_rows_json..|congruence].
Qed.
End Roundtrip.
