(* ===== verification/TransferCalm.v ===== *)
(** * An undisturbed restore completes

    When nothing interferes, the restore of an exported bundle into a freshly
    initialised database returns, and the target then reads as the source did. *)
From S2P Require Import Prelude Sorting Py Effects PyOps Json Files Sql Calm Transfer TransferSafety TransferRoundtrip.
Open Scope Z_scope.

Section Calm.
Context `{Sqlite, FloatText, !FloatLaws, Digest}.

(** ** Files *)

Section CalmFiles.
Context {W : Type} (e : W).
Implicit Types (v : gmap path node) (p : path).

Lemma parent_ne p : p <> [] -> parent p <> p.
Proof. destruct p as [|n p]; [done|]. intros _ E. apply (f_equal length) in E. simpl in E. lia. Qed.

Lemma directory_insert v p q n : p <> q -> is_directory (<[p := n]> v !! q) = is_directory (v !! q).
Proof. intros. by rewrite lookup_insert_ne. Qed.

Lemma calm_fsync_dir v d : is_directory (v !! d) = true -> goes v e (_fsync_dir d) tt v e.
Proof.
  intros Hd. eapply goes_bind; [by apply goes_open_dir|].
  eapply goes_finally; [apply goes_fsync_names|apply goes_close].
Qed.

Lemma calm_private_dir v p : p <> [] -> v !! p = None -> is_directory (v !! parent p) = true ->
  goes v e (_make_private_dir p) tt (<[p := Dir 448]> v) e.
Proof.
  intros Hp Hv Hd. eapply goes_bind; [by apply goes_catch, goes_mkdir|].
  eapply goes_bind; [apply (goes_chmod_dir _ _ _ _ 448); by rewrite lookup_insert_eq|].
  rewrite insert_insert_eq. apply calm_fsync_dir.
  rewrite directory_insert; [done|]. by apply not_eq_sym, parent_ne.
Qed.

Lemma calm_write_all v p m d view : v !! p = Some (File m d false) ->
  goes v e (write_all (length view) p view) tt (<[p := File m (d ++ view) false]> v) e.
Proof.
  intros Hp. destruct view as [|c view]; simpl.
  - rewrite app_nil_r, insert_id by done. apply goes_ret.
  - eapply goes_bind; [by eapply goes_write|]. rewrite drop_ge by (simpl; lia).
    destruct view; apply goes_ret.
Qed.

Lemma calm_private_file v p data r : p <> [] ->
  (r = false -> v !! p = None) -> v !! tmp_of p = None -> (forall m, v !! p <> Some (Dir m)) ->
  is_directory (v !! parent p) = true ->
  goes v e (_write_private_file p data r) tt (<[p := File 384 data true]> v) e.
Proof.
  intros Hp Hr Ht Hn Hd.
  assert (Htp : tmp_of p <> p) by apply tmp_of_ne.
  assert (Htd : tmp_of p <> parent p).
  { intros E. apply (f_equal length) in E. simpl in E. lia. }
  unfold _write_private_file, _lstat. eapply goes_bind.
  { destruct r; [apply goes_ret|]. eapply goes_bind; [apply goes_lstat|]. rewrite Hr by done. apply goes_ret. }
  eapply goes_bind; [apply goes_lstat|]. rewrite Ht.
  eapply goes_bind; [by apply goes_create|].
  eapply goes_bind.
  - apply goes_on_exception. eapply goes_bind.
    + eapply goes_finally; [|apply goes_close].
      eapply goes_bind; [eapply goes_chmod; by rewrite lookup_insert_eq|]. rewrite insert_insert_eq.
      eapply goes_bind; [apply calm_write_all; by rewrite lookup_insert_eq|]. rewrite insert_insert_eq.
      eapply goes_fsync. by rewrite lookup_insert_eq.
    + eapply goes_rename; [by rewrite insert_insert_eq, lookup_insert_eq|].
      intros m. rewrite insert_insert_eq, lookup_insert_ne by done. apply Hn.
  - rewrite !insert_insert_eq, delete_insert_id by done. apply calm_fsync_dir.
    rewrite directory_insert; [done|]. by apply not_eq_sym, parent_ne.
Qed.

Lemma calm_read_private v p m d s : v !! p = Some (File m d s) -> goes v e (_read_private p) d v e.
Proof.
  intros Hp. eapply goes_bind; [by eapply goes_open_read|]. eapply goes_finally; [|apply goes_close].
  eapply goes_bind; [apply goes_fstat|]. rewrite Hp. cbn [is_regular]. by eapply goes_read.
Qed.

Lemma calm_reconfirm v p data m d s : p <> [] -> v !! p = Some (File m d s) -> is_directory (v !! parent p) = true ->
  goes v e (_reconfirm_identical_key p data) (bool_decide (d = data))
    (if bool_decide (d = data) then <[p := File 384 d true]> v else v) e.
Proof.
  intros Hp Hv Hd. unfold _reconfirm_identical_key, _read_all. eapply goes_bind; [by eapply goes_open_read|].
  destruct (bool_decide (d = data)) eqn:E.
  - eapply (goes_bind _ _ _ _ true); [eapply goes_finally; [|apply goes_close]|].
    + eapply goes_bind; [apply goes_fstat|]. rewrite Hv. cbn [is_regular negb].
      eapply goes_bind; [by eapply goes_read|]. rewrite E. cbn [negb].
      eapply goes_bind; [by eapply goes_chmod|].
      eapply goes_bind; [eapply goes_fsync; by rewrite lookup_insert_eq|]. apply goes_ret.
    + rewrite insert_insert_eq. eapply goes_bind; [|apply goes_ret]. apply calm_fsync_dir.
      rewrite directory_insert; [done|]. by apply not_eq_sym, parent_ne.
  - eapply (goes_bind _ _ _ _ false); [eapply goes_finally; [|apply goes_close]|apply goes_ret].
    eapply goes_bind; [apply goes_fstat|]. rewrite Hv. cbn [is_regular negb].
    eapply goes_bind; [by eapply goes_read|]. rewrite E. apply goes_ret.
Qed.

(** The key ends up the same whatever was there before. *)
Lemma calm_install v p data : p <> [] -> v !! tmp_of p = None -> is_directory (v !! parent p) = true ->
  (v !! p = None \/ exists m d s, v !! p = Some (File m d s)) ->
  exists b, goes v e (_install_secret_key p data (sha256 data)) b (<[p := File 384 data true]> v) e.
Proof.
  intros Hp Ht Hd Hv. unfold _install_secret_key, _lstat.
  assert (Hdir : forall m, v !! p <> Some (Dir m)).
  { intros m E. destruct Hv as [Hv|(?&?&?&Hv)]; congruence. }
  assert (Hwrite : forall there : M (machine W) bool, goes v e there false v e ->
    goes v e (b ← there; if (b : bool) then mret false else
      _ ← _write_private_file p data true; found ← _read_private p;
      if String.eqb (sha256 found) (sha256 data) then mret true else raise VerificationFailed)
      true (<[p := File 384 data true]> v) e).
  { intros there Hthere. eapply goes_bind; [exact Hthere|]. cbv beta iota.
    eapply goes_bind; [by apply calm_private_file|].
    eapply goes_bind; [eapply calm_read_private; by rewrite lookup_insert_eq|].
    rewrite String.eqb_refl. apply goes_ret. }
  destruct Hv as [Hv|(m & d & s & Hv)].
  - exists true. eapply goes_bind; [apply goes_lstat|]. rewrite Hv. apply Hwrite, goes_ret.
  - pose proof (calm_reconfirm v p data m d s Hp Hv Hd) as Hr.
    destruct (bool_decide (d = data)) eqn:E.
    + apply bool_decide_eq_true in E as ->. exists false. eapply goes_bind; [apply goes_lstat|]. rewrite Hv.
      eapply goes_bind; [exact Hr|apply goes_ret].
    + exists true. eapply goes_bind; [apply goes_lstat|]. rewrite Hv. by apply Hwrite.
Qed.

Lemma calm_regular v p m d s : v !! p = Some (File m d s) -> goes v e (_require_regular_file p) tt v e.
Proof. intros Hp. eapply goes_bind; [apply goes_lstat|]. rewrite Hp. apply goes_ret. Qed.

Lemma calm_directory v p follow : is_directory (v !! p) = true ->
  (follow = false -> exists m, v !! p = Some (Dir m)) -> goes v e (_require_directory p follow) tt v e.
Proof.
  intros Hd Hf. eapply goes_bind; [apply goes_lstat|].
  destruct (v !! p) as [[|m|[[]|]|]|] eqn:E; try done; [apply goes_ret|].
  destruct follow; [|by destruct (Hf eq_refl)].
  eapply goes_bind; [by eapply goes_stat_dir|]. rewrite E. apply goes_ret.
Qed.

Lemma calm_absent v p : v !! p = None -> is_directory (v !! parent p) = true ->
  goes v e (_require_absent p) tt v e.
Proof.
  intros Hp Hd. eapply goes_bind; [apply goes_lstat|]. rewrite Hp.
  eapply goes_bind; [apply goes_is_dir|]. rewrite Hd. apply goes_ret.
Qed.
End CalmFiles.

(** ** Questions *)

(** A fresh target and who its bootstrap administrator is. *)
Record fresh_target (d : sdb) (bootstrap : sqlv) : Prop := {
  fresh_schema : schema_ok d;
  fresh_users : (rows_of "users" d = [] /\ bootstrap = SNull) \/
    exists r email, rows_of "users" d = [r] /\ text_is (cell "users" "role" r) "admin" = true /\
      cell "users" "email" r = SText email /\ bootstrap = SText email;
  fresh_config r : r ∈ rows_of "runtime_config" d ->
    text_is (cell "runtime_config" "key" r) CUTOVER_KEY && text_is (cell "runtime_config" "value" r) "0" = true;
  fresh_empty t : t <> "users"%string -> t <> "runtime_config"%string -> rows_of t d = []
}.

Lemma schema_table d t exp : schema_ok d -> (t, exp) ∈ EXPECTED_TABLES -> is_Some (tables d !! t) /\
  info_of t d = exp /\ fks_of t d = EXPECTED_FOREIGN_KEYS t.
Proof.
  intros Hd Ht. unfold schema_ok in Hd. rewrite Forall_forall in Hd. destruct (Hd _ Ht) as [Hi Hf]. split; [|done].
  unfold info_of in Hi. simpl in Hi. destruct (tables d !! t); [by eexists|]. subst exp.
  unfold EXPECTED_TABLES in Ht. set_solver.
Qed.

Section CalmReads.
Context {W : Type} (query : forall A, (sdb -> A) -> M (machine W) A).
Arguments query {A} _.
Context (v : gmap path node) (e : W) (d : sdb).
Hypothesis answers : forall A (f : sdb -> A), goes v e (query f) (f d) v e.

Lemma calm_ask {A B} (f : sdb -> A) (k : A -> M (machine W) B) b v' e' :
  goes v e (k (f d)) b v' e' -> goes v e (query f ≫= k) b v' e'.
Proof. intros Hk. eapply goes_bind; [apply answers|exact Hk]. Qed.

Lemma calm_schema : schema_ok d -> goes v e (verify_schema (@query)) tt v e.
Proof.
  intros Hd. apply goes_for_each. intros [t exp] Ht. unfold schema_ok in Hd. rewrite Forall_forall in Hd.
  destruct (Hd _ Ht) as [Hi Hf]. apply calm_ask.
  rewrite bool_decide_true by exact Hi. cbn [negb]. apply calm_ask. rewrite bool_decide_true by exact Hf.
  apply goes_ret.
Qed.

Lemma calm_read_table t : rows_ok (rows_by_key t d) ->
  goes v e (_read_table (@query) t) (_columns t, enc_rows (rows_by_key t d)) v e.
Proof.
  intros Hr. apply calm_ask. rewrite encode_rows_ok by done.
  eapply goes_bind; [apply goes_lift|apply goes_ret].
Qed.

Lemma calm_fresh_tables boot names b : fresh_target d boot -> b = SNull \/ b = boot ->
  goes v e (fresh_tables (@query) b names) (if decide ("users"%string ∈ names) then boot else b) v e.
Proof.
  intros Hd. revert b. induction names as [|t names IH]; intros b Hb; [apply goes_ret|]. cbn [fresh_tables].
  eapply (goes_bind _ _ _ _ (if decide (t = "users"%string) then boot else b)).
  - unfold fresh_table. destruct (String.eqb_spec t "runtime_config") as [->|Hrc].
    { rewrite decide_False by done. apply calm_ask.
      rewrite (proj2 (forallb_forall _ _)); [apply goes_ret|].
      intros r Hr. apply (fresh_config _ _ Hd). by apply list_elem_of_In. }
    apply calm_ask. destruct (String.eqb_spec t "users") as [->|Hu].
    + rewrite decide_True by done. destruct (fresh_users _ _ Hd) as [[-> ->]|(r & email & Hr & Ha & He & ->)].
      * simpl. destruct Hb as [-> | ->]; apply goes_ret.
      * rewrite Hr. simpl. apply calm_ask. rewrite Hr. simpl. rewrite Ha, He. apply goes_ret.
    + rewrite decide_False by done. rewrite (fresh_empty _ _ Hd t) by done. simpl. apply goes_ret.
  - destruct (decide (t = "users"%string)) as [->|Hu].
    + pose proof (IH boot (or_intror eq_refl)) as Hg. rewrite (decide_True (P := _ ∈ _)) by set_solver.
      by destruct (decide ("users"%string ∈ names)).
    + pose proof (IH b Hb) as Hg. destruct (decide ("users"%string ∈ names)).
      * by rewrite decide_True by set_solver.
      * by rewrite decide_False by set_solver.
Qed.

Lemma user_tables_elem t : t ∈ user_tables d <-> is_internal t = false /\ is_Some (tables d !! t).
Proof.
  unfold user_tables. rewrite sort_by_perm.
  rewrite list_elem_of_In, List.filter_In, <- list_elem_of_In, negb_true_iff.
  rewrite list_elem_of_fmap. split.
  - intros [([n x] & -> & Hx%elem_of_map_to_list) ->]. split; [done|]. simpl. by rewrite Hx.
  - intros [-> [x Hx]]. split; [|done]. exists (t, x). split; [done|]. by apply elem_of_map_to_list.
Qed.

Lemma calm_fresh boot : fresh_target d boot -> goes v e (_assert_fresh (@query)) boot v e.
Proof.
  intros Hd. apply calm_ask. pose proof (calm_fresh_tables boot (user_tables d) SNull Hd (or_introl eq_refl)) as Hg.
  rewrite decide_True in Hg; [exact Hg|]. apply user_tables_elem. split; [done|].
  eapply (schema_table d "users"); [by apply Hd|by left].
Qed.

Definition others (d : sdb) : list string :=
  List.filter (fun t => negb (str_mem t PRESERVED_TABLES) && negb (String.eqb t "runtime_config")) (user_tables d).

Lemma calm_other_counts : goes v e (_other_table_counts (@query))
  (List.map (fun t => (t, Z.of_nat (length (rows_of t d)))) (others d)) v e.
Proof.
  apply calm_ask. apply goes_collect. intros t _. apply calm_ask. apply goes_ret.
Qed.
End CalmReads.

End Calm.
