(* ===== verification/TransferComplete.v ===== *)
(** * The rows of a bundle go into a fresh database

    INSERT succeeds for the rows of a database that SQLite itself let grow, so an
    undisturbed restore commits, and the target then reads as the source did. *)
From S2P Require Import Prelude Sorting Py Effects PyOps Json Files Sql Calm Transfer TransferSafety TransferRoundtrip TransferCalm.
Open Scope Z_scope.

Section Complete.
Context `{Sqlite, FloatText, !FloatLaws, Digest}.

(** ** What SQLite guarantees of a stored table *)

(** Two rows that the primary key does not let stand together. *)
Definition clash (info : list col) (r r' : row) : bool :=
  negb (existsb (fun v => (sql_class v =? 0)%nat) (key_of info r)) && negb (length (key_of info r) =? 0)%nat &&
  keys_eqb (key_of info r) (key_of info r').

Definition distinct (info : list col) (rs : list row) : Prop :=
  forall i j r r', i <> j -> rs !! i = Some r -> rs !! j = Some r' -> clash info r r' = false.

Definition rowid_given (info : list col) (r : row) : Prop :=
  match rowid_alias info with None => True | Some pk => exists z, column_value info pk r = SInt z end.

Record storable (info : list col) (r : row) : Prop := {
  st_affine : Forall2 (fun c x => affine (c_type c) x = x) info r;
  st_values : Forall value_ok r;
  st_notnull : not_null_ok info r = true;
  st_rowid : rowid_given info r
}.

Record sound_table (d : sdb) (t : string) : Prop := {
  sound_rows : Forall (storable (info_of t d)) (rows_of t d);
  sound_keys : distinct (info_of t d) (rows_of t d);
  sound_fks : Forall (fun r => Forall (fun f => fk_holds d (info_of t d) r f = true) (fks_of t d)) (rows_of t d)
}.

Lemma distinct_perm info rs rs' : rs ≡ₚ rs' -> distinct info rs -> distinct info rs'.
Proof.
  intros (Hl & f & Hf & Hi)%Permutation_inj Hd i j r r' Hij Hr Hr'.
  assert (Hsym : rs' ≡ₚ rs) by (symmetry; apply Permutation_inj; eauto).
  apply Permutation_inj in Hsym as (_ & g & Hg & Hj).
  rewrite Hj in Hr, Hr'. eapply Hd; [|exact Hr|exact Hr']. intros E. by apply Hij, Hg.
Qed.

(** ** One INSERT *)

Lemma affinity_id info (r : row) : Forall2 (fun c x => affine (c_type c) x = x) info r -> apply_affinity info r = r.
Proof. induction 1 as [|c x info r Hx Hr IH]; simpl; congruence. Qed.

Lemma rowid_settled t d tb r : rowid_given (t_info tb) r -> exists z, settle_rowid t d tb r = Some (r, z).
Proof.
  unfold rowid_given, settle_rowid. destruct (rowid_alias (t_info tb)) as [pk|]; [|by eexists].
  intros [z ->]. by eexists.
Qed.

Lemma key_free_ok tb r : (forall r', r' ∈ t_rows tb -> clash (t_info tb) r r' = false) -> key_free tb r = true.
Proof.
  intros Hc. unfold key_free. apply orb_true_iff.
  destruct (existsb _ (key_of _ r)) eqn:E1; [by left|].
  destruct (length (key_of (t_info tb) r) =? 0)%nat eqn:E2; [by left|right].
  apply negb_true_iff, not_true_iff_false. intros (r' & Hin & Hr')%existsb_exists.
  specialize (Hc r' (proj2 (list_elem_of_In _ _) Hin)). unfold clash in Hc. by rewrite E1, E2, Hr' in Hc.
Qed.

(** What later statements see of a database. *)
Definition with_table (t : string) (tb : table) (d d' : sdb) : Prop :=
  tables d' = <[t := tb]> (tables d) /\ (is_Some (sqlite_sequence d) -> is_Some (sqlite_sequence d')).

Lemma insert_row_ok d t tb r : tables d !! t = Some tb -> storable (t_info tb) r ->
  (forall r', r' ∈ t_rows tb -> clash (t_info tb) r r' = false) ->
  Forall (fun f => fk_holds d (t_info tb) r f = true) (t_fks tb) ->
  exists d', insert_row t r d = Ok d' /\ with_table t (with_rows tb (t_rows tb ++ [r])) d d'.
Proof.
  intros Ht Hs Hk Hf. unfold insert_row. rewrite Ht. rewrite affinity_id by apply Hs.
  destruct (rowid_settled t d tb r (st_rowid _ _ Hs)) as [z ->].
  rewrite (st_notnull _ _ Hs), key_free_ok by done.
  rewrite (proj2 (forallb_forall _ _)).
  - cbn [negb orb]. eexists. split; [done|].
    destruct z as [z|]; [|done]. destruct (t_auto tb); [|done]. split; [done|]. simpl.
    intros [m ->]. by eexists.
  - intros f Hin. rewrite Forall_forall in Hf. apply Hf. by apply list_elem_of_In.
Qed.

Lemma fk_holds_elsewhere d d' t tb info r f : with_table t tb d d' -> fk_table f <> t ->
  fk_holds d' info r f = fk_holds d info r f.
Proof. intros [E _] Hf. unfold fk_holds. by rewrite E, lookup_insert_ne. Qed.

(** ** The rows of one table *)

Lemma bind_row r : Forall value_ok r -> collect_res bind_param (List.map enc r) = Ok r.
Proof.
  induction 1 as [|x r Hx Hr IH]; [done|]. cbn [List.map collect_res]. rewrite bind_ok_value by done.
  cbn [mbind res_bind]. by rewrite IH.
Qed.

Lemma calm_insert_rows v t0 t rs d tb : tables d !! t = Some tb -> Forall (storable (t_info tb)) rs ->
  distinct (t_info tb) (t_rows tb ++ rs) ->
  Forall (fun f => fk_table f <> t) (t_fks tb) ->
  Forall (fun r => Forall (fun f => fk_holds d (t_info tb) r f = true) (t_fks tb)) rs ->
  exists d', goes v (Store t0 (Some d)) (for_each (insert_params t) (List.map (List.map enc) rs)) tt v (Store t0 (Some d')) /\
    with_table t (with_rows tb (t_rows tb ++ rs)) d d'.
Proof.
  revert d tb. induction rs as [|r rs IH]; intros d tb Ht Hs Hd Hne Hf.
  - exists d. split; [apply goes_ret|]. rewrite app_nil_r. split; [|done]. rewrite insert_id; [done|].
    by destruct tb.
  - apply Forall_cons in Hs as [Hs Hss]. apply Forall_cons in Hf as [Hf Hfs].
    destruct (insert_row_ok d t tb r) as (d1 & E1 & Hd1); [done..| |done|].
    { intros r' (i & Hi)%list_elem_of_lookup. apply (Hd (length (t_rows tb)) i).
      - apply lookup_lt_Some in Hi. lia.
      - by rewrite lookup_app_r, Nat.sub_diag by lia.
      - by apply lookup_app_l_Some. }
    destruct (IH d1 (with_rows tb (t_rows tb ++ [r]))) as (d2 & G2 & Hd2); [|done| |done| |].
    + destruct Hd1 as [-> _]. apply lookup_insert_eq.
    + cbn [t_rows t_info with_rows]. by rewrite <- app_assoc.
    + cbn [t_fks t_info with_rows]. eapply Forall_impl; [exact Hfs|]. intros r' Hr'.
      rewrite Forall_forall in *. intros f Hin. rewrite (fk_holds_elsewhere _ _ _ _ _ _ _ Hd1); [|by apply Hne].
      by apply Hr'.
    + exists d2. cbn [List.map for_each]. split.
      * eapply goes_bind; [|exact G2]. unfold insert_params. rewrite bind_row by apply Hs.
        eapply goes_bind; [apply goes_lift|]. by apply goes_sql_write.
      * destruct Hd1 as [E3 S1], Hd2 as [E4 S2]. split; [|by auto].
        rewrite E4, E3, insert_insert_eq. cbn [t_rows with_rows]. by rewrite <- app_assoc.
Qed.

(** ** The bootstrap administrator goes *)

Lemma cascade_keeps (keep : fkey -> table -> row -> bool) (sel : fkey -> bool) fs tb :
  let tb' := fold_left (fun t f => if sel f then with_rows t (List.filter (keep f t) (t_rows t)) else t) fs tb in
  t_info tb' = t_info tb /\ t_fks tb' = t_fks tb /\ (t_rows tb = [] -> t_rows tb' = []).
Proof.
  revert tb. induction fs as [|f fs IH]; intros tb; [done|]. simpl.
  destruct (sel f); [|apply IH]. destruct (IH (with_rows tb (List.filter (keep f tb) (t_rows tb)))) as (Hi & Hf & Hr).
  split_and!; [done|done|]. intros E. apply Hr. simpl. by rewrite E.
Qed.

Lemma delete_where_table name c x d t tb : tables d !! t = Some tb ->
  exists tb', tables (delete_where name c x d) !! t = Some tb' /\
    t_info tb' = t_info tb /\ t_fks tb' = t_fks tb /\ (t_rows tb = [] -> t_rows tb' = []) /\
    (t_fks tb = [] -> t <> name -> t_rows tb' = t_rows tb) /\
    (t_fks tb = [] -> t = name -> t_rows tb' = List.filter (fun r =>
       negb (negb (sql_class x =? 0)%nat && sql_eqb (column_value (t_info tb) c r) x)) (t_rows tb)).
Proof.
  intros Ht. unfold delete_where. cbn [tables].
  set (gone := fun info c r => negb (sql_class x =? 0)%nat && sql_eqb (column_value info c r) x).
  set (sel := fun f : fkey => String.eqb (fk_table f) name && String.eqb (fk_to f) c && String.eqb (fk_delete f) "CASCADE").
  set (cascade := fun t : table => fold_left (fun t f => if sel f
    then with_rows t (List.filter (fun r => negb (gone (t_info t) (fk_from f) r)) (t_rows t)) else t) (t_fks t) t).
  change (fun t1 : table => fold_left _ (t_fks t1) t1) with cascade.
  assert (Hc : t_info (cascade tb) = t_info tb /\ t_fks (cascade tb) = t_fks tb /\ (t_rows tb = [] -> t_rows (cascade tb) = []))
    by apply (cascade_keeps (fun f t r => negb (gone (t_info t) (fk_from f) r)) sel).
  assert (Hn : t_fks tb = [] -> cascade tb = tb) by (intros E; unfold cascade; by rewrite E).
  destruct Hc as (Hi & Hf & Hr).
  destruct (decide (t = name)) as [->|Hne].
  - rewrite lookup_fmap, Ht. cbn [fmap option_fmap option_map put_table tables].
    eexists. split; [apply lookup_insert_eq|]. cbn [t_info t_fks t_rows with_rows].
    split_and!; [done|done| |done|].
    + intros E. by rewrite Hr.
    + intros E _. by rewrite Hn.
  - destruct (_ !! name) as [n|]; cbn [put_table tables].
    + rewrite lookup_insert_ne, lookup_fmap, Ht by done. exists (cascade tb). split_and!; try done.
      intros E _. by rewrite Hn.
    + rewrite lookup_fmap, Ht. exists (cascade tb). split_and!; try done. intros E _. by rewrite Hn.
Qed.

Lemma delete_where_absent name c x d t : tables d !! t = None -> tables (delete_where name c x d) !! t = None.
Proof.
  intros Ht. unfold delete_where. cbn [tables].
  destruct (_ !! name) as [n|] eqn:E; cbn [put_table tables].
  - destruct (decide (t = name)) as [->|Hne].
    + by rewrite lookup_fmap, Ht in E.
    + by rewrite lookup_insert_ne, lookup_fmap, Ht by done.
  - by rewrite lookup_fmap, Ht.
Qed.

Lemma delete_where_sequence name c x d : sqlite_sequence (delete_where name c x d) = sqlite_sequence d.
Proof. unfold delete_where. cbn [tables]. by destruct (_ !! name). Qed.

(** ** All the tables *)

Lemma rows_of_some t d tb : tables d !! t = Some tb -> rows_of t d = t_rows tb /\ info_of t d = t_info tb /\ fks_of t d = t_fks tb.
Proof. intros Ht. unfold rows_of, info_of, fks_of. by rewrite Ht. Qed.

Lemma rows_by_key_perm t d : rows_by_key t d ≡ₚ rows_of t d.
Proof.
  unfold rows_by_key, rows_of. destruct (tables d !! t); [|done]. apply sort_by_perm.
Qed.

Lemma fk_holds_moved d d' info r f : is_Some (tables d' !! fk_table f) ->
  info_of (fk_table f) d' = info_of (fk_table f) d ->
  (forall x, x ∈ rows_of (fk_table f) d -> x ∈ rows_of (fk_table f) d') ->
  fk_holds d info r f = true -> fk_holds d' info r f = true.
Proof.
  unfold fk_holds, info_of, rows_of. intros [p' Hp'] Hi Hr. rewrite Hp' in *.
  destruct (sql_class _ =? 0)%nat; [done|]. simpl. destruct (tables d !! fk_table f) as [p|]; [|done].
  intros (x & Hx & E)%existsb_exists. apply existsb_exists. exists x. split; [|congruence].
  by apply list_elem_of_In, Hr, list_elem_of_In.
Qed.

Lemma expected_fks t f : f ∈ EXPECTED_FOREIGN_KEYS t -> t = "user_host_accounts"%string /\ fk_table f = "users"%string.
Proof.
  unfold EXPECTED_FOREIGN_KEYS. destruct (String.eqb_spec t "user_host_accounts"); [|set_solver].
  intros ->%list_elem_of_singleton. done.
Qed.

Lemma preserved_expected t : t ∈ PRESERVED_TABLES -> (t, expected_info t) ∈ EXPECTED_TABLES.
Proof. unfold PRESERVED_TABLES, EXPECTED_TABLES. intros Ht. repeat (apply elem_of_cons in Ht as [->|Ht]; [cbn; set_solver|]). by apply elem_of_nil in Ht. Qed.

Section Loading.
Context (source t0 : sdb).
Hypothesis Hsource : schema_ok source.
Hypothesis Hsound : forall t, t ∈ PRESERVED_TABLES -> sound_table source t.

(** The tables of [L] hold the source's rows; the others what a fresh target holds. *)
Record loaded (L : list string) (d : sdb) : Prop := {
  loaded_schema : schema_ok d;
  loaded_rows t : rows_of t d = if decide (t ∈ L) then rows_by_key t source
    else if decide (t = "runtime_config"%string) then rows_of t t0 else [];
  loaded_sequence : is_Some (sqlite_sequence d)
}.

Lemma loaded_with_table L t tb d d' : loaded L d -> tables d !! t = Some tb ->
  t ∉ L -> t <> "runtime_config"%string -> with_table t (with_rows tb (t_rows tb ++ rows_by_key t source)) d d' -> loaded (L ++ [t]) d'.
Proof.
  intros [Hs Hr Hq] Ht HL Hrc [Hd' Hq']. split; [| |by auto].
  - unfold schema_ok in *. eapply Forall_impl; [exact Hs|]. intros [n exp]. simpl. unfold info_of, fks_of.
    rewrite Hd'. destruct (decide (n = t)) as [->|Hn].
    + by rewrite lookup_insert_eq, Ht.
    + by rewrite lookup_insert_ne.
  - intros n. unfold rows_of at 1. rewrite Hd'. destruct (decide (n = t)) as [->|Hn].
    + rewrite lookup_insert_eq. cbn [t_rows with_rows].
      rewrite (decide_True (P := _ ∈ _)) by set_solver.
      pose proof (Hr t) as Hrt. rewrite decide_False, decide_False in Hrt by done.
      unfold rows_of in Hrt. rewrite Ht in Hrt. by rewrite Hrt.
    + rewrite lookup_insert_ne by done. change (rows_of n d = if decide (n ∈ L ++ [t]) then rows_by_key n source
        else if decide (n = "runtime_config"%string) then rows_of n t0 else []). rewrite Hr.
      destruct (decide (n ∈ L)); [rewrite decide_True by set_solver|rewrite (decide_False (P := n ∈ _ ++ _)) by set_solver]; done.
Qed.

Lemma calm_apply_table v t L d dec : t ∈ PRESERVED_TABLES -> t ∉ L ->
  (t = "user_host_accounts"%string -> "users"%string ∈ L) -> loaded L d ->
  dec t = List.map (List.map enc) (rows_by_key t source) ->
  exists d', goes v (Store t0 (Some d)) (apply_table dec t) tt v (Store t0 (Some d')) /\ loaded (L ++ [t]) d'.
Proof.
  intros Ht HL Hu Hl Hdec. destruct (schema_table d t _ (loaded_schema _ _ Hl) (preserved_expected t Ht)) as ([tb Htb] & Hi & Hf).
  destruct (rows_of_some _ _ _ Htb) as (Er & Ei & Ef).
  destruct (schema_table source t _ Hsource (preserved_expected t Ht)) as (_ & Hi' & Hf').
  assert (Hrc : t <> "runtime_config"%string) by (intros ->; unfold PRESERVED_TABLES in Ht; set_solver).
  assert (Hemp : t_rows tb = []) by (rewrite <- Er, (loaded_rows _ _ Hl); by rewrite !decide_False).
  destruct (Hsound t Ht) as [Hrows Hkeys Hfks].
  assert (Htbi : info_of t source = t_info tb) by congruence.
  assert (Htbf : fks_of t source = t_fks tb) by congruence.
  rewrite Htbi in Hrows, Hkeys, Hfks. rewrite Htbf in Hfks.
  destruct (calm_insert_rows v t0 t (rows_by_key t source) d tb) as (d' & G & Hd').
  - done.
  - by rewrite rows_by_key_perm.
  - rewrite Hemp. eapply distinct_perm; [|exact Hkeys]. symmetry. apply rows_by_key_perm.
  - rewrite Forall_forall. intros f Hin. rewrite <- Ef, Hf in Hin. by destruct (expected_fks _ _ Hin) as [-> ->].
  - rewrite rows_by_key_perm. rewrite Forall_forall in Hfks |- *. intros r Hr. specialize (Hfks r Hr).
    rewrite Forall_forall in Hfks |- *. intros f Hin. specialize (Hfks f Hin). rewrite <- Ef, Hf in Hin.
    destruct (expected_fks _ _ Hin) as [Htu Hp]. specialize (Hu Htu).
    assert (Hus : ("users"%string, expected_info "users") ∈ EXPECTED_TABLES) by by left.
    destruct (schema_table d _ _ (loaded_schema _ _ Hl) Hus) as (Hpd & Hpi & _).
    destruct (schema_table source _ _ Hsource Hus) as (_ & Hps & _).
    eapply fk_holds_moved; [..|exact Hfks]; rewrite Hp; [done|congruence|].
    intros x Hx. rewrite (loaded_rows _ _ Hl), decide_True by done. by rewrite rows_by_key_perm.
  - exists d'. split; [|by eapply loaded_with_table].
    unfold apply_table. rewrite Hdec. by apply goes_catch.
Qed.

Lemma calm_load v dec d : loaded [] d ->
  (forall t, t ∈ PRESERVED_TABLES -> dec t = List.map (List.map enc) (rows_by_key t source)) ->
  exists d', goes v (Store t0 (Some d)) (for_each (apply_table dec) PRESERVED_TABLES) tt v (Store t0 (Some d')) /\
    loaded PRESERVED_TABLES d'.
Proof.
  intros Hl Hdec. enough (Hg : forall rest pre d, PRESERVED_TABLES = pre ++ rest -> loaded pre d ->
    exists d', goes v (Store t0 (Some d)) (for_each (apply_table dec) rest) tt v (Store t0 (Some d')) /\
      loaded PRESERVED_TABLES d') by by apply (Hg PRESERVED_TABLES []).
  clear d Hl. induction rest as [|t rest IH]; intros pre d Hp Hl.
  - exists d. split; [apply goes_ret|]. by rewrite Hp, app_nil_r.
  - assert (Hnd : NoDup PRESERVED_TABLES) by (repeat constructor; set_solver).
    destruct (calm_apply_table v t pre d dec) as (d1 & G1 & Hl1); [rewrite Hp; set_solver| | |done| |].
    + rewrite Hp in Hnd. apply NoDup_app in Hnd as (_ & Hnd & _). intros Hin. apply (Hnd t Hin). by left.
    + intros ->. unfold PRESERVED_TABLES in Hp. destruct pre as [|u pre]; [discriminate|]. injection Hp as <- _. by left.
    + apply Hdec. rewrite Hp. set_solver.
    + destruct (IH (pre ++ [t]) d1) as (d2 & G2 & Hl2); [by rewrite <- app_assoc|done|].
      exists d2. split; [|done]. eapply goes_bind; [exact G1|exact G2].
Qed.

Lemma sql_eqb_text x : sql_eqb (SText x) (SText x) = true.
Proof. unfold sql_eqb. destruct (sql_leb_total (SText x) (SText x)) as [-> | ->]; done. Qed.

Lemma calm_delete v boot : fresh_target t0 boot -> is_Some (sqlite_sequence t0) ->
  exists d, goes v (Store t0 (Some t0)) (match boot with
      | SNull => mret tt
      | email => sql_write (fun d => Ok (delete_where "users" "email" email d)) end) tt v (Store t0 (Some d)) /\ loaded [] d.
Proof.
  intros Hf Hq. assert (Hr0 : forall t, t <> "users"%string -> rows_of t t0 = if decide (t = "runtime_config"%string) then rows_of t t0 else []).
  { intros t Hu. case_decide; [done|]. by apply (fresh_empty _ _ Hf). }
  destruct (fresh_users _ _ Hf) as [[Hu ->]|(r & email & Hu & _ & He & ->)].
  - exists t0. split; [apply goes_ret|]. split; [by apply Hf| |done]. intros t. rewrite decide_False by set_solver.
    destruct (decide (t = "users"%string)) as [->|Hne]; [by rewrite decide_False|by apply Hr0].
  - exists (delete_where "users" "email" (SText email) t0). split; [by apply goes_sql_write|].
    set (d := delete_where _ _ _ _).
    assert (Hd : forall t tb, tables t0 !! t = Some tb -> exists tb', tables d !! t = Some tb' /\ t_info tb' = t_info tb /\
      t_fks tb' = t_fks tb /\ t_rows tb' = if decide (t = "runtime_config"%string) then t_rows tb else []).
    { intros t tb Ht. destruct (delete_where_table "users" "email" (SText email) t0 t tb Ht) as (tb' & Ht' & Hi & Hk & He' & Hc & Hn).
      exists tb'. split_and!; [done..|]. destruct (rows_of_some _ _ _ Ht) as (Er & Ei & Ef).
      destruct (decide (t = "users"%string)) as [->|Hne].
      - rewrite decide_False by done.
        destruct (schema_table t0 "users" (expected_info "users")) as (_ & Hi0 & Hf0); [by apply Hf|by left|].
        rewrite Hn by (by rewrite <- ?Ef, ?Hf0). rewrite <- Er, Hu, <- Ei, Hi0. cbn [List.filter].
        unfold cell in He. by rewrite He, sql_eqb_text.
      - case_decide as Hrc; [subst t|].
        + destruct (schema_table t0 "runtime_config" (expected_info "runtime_config")) as (_ & _ & Hf0);
            [by apply Hf|unfold EXPECTED_TABLES; cbn; set_solver|].
          apply Hc; [by rewrite <- Ef|done].
        + apply He'. by rewrite <- Er, (fresh_empty _ _ Hf). }
    split.
    + unfold schema_ok. pose proof (fresh_schema _ _ Hf) as Hs. unfold schema_ok in Hs. rewrite Forall_forall in Hs |- *.
      intros [t exp] Ht. destruct (Hs _ Ht) as [Hi Hk]. cbn [fst snd] in *.
      destruct (schema_table t0 t exp) as ([tb Htb] & _); [by apply Hf|done|].
      destruct (Hd t tb Htb) as (tb' & Htb' & Hi' & Hk' & _).
      destruct (rows_of_some _ _ _ Htb) as (_ & Ei & Ef), (rows_of_some _ _ _ Htb') as (_ & Ei' & Ef'). split; congruence.
    + intros t. rewrite decide_False by set_solver. destruct (tables t0 !! t) as [tb|] eqn:Ht.
      * destruct (Hd t tb Ht) as (tb' & Ht' & _ & _ & Hr'). destruct (rows_of_some _ _ _ Ht) as (-> & _).
        by destruct (rows_of_some _ _ _ Ht') as (-> & _).
      * unfold rows_of at 1. subst d. rewrite delete_where_absent by done. case_decide; [|done].
        unfold rows_of. by rewrite Ht.
    + subst d. by rewrite delete_where_sequence.
Qed.

(** ** The high-water mark *)

Lemma column_value_elem info c (r : row) : column_value info c r = SNull \/ column_value info c r ∈ r.
Proof.
  revert r. induction info as [|k info IH]; intros [|x r]; simpl; auto.
  destruct (String.eqb _ _); [right; by left|]. destruct (IH r); [by left|right; by right].
Qed.

Lemma max_of_bound (P : Z -> Prop) l : (forall a b, P a -> P b -> P (Z.max a b)) -> P 0 -> Forall P l -> P (default 0 (max_of l)).
Proof.
  intros Hm H3 Hl. destruct Hl as [|z l Hz Hl]; [done|]. simpl. revert z Hz.
  induction Hl as [|y l Hy Hl IH]; intros z Hz; simpl; [done|]. apply IH. by apply Hm.
Qed.

Lemma max_rowid_int64 tb pk : rows_ok (t_rows tb) -> int64 (default 0 (max_rowid tb pk)).
Proof.
  intros Hr. unfold max_rowid. apply max_of_bound; [unfold int64; lia|unfold int64; lia|].
  rewrite Forall_forall. intros z (r & Hin & Hz)%list_elem_of_omap. unfold rows_ok in Hr. rewrite Forall_forall in Hr.
  specialize (Hr r Hin). rewrite Forall_forall in Hr.
  destruct (column_value_elem (t_info tb) pk r) as [E|E]; [by rewrite E in Hz|].
  specialize (Hr _ E). destruct (column_value (t_info tb) pk r); simplify_eq/=. done.
Qed.

Definition high_water_kept (from to : option Z) : Prop :=
  forall z, from = Some z -> exists high, to = Some high /\ z <= high.

Lemma loaded_values d t : loaded PRESERVED_TABLES d -> t ∈ PRESERVED_TABLES -> rows_ok (rows_by_key t source) /\ rows_of t d = rows_by_key t source.
Proof.
  intros Hl Ht. rewrite (loaded_rows _ _ Hl), decide_True by done. split; [|done].
  unfold rows_ok. rewrite rows_by_key_perm. destruct (Hsound t Ht) as [Hr _ _].
  eapply Forall_impl; [exact Hr|]. by intros r [].
Qed.

Lemma calm_high_water v d wanted : loaded PRESERVED_TABLES d ->
  get "audit_log" wanted = py_option (seq_of "audit_log" source) ->
  (forall z, seq_of "audit_log" source = Some z -> int64 z) ->
  exists d' high, goes v (Store t0 (Some d)) (_apply_autoincrement wanted) [("audit_log"%string, high)] v (Store t0 (Some d')) /\
    tables d' = tables d /\ is_Some (sqlite_sequence d') /\ seq_of "audit_log" d' = high /\ high_water_kept (seq_of "audit_log" source) high.
Proof.
  intros Hl Hw Hz. unfold _apply_autoincrement, AUTOINCREMENT_TABLES. cbn [collect].
  enough (Hg : exists d' high, goes v (Store t0 (Some d)) (apply_high_water wanted "audit_log") ("audit_log"%string, high) v (Store t0 (Some d')) /\
    tables d' = tables d /\ is_Some (sqlite_sequence d') /\ seq_of "audit_log" d' = high /\ high_water_kept (seq_of "audit_log" source) high).
  { destruct Hg as (d' & high & G & Hg). exists d', high. split; [|done].
    eapply goes_bind; [exact G|]. eapply goes_bind; apply goes_ret. }
  unfold apply_high_water. rewrite Hw.
  destruct (loaded_values d "audit_log" Hl) as [Hok Hrows]; [unfold PRESERVED_TABLES; set_solver|].
  destruct (schema_table d "audit_log" (expected_info "audit_log") (loaded_schema _ _ Hl)) as ([tb Htb] & _);
    [apply preserved_expected; unfold PRESERVED_TABLES; set_solver|].
  destruct (rows_of_some _ _ _ Htb) as (Er & _ & _). rewrite Er in Hrows. rewrite <- Hrows in Hok.
  pose proof (max_rowid_int64 tb (_integer_pk "audit_log") Hok) as Hmax.
  destruct (seq_of "audit_log" source) as [z|] eqn:Es.
  - specialize (Hz z eq_refl). destruct (loaded_sequence _ _ Hl) as [m Hm].
    set (high := Z.max z (default 0 (max_rowid tb (_integer_pk "audit_log")))).
    assert (Hhigh : int64 high) by (unfold int64, high in *; lia).
    exists (Sdb (tables d) (Some (<["audit_log"%string := Some high]> (delete "audit_log"%string m)))), (Some high).
    split; [|split_and!; [done|by eexists|unfold seq_of; cbn; by rewrite lookup_insert_eq|]].
    + eapply goes_bind; [apply goes_sql_ask|]. rewrite Htb. cbn [py_option].
      eapply goes_bind; [apply (goes_sql_write _ _ _ _ (Sdb (tables d) (Some (delete "audit_log"%string m)))); unfold delete_sequence; by rewrite Hm|].
      fold high. change (VInt high) with (enc (SInt high)). rewrite bind_ok_value by exact Hhigh.
      eapply goes_bind; [apply goes_lift|]. eapply goes_bind; [|apply goes_ret].
      by apply goes_sql_write.
    + intros z' [= <-]. exists high. split; [done|]. unfold high. lia.
  - exists d, (seq_of "audit_log" d). split; [|split_and!; [done|apply Hl|done|done]].
    eapply goes_bind; [apply goes_sql_ask|]. cbn [py_option].
    eapply goes_bind; [apply goes_sql_ask|apply goes_ret].
Qed.

(** ** What was restored passes its proof *)

Lemma no_violations d : (forall t tb r f, tables d !! t = Some tb -> r ∈ t_rows tb -> f ∈ t_fks tb ->
  fk_holds d (t_info tb) r f = true) -> violations d = 0%nat.
Proof.
  intros Hf. unfold violations.
  assert (Hz : forall {A} (g : A -> nat) l, (forall x, x ∈ l -> g x = 0%nat) -> sum_list_with g l = 0%nat).
  { intros A g l Hg. induction l as [|x l IH]; [done|]. simpl. rewrite Hg by by left. apply IH. intros y Hy. apply Hg. by right. }
  apply Hz. intros [t tb] Ht%elem_of_map_to_list. apply Hz. intros r Hr. apply length_zero_iff_nil.
  match goal with |- ?fs = [] => destruct fs as [|f l] eqn:E end; [done|].
  assert (Hin : In f (f :: l)) by by left. rewrite <- E in Hin. apply List.filter_In in Hin as [Hin Hn].
  cbn in Hn. rewrite (Hf t tb r f Ht Hr) in Hn by by apply list_elem_of_In. done.
Qed.

Lemma loaded_no_violations d : loaded PRESERVED_TABLES d -> violations d = 0%nat.
Proof.
  intros Hl. apply no_violations. intros t tb r f Ht Hr Hin.
  destruct (rows_of_some _ _ _ Ht) as (Er & Ei & Ef).
  assert (Hx : t ∈ PRESERVED_TABLES \/ t = "runtime_config"%string).
  { pose proof (loaded_rows _ _ Hl t) as E. rewrite Er in E. rewrite E in Hr.
    destruct (decide (t ∈ PRESERVED_TABLES)); [by left|]. destruct (decide (t = "runtime_config"%string)); [by right|].
    by apply elem_of_nil in Hr. }
  assert (Hexp : exists exp, (t, exp) ∈ EXPECTED_TABLES).
  { destruct Hx as [Hx | ->]; [by eexists; apply preserved_expected|].
    exists (expected_info "runtime_config"). unfold EXPECTED_TABLES. cbn. set_solver. }
  destruct Hexp as [exp Hexp]. destruct (schema_table d t exp (loaded_schema _ _ Hl) Hexp) as (_ & Hi & Hk).
  rewrite <- Ef, Hk in Hin. destruct (expected_fks _ _ Hin) as [-> Hp].
  assert (Hpt : "user_host_accounts"%string ∈ PRESERVED_TABLES) by (unfold PRESERVED_TABLES; set_solver).
  destruct (Hsound _ Hpt) as [_ _ Hfk]. rewrite Forall_forall in Hfk.
  destruct (schema_table source _ _ Hsource (preserved_expected _ Hpt)) as (_ & Hi' & Hk').
  destruct (schema_table d _ _ (loaded_schema _ _ Hl) (preserved_expected _ Hpt)) as (_ & Hi2 & _).
  assert (Hus : ("users"%string, expected_info "users") ∈ EXPECTED_TABLES) by by left.
  destruct (schema_table d _ _ (loaded_schema _ _ Hl) Hus) as (Hpd & Hpi & _).
  destruct (schema_table source _ _ Hsource Hus) as (_ & Hps & _).
  specialize (Hfk r). rewrite Hk', Forall_forall in Hfk. replace (t_info tb) with (info_of "user_host_accounts" source) by congruence.
  eapply fk_holds_moved; [..|apply Hfk]; rewrite ?Hp; [done|congruence| | |done].
  - intros x Hx'. rewrite (loaded_rows _ _ Hl), decide_True by (unfold PRESERVED_TABLES; set_solver). by rewrite rows_by_key_perm.
  - rewrite <- rows_by_key_perm. rewrite <- Er, (loaded_rows _ _ Hl), decide_True in Hr by done. done.
Qed.

Lemma loaded_tables L d d' : loaded L d -> tables d' = tables d -> is_Some (sqlite_sequence d') -> loaded L d'.
Proof.
  intros [Hs Hr _] E Hq. split; [| |done].
  - unfold schema_ok, info_of, fks_of in *. by rewrite E.
  - intros t. rewrite <- Hr. unfold rows_of. by rewrite E.
Qed.

Lemma loaded_by_key d t : loaded PRESERVED_TABLES d -> t ∈ PRESERVED_TABLES -> rows_by_key t d = rows_by_key t source.
Proof.
  intros Hl Ht. destruct (loaded_values d t Hl Ht) as [_ Hr].
  destruct (schema_table d t _ (loaded_schema _ _ Hl) (preserved_expected t Ht)) as ([tb Htb] & Hi & _).
  destruct (schema_table source t _ Hsource (preserved_expected t Ht)) as ([ts Hts] & Hi' & _).
  destruct (rows_of_some _ _ _ Htb) as (Er & Ei & _), (rows_of_some _ _ _ Hts) as (_ & Ei' & _).
  unfold rows_by_key in *. rewrite Htb. rewrite Hts in *. unfold select_by_key in *. rewrite <- Er, Hr.
  replace (t_info tb) with (t_info ts) by congruence. apply sort_by_twice. intros a b. apply keys_leb_total.
Qed.

Section Proof.
Context (secret : bytes).

Lemma calm_reread v d t : loaded PRESERVED_TABLES d -> t ∈ PRESERVED_TABLES ->
  goes v (Store t0 (Some d)) (reread_table (manifest1 source secret) t)
    (t, (Z.of_nat (length (rows_by_key t source)), sha256 (digest_text (strs (_columns t)) (enc_rows (rows_by_key t source)))))
    v (Store t0 (Some d)).
Proof.
  intros Hl Ht. destruct (loaded_values d t Hl Ht) as [Hr _].
  eapply goes_bind; [apply (calm_read_table _ _ _ d); [intros A f; apply goes_sql_ask|by rewrite loaded_by_key]|].
  rewrite loaded_by_key by done. cbv beta iota. rewrite table_digest_total by done.
  eapply goes_bind; [apply goes_lift|].
  assert (Hlen : json_len (enc_rows (rows_by_key t source)) = Z.of_nat (length (rows_by_key t source)))
    by (unfold enc_rows; cbn [json_len]; by rewrite length_map).
  cbv zeta. rewrite Hlen, (proj2 (entry_read_back source secret t Ht)), !field_read_back.
  change (get "row_count" (entry_fields source t)) with (VInt (Z.of_nat (length (rows_by_key t source)))).
  change (get "digest" (entry_fields source t)) with
    (VStr (sha256 (digest_text (strs (_columns t)) (enc_rows (rows_by_key t source))))).
  cbn [canon]. rewrite number_is_refl. cbn [str_is]. rewrite String.eqb_refl. apply goes_ret.
Qed.

Lemma calm_verify v d high : loaded PRESERVED_TABLES d -> seq_of "audit_log" d = high ->
  exists checked others, goes v (Store t0 (Some d)) (verify_restored (manifest1 source secret) [("audit_log"%string, high)])
    (checked, others) v (Store t0 (Some d)).
Proof.
  intros Hl Hseq. unfold verify_restored. do 2 eexists.
  eapply goes_bind; [apply goes_sql_ask|]. rewrite loaded_no_violations by done. cbn [Nat.eqb negb].
  eapply goes_bind; [apply goes_collect; intros t Ht; by apply calm_reread|].
  eapply goes_bind; [apply goes_for_each; intros x ->%list_elem_of_singleton|].
  { unfold reread_high_water. cbn [fst snd]. destruct high as [h|]; [|apply goes_ret].
    eapply goes_bind; [apply goes_sql_ask|]. rewrite Hseq, bool_decide_true by done. apply goes_ret. }
  eapply goes_bind; [apply (calm_other_counts _ _ _ d); intros A f; apply goes_sql_ask|].
  rewrite (proj2 (forallb_forall _ _)); [apply goes_ret|].
  intros x Hx. apply in_map_iff in Hx as (t & <- & Hin). unfold others in Hin.
  apply List.filter_In in Hin as [_ Hn]. apply andb_true_iff in Hn as [Hp Hrc]. cbn [snd].
  rewrite (loaded_rows _ _ Hl), !decide_False; [done| |].
  - intros ->. done.
  - intros Hin. unfold str_mem in Hp. apply negb_true_iff, not_true_iff_false in Hp. apply Hp, existsb_exists.
    exists t. split; [by apply list_elem_of_In|apply String.eqb_refl].
Qed.
End Proof.
End Loading.
End Complete.
