(* ===== verification/TransferCarried.v ===== *)
(** * The transfer from end to end

    Whatever interrupted the export, a bundle with a COMPLETE marker restores: an
    undisturbed restore into a fresh database returns, and the target then holds the
    source's accounts, its key and an id counter that issues no id twice. *)
From S2P Require Import Prelude Sorting Py Effects PyOps Json Files Sql Calm Transfer TransferSafety TransferRoundtrip TransferCalm TransferComplete.
Open Scope Z_scope.

Section Carried.
Context `{Sqlite, FloatText, !FloatLaws, Digest}.

(** ** Reading the bundle *)

Section Bundle.
Context (source : sdb) (secret : bytes).
Hypothesis Hok : source_values_ok source secret.
Hypothesis Hwidth : Forall (fun t => Forall (fun r : row => length r = length (_columns t)) (rows_by_key t source))
  PRESERVED_TABLES.

(** The rows as they come out of the manifest. *)
Definition decoded_rows : list (list (list pyval)) :=
  List.map (fun t => List.map (List.map enc) (rows_by_key t source)) PRESERVED_TABLES.

Definition carried_bundle : bundle :=
  Bundle (manifest1 source secret) (sha256 (dump (VDict (manifest0 source secret)))) secret (sha256 secret)
    (fun t => default [] (dict_get t (zip PRESERVED_TABLES decoded_rows))).

Lemma decoded_table t : t ∈ PRESERVED_TABLES -> b_decoded carried_bundle t = List.map (List.map enc) (rows_by_key t source).
Proof.
  intros Ht. unfold carried_bundle, decoded_rows, PRESERVED_TABLES in *. cbn [b_decoded].
  repeat (apply elem_of_cons in Ht as [->|Ht]; [reflexivity|]). by apply elem_of_nil in Ht.
Qed.

Lemma marker_reads_back source_db marker : canonical_bytes (marker_of (dump (VDict (manifest0 source secret))) secret source_db) = Ok marker ->
  exists d, _load_json marker = Ok d /\ get "format" d = VStr FORMAT /\
    get "manifest_sha256" d = VStr (sha256 (dump (VDict (manifest0 source secret)))) /\
    get "secret_key_sha256" d = VStr (sha256 secret).
Proof.
  unfold canonical_bytes, dumps. case_match; [|done]. intros E.
  assert (marker = dump (marker_of (dump (VDict (manifest0 source secret))) secret source_db)) as -> by congruence.
  assert (Hj : json_ok (marker_of (dump (VDict (manifest0 source secret))) secret source_db)).
  { constructor; [|by repeat constructor].
    change (NoDup ["format"; "manifest_sha256"; "secret_key_sha256"; "source_db"]%string).
    by apply (bool_decide_unpack _). }
  unfold _load_json. rewrite (read_canonical _ Hj). eexists. by split_and!.
Qed.

Lemma calm_read_bundle (v : gmap path node) (e : store) dir source_db marker :
  canonical_bytes (marker_of (dump (VDict (manifest0 source secret))) secret source_db) = Ok marker ->
  content v (child dir COMPLETE_MARKER) marker ->
  content v (child dir MANIFEST_NAME) (dump (VDict (manifest0 source secret))) ->
  content v (child dir SECRET_KEY_NAME) secret ->
  goes v e (read_bundle dir) carried_bundle v e.
Proof.
  intros Hm (m1 & s1 & Hv1) (m2 & s2 & Hv2) (m3 & s3 & Hv3).
  destruct (marker_reads_back _ _ Hm) as (d & Hd & Hf & Hms & Hss). unfold read_bundle.
  eapply goes_bind; [by eapply calm_read_private|]. rewrite Hd. eapply goes_bind; [apply goes_lift|].
  eapply goes_bind; [by eapply calm_read_private|]. rewrite Hf, Hms. cbn [str_is]. rewrite !String.eqb_refl. cbn [negb orb].
  rewrite (load_manifest source secret Hok). eapply goes_bind; [apply goes_lift|].
  rewrite (manifest_valid source secret Hok Hwidth). eapply goes_bind; [apply goes_lift|].
  eapply goes_bind; [by eapply calm_read_private|].
  unfold sub_dict. rewrite (secret_read_back source secret), Hss.
  change (get "sha256" [("sha256", VStr (sha256 secret)); ("size", VInt (Z.of_nat (length secret)))]%string) with (VStr (sha256 secret)).
  change (get "size" [("sha256", VStr (sha256 secret)); ("size", VInt (Z.of_nat (length secret)))]%string) with (VInt (Z.of_nat (length secret))).
  cbn [str_is]. rewrite !String.eqb_refl, number_is_refl. cbn [negb orb].
  rewrite (collect_res_map _ (fun t => List.map (List.map enc) (rows_by_key t source))) by (intros t Ht; by apply decode_read_back).
  eapply goes_bind; [apply goes_lift|]. apply goes_ret.
Qed.
End Bundle.

(** ** The transaction *)

(** The source's tables as SQLite let them grow, and a counter that fits. *)
Record carriable (source : sdb) (secret : bytes) : Prop := {
  ca_schema : schema_ok source;
  ca_tables t : t ∈ PRESERVED_TABLES -> sound_table source t;
  ca_secret : secret <> [];
  ca_sequence z : seq_of "audit_log" source = Some z -> 0 <= z /\ int64 z
}.

(** The accounts of [source] are in [d]. *)
Definition carried (source d : sdb) : Prop :=
  (forall t, t ∈ PRESERVED_TABLES -> rows_by_key t d = rows_by_key t source) /\
  high_water_kept (seq_of "audit_log" source) (seq_of "audit_log" d).

Lemma carriable_values source secret : carriable source secret -> source_values_ok source secret.
Proof.
  intros [Hs Ht Hsec Hq]. split_and!; [|done|].
  - rewrite Forall_forall. intros t Hin. unfold rows_ok. rewrite rows_by_key_perm.
    eapply Forall_impl; [apply (sound_rows _ _ (Ht t Hin))|]. by intros r [].
  - constructor; [|done]. destruct (seq_of "audit_log" source) eqn:E; [|done]. by apply Hq.
Qed.

Lemma carriable_width source secret : carriable source secret ->
  Forall (fun t => Forall (fun r : row => length r = length (_columns t)) (rows_by_key t source)) PRESERVED_TABLES.
Proof.
  intros [Hs Ht _ _]. rewrite Forall_forall. intros t Hin. rewrite rows_by_key_perm.
  eapply Forall_impl; [apply (sound_rows _ _ (Ht t Hin))|]. intros r [Ha _ _ _].
  apply Forall2_length in Ha. destruct (schema_table source t _ Hs (preserved_expected t Hin)) as (_ & Hi & _).
  rewrite <- Ha, Hi. unfold _columns, columns_of. by rewrite length_map.
Qed.

Section Restore.
Context (source t0 : sdb) (secret : bytes) (boot : sqlv).
Hypothesis Hsource : carriable source secret.
Hypothesis Hfresh : fresh_target t0 boot.
Hypothesis Hsequence : is_Some (sqlite_sequence t0).
Hypothesis Hkeys : foreign_keys_available = true.
Let b := carried_bundle source secret.
Let Hs := ca_schema _ _ Hsource.
Let Ht := ca_tables _ _ Hsource.

Definition key_replaceable (v : gmap path node) (ts : path) : Prop :=
  v !! ts = None \/ exists m d s, v !! ts = Some (File m d s).

Lemma calm_commit v ts : ts <> [] -> v !! tmp_of ts = None -> is_directory (v !! parent ts) = true -> key_replaceable v ts ->
  exists checked monitoring auto installed d,
    goes v (Store t0 (Some t0)) (commit_bundle b ts boot) (checked, monitoring, auto, installed, boot)
      (<[ts := File 384 secret true]> v) (Store d None) /\ carried source d.
Proof.
  intros Hts Htmp Hdir Hkey.
  destruct (calm_delete source t0 Hs Ht v boot Hfresh Hsequence) as (d0 & G0 & L0).
  destruct (calm_load source t0 Hs Ht v (b_decoded b) d0 L0
    (decoded_table source secret)) as (d1 & G1 & L1).
  destruct (calm_high_water source t0 Hs Ht v d1 (sub_dict "autoincrement" (b_manifest b)) L1)
    as (d2 & high & G2 & E2 & Q2 & S2 & K2).
  { unfold sub_dict, b, carried_bundle. cbn [b_manifest]. by rewrite auto_read_back. }
  { intros z Hz. by apply (ca_sequence _ _ Hsource). }
  assert (L2 : loaded source t0 PRESERVED_TABLES d2) by by eapply loaded_tables.
  destruct (calm_verify source t0 Hs Ht secret v d2 high L2 S2)
    as (checked & monitoring & G3).
  destruct (calm_install (Store t0 (Some d2)) v ts secret Hts Htmp Hdir Hkey) as (installed & G4).
  exists checked, monitoring, [("audit_log"%string, high)], installed, d2. split.
  - unfold commit_bundle. eapply goes_bind.
    { unfold apply_bundle. eapply goes_bind; [exact G0|]. eapply goes_bind; [exact G1|exact G2]. }
    eapply goes_bind; [exact G3|]. eapply goes_bind; [exact G4|].
    eapply goes_bind; [apply goes_commit|apply goes_ret].
  - split; [|by rewrite S2]. intros t Hin. by apply (loaded_by_key source t0 Hs Ht).
Qed.

Lemma calm_transaction v ts : ts <> [] -> v !! tmp_of ts = None -> is_directory (v !! parent ts) = true -> key_replaceable v ts ->
  exists checked monitoring auto installed d,
    goes v (Store t0 None) (restore_transaction b ts) (checked, monitoring, auto, installed, boot)
      (<[ts := File 384 secret true]> v) (Store d None) /\ carried source d.
Proof.
  intros Hts Htmp Hdir Hkey. destruct (calm_commit v ts Hts Htmp Hdir Hkey) as (c & m & a & i & d & G & Hc).
  exists c, m, a, i, d. split; [|done]. unfold restore_transaction.
  eapply goes_bind; [apply goes_nothing|]. eapply goes_finally; [|apply goes_sql_close].
  eapply goes_bind; [apply goes_sql, goes_ret|]. eapply goes_bind; [apply goes_sql_read|]. rewrite Hkeys. cbn [negb].
  eapply goes_bind; [apply goes_begin|]. eapply goes_bind; [apply goes_on_exception|by apply goes_on_exception].
  eapply goes_bind; [apply (calm_schema _ _ _ t0); [intros A f; apply goes_sql_ask|apply Hfresh]|].
  apply (calm_fresh _ _ _ t0); [intros A f; apply goes_sql_ask|done].
Qed.

(** ** The report *)

Lemma forallb_map_true {A B} (f : A -> B) g (l : list A) : (forall x, g (f x) = true) -> forallb g (List.map f l) = true.
Proof. intros Hg. induction l as [|x l IH]; [done|]. simpl. by rewrite Hg, IH. Qed.

Lemma report_text r : re_bootstrap_admin_removed r = boot -> exists text, canonical_bytes (as_dict r) = Ok text.
Proof.
  intros Hb. unfold canonical_bytes, dumps. replace (all_finite (as_dict r)) with true; [by eexists|].
  symmetry. unfold as_dict, auto_json. cbn [all_finite forallb snd].
  rewrite !forallb_map_true by (first [done | by intros [? []]]). rewrite Hb.
  by destruct (fresh_users _ _ Hfresh) as [[_ ->]|(? & ? & _ & _ & _ & ->)].
Qed.

Lemma calm_remove (v : gmap path node) (e : store) p : (v !! p = None \/ exists m d s, v !! p = Some (File m d s)) ->
  exists x, goes v e (remove_password_file p) x (delete p v) e.
Proof.
  intros [Hp|(m & d & s & Hp)].
  - exists false. intros u. exists u. unfold remove_password_file, os_unlink, catch, sys.
    cbv [mbind M_bind mret M_ret gets modify raise id]. cbn. rewrite Hp. cbn. by rewrite delete_id.
  - exists true. apply goes_catch. eapply goes_bind; [|apply goes_ret]. by eapply goes_unlink.
Qed.

(** The tree is in a state in which the restore can start. *)
Record restore_ready (v : gmap path node) (bundle_dir target_db run_dir data_dir : path) : Prop := {
  ready_tree n p : is_Some (v !! child p n) -> is_directory (v !! p) = true;
  ready_bundle : exists m, v !! bundle_dir = Some (Dir m);
  ready_db : exists m d s, v !! target_db = Some (File m d s);
  ready_data : is_directory (v !! data_dir) = true;
  ready_key : key_replaceable v (child data_dir SECRET_KEY_NAME);
  ready_tmp : v !! tmp_of (child data_dir SECRET_KEY_NAME) = None;
  ready_password : key_replaceable v (child data_dir INITIAL_ADMIN_PASSWORD_FILE);
  ready_run : v !! run_dir = None /\ is_directory (v !! parent run_dir) = true;
  ready_apart : run_dir ∉ [child data_dir SECRET_KEY_NAME; tmp_of (child data_dir SECRET_KEY_NAME);
                           child data_dir INITIAL_ADMIN_PASSWORD_FILE]
}.

Lemma calm_checks v e bundle_dir target_db run_dir data_dir : restore_ready v bundle_dir target_db run_dir data_dir ->
  (forall name, name ∈ [COMPLETE_MARKER; MANIFEST_NAME; SECRET_KEY_NAME] -> exists d, content v (child bundle_dir name) d) ->
  goes v e (restore_checks bundle_dir target_db run_dir data_dir) tt v e.
Proof.
  intros [_ [m Hbd] (md & dd & sd & Hdb) Hdata Hkey _ _ [Hrun Hpar] _] Hfiles. unfold restore_checks, _lstat.
  eapply goes_bind; [apply calm_directory; [by rewrite Hbd|by eauto]|].
  eapply goes_bind; [apply goes_for_each; intros n (d & m' & s & Hn)%Hfiles; by eapply calm_regular|].
  eapply goes_bind; [by eapply calm_regular|]. eapply goes_bind; [by apply calm_directory|].
  eapply goes_bind; [apply goes_lstat|]. eapply goes_bind; [|by apply calm_absent].
  destruct Hkey as [-> |(? & ? & ? & ->)]; apply goes_ret.
Qed.

Lemma delete_absent (v : gmap path node) p q : v !! p = None -> delete q v !! p = None.
Proof. intros Hp. rewrite lookup_delete. by case_decide. Qed.

Lemma calm_restore v bundle_dir target_db run_dir data_dir source_db marker :
  restore_ready v bundle_dir target_db run_dir data_dir ->
  canonical_bytes (marker_of (dump (VDict (manifest0 source secret))) secret source_db) = Ok marker ->
  content v (child bundle_dir COMPLETE_MARKER) marker ->
  content v (child bundle_dir MANIFEST_NAME) (dump (VDict (manifest0 source secret))) ->
  content v (child bundle_dir SECRET_KEY_NAME) secret ->
  exists report v' d, goes v (Store t0 None) (restore_bundle bundle_dir target_db run_dir data_dir) report v' (Store d None) /\
    carried source d /\ v' !! child data_dir SECRET_KEY_NAME = Some (File 384 secret true).
Proof.
  intros Hready Hm C1 C2 C3. pose proof Hready as [Htree Hbd Hdb Hdata Hkey Htmp Hpw [Hrun Hpar] Hapart].
  set (ts := child data_dir SECRET_KEY_NAME) in *. set (pw := child data_dir INITIAL_ADMIN_PASSWORD_FILE) in *.
  assert (Hne : run_dir <> []) by (intros E; rewrite E in Hrun, Hpar; simpl in Hpar; by rewrite Hrun in Hpar).
  assert (Hdr : data_dir <> run_dir) by (intros E; by rewrite E, Hrun in Hdata).
  assert (Happ : ts <> run_dir /\ tmp_of ts <> run_dir /\ pw <> run_dir).
  { apply not_elem_of_cons in Hapart as [H3 Hapart]. apply not_elem_of_cons in Hapart as [H4 Hapart].
    apply not_elem_of_cons in Hapart as [H5 _]. by split_and!; apply not_eq_sym. }
  destruct Happ as (Ht1 & Ht2 & Ht3). assert (Htp : pw <> ts) by done.
  set (v1 := <[run_dir := Dir 448]> v).
  destruct (calm_transaction v1 ts) as (checked & monitoring & auto & installed & d & G & Hc);
    [done|unfold v1; by rewrite lookup_insert_ne| |unfold key_replaceable, v1; by rewrite lookup_insert_ne|].
  { change (parent ts) with data_dir. unfold v1. by rewrite lookup_insert_ne. }
  set (v2 := <[ts := File 384 secret true]> v1) in *.
  destruct (calm_remove v2 (Store d None) pw) as [removed Grm].
  { unfold v2, v1. rewrite !lookup_insert_ne by done. exact Hpw. }
  set (v3 := delete pw v2) in *.
  assert (Hrun3 : v3 !! run_dir = Some (Dir 448)).
  { unfold v3, v2, v1. rewrite lookup_delete_ne, lookup_insert_ne by done. apply lookup_insert_eq. }
  assert (Hin : forall n, n <> SECRET_KEY_NAME -> v3 !! child run_dir n = None).
  { intros n Hn. apply delete_absent. unfold v2, v1. rewrite !lookup_insert_ne.
    - destruct (v !! child run_dir n) eqn:E; [|done]. exfalso.
      pose proof (Htree n run_dir (mk_is_Some _ _ E)) as Hd. by rewrite Hrun in Hd.
    - intros E. apply (f_equal length) in E. simpl in E. lia.
    - intros [=]. congruence. }
  set (facts := {| re_run_dir := path_text run_dir; re_bundle_dir := path_text bundle_dir;
    re_target_db := path_text target_db;
    re_row_counts := List.map (fun x => (x.1, x.2.1)) checked;
    re_table_digests := List.map (fun x => (x.1, x.2.2)) checked;
    re_autoincrement := auto; re_monitoring_rows := monitoring;
    re_foreign_key_violations := 0; re_bootstrap_admin_removed := boot;
    re_initial_admin_password_removed := removed; re_secret_key_sha256 := b_secret_sha b;
    re_secret_key_installed := installed; re_manifest_sha256 := b_manifest_sha b |}).
  destruct (report_text facts eq_refl) as [text Htext].
  set (marker_json := VDict [
    ("format", VStr FORMAT); ("report_sha256", VStr (sha256 text));
    ("manifest_sha256", VStr (b_manifest_sha b)); ("secret_key_sha256", VStr (b_secret_sha b))]%string).
  assert (Hmk : canonical_bytes marker_json = Ok (dump marker_json)) by done.
  set (v4 := <[child run_dir REPORT_NAME := File 384 text true]> v3).
  set (v5 := <[child run_dir COMPLETE_MARKER := File 384 (dump marker_json) true]> v4).
  exists facts, v5, d. split; [|split; [done|]].
  - unfold restore_bundle. eapply goes_bind.
    { apply calm_checks; [done|]. intros n Hn. repeat (apply elem_of_cons in Hn as [->|Hn]; [by eexists|]). by apply elem_of_nil in Hn. }
    eapply goes_bind.
    { eapply calm_read_bundle; [by apply carriable_values|by eapply carriable_width|exact Hm|done..]. }
    eapply goes_bind; [by apply calm_private_dir|]. eapply goes_bind; [exact G|]. cbv beta iota.
    eapply goes_bind; [exact Grm|]. fold b. cbv zeta. fold facts. rewrite Htext.
    eapply goes_bind; [apply goes_lift|].
    eapply goes_bind; [apply calm_private_file; try done; [intros _; by apply Hin|rewrite tmp_of_child; by apply Hin| |]|].
    { intros m. by rewrite Hin. }
    { change (parent (child run_dir REPORT_NAME)) with run_dir. by rewrite Hrun3. }
    fold marker_json. fold v4. rewrite Hmk. eapply goes_bind; [apply goes_lift|].
    eapply goes_bind; [|apply goes_ret]. apply calm_private_file; try done.
    + intros _. unfold v4. rewrite lookup_insert_ne by done. by apply Hin.
    + rewrite tmp_of_child. unfold v4. rewrite lookup_insert_ne by done. by apply Hin.
    + intros m. unfold v4. rewrite lookup_insert_ne by done. by rewrite Hin.
    + change (parent (child run_dir COMPLETE_MARKER)) with run_dir. unfold v4. rewrite lookup_insert_ne.
      * by rewrite Hrun3.
      * intros E. apply (f_equal length) in E. simpl in E. lia.
  - unfold v5, v4, v3, v2. rewrite !lookup_insert_ne, lookup_delete_ne by done. apply lookup_insert_eq.
Qed.
End Restore.

(** A marker, however the export ended: the bundle's three files. *)
Lemma marked_bundle (source : sdb) (fs : list fault) v0 u0 source_db data dir secret mode s :
  v0 !! child dir COMPLETE_MARKER = None ->
  v0 !! child data SECRET_KEY_NAME = Some (File mode secret s) -> carriable source secret ->
  let w1 := (export_bundle source source_db dir data (Machine fs v0 u0 tt)).2 in
  vis w1 !! child dir COMPLETE_MARKER <> None ->
  exists marker, canonical_bytes (marker_of (dump (VDict (manifest0 source secret))) secret source_db) = Ok marker /\
    content (vis w1) (child dir COMPLETE_MARKER) marker /\
    content (vis w1) (child dir MANIFEST_NAME) (dump (VDict (manifest0 source secret))) /\
    content (vis w1) (child dir SECRET_KEY_NAME) secret.
Proof.
  intros Hc Hkey Hca w1 Hm.
  assert (Hb : bundle_sealed source source_db dir data v0 w1).
  { pose proof (export_marker_hoare source source_db dir data v0 Hc (Machine fs v0 u0 tt) eq_refl) as Hx.
    subst w1. destruct (export_bundle _ _ _ _ _) as [[r|e] w1]; [done|]. by destruct Hx as [Hx|Hx]. }
  destruct Hb as (body & sec & marker & mode' & s' & Hkey' & Hsec & Hexp & Hmk & [Hman _] & [Hs _] & Hcm).
  rewrite Hkey in Hkey'. injection Hkey' as <- <- <-.
  assert (body = dump (VDict (manifest0 source secret))) as -> by (apply exported_manifest; [by apply carriable_values|done]).
  exists marker. split_and!; try done; by do 2 eexists.
Qed.


(** ** Trying again *)

(** All that a restore writes to. *)
Definition restore_touches (run_dir data_dir : path) : list path :=
  [run_dir; child data_dir SECRET_KEY_NAME; tmp_of (child data_dir SECRET_KEY_NAME);
   child data_dir INITIAL_ADMIN_PASSWORD_FILE; child run_dir REPORT_NAME; tmp_of (child run_dir REPORT_NAME);
   child run_dir COMPLETE_MARKER; tmp_of (child run_dir COMPLETE_MARKER)].

Lemma keeps_restore (I : machine store -> Prop) bundle_dir target_db run_dir data_dir :
  respects (fun p => p ∈ restore_touches run_dir data_dir) I -> (forall w e, I w -> I (with_env w e)) ->
  keeps I (restore_bundle bundle_dir target_db run_dir data_dir).
Proof.
  intros HI HE. unfold restore_bundle.
  assert (HI0 : respects (fun _ => False) I) by (destruct HI; by split).
  apply keeps_bind; [by apply restore_checks_keep|]. intros _.
  apply keeps_bind.
  { unfold read_bundle. repeat first [ (eapply keeps_read_private; exact HI) | apply keeps_ret
        | apply keeps_raise | apply keeps_lift_res | apply keeps_bind; [|intros ?] | case_match ]. }
  intros b. apply keeps_bind; [eapply keeps_private_dir; [exact HI|by left]|]. intros _.
  apply keeps_bind.
  { eapply walk_transaction; [exact HI|exact HE|unfold restore_touches; set_solver..]. }
  intros [[[[checked monitoring] auto] installed] boot].
  apply keeps_bind.
  { unfold remove_password_file. apply keeps_catch.
    - apply keeps_bind; [eapply keeps_unlink; [exact HI|unfold restore_touches; set_solver]|]. intros _. apply keeps_ret.
    - intros e k. destruct (is_os_error e); intros [= <-]. apply keeps_ret. }
  intros removed. apply keeps_bind; [apply keeps_lift_res|]. intros text.
  apply keeps_bind; [eapply keeps_private_file; [exact HI|unfold restore_touches; set_solver..]|]. intros _.
  apply keeps_bind; [apply keeps_lift_res|]. intros marker.
  apply keeps_bind; [eapply keeps_private_file; [exact HI|unfold restore_touches; set_solver..]|]. intros _. apply keeps_ret.
Qed.

Lemma content_outlives v p d run_dir data_dir bundle_dir target_db (w : machine store) : vis w = v -> content v p d ->
  p ∉ restore_touches run_dir data_dir ->
  content (vis (restore_bundle bundle_dir target_db run_dir data_dir w).2) p d.
Proof.
  intros Hw (m & s & Hp) Hn. exists m, s. rewrite <- Hp.
  apply (keeps_restore (fun w => vis w !! p = v !! p)); [by apply respects_seen|done|by subst v].
Qed.

End Carried.
