(* ===== verification/TransferSample.v ===== *)
(** * A concrete account transfer

    A library instance that satisfies its laws, a small installation, and the runs of
    [export_bundle] and [restore_bundle] on it: the witnesses of the transfer theorems. *)
From S2P Require Import Prelude Sorting Py Effects PyOps Json Files Sql Calm Transfer TransferSafety TransferRoundtrip TransferCalm TransferComplete TransferCarried.
Open Scope Z_scope.

(** ** Library instances *)

#[export] Instance sample_sqlite : Sqlite := {| affine _ v := v; foreign_keys_available := true |}.

#[export] Instance sample_floats : FloatText := {|
  float_repr q := if Qeq_bool q 0 then "0.0" else "1700000000.0";
  is_float q := q = 0%Q \/ q = 1700000000%Q
|}%string.

#[export] Instance sample_float_laws : FloatLaws.
Proof.
  split.
  - intros q [|c r] Hq Hr; [by destruct Hq as [-> | ->]|].
    destruct (Hr c eq_refl) as [Hd He].
    assert (Hspan : span is_digit (c :: r) = ([], c :: r)) by (simpl; by rewrite Hd).
    destruct Hq as [-> | ->]; destruct c as [[][][][][][][][]]; try discriminate; vm_compute; reflexivity.
  - intros q. unfold float_repr. simpl. destruct (Qeq_bool q 0); repeat constructor.
  - by intros q [-> | ->].
Qed.

#[export] Instance sample_digest : Digest := {| sha256 := of_chars |}.

(** ** An installation and a fresh one *)

Definition T0 : pyfloat := Fin 1700000000.
Definition user_row (email role : string) : row :=
  [SText email; SText "$2b$12$hash"; SNull; SInt 0; SInt 0; SReal T0; SText role; SInt 1; SReal (Fin 0)].

Definition sample_table (auto : bool) (name : string) (rows : list row) : string * table :=
  (name, Table (expected_info name) (EXPECTED_FOREIGN_KEYS name) auto rows).

Definition monitoring : string * table := ("hosts", Table [Col 0 "id" "TEXT" 0 None 1] [] false [])%string.

Definition sample_source : sdb := {|
  tables := list_to_map [
    sample_table false "users" [user_row "zoe@x" "user"; user_row "ann@x" "admin"];
    sample_table false "user_host_accounts" [[SText "zoe@x"; SText "agent-1"; SText "zoe"]];
    sample_table false "alert_config" [[SInt 1; SText "{}"]];
    sample_table false "token_blacklist" [];
    sample_table true "audit_log" [[SInt 4; SReal T0; SText "ann@x"; SText "login"; SText ""; SText "{}"]];
    sample_table false "runtime_config" []; monitoring]%string;
  sqlite_sequence := Some {["audit_log" := Some 9]}%string
|}.

Definition sample_fresh : sdb := {|
  tables := list_to_map [
    sample_table false "users" [user_row "admin@local" "admin"];
    sample_table false "user_host_accounts" []; sample_table false "alert_config" [];
    sample_table false "token_blacklist" []; sample_table true "audit_log" [];
    sample_table false "runtime_config" [[SText CUTOVER_KEY; SText "0"]]; monitoring]%string;
  sqlite_sequence := Some ∅
|}.

Definition data_dir : path := ["data"]%string.
Definition new_dir : path := ["new"]%string.
Definition bundle_dir : path := ["bundle"; "out"]%string.
Definition run_dir : path := ["run"; "out"]%string.

Definition sample_tree : gmap path node := list_to_map [
  ([], Dir 493); (data_dir, Dir 448); (new_dir, Dir 448); (["out"]%string, Dir 448);
  (child data_dir "glassops.db", File 384 [] true); (child new_dir "glassops.db", File 384 [] true);
  (child data_dir SECRET_KEY_NAME, File 384 (chars "s3cret") true);
  (child new_dir SECRET_KEY_NAME, File 384 (chars "other") true);
  (child new_dir INITIAL_ADMIN_PASSWORD_FILE, File 384 (chars "pw") true)]%string.

Definition sample_export (fs : list fault) : res ExportReport * machine unit :=
  export_bundle sample_source (child data_dir "glassops.db") bundle_dir data_dir (Machine fs sample_tree ∅ tt).

(** The tree with the bundle in it. *)
Definition with_bundle : gmap path node := vis (sample_export []).2.

Definition sample_restore (fs : list fault) : res RestoreReport * machine store :=
  restore_bundle bundle_dir (child new_dir "glassops.db") run_dir new_dir
    (Machine fs with_bundle ∅ (Store sample_fresh None)).

(** Schedules: [n] calls go well and the next one is [f]. *)
Definition interrupted_after (n : nat) (f : fault) : list fault := replicate n NoFault ++ [f].

(** ** Witnesses *)

(** The export was interrupted just after the marker got its name. *)
Definition cut_short : list fault := interrupted_after 67 (After Interruption).
Definition sample_machine : machine unit := Machine cut_short sample_tree ∅ tt.

Lemma export_marker_last_witness :
  vis (export_bundle sample_source (child data_dir "glassops.db") bundle_dir data_dir sample_machine).2 !!
    child bundle_dir COMPLETE_MARKER <> None /\
  bundle_sealed sample_source (child data_dir "glassops.db") bundle_dir data_dir (vis sample_machine)
    (export_bundle sample_source (child data_dir "glassops.db") bundle_dir data_dir sample_machine).2.
Proof.
  assert (Hm : vis (export_bundle sample_source (child data_dir "glassops.db") bundle_dir data_dir sample_machine).2 !!
    child bundle_dir COMPLETE_MARKER <> None) by by vm_compute.
  split; [exact Hm|]. refine (export_marker_last _ _ _ _ _ _ Hm). by vm_compute.
Defined.

(** COMMIT took effect and was interrupted: the target is restored, and the restore
    does not call a retry safe. *)
Lemma restore_all_or_nothing_witness :
  let w := Machine (interrupted_after 88 (After Interruption)) with_bundle ∅ (Store sample_fresh None) in
  let '(r, w') := sample_restore (interrupted_after 88 (After Interruption)) in
  r = Raise ManualVerificationRequired /\ length (rows_of "users" (target (env w'))) = 2%nat /\
  restore_verdict bundle_dir run_dir new_dir w r w'.
Proof.
  pose proof (restore_all_or_nothing bundle_dir (child new_dir "glassops.db") run_dir new_dir
    (Machine (interrupted_after 88 (After Interruption)) with_bundle ∅ (Store sample_fresh None))
    eq_refl ltac:(by vm_compute)) as Hv.
  unfold sample_restore.
  assert (E : (restore_bundle bundle_dir (child new_dir "glassops.db") run_dir new_dir
    (Machine (interrupted_after 88 (After Interruption)) with_bundle ∅ (Store sample_fresh None))).1 =
    Raise ManualVerificationRequired) by by vm_compute.
  assert (E' : length (rows_of "users" (target (env (restore_bundle bundle_dir (child new_dir "glassops.db") run_dir new_dir
    (Machine (interrupted_after 88 (After Interruption)) with_bundle ∅ (Store sample_fresh None))).2))) = 2%nat)
    by by vm_compute.
  destruct (restore_bundle _ _ _ _ _) as [r w']. by split_and!.
Defined.

(** Rows that are pairwise apart, decided. *)
Lemma distinct_by_index info (rs : list row) :
  forallb (fun i => forallb (fun j => (i =? j)%nat || negb (clash info (nth i rs []) (nth j rs []))) (seq 0 (length rs)))
    (seq 0 (length rs)) = true -> distinct info rs.
Proof.
  intros Hb i j r r' Hij Hr Hr'. rewrite forallb_forall in Hb.
  assert (Hi : In i (seq 0 (length rs))) by (apply in_seq; apply lookup_lt_Some in Hr; lia).
  assert (Hj : In j (seq 0 (length rs))) by (apply in_seq; apply lookup_lt_Some in Hr'; lia).
  specialize (Hb i Hi). rewrite forallb_forall in Hb. specialize (Hb j Hj).
  apply orb_true_iff in Hb as [E%Nat.eqb_eq|E%negb_true_iff]; [by destruct Hij|].
  by rewrite (nth_lookup_Some _ _ _ _ Hr), (nth_lookup_Some _ _ _ _ Hr') in E.
Qed.

Definition q_check (q : Q) : bool :=
  Pos.eqb (Qden q) 1 && ((Qnum q =? 0) || (Qnum q =? 1700000000)).

Lemma q_checked q : q_check q = true -> is_float q.
Proof.
  unfold q_check. destruct q as [n m]. intros [Hm Hn]%andb_true_iff. apply Pos.eqb_eq in Hm. simpl in *. subst m.
  apply orb_true_iff in Hn as [Hn%Z.eqb_eq|Hn%Z.eqb_eq]; subst n; [by left|by right].
Qed.

(** A row the sample can store, decided. *)
Definition value_check (v : sqlv) : bool :=
  match v with
  | SNull | SText _ => true
  | SInt z => (- Z.pow 2 63 <=? z) && (z <? Z.pow 2 63)
  | SReal (Fin q) => q_check q
  | _ => false
  end.

Definition row_check (info : list col) (r : row) : bool :=
  (length r =? length info)%nat && forallb value_check r && not_null_ok info r &&
  match rowid_alias info with
  | None => true
  | Some pk => match column_value info pk r with SInt _ => true | _ => false end
  end.

Lemma row_checked info r : row_check info r = true -> storable info r.
Proof.
  unfold row_check. intros [[[Hl Hv]%andb_true_iff Hn]%andb_true_iff Hr]%andb_true_iff. split; [| |done|].
  - apply Nat.eqb_eq in Hl. clear Hv Hn Hr. revert info Hl. induction r as [|x r IH]; intros [|c info] Hl; try done.
    constructor; [done|]. apply IH. by injection Hl.
  - rewrite Forall_forall. intros x Hx%list_elem_of_In. rewrite forallb_forall in Hv. specialize (Hv x Hx).
    destruct x as [|z|[q| | |]|s|]; try done.
    + apply andb_true_iff in Hv as [H1%Z.leb_le H2%Z.ltb_lt]. by split.
    + by apply q_checked.
  - unfold rowid_given. destruct (rowid_alias info) as [pk|]; [|done].
    destruct (column_value info pk r); try done. by eexists.
Qed.

Definition table_check (d : sdb) (t : string) : bool :=
  let info := info_of t d in let rs := rows_of t d in
  forallb (row_check info) rs &&
  forallb (fun i => forallb (fun j => (i =? j)%nat || negb (clash info (nth i rs []) (nth j rs []))) (seq 0 (length rs)))
    (seq 0 (length rs)) &&
  forallb (fun r => forallb (fk_holds d info r) (fks_of t d)) rs.

Lemma table_checked d t : table_check d t = true -> sound_table d t.
Proof.
  unfold table_check. intros [[Hr Hk]%andb_true_iff Hf]%andb_true_iff. split.
  - rewrite Forall_forall. intros r Hin%list_elem_of_In. rewrite forallb_forall in Hr. by apply row_checked, Hr.
  - by apply distinct_by_index.
  - rewrite Forall_forall. intros r Hin%list_elem_of_In. rewrite forallb_forall in Hf. specialize (Hf r Hin).
    rewrite Forall_forall. intros f Hff%list_elem_of_In. rewrite forallb_forall in Hf. by apply Hf.
Qed.

Lemma sample_carriable : carriable sample_source (chars "s3cret").
Proof.
  split; [by repeat constructor| |done|].
  - intros t Ht. assert (Hall : forallb (table_check sample_source) PRESERVED_TABLES = true) by by vm_compute.
    rewrite forallb_forall in Hall. apply table_checked, Hall. by apply list_elem_of_In.
  - intros z Hz. vm_compute in Hz. injection Hz as <-. unfold int64. lia.
Qed.

Lemma sample_is_fresh : fresh_target sample_fresh (SText "admin@local").
Proof.
  split; [by repeat constructor| | |].
  - right. by exists (user_row "admin@local" "admin"), "admin@local"%string.
  - intros r Hr. vm_compute in Hr. by apply list_elem_of_singleton in Hr as ->.
  - intros t Hu Hrc. unfold rows_of. destruct (tables sample_fresh !! t) as [tb|] eqn:E; [|done].
    assert (Hin : (t, tb) ∈ map_to_list (tables sample_fresh)) by by apply elem_of_map_to_list.
    vm_compute in Hin. repeat (apply elem_of_cons in Hin as [[= -> ->]|Hin]; [done|]). by apply elem_of_nil in Hin.
Qed.

Lemma tree_by_list (v : gmap path node) :
  forallb (fun kv => match kv.1 with [] => true | _ :: p => is_directory (v !! p) end) (map_to_list v) = true ->
  forall n p, is_Some (v !! child p n) -> is_directory (v !! p) = true.
Proof.
  intros Hv n p [x Hx%elem_of_map_to_list%list_elem_of_In]. rewrite forallb_forall in Hv. by apply (Hv _ Hx).
Qed.

Ltac sample_ready := split; [by apply tree_by_list; vm_compute|by vm_compute; eexists|by vm_compute; do 3 eexists|
  by vm_compute|by vm_compute; right; do 3 eexists|by vm_compute|
  first [by vm_compute; right; do 3 eexists | by vm_compute; left]|split; by vm_compute|].

Definition sample_exported : machine unit :=
  (export_bundle sample_source (child data_dir "glassops.db") bundle_dir data_dir sample_machine).2.

(** What the two theorems about a marked bundle ask of the sample. *)
Lemma sample_marked : vis sample_exported !! child bundle_dir COMPLETE_MARKER <> None.
Proof. by vm_compute. Qed.

Lemma sample_export_ready :
  restore_ready (vis sample_exported) bundle_dir (child new_dir "glassops.db") run_dir new_dir.
Proof. sample_ready. set_solver. Qed.


(** The first restore is interrupted before its COMMIT, having written the key. *)
Definition sample_interrupted : res RestoreReport * machine store :=
  restore_bundle bundle_dir (child new_dir "glassops.db") run_dir new_dir
    (Machine (interrupted_after 85 (After Interruption)) (vis sample_exported) (dur sample_exported) (Store sample_fresh None)).

Definition second_run : path := ["run2"; "out"]%string.

Lemma sample_retry_ready :
  restore_ready (vis sample_interrupted.2) bundle_dir (child new_dir "glassops.db") second_run new_dir.
Proof. sample_ready. set_solver. Qed.

Lemma sample_refused : sample_interrupted.1 = Raise (RestoreInterrupted RETRY_GUIDANCE).
Proof. by vm_compute. Qed.

Lemma sample_apart n : child bundle_dir n ∉ restore_touches run_dir new_dir.
Proof.
  intros Hn. unfold restore_touches in Hn.
  repeat (apply elem_of_cons in Hn as [E|Hn]; [by inversion E|]). by apply elem_of_nil in Hn.
Qed.


(** A file of six bytes, taken two at a time. *)
Lemma write_all_ends_witness :
  let w := Machine [Short 2; Short 2] sample_tree ∅ tt in
  let p := child new_dir SECRET_KEY_NAME in
  write_all 9 p (chars "s3cret") w = write_all 6 p (chars "s3cret") w /\
  exists s, vis (write_all 9 p (chars "s3cret") w).2 !! p = Some (File 384 (chars "others3cret") s).
Proof.
  pose proof (write_all_ends 9 (child new_dir SECRET_KEY_NAME) (chars "s3cret")
    (Machine [Short 2; Short 2] sample_tree ∅ tt) ltac:(simpl; lia)) as [He Hv].
  split; [exact He|]. specialize (Hv 384 (chars "other") true). revert Hv.
  assert (Hok : match (write_all 9 (child new_dir SECRET_KEY_NAME) (chars "s3cret")
    (Machine [Short 2; Short 2] sample_tree ∅ tt)).1 with Ok _ => true | Raise _ => false end = true) by by vm_compute.
  destruct (write_all 9 _ _ _) as [[[]|e] w']; [|done]. intros Hv. apply (Hv w'); [by vm_compute|done].
Defined.

Definition sample_object : dict := [("z", VList [VInt 1; VNone]); ("a", VStr "\x")]%string.

Lemma sample_object_ok : json_ok (VDict sample_object).
Proof. constructor; [by apply (bool_decide_unpack _)|]. repeat constructor. Qed.

Lemma canonical_json_roundtrip_witness :
  exists b, canonical_bytes (VDict sample_object) = Ok b /\
    _load_json b = Ok [("a", VStr "\x"); ("z", VList [VInt 1; VNone])]%string.
Proof. exact (canonical_json_roundtrip sample_object sample_object_ok). Defined.

(** The bundle of the sample, as read, and the database a calm restore leaves. *)
Definition sample_bundle : bundle := carried_bundle sample_source (chars "s3cret").
Definition sample_restored : sdb := target (env (sample_restore []).2).

Lemma sample_values : source_values_ok sample_source (chars "s3cret").
Proof. exact (carriable_values _ _ sample_carriable). Qed.

Lemma digest_pins_rows_witness :
  exists b, bundle_at with_bundle bundle_dir b /\ restored b sample_restored /\
    (get "rows" (entry_of (b_manifest b) "users") = enc_rows (rows_by_key "users" sample_restored) \/
     exists x y, x <> y /\ sha256 x = sha256 y).
Proof.
  assert (Hok : match (sample_restore []).1 with Ok _ => true | Raise _ => false end = true) by by vm_compute.
  assert (Hbody : with_bundle !! child bundle_dir MANIFEST_NAME =
    Some (File 384 (dump (VDict (manifest0 sample_source (chars "s3cret")))) true)) by by vm_compute.
  assert (Hrows : rows_by_key "users" sample_restored = rows_by_key "users" sample_source) by by vm_compute.
  assert (Hfree : with_bundle !! child run_dir COMPLETE_MARKER = None) by by vm_compute.
  revert Hok Hrows. unfold sample_restored, sample_restore. generalize dependent with_bundle. intros v Hbody Hfree.
  destruct (restore_bundle _ _ _ _ _) as [[rep|e] w'] eqn:E; [|done]. intros _ Hrows. cbn [fst snd] in *.
  destruct (restore_returned _ _ _ _ _ _ _ _ _ _ Hfree E) as (b & Hb & Hres). exists b. split; [done|]. split; [done|].
  assert (Hu : "users"%string ∈ PRESERVED_TABLES) by by left.
  pose proof (preserved_rows_ok _ _ sample_values "users" Hu) as Hvals.
  assert (Hm : get "rows" (entry_of (b_manifest b) "users") = enc_rows (rows_by_key "users" sample_source)).
  { destruct Hb as (raw & mk & body & rws & _ & _ & (m & s & Hc) & Hl & _). rewrite Hbody in Hc.
    assert (Hinj : forall m m' (d d' : bytes) s s', Some (File m d s) = Some (File m' d' s') -> d = d') by congruence.
    assert (Hinj' : forall d d' : dict, Ok d = Ok d' -> d = d') by congruence.
    pose proof (load_manifest _ _ sample_values) as Hl'. rewrite (Hinj _ _ _ _ _ _ Hc) in Hl'. rewrite Hl in Hl'.
    rewrite (Hinj' _ _ Hl').
    rewrite (proj2 (entry_read_back _ _ "users" Hu)). by rewrite (rows_read_back _ _ sample_values). }
  apply (digest_pins_rows v bundle_dir b _ "users" Hb Hres Hu); rewrite ?Hm.
  - rewrite Hrows. exact Hvals.
  - by apply enc_rows_json.
  - by apply enc_rows_json.
Defined.
