(* ===== verification/DbCore.v ===== *)
(** * Database admission and readiness (src/backend/app/database.py)

    The in-process state that decides whether an operation is admitted, the
    fail-stop latch and the readiness report.  [transaction] and [reading] are
    the operation boundary as its clients see it: a transaction body either
    commits whole or leaves no trace. *)
From S2P Require Import Prelude Py Effects.
Open Scope Z_scope.

Record admission := Admission {
  _fail_stop : option string;
  _closed : bool;
  _closing : bool;
  _unresolved : list string;
  _unclosed : list nat;
  _late_results : list string
}.

Definition healthy : admission := Admission None false false [] [] [].

Definition fail_stop_text (reason : string) : string :=
  ("database is restart-required: " ++ reason)%string.

Definition _enter_fail_stop (reason : string) (a : admission) : admission :=
  match _fail_stop a with
  | None => Admission (Some (fail_stop_text reason)) (_closed a) (_closing a)
              (_unresolved a) (_unclosed a) (_late_results a)
  | Some _ => a
  end.

Definition _fail_stop_now (reason : string) (a : admission) : exn * admission :=
  (DatabaseFailStop (fail_stop_text reason), _enter_fail_stop reason a).

(** A connection is recorded once, whatever path reaches it. *)
Definition _register_unclosed (conn : nat) (a : admission) : admission :=
  if existsb (Nat.eqb conn) (_unclosed a) then a
  else Admission (_fail_stop a) (_closed a) (_closing a) (_unresolved a)
         (_unclosed a ++ [conn]) (_late_results a).

Definition _require_admission (a : admission) : res unit :=
  match _fail_stop a with
  | Some r => Raise (DatabaseFailStop r)
  | None =>
      if _closed a then Raise (DatabaseFailStop "database is closed")
      else if _closing a then Raise (DatabaseFailStop "database is closing")
      else Ok tt
  end.

Definition db_fail_stop_reason (a : admission) : option string := _fail_stop a.

Inductive db_state :=
| StFailStop | StClosed | StClosing | StUnresolved | StUnclosed | StLate | StOk.

#[export] Instance db_state_eq_dec : EqDecision db_state.
Proof. solve_decision. Defined.

Record readiness_report := Readiness {
  ready : bool;
  database_state : db_state;
  restart_required : bool;
  unresolved_workers : nat;
  unclosed_connections : nat;
  late_results : nat
}.

Definition readiness (a : admission) : readiness_report :=
  let unresolved := length (_unresolved a) in
  let unclosed := length (_unclosed a) in
  let late := length (_late_results a) in
  let failed := match _fail_stop a with Some _ => true | None => false end in
  let some n := negb (n =? 0)%nat in
  let state :=
    if failed then StFailStop
    else if _closed a then StClosed
    else if _closing a then StClosing
    else if some unresolved then StUnresolved
    else if some unclosed then StUnclosed
    else if some late then StLate
    else StOk in
  Readiness (bool_decide (state = StOk)) state
    (failed || some unresolved || some unclosed || some late)
    unresolved unclosed late.

Section Boundary.
Context {S : Type} (adm : S -> admission).

Definition transaction {A} (body : M S A) : M S A := fun s =>
  match _require_admission (adm s) with
  | Ok _ => rolled_back body s
  | Raise e => (Raise e, s)
  end.

Definition reading {A} (f : S -> A) : M S A := fun s =>
  match _require_admission (adm s) with
  | Ok _ => (Ok (f s), s)
  | Raise e => (Raise e, s)
  end.

Lemma keeps_transaction {A} (I : S -> Prop) (body : M S A) :
  keeps I body -> keeps I (transaction body).
Proof.
  intros Hb s Hs. unfold transaction. destruct (_require_admission (adm s)); [|done].
  by apply keeps_rolled_back.
Qed.

Lemma keeps_reading {A} (I : S -> Prop) (f : S -> A) : keeps I (reading f).
Proof. intros s Hs. unfold reading. by destruct (_require_admission (adm s)). Qed.

Lemma transaction_ok {A} (body : M S A) s a s' :
  transaction body s = (Ok a, s') <->
  _require_admission (adm s) = Ok tt /\ body s = (Ok a, s').
Proof.
  unfold transaction, rolled_back. destruct (_require_admission (adm s)) as [[]|e].
  - destruct (body s) as [[b|e] s1]; split; [done | by intros [_ ?] | done | by intros [_ ?]].
  - split; [done | by intros [? _]].
Qed.

Lemma reading_ok {A} (f : S -> A) s a s' :
  reading f s = (Ok a, s') <-> _require_admission (adm s) = Ok tt /\ f s = a /\ s = s'.
Proof.
  unfold reading. destruct (_require_admission (adm s)) as [[]|e].
  - split; [by intros [= -> ->] | by intros (_ & -> & ->)].
  - split; [done | by intros [? _]].
Qed.

(** An operation that raises leaves the tables as they were. *)
Lemma transaction_raise {A} (body : M S A) s e s' :
  transaction body s = (Raise e, s') -> s' = s.
Proof.
  unfold transaction, rolled_back. destruct (_require_admission (adm s)) as [[]|?].
  - destruct (body s) as [[b|?] s1]; by intros [=].
  - by intros [=].
Qed.
End Boundary.

#[export] Hint Resolve keeps_transaction keeps_reading : keeps.

(** ** The latch *)

(** Fail-stop keeps its first reason and refuses every later operation. *)
Theorem fail_stop_latches (reasons : list string) reason a :
  _fail_stop a = None ->
  let a' := fold_left (fun a r => _enter_fail_stop r a) reasons (_enter_fail_stop reason a) in
  _fail_stop a' = Some (fail_stop_text reason) /\
  _require_admission a' = Raise (DatabaseFailStop (fail_stop_text reason)) /\
  ready (readiness a') = false /\ restart_required (readiness a') = true.
Proof.
  intros Ha. cbn zeta. set (a1 := _enter_fail_stop reason a).
  assert (H1 : _fail_stop a1 = Some (fail_stop_text reason)).
  { unfold a1, _enter_fail_stop. by rewrite Ha. }
  clearbody a1. revert a1 H1. induction reasons as [|r rs IH]; intros a1 H1; simpl.
  - split; [done|]. unfold _require_admission, readiness. by rewrite H1.
  - apply IH. unfold _enter_fail_stop. by rewrite H1.
Qed.

(** The report says ready exactly when operations are admitted and nothing
    is outstanding. *)
Theorem readiness_exact a :
  ready (readiness a) = true <->
  _require_admission a = Ok tt /\ _unresolved a = [] /\ _unclosed a = [] /\ _late_results a = [].
Proof.
  unfold readiness, _require_admission. simpl.
  destruct (_fail_stop a); [by split; [|intros [? _]]|].
  destruct (_closed a); [by split; [|intros [? _]]|].
  destruct (_closing a); [by split; [|intros [? _]]|].
  destruct (_unresolved a); [|by split; [|intros (_ & ? & _)]].
  destruct (_unclosed a); [|by split; [|intros (_ & _ & ? & _)]].
  destruct (_late_results a); by split; [|intros (_ & _ & _ & ?)].
Qed.

Lemma fail_stop_latches_witness :
  _fail_stop healthy = None /\
  _fail_stop (_enter_fail_stop "second" (_enter_fail_stop "first" healthy)) =
    Some (fail_stop_text "first").
Proof.
  split; [reflexivity|].
  destruct (fail_stop_latches ["second"%string] "first" healthy eq_refl) as [H _]. exact H.
Defined.
