(* ===== verification/Worker.v ===== *)
(** * The aiosqlite worker (src/backend/app/database.py, lines 63-1201)

    One SQLite file, the connections a process has built to it, each with the thread
    that runs its operations in order, and [_submit]: an operation is handed to a worker
    and its ending is recovered, or not.  A schedule of turns decides how each
    submission ends, what the workers did meanwhile and what fails. *)
From S2P Require Import Prelude Py Effects DbCore.
Open Scope Z_scope.

(** ** SQLite *)

(** A content [D] of the file, statements [S] with their parameters, and what a
    statement gives back ([R]: its rows, the row count, the last row id). *)
Class Engine (D S R : Type) := {
  exec : S -> D -> res R * D;
  writes : S -> bool;                     (** takes the write lock of the file *)
  statement : string -> S;
  text : S -> string;                     (** its SQL *)
  first_value : R -> option pyval;        (** [rows[0][0]], if there is a row *)
  in_memory : bool;                       (** [_db_path == ":memory:"] *)
  repr : exn -> string;
  repr_value : option pyval -> string
}.

(** The exceptions a driver raises. *)
Inductive driver_error :=
| DriverError (name : string)             (** a [sqlite3.Error] subclass *)
| WrapperError (msg : string)             (** aiosqlite's [ValueError] *)
| OtherFailure (msg : string).

Definition driver_exn (e : driver_error) : exn :=
  match e with
  | DriverError name => SqliteError name
  | WrapperError msg => ValueError msg
  | OtherFailure msg => OtherError msg
  end.

Definition is_driver (e : exn) : bool :=
  match e with SqliteError _ | ValueError _ | OtherError _ | IntegrityError => true | _ => false end.

(** ** The guard of the read helper *)

Definition _READ_ONLY_HEADS : list string := ["SELECT"; "WITH"; "EXPLAIN"]%string.

(** What [_MUTATING_TOKEN] looks for between word boundaries, in any case. *)
Definition _MUTATING_TOKEN : list string :=
  ["INSERT"; "UPDATE"; "DELETE"; "REPLACE"; "CREATE"; "ALTER"; "DROP"; "RETURNING"; "VACUUM";
   "ATTACH"; "DETACH"; "REINDEX"; "BEGIN"; "COMMIT"; "ROLLBACK"; "SAVEPOINT"; "RELEASE"]%string.

(** [\w] on Latin-1. *)
Definition is_word_char (c : ascii) : bool :=
  is_alnum c || Ascii.eqb c "_" || existsb (Nat.eqb (nat_of_ascii c)) [170; 178; 179; 181; 185; 186; 188; 189; 190]%nat ||
  chr_in 192 214 c || chr_in 216 246 c || chr_in 248 255 c.

(** The words of a text, from one word boundary to the next. *)
Fixpoint words_aux (word l : list ascii) : list string :=
  match l with
  | [] => [of_chars (rev word)]
  | c :: l => if is_word_char c then words_aux (c :: word) l else of_chars (rev word) :: words_aux [] l
  end.

Definition mutating (sql : string) : bool := existsb (fun w => str_mem (upper w) _MUTATING_TOKEN) (words_aux [] (chars sql)).

Definition _require_read_only (sql : string) : res unit :=
  let head := match split_words sql with w :: _ => upper w | [] => EmptyString end in
  if String.eqb head "PRAGMA" then Raise ReadOnlyViolation
  else if negb (str_mem head _READ_ONLY_HEADS) || mutating sql then Raise ReadOnlyViolation
  else Ok tt.

#[global] Arguments _require_read_only : simpl never.

(** What a new connection is told, and asked. *)
Definition connection_settings : list string :=
  ["PRAGMA journal_mode=WAL"; "PRAGMA busy_timeout=5000"; "PRAGMA foreign_keys=ON";
   "PRAGMA journal_mode"; "PRAGMA busy_timeout"; "PRAGMA foreign_keys"]%string.

(** ... a statement raises no other; a query only reads, and so do the settings. *)
Class EngineLaws {D S R} `{Engine D S R} : Prop := {
  exec_raises s d e d' : exec s d = (Raise e, d') -> is_driver e = true;
  read_only_pure s d : _require_read_only (text s) = Ok tt -> (exec s d).2 = d;
  pragma_pure t d : In t connection_settings -> (exec (statement t) d).2 = d
}.

(** How an operation can go wrong at the worker. *)
Inductive fault :=
| FailsBefore (e : driver_error)          (** nothing was done *)
| FailsAfter (e : driver_error)           (** done, and the answer lost *)
| EndsTransaction (e : driver_error)      (** failed, and SQLite rolled back *)
| Ignored.                                (** a commit or rollback that only reports success *)

Inductive op {S : Type} :=
| Connect
| Execute (s : S)
| Begin
| Commit
| Rollback
| Fetch (cursor : nat)
| CloseCursor (cursor : nat)
| CloseConn.
Arguments op : clear implicits.
Arguments Connect {S}.
Arguments Execute {S}.
Arguments Begin {S}.
Arguments Commit {S}.
Arguments Rollback {S}.
Arguments Fetch {S}.
Arguments CloseCursor {S}.
Arguments CloseConn {S}.

Inductive answer {R : Type} :=
| Nothing
| Cursor (cursor : nat)
| Rows (rows : R).
Arguments answer : clear implicits.
Arguments Nothing {R}.
Arguments Cursor {R}.
Arguments Rows {R}.

(** An aiosqlite worker thread: it stops some time after a close was run. *)
Inductive thread := Unstarted | Running | Stopping | Exited.

Record conn {D S R : Type} := Conn {
  tx : option D;                          (** the working copy of an open transaction *)
  cursors : list (nat * option R);        (** what is open, with what it has to fetch *)
  queue : list (nat * op S * option fault);   (** handed over and not yet run *)
  opened : bool;
  worker : thread
}.
Arguments conn : clear implicits.
Arguments Conn {D S R}.

(** ** The process *)

Inductive disposal := OwnsNothing | OwnsConnection | OwnsCursor.

Record unresolved := Unresolved { u_what : string; u_task : nat; u_disposal : disposal; u_owner : nat }.
Record late_result := LateResult { l_what : string; l_disposal : disposal; l_obj : nat; l_owner : nat }.

Inductive task {R : Type} := TaskRunning | TaskCancelled | TaskDone (r : res (answer R)).
Arguments task : clear implicits.
Arguments TaskRunning {R}.
Arguments TaskCancelled {R}.
Arguments TaskDone {R}.

(** A [write_transaction] handle, and the task that opened it. *)
Record handle := Handle { h_id : nat; h_conn : nat; h_owner : nat; h_cursors : list nat; h_closed : bool }.

Inductive ending := Answered | Unanswered | Dropped.

(** What happens at one point where a worker or a thread is looked at. *)
Record turn := Turn {
  t_late : list nat;        (** the workers that ran one more queued operation *)
  t_readable : bool;        (** [in_transaction] can be read: the wrapper has its connection *)
  t_exits : bool;           (** the threads that were stopping have exited *)
  t_closing : bool;         (** [close_db] has begun *)
  t_cancelled : bool;       (** the caller is cancelled while it waits *)
  t_ending : ending;
  t_fault : option fault
}.

Definition calm : turn := Turn [] true true false false Answered None.

Record db {D S R : Type} := Db {
  disk : D;                               (** what is committed *)
  conns : list (conn D S R);              (** every connection ever built, by number *)
  tasks : list (task R);
  counter : nat;                          (** numbers of cursors, incidents and handles *)
  shared : option nat;
  metric : option nat;
  fail_stop : option string;
  closing : bool;
  closed : bool;
  unresolved_ : list unresolved;
  unclosed_ : list nat;
  late_ : list late_result;
  events : list string;                   (** every fail-stop that was logged *)
  hnd : handle;                           (** the latest handle *)
  turns : list turn;
  interrupted : bool                      (** some waiting of this operation was cancelled *)
}.
Arguments db : clear implicits.
Arguments Db {D S R}.

(** What [DbCore] looks at. *)
Definition admission_of {D S R} (w : db D S R) : admission :=
  Admission (fail_stop w) (closed w) (closing w) (u_what <$> unresolved_ w) (unclosed_ w) (l_what <$> late_ w).

Section Setters.
Context {D S R : Type}.
Implicit Types w : db D S R.

Definition with_disk w (x : D) : db D S R :=
  Db x (conns w) (tasks w) (counter w) (shared w) (metric w) (fail_stop w) (closing w)
  (closed w) (unresolved_ w) (unclosed_ w) (late_ w) (events w) (hnd w) (turns w) (interrupted w).
Definition with_conns w (x : list (conn D S R)) : db D S R :=
  Db (disk w) x (tasks w) (counter w) (shared w) (metric w) (fail_stop w) (closing w)
  (closed w) (unresolved_ w) (unclosed_ w) (late_ w) (events w) (hnd w) (turns w) (interrupted w).
Definition with_tasks w (x : list (task R)) : db D S R :=
  Db (disk w) (conns w) x (counter w) (shared w) (metric w) (fail_stop w) (closing w)
  (closed w) (unresolved_ w) (unclosed_ w) (late_ w) (events w) (hnd w) (turns w) (interrupted w).
Definition with_counter w (x : nat) : db D S R :=
  Db (disk w) (conns w) (tasks w) x (shared w) (metric w) (fail_stop w) (closing w)
  (closed w) (unresolved_ w) (unclosed_ w) (late_ w) (events w) (hnd w) (turns w) (interrupted w).
Definition with_published w (x : option nat) (y : option nat) : db D S R :=
  Db (disk w) (conns w) (tasks w) (counter w) x y (fail_stop w) (closing w)
  (closed w) (unresolved_ w) (unclosed_ w) (late_ w) (events w) (hnd w) (turns w) (interrupted w).
Definition with_latch w (x : option string) (y : list string) : db D S R :=
  Db (disk w) (conns w) (tasks w) (counter w) (shared w) (metric w) x (closing w)
  (closed w) (unresolved_ w) (unclosed_ w) (late_ w) y (hnd w) (turns w) (interrupted w).
Definition with_shut w (x : bool) (y : bool) : db D S R :=
  Db (disk w) (conns w) (tasks w) (counter w) (shared w) (metric w) (fail_stop w) x
  y (unresolved_ w) (unclosed_ w) (late_ w) (events w) (hnd w) (turns w) (interrupted w).
Definition with_unresolved w (x : list unresolved) : db D S R :=
  Db (disk w) (conns w) (tasks w) (counter w) (shared w) (metric w) (fail_stop w)
  (closing w) (closed w) x (unclosed_ w) (late_ w) (events w) (hnd w) (turns w) (interrupted w).
Definition with_unclosed w (x : list nat) : db D S R :=
  Db (disk w) (conns w) (tasks w) (counter w) (shared w) (metric w) (fail_stop w)
  (closing w) (closed w) (unresolved_ w) x (late_ w) (events w) (hnd w) (turns w) (interrupted w).
Definition with_late w (x : list late_result) : db D S R :=
  Db (disk w) (conns w) (tasks w) (counter w) (shared w) (metric w) (fail_stop w)
  (closing w) (closed w) (unresolved_ w) (unclosed_ w) x (events w) (hnd w) (turns w) (interrupted w).
Definition with_handle w (x : handle) : db D S R :=
  Db (disk w) (conns w) (tasks w) (counter w) (shared w) (metric w) (fail_stop w)
  (closing w) (closed w) (unresolved_ w) (unclosed_ w) (late_ w) (events w) x (turns w) (interrupted w).
Definition with_turns w (x : list turn) (y : bool) : db D S R :=
  Db (disk w) (conns w) (tasks w) (counter w) (shared w) (metric w) (fail_stop w)
  (closing w) (closed w) (unresolved_ w) (unclosed_ w) (late_ w) (events w) (hnd w) x y.

Definition set_tx (t : option D) (k : conn D S R) : conn D S R := Conn t (cursors k) (queue k) (opened k) (worker k).
Definition set_cursors l (k : conn D S R) : conn D S R := Conn (tx k) l (queue k) (opened k) (worker k).
Definition set_queue q (k : conn D S R) : conn D S R := Conn (tx k) (cursors k) q (opened k) (worker k).
Definition set_worker t (k : conn D S R) : conn D S R := Conn (tx k) (cursors k) (queue k) (opened k) t.
Definition set_opened (k : conn D S R) : conn D S R := Conn (tx k) (cursors k) (queue k) true (worker k).

(** The wrapper lets go of its connection; what SQLite holds open stays open. *)
Definition drop_wrapper (k : conn D S R) : conn D S R := Conn (tx k) (cursors k) (queue k) false (worker k).

Definition on_conn (c : nat) (f : conn D S R -> conn D S R) w := with_conns w (alter f c (conns w)).
Definition has_open_tx (k : conn D S R) : bool := match tx k with Some _ => true | None => false end.
End Setters.

(** ** What the worker does *)

Section Worker.
Context {D S R : Type} {E : Engine D S R}.
Implicit Types (w : db D S R) (k : conn D S R).

(** Another connection holds the write lock of the file. *)
Definition locked_out (c : nat) w : bool := existsb has_open_tx (delete c (conns w)).

Definition busy : exn := SqliteError "OperationalError".
Definition programming_error : exn := SqliteError "ProgrammingError".

(** A connection with the content of the file and the number of the next cursor. *)
Definition site : Type := conn D S R * D * nat.

Definition new_cursor (r : option R) (x : site) : res (answer R) * site :=
  let '(k, d, n) := x in (Ok (Cursor n), (set_cursors (cursors k ++ [(n, r)]) k, d, Datatypes.S n)).

Definition drop_cursor (cur : nat) k : conn D S R :=
  set_cursors (List.filter (fun p => negb (p.1 =? cur)%nat) (cursors k)) k.

(** A statement: inside the open transaction, else on the file itself. *)
Definition run_statement (locked : bool) (s : S) (x : site) : res (answer R) * site :=
  let '(k, d, n) := x in
  match tx k with
  | Some v =>
      let '(r, v') := exec s v in
      let x := (set_tx (Some v') k, d, n) in
      match r with Ok rows => new_cursor (Some rows) x | Raise e => (Raise e, x) end
  | None =>
      if writes s && locked then (Raise busy, x)
      else match exec s d with
           | (Ok rows, d') => new_cursor (Some rows) (k, d', n)
           | (Raise e, _) => (Raise e, x)
           end
  end.

Definition find_cursor (cur : nat) k : option (option R) :=
  snd <$> List.find (fun p => (p.1 =? cur)%nat) (cursors k).

Definition effect (locked : bool) (o : op S) (x : site) : res (answer R) * site :=
  let '(k, d, n) := x in
  match o with
  | Connect => (Ok Nothing, (set_opened k, d, n))
  | Execute s => run_statement locked s x
  | Begin =>
      match tx k, locked with
      | None, false => new_cursor None (set_tx (Some d) k, d, n)
      | _, _ => (Raise busy, x)
      end
  | Commit => (Ok Nothing, match tx k with Some v => (set_tx None k, v, n) | None => x end)
  | Rollback => (Ok Nothing, (set_tx None k, d, n))
  | Fetch cur => (match find_cursor cur k with Some (Some r) => Ok (Rows r) | _ => Raise programming_error end, x)
  | CloseCursor cur => (Ok Nothing, (drop_cursor cur k, d, n))
  | CloseConn => (Ok Nothing, (Conn None [] (queue k) false Stopping, d, n))
  end.

Definition contains_closed (msg : string) : bool := bool_decide (is_Some (String.index 0 "closed" msg)).

(** The messages that prove that a cursor is gone. *)
Definition _cursor_already_gone (e : exn) : bool :=
  match e with
  | SqliteError name => String.eqb name "ProgrammingError"
  | ValueError msg => contains_closed (lower msg)
  | _ => false
  end.

(** A failed connect ends its thread; a close that says the cursor is gone is right; a
    close of the connection that fails has let go of it all the same. *)
Definition after_failure (o : op S) (e : exn) k : conn D S R :=
  match o with
  | Connect => set_worker Stopping k
  | CloseCursor cur => if _cursor_already_gone e then drop_cursor cur k else k
  | CloseConn => drop_wrapper k
  | _ => k
  end.

(** The cursor of an answer that was lost goes with the answer. *)
Definition forget (r : res (answer R)) k : conn D S R :=
  match r with Ok (Cursor cur) => drop_cursor cur k | _ => k end.

(** Only a statement's own work can make SQLite roll the transaction back. *)
Definition can_end (o : op S) : bool := match o with Execute _ | Fetch _ | Commit => true | _ => false end.

(** A commit or a rollback is what may only report success. *)
Definition can_lie (o : op S) : bool := match o with Commit | Rollback => true | _ => false end.

Definition attempt (locked : bool) (o : op S) (f : option fault) (x : site) : res (answer R) * site :=
  let '(k, d, n) := x in
  let failing e := (Raise (driver_exn e), (after_failure o (driver_exn e) k, d, n)) in
  match f, o with
  | Some (FailsBefore e), _ | Some (FailsAfter e), Connect => failing e
  | Some (EndsTransaction e), _ => if can_end o then (Raise (driver_exn e), (set_tx None k, d, n)) else failing e
  | Some (FailsAfter e), _ =>
      let '(r, (k, d, n)) := effect locked o x in (Raise (driver_exn e), (forget r k, d, n))
  | Some Ignored, _ => if can_lie o then (Ok Nothing, x) else effect locked o x
  | None, _ => effect locked o x
  end.

Definition usable (o : op S) k : bool := match o with Connect => true | _ => opened k end.

Definition act (locked : bool) (o : op S) (f : option fault) (x : site) : res (answer R) * site :=
  let '(k, d, n) := x in
  if usable o k then attempt locked o f x
  else match o with
       | CloseConn => (Ok Nothing, x)
       | _ => let e := ValueError "Connection closed" in (Raise e, (after_failure o e k, d, n))
       end.

#[global] Arguments act : simpl never.

Definition touched (c : nat) w (x : site) : db D S R :=
  let '(k, d, n) := x in with_counter (with_disk (with_conns w (<[c := k]> (conns w))) d) n.

Definition perform (c : nat) (o : op S) (f : option fault) w : res (answer R) * db D S R :=
  match conns w !! c with
  | None => (Raise programming_error, w)
  | Some k => let '(r, x) := act (locked_out c w) o f (k, disk w, counter w) in (r, touched c w x)
  end.

(** What a task was awaiting is known, unless the task itself was cancelled. *)
Definition finish_task (t : nat) (r : res (answer R)) w : db D S R :=
  with_tasks w (alter (fun s => match s with TaskCancelled => TaskCancelled | _ => TaskDone r end) t (tasks w)).

Definition run_next w (c : nat) : db D S R :=
  match conns w !! c with
  | Some k =>
      match queue k with
      | (t, o, f) :: q =>
          let '(r, w) := perform c o f (on_conn c (set_queue q) w) in finish_task t r w
      | [] => w
      end
  | None => w
  end.

Definition drain (c : nat) w : db D S R :=
  match conns w !! c with
  | Some k => Nat.iter (length (queue k)) (fun w => run_next w c) w
  | None => w
  end.

Definition exits k : conn D S R :=
  match worker k with Stopping => set_worker Exited k | _ => k end.

(** ** Submitting *)

Abbreviation K := (M (db D S R)).

(** The next turn, and what the workers did until then. *)
Definition next_turn : K turn := fun w =>
  let t := default calm (head (turns w)) in
  let w := with_turns w (tail (turns w)) (interrupted w) in
  let w := if t_closing t then with_shut w true (closed w) else w in
  let w := if t_exits t then with_conns w (exits <$> conns w) else w in
  (Ok t, fold_left run_next (t_late t) w).

(** The wait of a turn: the cancellation it collected. *)
Definition waited (t : turn) : K unit :=
  modify (fun w => if t_cancelled t then with_turns w (turns w) true else w).
Definition owed (t : turn) : option exn := if t_cancelled t then Some CancelledError else None.

Definition enter_fail_stop (reason : string) : K unit :=
  modify (fun w => with_latch w (Some (default (fail_stop_text reason) (fail_stop w))) (events w ++ [reason])).

Definition fail_stop_now (reason : string) : K exn :=
  _ ← enter_fail_stop reason; mret (DatabaseFailStop (fail_stop_text reason)).

Definition register_unclosed (c : nat) : K unit :=
  modify (fun w => if existsb (Nat.eqb c) (unclosed_ w) then w else with_unclosed w (unclosed_ w ++ [c])).

Definition _register_unresolved (what : string) (t : nat) (d : disposal) (owner : nat) : K unit :=
  _ ← modify (fun w => with_unresolved w (unresolved_ w ++ [Unresolved what t d owner]));
  enter_fail_stop (what ++ ": worker outcome unresolved")%string.

Definition new_task : K nat := fun w => (Ok (length (tasks w)), with_tasks w (tasks w ++ [TaskRunning])).

Definition start_worker (c : nat) (o : op S) : K unit :=
  match o with
  | Connect => modify (on_conn c (set_worker Running))
  | _ => mret tt
  end.

(** Hand one operation to the worker of [c] and recover its terminal outcome.  The turn
    says how the bounded wait ended and whether the caller was cancelled in it. *)
Definition _submit (c : nat) (o : op S) (what : string) (d : disposal) : K (answer R * option exn) :=
  id ← new_task;
  _ ← start_worker c o;
  t ← next_turn;
  _ ← waited t;
  match t_ending t with
  | Answered =>
      r ← run_pure (fun w => perform c o (t_fault t) (drain c w));
      _ ← modify (finish_task id r);
      match r with
      | Ok a => mret (a, owed t)
      | Raise e => raise (if t_cancelled t then CancelledAfterWorkerError e else e)
      end
  | lost =>
      _ ← modify (on_conn c (fun k => set_queue (queue k ++ [(id, o, t_fault t)]) k));
      _ ← (match lost with
           | Dropped => modify (fun w => with_tasks w (alter (fun _ => TaskCancelled) id (tasks w)))
           | _ => mret tt end);
      _ ← _register_unresolved what id d c;
      raise (match lost with
             | Dropped => ChildCancelled what (t_cancelled t)
             | _ => OutcomeUnknown what (t_cancelled t) end)
  end.

(** [try: ... except BaseException as exc: ...], the exception as a value. *)
Definition trying {A} (m : K A) : K (res A) := fun w => let '(r, w') := m w in (Ok r, w').

Definition cursor_of (a : answer R) : nat := match a with Cursor n => n | _ => 0%nat end.

Definition _close_cursor (c cur : nat) : K (option exn) :=
  r ← trying (_submit c (CloseCursor cur) "cursor close" OwnsNothing);
  match r with
  | Ok (_, cancelled) => mret cancelled
  | Raise e => if _cursor_already_gone e then mret None else raise e
  end.

Definition _rollback (c : nat) : K (option exn) := '(_, cancelled) ← _submit c Rollback "rollback" OwnsNothing; mret cancelled.

(** The thread is the question, not the wrapper's own flag. *)
Definition _worker_alive (c : nat) w : bool :=
  match worker <$> conns w !! c with Some Running | Some Stopping => true | _ => false end.

Definition _join_worker (c : nat) : K bool :=
  alive ← gets (_worker_alive c);
  if negb alive then mret true
  else
    t ← next_turn;
    _ ← waited t;
    if t_cancelled t then raise CancelledError
    else alive ← gets (_worker_alive c); mret (negb alive).

(** True, false, or cannot be read: a wrapper that let go of its connection has done so
    for good. *)
Definition _transaction_state (c : nat) : K (option bool) :=
  t ← next_turn;
  _ ← modify (fun w => if t_readable t then w else on_conn c drop_wrapper w);
  gets (fun w => match conns w !! c with
                 | Some k => if opened k then Some (has_open_tx k) else None
                 | None => None
                 end).
End Worker.
