(* ===== verification/Boundary.v ===== *)
(** * The operation boundary (src/backend/app/database.py, lines 252-2075)

    Outcomes and what they owe, connections built and discarded, write transactions and
    reads, exactly one at a time under the operation lock. *)
From S2P Require Import Prelude Py Effects PyOps PyVals DbCore Worker.
Open Scope Z_scope.

(** ** What an operation accumulates *)

(** An incident is an object: a number, and whether its fail-stop is on record. *)
Record incident := Incident { i_number : nat; i_recorded : bool }.
Record problem := Problem { p_message : string; p_incident : incident }.

Record outcome := Outcome {
  o_cancelled : option exn;
  o_error : option exn;
  o_problems : list problem
}.

Definition no_outcome : outcome := Outcome None None [].

Definition owe (c : option exn) (o : outcome) : outcome :=
  match c, o_cancelled o with
  | Some _, None => Outcome c (o_error o) (o_problems o)
  | _, _ => o
  end.

Definition owed_if (b : bool) : option exn := if b then Some CancelledError else None.

Definition with_error (e : exn) (o : outcome) : outcome :=
  match o_error o with
  | None => Outcome (o_cancelled o) (Some e) (o_problems o)
  | Some _ => o
  end.

Definition absorb (e : exn) (o : outcome) : outcome :=
  match e with
  | CancelledAfterWorkerError e' => with_error e' (owe (Some e) o)
  | OutcomeUnknown _ c | ChildCancelled _ c => with_error e (owe (owed_if c) o)
  | CancelledError => owe (Some e) o
  | _ => with_error e o
  end.

Definition take_problems (other o : outcome) : outcome :=
  Outcome (o_cancelled o) (o_error o) (o_problems o ++ o_problems other).

Definition resolved (o : outcome) : bool :=
  match o_error o, o_problems o with None, [] => true | _, _ => false end.

Definition is_cancelled (e : exn) : bool :=
  match e with CancelledError | CancelledAfterWorkerError _ => true | _ => false end.

(** What the caller must be handed: a cancellation wins, and the error rides along. *)
Definition _caller_owed (c : option exn) (e : exn) : exn :=
  match c with
  | None => e
  | Some _ => if is_cancelled e then e else CancelledAfterWorkerError e
  end.

Definition _already_fail_stopped (e : exn) : bool :=
  match e with OutcomeUnknown _ _ | ChildCancelled _ _ => true | _ => false end.

Definition _is_private (e : exn) : bool :=
  match e with OutcomeUnknown _ _ | ChildCancelled _ _ | CancelledAfterWorkerError _ => true | _ => false end.

(** The problems under the incident they belong to, as first observed. *)
Fixpoint put_problem (p : problem) (l : list (incident * list string)) : list (incident * list string) :=
  match l with
  | [] => [(p_incident p, [p_message p])]
  | (i, ms) :: l =>
      if (i_number i =? i_number (p_incident p))%nat then (i, ms ++ [p_message p]) :: l
      else (i, ms) :: put_problem p l
  end.

Definition _by_incident (o : outcome) : list (incident * list string) :=
  fold_left (fun l p => put_problem p l) (o_problems o) [].

Definition semicolons (l : list string) : string := join_str "; " l.

Section Boundary.
Context {D S R : Type} {E : Engine D S R}.
Abbreviation K := (M (db D S R)).

Fixpoint _public_detail (e : exn) : string :=
  match e with
  | CancelledAfterWorkerError e => "cancelled; the worker then failed with " ++ _public_detail e
  | OutcomeUnknown what _ | ChildCancelled what _ => "worker outcome unresolved: " ++ what
  | _ => repr e
  end%string.

Definition fresh_number : K nat := fun w => (Ok (counter w), with_counter w (counter w + 1)%nat).

(** A safety problem; without an incident to attach it to, one of its own. *)
Definition unsafe (msg : string) (recorded : bool) (i : option incident) (o : outcome) : K (incident * outcome) :=
  i ← (match i with
       | Some i => mret i
       | None => n ← fresh_number; mret (Incident n recorded)
       end);
  mret (i, Outcome (o_cancelled o) (o_error o) (o_problems o ++ [Problem msg i])).

(** The single exception this operation owes its caller, or none. *)
Definition settle (o : outcome) : K (option exn) :=
  match o_problems o with
  | [] => mret (match o_error o with
                | Some e => Some (_caller_owed (o_cancelled o) e)
                | None => o_cancelled o
                end)
  | _ =>
      let reason := semicolons (p_message <$> o_problems o) in
      let fresh := List.filter (fun g => negb (i_recorded g.1)) (_by_incident o) in
      stopped ← gets fail_stop;
      _ ← (if (length fresh =? 0)%nat && bool_decide (stopped = None) then enter_fail_stop reason else mret tt);
      _ ← for_each (fun g => enter_fail_stop (semicolons g.2)) fresh;
      let msg := (fail_stop_text reason ++
                  match o_error o with Some e => "; after " ++ _public_detail e | None => "" end)%string in
      mret (Some (_caller_owed (o_cancelled o) (DatabaseFailStop msg)))
  end.

(** ** Private classifications, translated *)

Fixpoint public_reason (stop : option string) (e : exn) : exn :=
  match e with
  | CancelledAfterWorkerError e => public_reason stop e
  | OutcomeUnknown what _ | ChildCancelled what _ =>
      DatabaseFailStop (default ("worker outcome unresolved: " ++ what)%string stop)
  | _ => e
  end.

Definition _as_public (stop : option string) (e : exn) : exn :=
  match e with
  | CancelledAfterWorkerError _ => CancelledError
  | OutcomeUnknown _ true | ChildCancelled _ true => CancelledError
  | OutcomeUnknown _ false | ChildCancelled _ false => public_reason stop e
  | _ => e
  end.

Definition _raise_public {A} (e : exn) : K A := stop ← gets fail_stop; raise (_as_public stop e).

Definition publicly {A} (m : K A) : K A := r ← trying m; match r with Ok a => mret a | Raise e => _raise_public e end.

(** ** Connections *)

(** One statement, drained, its cursor closed: the rows and a cancellation owed. *)
Definition execute_fetch (c : nat) (s : S) (what what_fetch : string) : K (option nat * option R * outcome) :=
  r ← trying (_submit c (Execute s) what OwnsCursor);
  match r with
  | Raise e => mret (None, None, absorb e no_outcome)
  | Ok (a, cancelled) =>
      let cur := cursor_of a in
      let o := owe cancelled no_outcome in
      r ← trying (_submit c (Fetch cur) what_fetch OwnsNothing);
      mret (match r with
            | Raise e => (Some cur, None, absorb e o)
            | Ok (Rows rows, cancelled) => (Some cur, Some rows, owe cancelled o)
            | Ok (_, cancelled) => (Some cur, None, owe cancelled o)
            end)
  end.

(** Close a statement's cursor; a close that fails is a problem. *)
Definition close_into (c : nat) (label : string) (cur : option nat) (o : outcome) : K outcome :=
  match cur with
  | None => mret o
  | Some cur =>
      r ← trying (_close_cursor c cur);
      match r with
      | Ok cancelled => mret (owe cancelled o)
      | Raise e => '(_, o) ← unsafe (label ++ _public_detail e)%string (_already_fail_stopped e) None (absorb e o); mret o
      end
  end.

Definition _run_statement (c : nat) (s : S) (what : string) : K (option R * option exn) :=
  '(cur, rows, o) ← execute_fetch c s what (what ++ " fetch")%string;
  o ← close_into c (what ++ ": cursor close: ")%string cur o;
  if resolved o then mret (rows, o_cancelled o)
  else f ← settle o; match f with Some e => raise e | None => raise TypeError end.

Definition _journal_mode_ok (v : option pyval) : bool :=
  let mode := lower (match v with Some (VStr s) => s | _ => "" end) in
  if in_memory then String.eqb mode "memory" || String.eqb mode "wal" else String.eqb mode "wal".

Definition reads_int (n : Z) (v : option pyval) : bool :=
  match v with
  | Some (VInt m) => m =? n
  | Some (VBool b) => Z.b2z b =? n
  | Some (VStr s) => match parse_int 10 s with Some m => m =? n | None => false end
  | Some (VFloat (Fin q)) => q_trunc q =? n
  | _ => false
  end.

Definition _PRAGMA_SETUP : list (string * string * (option pyval -> bool)) :=
  [("PRAGMA journal_mode=WAL", "PRAGMA journal_mode", _journal_mode_ok);
   ("PRAGMA busy_timeout=5000", "PRAGMA busy_timeout", reads_int 5000);
   ("PRAGMA foreign_keys=ON", "PRAGMA foreign_keys", reads_int 1)]%string.

(** Apply and read back one setting after the other; the outcome so far comes along. *)
Fixpoint set_pragmas (c : nat) (l : list (string * string * (option pyval -> bool))) (o : outcome) :
    K (option exn * outcome) :=
  match l with
  | [] => mret (None, o)
  | (apply_sql, read_sql, accepts) :: l =>
      r ← trying (_run_statement c (statement apply_sql) ("connect " ++ apply_sql)%string);
      match r with
      | Raise e => mret (Some e, o)
      | Ok (_, cancelled) =>
          let o := owe cancelled o in
          r ← trying (_run_statement c (statement read_sql) ("connect " ++ read_sql)%string);
          match r with
          | Raise e => mret (Some e, o)
          | Ok (rows, cancelled) =>
              let o := owe cancelled o in
              if accepts (rows ≫= first_value) then set_pragmas c l o
              else mret (Some (RuntimeError (read_sql ++ " read back " ++ repr_value (rows ≫= first_value)
                                       ++ "; refusing to publish this connection")%string), o)
          end
      end
  end.

Definition _configure (c : nat) : K (option exn) :=
  '(failed, o) ← set_pragmas c _PRAGMA_SETUP no_outcome;
  match failed with
  | None => mret (o_cancelled o)
  | Some e => f ← settle (absorb e o); raise (default e f)
  end.

(** Close a connection that will never be published, down to its thread. *)
Definition _discard_connection (c : nat) (what : string) : K outcome :=
  r ← trying (_submit c CloseConn (what ++ " discard close")%string OwnsNothing);
  o ← (match r with
       | Ok (_, cancelled) => mret (owe cancelled no_outcome)
       | Raise e =>
           '(_, o) ← unsafe (what ++ ": unpublished connection could not be closed: " ++ _public_detail e)%string
                       (_already_fail_stopped e) None (absorb e no_outcome); mret o
       end);
  o ← (if resolved o then
         r ← trying (_join_worker c);
         match r with
         | Ok true => mret o
         | Ok false => '(_, o) ← unsafe (what ++ ": unpublished connection closed but its aiosqlite worker thread did not exit")%string
                                   false None o; mret o
         | Raise e => '(_, o) ← unsafe (what ++ ": could not confirm the worker thread exited: " ++ _public_detail e)%string
                                  (_already_fail_stopped e) None (absorb e o); mret o
         end
       else mret o);
  _ ← (match o_problems o with [] => mret tt | _ => register_unclosed c end);
  mret o.

Definition _abandon_unpublished (c : nat) (what reason : string) : K exn :=
  d ← _discard_connection c what;
  f ← settle (absorb (DatabaseFailStop reason) (take_problems d (owe (o_cancelled d) no_outcome)));
  mret (default (DatabaseFailStop reason) f).

Definition shutting : K bool := gets (fun w => closing w || closed w).

(** A wrapper, known before it is awaited. *)
Definition new_connection : K nat :=
  fun w => (Ok (length (conns w)), with_conns w (conns w ++ [Conn None [] [] false Unstarted])).

(** What has to hold before a connection may be published. *)
Definition verify (c : nat) (build : outcome) : K (option exn * outcome) :=
  r ← trying (_configure c);
  match r with
  | Raise e => mret (Some e, build)
  | Ok cancelled =>
      let build := owe cancelled build in
      down ← shutting;
      mret (if (down : bool)
            then Some (DatabaseFailStop "database began closing while a connection was being built")
            else o_cancelled build, build)
  end.

Definition _open_connection (what : string) : K nat :=
  down ← shutting;
  if (down : bool) then raise (DatabaseFailStop "database is closing/closed; refusing to open a connection")
  else
    c ← new_connection;
    '(_, cancelled) ← _submit c Connect (what ++ " connect")%string OwnsConnection;
    '(failed, build) ← verify c (owe cancelled no_outcome);
    match failed with
    | None => mret c
    | Some e =>
        d ← _discard_connection c what;
        f ← settle (take_problems d (owe (o_cancelled d) (absorb e build)));
        raise (default e f)
    end.

(** [os.makedirs] of the file's directory, which can fail. *)
Definition make_directory : K unit :=
  if in_memory then mret tt
  else t ← next_turn; match t_fault t with Some (FailsBefore e) => raise (driver_exn e) | _ => mret tt end.

Definition _get_conn : K nat :=
  c ← gets shared;
  match c with
  | Some c => mret c
  | None =>
      down ← shutting;
      if (down : bool) then raise (DatabaseFailStop "database is closing/closed; no connection is published")
      else
        _ ← make_directory;
        c ← _open_connection "shared";
        down ← shutting;
        if (down : bool)
        then e ← _abandon_unpublished c "shared" "database began closing; connection not published"; raise e
        else _ ← modify (fun w => with_published w (Some c) (metric w)); mret c
  end.

Definition _get_metric_db : K nat :=
  c ← gets metric;
  match c with
  | Some c => mret c
  | None =>
      c ← _open_connection "metric";
      down ← shutting;
      if (down : bool)
      then e ← _abandon_unpublished c "metric" "database began closing; connection not published"; raise e
      else _ ← modify (fun w => with_published w (shared w) (Some c)); mret c
  end.

Definition _acquire_connection (on_metric : bool) : K nat :=
  publicly (if on_metric then _get_metric_db else _get_conn).

(** ** Statements inside a transaction *)

Definition on_handle (f : handle -> handle) : K unit := modify (fun w => with_handle w (f (hnd w))).

Definition set_handle_cursors (l : list nat) (h : handle) : handle :=
  Handle (h_id h) (h_conn h) (h_owner h) l (h_closed h).

Definition close_handle (h : handle) : handle := Handle (h_id h) (h_conn h) (h_owner h) (h_cursors h) true.

Definition _track (cur : nat) : K unit := on_handle (fun h => set_handle_cursors (h_cursors h ++ [cur]) h).

(** [list.remove]: the first one. *)
Fixpoint remove_first (n : nat) (l : list nat) : list nat :=
  match l with [] => [] | m :: l => if (m =? n)%nat then l else m :: remove_first n l end.

Definition _release (c cur : nat) : K (option exn) :=
  cancelled ← _close_cursor c cur;
  _ ← on_handle (fun h => set_handle_cursors (remove_first cur (h_cursors h)) h);
  mret cancelled.

(** Misuse is refused before anything reaches the worker. *)
Definition _check (h me : nat) : K unit :=
  k ← gets hnd;
  if negb (h_id k =? h)%nat || h_closed k then raise TransactionHandleMisuse
  else if negb (h_owner k =? me)%nat then raise TransactionHandleMisuse
  else mret tt.

Definition _run (c : nat) (s : S) (what : string) : K (nat * option exn) :=
  '(a, cancelled) ← _submit c (Execute s) what OwnsCursor;
  _ ← _track (cursor_of a);
  mret (cursor_of a, cancelled).

Definition _finish {A} (c : nat) (o : outcome) (cur : option nat) (value : option A) : K A :=
  o ← (match cur with
       | None => mret o
       | Some cur =>
           r ← trying (_release c cur);
           match r with
           | Ok cancelled => mret (owe cancelled o)
           | Raise e => '(_, o) ← unsafe ("statement cursor release: " ++ _public_detail e)%string
                                    (_already_fail_stopped e) None (absorb e o); mret o
           end
       end);
  f ← settle o;
  match f, value with
  | Some e, _ => _raise_public e
  | None, Some a => mret a
  | None, None => raise TypeError
  end.

(** The answer of a cursor that needs no submission: its row count and last row id. *)
Definition cursor_result (c cur : nat) : K (option R) :=
  gets (fun w => k ← conns w !! c; r ← find_cursor cur k; r).

(** [execute] and [executemany]. *)
Definition execute (h me : nat) (s : S) : K R :=
  _ ← _check h me;
  c ← gets (fun w => h_conn (hnd w));
  r ← trying (_run c s "execute");
  match r with
  | Raise e => _finish c (absorb e no_outcome) None None
  | Ok (cur, cancelled) =>
      result ← cursor_result c cur;
      _finish c (owe cancelled no_outcome) (Some cur) result
  end.

Definition fetch_all (h me : nat) (s : S) : K R :=
  _ ← _check h me;
  c ← gets (fun w => h_conn (hnd w));
  r ← trying (_run c s "fetch");
  match r with
  | Raise e => _finish c (absorb e no_outcome) None None
  | Ok (cur, cancelled) =>
      let o := owe cancelled no_outcome in
      r ← trying (_submit c (Fetch cur) "fetchall" OwnsNothing);
      match r with
      | Raise e => _finish c (absorb e o) (Some cur) None
      | Ok (Rows rows, cancelled) => _finish c (owe cancelled o) (Some cur) (Some rows)
      | Ok (_, cancelled) => _finish c (owe cancelled o) (Some cur) None
      end
  end.

(** ** Ending a transaction *)

(** A step whose endings are told apart: the outcome, and the incident if it failed. *)
Definition report_ending (r : res (option exn)) (failed cancelled unknown plain : string) (o : outcome) :
    K (option incident * outcome) :=
  match r with
  | Ok c => mret (None, owe c o)
  | Raise (CancelledAfterWorkerError e as exc) =>
      '(i, o) ← unsafe (failed ++ _public_detail e)%string (_already_fail_stopped e) None (owe (Some exc) o);
      mret (Some i, o)
  | Raise (ChildCancelled what c) =>
      '(i, o) ← unsafe (cancelled ++ what)%string true None (owe (owed_if c) o); mret (Some i, o)
  | Raise (OutcomeUnknown what c) =>
      '(i, o) ← unsafe (unknown ++ what)%string true None (owe (owed_if c) o); mret (Some i, o)
  | Raise CancelledError => mret (None, owe (Some CancelledError) o)
  | Raise e => '(i, o) ← unsafe (plain ++ repr e)%string false None o; mret (Some i, o)
  end.

Fixpoint cleanup_each (c : nat) (l : list nat) (o : outcome) : K outcome :=
  match l with
  | [] => mret o
  | cur :: l =>
      r ← trying (_close_cursor c cur);
      '(_, o) ← report_ending r "cursor close failed under cancellation: " "cursor close submission cancelled: "
                  "cursor close outcome unknown: " "cursor close: " o;
      cleanup_each c l o
  end.

Definition _cleanup_cursors (c : nat) (o : outcome) : K outcome :=
  l ← gets (fun w => h_cursors (hnd w));
  _ ← on_handle (set_handle_cursors []);
  cleanup_each c l o.

Definition _force_close_transaction (c : nat) (caused_by : option incident) (o : outcome) : K outcome :=
  state ← _transaction_state c;
  match state with
  | None =>
      '(_, o) ← unsafe "transaction state unreadable; cannot prove the transaction is closed" false caused_by o;
      _ ← register_unclosed c;
      mret o
  | Some false => mret o
  | Some true =>
      r ← trying (_rollback c);
      '(i, o) ← report_ending r "rollback failed under cancellation: " "rollback submission cancelled: "
                  "rollback outcome unknown: " "rollback: " o;
      let i := match i with Some i => Some i | None => caused_by end in
      state ← _transaction_state c;
      match state with
      | None => '(_, o) ← unsafe "transaction state unreadable after rollback" false i o;
                _ ← register_unclosed c; mret o
      | Some true => '(_, o) ← unsafe "transaction still open after rollback" false i o; mret o
      | Some false => mret o
      end
  end.

(** [raise outcome.settle()], with a problem in it. *)
Definition raise_settled (o : outcome) : K unit := f ← settle o; match f with Some e => raise e | None => raise TypeError end.
Definition raise_if_owed (o : outcome) : K unit := f ← settle o; match f with Some e => raise e | None => mret tt end.

(** The COMMIT came back as done: ask SQLite before believing it. *)
Definition commit_returned (c : nat) (o : outcome) : K unit :=
  state ← _transaction_state c;
  match state with
  | Some false => match o_cancelled o with Some e => raise e | None => mret tt end
  | s =>
      '(i, o) ← unsafe (match s with
                        | Some _ => "commit reported success but the transaction is still open"
                        | None => "commit reported success but the transaction state could not be read"
                        end) false None o;
      o ← _force_close_transaction c (Some i) o;
      raise_settled o
  end.

(** The COMMIT came back with an error. *)
Definition commit_failed (c : nat) (e : exn) (o : outcome) : K unit :=
  let o := absorb e o in
  durable ← (match o_error o with
             | None => mret false
             | Some _ => state ← _transaction_state c;
                         mret (match state with Some false => true | _ => false end)
             end);
  match durable, o_error o with
  | true, Some err =>
      stop ← fail_stop_now ("commit response lost after a durable COMMIT (" ++ repr err ++ ")")%string;
      raise (_caller_owed (o_cancelled o) stop)
  | _, _ => o ← _force_close_transaction c None o; raise_if_owed o
  end.

Definition _commit_transaction (c : nat) : K unit :=
  _ ← on_handle close_handle;
  o ← _cleanup_cursors c no_outcome;
  match o_problems o, o_cancelled o with
  | [], None =>
      r ← trying (_submit c Commit "commit" OwnsNothing);
      match r with
      | Raise (OutcomeUnknown what owes) =>
          '(_, o) ← unsafe ("commit outcome unknown (" ++ what ++ ")")%string true None (owe (owed_if owes) o);
          raise_settled o
      | Raise (ChildCancelled what owes) =>
          '(_, o) ← unsafe ("commit submission cancelled (" ++ what ++ ")")%string true None (owe (owed_if owes) o);
          o ← _force_close_transaction c None o;
          raise_settled o
      | Raise e => commit_failed c e o
      | Ok (_, cancelled) => commit_returned c (owe cancelled o)
      end
  | _, _ => o ← _force_close_transaction c None o; raise_if_owed o
  end.

Record abort_outcome := AbortOutcome { ab_unresolved : bool; ab_cancelled : option exn; ab_failure : option exn }.

Definition _abort_transaction (c : nat) : K abort_outcome :=
  _ ← on_handle close_handle;
  o ← _cleanup_cursors c no_outcome;
  o ← _force_close_transaction c None o;
  match o_problems o with
  | [] => mret (AbortOutcome false (o_cancelled o) None)
  | _ =>
      f ← settle o;
      mret (AbortOutcome true (o_cancelled o) (match f with Some (CancelledAfterWorkerError e) => Some e | f => f end))
  end.

Definition message_of (e : exn) : string := match e with DatabaseFailStop m => m | _ => "" end.

(** What the caller sees when the abort could not resolve its clean-up. *)
Definition _reclassify (ab : abort_outcome) (e : exn) : K unit :=
  match e with
  | CancelledError | CancelledAfterWorkerError _ => mret tt
  | OutcomeUnknown what owes | ChildCancelled what owes =>
      let cancelled := match ab_cancelled ab with Some c => Some c | None => owed_if owes end in
      stop ← gets fail_stop;
      let failure := match ab_failure ab with
                     | Some f => DatabaseFailStop (message_of f ++ "; after " ++ _public_detail e)
                     | None => DatabaseFailStop (default ("worker outcome unresolved: " ++ what) stop)
                     end%string in
      raise (_caller_owed cancelled failure)
  | _ =>
      if ab_cancelled ab then raise (CancelledAfterWorkerError e)
      else if negb (ab_unresolved ab) then mret tt
      else stop ← gets fail_stop; raise (default (DatabaseFailStop (default "" stop)) (ab_failure ab))
  end.

(** ** The boundary *)

(** The body of a transaction: statements, and what it does with their answers; an
    exception of a statement passes through it. *)
Inductive body {A : Type} :=
| Ret (a : A)
| Throw (e : exn)
| Run (s : S) (k : R -> body)
| Query (s : S) (k : R -> body).
Arguments body : clear implicits.

Fixpoint run_body {A} (h me : nat) (b : body A) : K A :=
  match b with
  | Ret a => mret a
  | Throw e => raise e
  | Run s k => r ← execute h me s; run_body h me (k r)
  | Query s k => r ← fetch_all h me s; run_body h me (k r)
  end.

Definition require_admission : K unit := a ← gets admission_of; lift_res (_require_admission a).

(** Waiting for the operation lock; the waiting can be cancelled. *)
Definition acquire_lock : K unit :=
  t ← next_turn; _ ← waited t; if t_cancelled t then raise CancelledError else mret tt.

Definition new_handle (c me : nat) : K nat :=
  n ← fresh_number; _ ← modify (fun w => with_handle w (Handle n c me [] false)); mret n.

Definition begin_transaction (c : nat) : K outcome :=
  r ← trying ('(a, cancelled) ← _submit c Begin "begin" OwnsCursor;
              _ ← _track (cursor_of a);
              mret (cursor_of a, cancelled));
  match r with
  | Raise e => mret (absorb e no_outcome)
  | Ok (cur, cancelled) =>
      let o := owe cancelled no_outcome in
      r ← trying (_release c cur);
      mret (match r with Raise e => absorb e o | Ok cancelled => owe cancelled o end)
  end.

(** Clean up, and raise what the caller is owed for [e]. *)
Definition abort_with {A} (c : nat) (e : exn) : K A := ab ← _abort_transaction c; _ ← _reclassify ab e; raise e.

Definition _write_transaction {A} (me : nat) (on_metric : bool) (b : body A) : K A :=
  _ ← require_admission;
  _ ← acquire_lock;
  _ ← require_admission;
  c ← _acquire_connection on_metric;
  h ← new_handle c me;
  begun ← begin_transaction c;
  failure ← settle begun;
  match failure with
  | Some e => abort_with c e
  | None =>
      r ← trying (run_body h me b);
      match r with
      | Raise e => abort_with c e
      | Ok a => _ ← _commit_transaction c; mret a
      end
  end.

Definition write_transaction {A} (me : nat) (on_metric : bool) (b : body A) : K A :=
  publicly (_write_transaction me on_metric b).

Definition _fetch_all (s : S) : K (option R) :=
  _ ← require_admission;
  _ ← lift_res (_require_read_only (text s));
  _ ← acquire_lock;
  _ ← require_admission;
  c ← _acquire_connection false;
  '(cur, rows, o) ← execute_fetch c s "read execute" "read fetchall";
  o ← close_into c "read cursor close: " cur o;
  f ← settle o;
  match f with Some e => _raise_public e | None => mret rows end.

Definition _fetch_all_unrestricted (s : S) : K (option R) :=
  _ ← require_admission;
  _ ← acquire_lock;
  _ ← require_admission;
  c ← _acquire_connection false;
  r ← trying (_run_statement c s "unrestricted read");
  match r with
  | Raise e => _raise_public e
  | Ok (rows, Some e) => _raise_public e
  | Ok (rows, None) => mret rows
  end.
End Boundary.
Arguments body : clear implicits.
