(* ===== verification/WorkerFacts.v ===== *)
(** * What a worker can have done

    [here]: one connection in use, nothing lost and nothing queued, and exactly this
    transaction and these cursors.  [contained]: whatever is still queued may run at any
    time and the content of the file stays among [P].  Every submission leads from the
    first to itself or, with the latch set, to the second. *)
From S2P Require Import Prelude Py Effects PyOps PyVals DbCore Worker Boundary.
Open Scope Z_scope.

Lemma alter_at {A} (f : A -> A) (l : list A) i x : l !! i = Some x -> alter f i l = <[i := f x]> l.
Proof. revert i. induction l as [|y l IH]; intros [|i] H; simplify_eq/=; [done|]. f_equal. by apply IH. Qed.

Lemma alter_none {A} (f : A -> A) (l : list A) i : l !! i = None -> alter f i l = l.
Proof. revert i. induction l as [|y l IH]; intros [|i] H; simplify_eq/=; [done..|]. f_equal. by apply IH. Qed.

(** The guard of the read helper says yes or refuses. *)
Lemma guard_verdict sql : _require_read_only sql = Ok tt \/ _require_read_only sql = Raise ReadOnlyViolation.
Proof. unfold _require_read_only. repeat case_match; auto. Qed.

(** Every way an operation at the worker can end. *)
Ltac run_act :=
  repeat match goal with
  | H : act _ _ ?f (?k, _, _) = _ |- _ =>
      unfold act, usable in H; destruct (opened k); destruct f as [[| | |]|];
      cbv [attempt effect run_statement new_cursor can_end can_lie after_failure forget] in H
  | H : context [match tx ?k with _ => _ end] |- _ => destruct (tx k) eqn:?
  | H : context [match exec ?s ?d with _ => _ end] |- _ => destruct (exec s d) as [[?|?] ?] eqn:?
  | H : context [match find_cursor ?n ?k with _ => _ end] |- _ => destruct (find_cursor n k) as [[?|]|] eqn:?
  | H : context [if ?b then _ else _] |- _ => destruct b eqn:?
  | H : context [match ?b with true => _ | false => _ end] |- _ => destruct b eqn:?
  end.

Section Sites.
Context {D S R : Type} {E : Engine D S R} {L : EngineLaws}.
Implicit Types (k : conn D S R) (P : D -> Prop).

(** ** One operation on one connection *)

Definition idle k : Prop := tx k = None /\ cursors k = [] /\ queue k = [].

Definition cleaning (o : op S) : Prop := match o with Rollback | CloseCursor _ | CloseConn => True | _ => False end.

(** An operation that, run next, leaves the content of the file among [P]. *)
Definition tame P (t : option D) (o : op S) : Prop :=
  match o, t with
  | Execute s, None => forall d, (exec s d).2 = d
  | Commit, Some v => P v
  | _, _ => True
  end.

Lemma cleaning_tame P t o : cleaning o -> tame P t o.
Proof. by destruct o. Qed.

Lemma driver_is e : is_driver (driver_exn e) = true.
Proof. by destruct e. Qed.

Lemma drop_only n (x : option R) k : cursors k = [(n, x)] -> drop_cursor n k = set_cursors [] k.
Proof. intros H. unfold drop_cursor. rewrite H. simpl. by rewrite Nat.eqb_refl. Qed.

Lemma drop_fresh n (x : option R) l k : l = [] -> cursors (drop_cursor n (set_cursors (l ++ [(n, x)]) k)) = [].
Proof. intros ->. unfold drop_cursor. simpl. by rewrite Nat.eqb_refl. Qed.

Lemma act_queue l o f k d n r k' d' n' : act l o f (k, d, n) = (r, (k', d', n')) -> queue k' = queue k.
Proof. intros H. destruct o; run_act; simplify_eq; done. Qed.

Lemma act_tame P l o f k d n r k' d' n' : tame P (tx k) o -> P d ->
  act l o f (k, d, n) = (r, (k', d', n')) -> P d'.
Proof.
  intros Ht Hp H. destruct o; simpl in Ht; run_act; simplify_eq; try done;
    match goal with He : exec _ ?d = (_, _), Ht : forall d, _ |- _ => specialize (Ht d); rewrite He in Ht; by simplify_eq/= end.
Qed.

Lemma act_close l cur f k d n r k' d' n' : act l (CloseCursor cur) f (k, d, n) = (r, (k', d', n')) ->
  tx k' = tx k /\ d' = d /\
  (k' = drop_cursor cur k /\ (r = Ok Nothing \/ exists e, r = Raise e /\ is_driver e = true) \/
   k' = k /\ exists e, r = Raise e /\ is_driver e = true /\ _cursor_already_gone e = false).
Proof.
  intros H. run_act; simplify_eq; (split; [done|]; split; [done|]);
    first [left; by eauto using driver_is | right; by eauto using driver_is].
Qed.

Lemma act_rollback l f k d n r k' d' n' : act l Rollback f (k, d, n) = (r, (k', d', n')) ->
  d' = d /\ (k' = set_tx None k \/ k' = k) /\ (r = Ok Nothing \/ exists e, r = Raise e /\ is_driver e = true).
Proof. intros H. run_act; simplify_eq; split_and!; eauto using driver_is. Qed.

(** What is left when the transaction may have been ended. *)
Definition maybe_ended k k' : Prop := k' = k \/ k' = set_tx None k.

Lemma act_commit l f k d n r k' d' n' v : tx k = Some v -> act l Commit f (k, d, n) = (r, (k', d', n')) ->
  (r = Ok Nothing \/ exists e, r = Raise e /\ is_driver e = true) /\
  (k' = set_tx None k /\ d' = v \/ k' = k /\ d' = d \/ k' = set_tx None k /\ d' = d /\ r <> Ok Nothing).
Proof. intros Ht H. run_act; simplify_eq; split; eauto 6 using driver_is; right; right; done. Qed.

Lemma act_begin l f k d n r k' d' n' : tx k = None -> cursors k = [] ->
  act l Begin f (k, d, n) = (r, (k', d', n')) -> d' = d /\
  (r = Ok (Cursor n) /\ k' = set_cursors [(n, None)] (set_tx (Some d) k) \/
   exists e t, r = Raise e /\ is_driver e = true /\ tx k' = t /\ cursors k' = []).
Proof.
  intros Ht Hc H. run_act; simplify_eq; (split; [done|]); try (right; eexists _, _; by eauto using driver_is).
  - right. eexists _, _. split_and!; [done|apply driver_is|done|]. by apply drop_fresh.
  - left. simpl. by rewrite Hc.
  - left. simpl. by rewrite Hc.
Qed.

Lemma act_execute l s f k d n r k' d' n' v : tx k = Some v -> cursors k = [] ->
  act l (Execute s) f (k, d, n) = (r, (k', d', n')) -> d' = d /\
  ((exists rows v', r = Ok (Cursor n) /\ exec s v = (Ok rows, v') /\
     k' = set_cursors [(n, Some rows)] (set_tx (Some v') k)) \/
   exists e t, r = Raise e /\ is_driver e = true /\ tx k' = t /\ cursors k' = []).
Proof.
  intros Ht Hc H. run_act; simplify_eq; (split; [done|]);
    try (right; eexists _, _; by eauto using driver_is).
  - right. eexists _, _. split_and!; [done|apply driver_is|done|]. by apply drop_fresh.
  - left. eexists _, _. split_and!; [done..|]. simpl. by rewrite Hc.
  - right. eexists _, _. split_and!; [done|by eapply exec_raises|done|done].
  - left. eexists _, _. split_and!; [done..|]. simpl. by rewrite Hc.
  - right. eexists _, _. split_and!; [done|by eapply exec_raises|done|done].
Qed.

(** A statement that changes nothing, outside any transaction. *)
Lemma act_read l s f k d n r k' d' n' : tx k = None -> cursors k = [] -> (forall d, (exec s d).2 = d) ->
  act l (Execute s) f (k, d, n) = (r, (k', d', n')) -> d' = d /\ tx k' = None /\
  ((exists rows, r = Ok (Cursor n) /\ exec s d = (Ok rows, d) /\ k' = set_cursors [(n, Some rows)] k) \/
   exists e, r = Raise e /\ is_driver e = true /\ cursors k' = []).
Proof.
  intros Ht Hc Hs H. pose proof (Hs d) as Hd.
  run_act; simplify_eq/=; (split; [done|]; split; [done|]); try (right; by eauto using driver_is).
  - right. eexists. split_and!; [done|apply driver_is|]. by apply (drop_fresh n _ _ k).
  - left. eexists. split_and!; [done..|]. by rewrite Hc.
  - right. eexists. split_and!; [done|by eapply exec_raises|done].
  - left. eexists. split_and!; [done..|]. by rewrite Hc.
  - right. eexists. split_and!; [done|by eapply exec_raises|done].
Qed.

Lemma act_fetch l cur rows f k d n r k' d' n' : cursors k = [(cur, Some rows)] ->
  act l (Fetch cur) f (k, d, n) = (r, (k', d', n')) -> d' = d /\ maybe_ended k k' /\
  (r = Ok (Rows rows) /\ k' = k \/ exists e, r = Raise e /\ is_driver e = true).
Proof.
  intros Hc H. assert (Hf : find_cursor cur k = Some (Some rows)).
  { unfold find_cursor. rewrite Hc. simpl. by rewrite Nat.eqb_refl. }
  unfold maybe_ended. run_act; simplify_eq; split_and!; eauto using driver_is.
Qed.

Lemma act_idle l o f k d n r k' d' n' : idle k -> (o = Connect \/ o = CloseConn) ->
  act l o f (k, d, n) = (r, (k', d', n')) -> idle k' /\ d' = d /\ (r = Ok Nothing \/ exists e, r = Raise e /\ is_driver e = true).
Proof.
  intros (Ht & Hc & Hq) [-> | ->] H; run_act; simplify_eq; unfold idle; split_and!; eauto using driver_is.
Qed.
End Sites.

(** ** States of the process *)

Section Worlds.
Context {D S R : Type} {E : Engine D S R} {L : EngineLaws}.
Implicit Types (w : db D S R) (k : conn D S R) (P : D -> Prop).
Abbreviation K := (M (db D S R)).

Definition others (c : nat) w : Prop := forall c' k, c' <> c -> conns w !! c' = Some k -> idle k.

(** What the boundary keeps outside SQLite. *)
Definition frame w : handle * option nat * option nat := (hnd w, shared w, metric w).

(** Nothing is on record against the database. *)
Definition clean w : Prop := fail_stop w = None /\ unresolved_ w = [] /\ unclosed_ w = [] /\ late_ w = [].

Definition bound w : Prop := forall c, shared w = Some c \/ metric w = Some c -> is_Some (conns w !! c).

Record here (c : nat) (d : D) (t : option D) (cs : list (nat * option R)) (fr : handle * option nat * option nat) w : Prop := {
  hr_disk : disk w = d;
  hr_others : others c w;
  hr_conn : exists k, conns w !! c = Some k /\ tx k = t /\ cursors k = cs /\ queue k = [];
  hr_clean : clean w;
  hr_frame : frame w = fr;
  hr_bound : bound w
}.

(** Nothing is open, queued or on record. *)
Record quiet (d : D) (fr : handle * option nat * option nat) w : Prop := {
  qt_disk : disk w = d;
  qt_idle c k : conns w !! c = Some k -> idle k;
  qt_clean : clean w;
  qt_frame : frame w = fr;
  qt_bound : bound w
}.

Definition pending P k : Prop :=
  match queue k with
  | [] => True
  | (_, o, _) :: q => tame P (tx k) o /\ Forall (fun i => cleaning i.1.2) q
  end.

Record contained P (c : nat) w : Prop := {
  ct_disk : P (disk w);
  ct_others : others c w;
  ct_pending k : conns w !! c = Some k -> pending P k
}.

Definition latched w : Prop := fail_stop w <> None.
Definition lost P (c : nat) w : Prop := contained P c w /\ latched w.

Lemma here_quiet c d fr w : here c d None [] fr w -> quiet d fr w.
Proof.
  intros [Hd Ho (k & Hk & Ht & Hc & Hq) Hcl Hf Hb]. split; try done. intros c' k' Hk'.
  destruct (decide (c' = c)) as [->|Hn]; [by simplify_eq|by eapply Ho].
Qed.

Lemma quiet_here c d fr w : quiet d fr w -> is_Some (conns w !! c) -> here c d None [] fr w.
Proof.
  intros [Hd Hi Hc Hf Hb] [k Hk]. split; try done.
  - intros c' k' _. by apply Hi.
  - exists k. destruct (Hi _ _ Hk) as (? & ? & ?). done.
Qed.

Lemma here_contained P c d t cs fr w : P d -> here c d t cs fr w -> contained P c w.
Proof.
  intros Hp [Hd Ho (k & Hk & _ & _ & Hq) _ _ _]. split; [by subst|done|].
  intros k' Hk'. simplify_eq. unfold pending. by rewrite Hq.
Qed.

Lemma contained_weaken P P' c w : (forall d, P d -> P' d) -> contained P c w -> contained P' c w.
Proof.
  intros Hp [Hd Ho Hq]. split; [by apply Hp|done|]. intros k Hk. specialize (Hq k Hk). revert Hq.
  unfold pending. destruct (queue k) as [|[[t o] f] q]; [done|]. intros [Ht ?]. split; [|done].
  destruct o; try done. simpl in *. destruct (tx k); [by apply Hp|done].
Qed.

Lemma lost_weaken P P' c w : (forall d, P d -> P' d) -> lost P c w -> lost P' c w.
Proof. intros Hp [H ?]. split; [by eapply contained_weaken|done]. Qed.

(** ** The workers go on *)

Lemma others_insert c k w x : others c w -> others c (with_conns w (<[c := x]> (conns w))).
Proof. intros Ho c' k' Hn. simpl. rewrite list_lookup_insert_ne by done. by apply Ho. Qed.

Lemma run_next_idle c w : (forall k, conns w !! c = Some k -> queue k = []) -> run_next w c = w.
Proof. intros H. unfold run_next. destruct (conns w !! c) as [k|]; [|done]. by rewrite (H k). Qed.

Lemma here_queues c d t cs fr w c' k : here c d t cs fr w -> conns w !! c' = Some k -> queue k = [].
Proof.
  intros [_ Ho (k0 & Hk & _ & _ & Hq) _ _ _] Hk'. destruct (decide (c' = c)) as [->|Hn]; [by simplify_eq|].
  by eapply Ho.
Qed.

Lemma here_run c d t cs fr w l : here c d t cs fr w -> fold_left run_next l w = w.
Proof.
  intros Hw. induction l as [|c' l IH]; simpl; [done|]. rewrite run_next_idle; [done|].
  intros k Hk. by eapply here_queues.
Qed.

(** The other parts of the state may change. *)
Lemma here_same c d t cs fr w w' : here c d t cs fr w -> disk w' = disk w -> conns w' = conns w ->
  clean w' -> frame w' = frame w -> here c d t cs fr w'.
Proof.
  intros [Hd Ho (k & Hk) Hcl Hf Hb] Ed Ec Hcl' Ef. split; try congruence.
  - intros c' k'. rewrite Ec. apply Ho.
  - exists k. by rewrite Ec.
  - unfold frame in Ef. intros c'. rewrite Ec. injection Ef as _ -> ->. apply Hb.
Qed.

Lemma here_exits c d t cs fr w : here c d t cs fr w -> here c d t cs fr (with_conns w (exits <$> conns w)).
Proof.
  assert (He : forall k, tx (exits k) = tx k /\ cursors (exits k) = cursors k /\ queue (exits k) = queue k).
  { intros k. unfold exits. by destruct (worker k). }
  intros [Hd Ho (k & Hk & Ht & Hc & Hq) Hcl Hf Hb]. split; try done.
  - intros c' k' Hn. simpl. rewrite list_lookup_fmap, fmap_Some. intros (k0 & Hk0 & ->).
    destruct (Ho _ _ Hn Hk0) as (? & ? & ?), (He k0) as (E1 & E2 & E3). unfold idle. by rewrite E1, E2, E3.
  - exists (exits k). simpl. rewrite list_lookup_fmap, Hk. destruct (He k) as (-> & -> & ->). done.
  - intros c' Hc'. simpl. rewrite list_lookup_fmap. by apply fmap_is_Some, Hb.
Qed.

Lemma here_turn c d t cs fr X : hoare (here c d t cs fr) next_turn (fun _ => here c d t cs fr) X.
Proof.
  intros w Hw. unfold next_turn. set (tn := default calm (head (turns w))). cbv zeta.
  assert (H1 : here c d t cs fr (with_turns w (tail (turns w)) (interrupted w))) by (by eapply here_same; [exact Hw|..]; try done; apply Hw).
  assert (H2 : forall w, here c d t cs fr w -> here c d t cs fr (if t_closing tn then with_shut w true (closed w) else w)).
  { intros v Hv. destruct (t_closing tn); [|done]. eapply here_same; [exact Hv|..]; try done; apply Hv. }
  assert (H3 : forall w, here c d t cs fr w -> here c d t cs fr (if t_exits tn then with_conns w (exits <$> conns w) else w)).
  { intros v Hv. destruct (t_exits tn); [by apply here_exits|done]. }
  specialize (H3 _ (H2 _ H1)). by erewrite here_run.
Qed.

Lemma contained_perform P c o f w k q : contained P c w -> conns w !! c = Some k ->
  tame P (tx k) o -> Forall (fun i => cleaning i.1.2) q ->
  contained P c (perform c o f (on_conn c (set_queue q) w)).2.
Proof.
  intros [Hd Ho Hp] Hk Ht Hq. unfold perform, on_conn. simpl.
  assert (Hl : (c < length (conns w))%nat) by by eapply lookup_lt_Some.
  assert (Ek : alter (set_queue q) c (conns w) !! c = Some (set_queue q k)) by (by rewrite list_lookup_alter_eq, Hk).
  rewrite Ek. destruct (act _ o f _) as [r [[k' d'] n']] eqn:Ea. simpl.
  pose proof (act_queue _ _ _ _ _ _ _ _ _ _ Ea) as Eq. simpl in Eq.
  split; simpl.
  - by eapply act_tame; [..|exact Ea].
  - intros c' k0 Hn. simpl. rewrite list_lookup_insert_ne, list_lookup_alter_ne by done. by apply Ho.
  - intros k0. rewrite list_lookup_insert_eq by (by rewrite length_alter). intros [= <-]. unfold pending. rewrite Eq.
    destruct q as [|[[t o'] f'] q]; [done|]. inversion Hq; subst. split; [by apply cleaning_tame|done].
Qed.

Lemma contained_run_next P c c' w : contained P c w -> contained P c (run_next w c').
Proof.
  intros Hw. unfold run_next. destruct (conns w !! c') as [k|] eqn:Hk; [|done].
  destruct (queue k) as [|[[t o] f] q] eqn:Hq; [done|].
  destruct (decide (c' = c)) as [->|Hn].
  - pose proof (ct_pending _ _ _ Hw k Hk) as Hp. unfold pending in Hp. rewrite Hq in Hp. destruct Hp as [Ht Hc].
    pose proof (contained_perform P c o f w k q Hw Hk Ht Hc) as H.
    destruct (perform c o f _) as [r w']. destruct H. by split.
  - destruct (ct_others _ _ _ Hw c' k Hn Hk) as (_ & _ & Hz). congruence.
Qed.

Lemma contained_run P c l w : contained P c w -> contained P c (fold_left run_next l w).
Proof. revert w. induction l as [|c' l IH]; intros w Hw; [done|]. by apply IH, contained_run_next. Qed.

Lemma contained_exits P c w : contained P c w -> contained P c (with_conns w (exits <$> conns w)).
Proof.
  assert (He : forall k, tx (exits k) = tx k /\ cursors (exits k) = cursors k /\ queue (exits k) = queue k).
  { intros k. unfold exits. by destruct (worker k). }
  intros [Hd Ho Hp]. split; [done|..].
  - intros c' k' Hn. simpl. rewrite list_lookup_fmap, fmap_Some. intros (k0 & Hk0 & ->).
    destruct (Ho _ _ Hn Hk0) as (? & ? & ?), (He k0) as (E1 & E2 & E3). unfold idle. by rewrite E1, E2, E3.
  - intros k. simpl. rewrite list_lookup_fmap, fmap_Some. intros (k0 & Hk0 & ->).
    specialize (Hp k0 Hk0). unfold pending in *. destruct (He k0) as (-> & _ & ->). done.
Qed.

Lemma contained_turn P c : keeps (contained P c) next_turn.
Proof.
  intros w Hw. unfold next_turn. cbv zeta. cbn [snd]. apply contained_run.
  assert (H1 : contained P c (with_turns w (tail (turns w)) (interrupted w))) by (destruct Hw; by split).
  assert (H2 : forall (b : bool) v, contained P c v -> contained P c (if b then with_shut v true (closed v) else v)).
  { intros [] v []; by split. }
  assert (H3 : forall (b : bool) v, contained P c v -> contained P c (if b then with_conns v (exits <$> conns v) else v)).
  { intros [] v Hv; [by apply contained_exits|done]. }
  set (t := default calm (head (turns w))). apply (H3 (t_exits t)), (H2 (t_closing t)), H1.
Qed.

Lemma contained_drain P c c' w : contained P c w -> contained P c (drain c' w).
Proof.
  intros Hw. unfold drain. destruct (conns w !! c') as [k|]; [|done].
  induction (length (queue k)) as [|n IH]; simpl; [done|]. by apply contained_run_next.
Qed.
End Worlds.

(** ** Submitting *)

Section Submitting.
Context {D S R : Type} {E : Engine D S R} {L : EngineLaws}.
Implicit Types (w : db D S R) (k : conn D S R) (P : D -> Prop) (d : D) (t : option D).
Implicit Types (cs : list (nat * option R)) (o : op S).
Abbreviation K := (M (db D S R)).

Lemma hoare_trying {A} (I : db D S R -> Prop) (m : K A) Q X X' : hoare I m Q X ->
  hoare I (trying m) (fun r w => match r with Ok a => Q a w | Raise e => X e w end) X'.
Proof. intros Hm w Hw. specialize (Hm w Hw). unfold trying. by destruct (m w) as [[a|e] w']. Qed.

Lemma keeps_trying {A} I (m : K A) : keeps I m -> keeps I (trying m).
Proof. intros Hm w Hw. specialize (Hm w Hw). unfold trying. by destruct (m w) as [[a|e] w']. Qed.

Lemma hoare_modify I (f : db D S R -> db D S R) (Q : db D S R -> Prop) X :
  (forall w, I w -> Q (f w)) -> hoare I (modify f) (fun _ => Q) X.
Proof. intros Hf w Hw. by apply Hf. Qed.

(** What a submission that came back leaves, for the operation at the worker. *)
Definition acted c d t cs fr (o : op S) (r : res (answer R)) w : Prop :=
  exists l f k n k' d' n', tx k = t /\ cursors k = cs /\ queue k = [] /\
    act l o f (k, d, n) = (r, (k', d', n')) /\ here c d' (tx k') (cursors k') fr w.

Lemma here_touched c d t cs fr w k' d' n' : here c d t cs fr w -> queue k' = [] ->
  here c d' (tx k') (cursors k') fr (touched c w (k', d', n')).
Proof.
  intros [Hd Ho (k & Hk & Ht & Hc & Hq) Hcl Hf Hb] Hq'. split; simpl; try done.
  - intros c' k0 Hn. simpl. rewrite list_lookup_insert_ne by done. by apply Ho.
  - exists k'. split_and!; [|done..]. apply list_lookup_insert_eq. by eapply lookup_lt_Some.
  - intros c' Hc'. simpl. destruct (decide (c' = c)) as [->|Hn].
    + rewrite list_lookup_insert_eq by (by eapply lookup_lt_Some). by eexists.
    + rewrite list_lookup_insert_ne by done. by apply Hb.
Qed.

Lemma here_perform c d t cs fr o f w : here c d t cs fr w ->
  let '(r, w') := perform c o f w in acted c d t cs fr o r w'.
Proof.
  intros Hw. pose proof Hw as [Hd _ (k & Hk & Ht & Hc & Hq) _ _ _]. unfold perform. rewrite Hk.
  destruct (act _ o f _) as [r [[k' d'] n']] eqn:Ea. eexists _, f, k, _, k', d', n'. rewrite <- Hd. split_and!; try done.
  eapply here_touched; [exact Hw|]. by rewrite (act_queue _ _ _ _ _ _ _ _ _ _ Ea).
Qed.

(** An exception of the worker itself, a cancellation around it or not. *)
Definition from_worker (Q : exn -> Prop) (e : exn) : Prop := exists e', (e = e' \/ e = CancelledAfterWorkerError e') /\ Q e'.

(** What touches neither the transaction, nor the cursors, nor the queue. *)
Definition harmless (f : conn D S R -> conn D S R) : Prop :=
  forall k, tx (f k) = tx k /\ cursors (f k) = cursors k /\ queue (f k) = queue k.

Lemma here_on c d t cs fr f w : harmless f -> here c d t cs fr w -> here c d t cs fr (on_conn c f w).
Proof.
  intros Hf [Hd Ho (k & Hk & Ht & Hc & Hq) Hcl Hfr Hb]. unfold on_conn. rewrite (alter_at _ _ _ k) by done.
  destruct (Hf k) as (E1 & E2 & E3). split; simpl; try done.
  - by apply others_insert.
  - exists (f k). rewrite E1, E2, E3. split_and!; try done. apply list_lookup_insert_eq. by eapply lookup_lt_Some.
  - intros c' Hc'. simpl. destruct (decide (c' = c)) as [->|Hn].
    + rewrite list_lookup_insert_eq by (by eapply lookup_lt_Some). by eexists.
    + rewrite list_lookup_insert_ne by done. by apply Hb.
Qed.

Lemma contained_on P c f w : harmless f -> contained P c w -> contained P c (on_conn c f w).
Proof.
  intros Hf [Hd Ho Hp]. unfold on_conn. destruct (conns w !! c) as [k|] eqn:Hk.
  - rewrite (alter_at _ _ _ k) by done. split; simpl; [done|by apply others_insert|].
    intros k0. rewrite list_lookup_insert_eq by (by eapply lookup_lt_Some). intros [= <-].
    specialize (Hp k eq_refl). unfold pending in *. destruct (Hf k) as (E1 & _ & E3). by rewrite E1, E3.
  - rewrite alter_none by done. split; [done..|]. simpl. by rewrite Hk.
Qed.

Lemma here_start c d t cs fr (o : op S) X : hoare (here c d t cs fr) (start_worker c o) (fun _ => here c d t cs fr) X.
Proof. intros w Hw. unfold start_worker. destruct o; try done. by apply here_on. Qed.

Lemma here_waited c d t cs fr tn X : hoare (here c d t cs fr) (waited tn : K unit) (fun _ => here c d t cs fr) X.
Proof. intros w Hw. unfold waited, modify. destruct (t_cancelled tn); [|done]. eapply here_same; [exact Hw|..]; try done; apply Hw. Qed.

Lemma here_task c d t cs fr X : hoare (here c d t cs fr) (new_task : K nat) (fun _ => here c d t cs fr) X.
Proof. intros w Hw. unfold new_task. eapply here_same; [exact Hw|..]; try done; apply Hw. Qed.

Lemma acted_finish c d t cs fr o r id r' w : acted c d t cs fr o r w -> acted c d t cs fr o r (finish_task id r' w).
Proof.
  intros (l & f & k & n & k' & d' & n' & ? & ? & ? & ? & Hw). eexists l, f, k, n, k', d', n'. split_and!; try done.
  eapply here_same; [exact Hw|..]; try done; apply Hw.
Qed.

Lemma pending_snoc P k i : pending P k -> tame P (tx k) i.1.2 -> (queue k = [] \/ cleaning i.1.2) ->
  pending P (set_queue (queue k ++ [i]) k).
Proof.
  unfold pending. simpl. destruct (queue k) as [|[[t o] f] q]; destruct i as [[t' o'] f']; simpl.
  - intros _ Ht _. done.
  - intros [Ht Hq] _ [?|Hc]; [done|]. split; [done|]. apply Forall_app. by repeat constructor.
Qed.

(** The operation is queued, and on record as unresolved. *)
Lemma contained_enqueue P c id o f w : contained P c w -> (forall k, conns w !! c = Some k ->
    tame P (tx k) o /\ (queue k = [] \/ cleaning o)) ->
  contained P c (on_conn c (fun k => set_queue (queue k ++ [(id, o, f)]) k) w).
Proof.
  intros [Hd Ho Hp] Hk. unfold on_conn. destruct (conns w !! c) as [k|] eqn:E0.
  - rewrite (alter_at _ _ _ k) by done. destruct (Hk k eq_refl) as [Ht Hq]. split; simpl; [done|by apply others_insert|].
    intros k0. rewrite list_lookup_insert_eq by (by eapply lookup_lt_Some). intros [= <-].
    by apply pending_snoc; [apply Hp|..].
  - rewrite alter_none by done. split; [done..|]. simpl. by rewrite E0.
Qed.

Lemma keeps_unresolved P c what id dsp owner : keeps (contained P c) (_register_unresolved what id dsp owner : K unit).
Proof. intros w Hw. destruct Hw. by split. Qed.

(** A submission that was given up. *)
Lemma lost_submission P c id o what dsp f en b (Q : answer R * option exn -> db D S R -> Prop) : en <> Answered ->
  hoare (fun w => contained P c w /\ forall k, conns w !! c = Some k -> tame P (tx k) o /\ (queue k = [] \/ cleaning o))
    (_ ← modify (on_conn c (fun k => set_queue (queue k ++ [(id, o, f)]) k));
     _ ← (match en with
          | Dropped => modify (fun w => with_tasks w (alter (fun _ => TaskCancelled) id (tasks w)))
          | _ => mret tt end);
     _ ← _register_unresolved what id dsp c;
     raise (match en with Dropped => ChildCancelled what b | _ => OutcomeUnknown what b end))
    Q (fun e w => _already_fail_stopped e = true /\ lost P c w).
Proof.
  intros Hne w [Hw Hk]. pose proof (contained_enqueue P c id o f w Hw Hk) as [? ? ?].
  destruct en; [done|..]; (split; [done|]); (split; [by split|]); unfold latched; simpl; by destruct (fail_stop w).
Qed.

Lemma here_queueable P c d t cs fr o w : P d -> tame P t o -> here c d t cs fr w ->
  contained P c w /\ forall k, conns w !! c = Some k -> tame P (tx k) o /\ (queue k = [] \/ cleaning o).
Proof.
  intros Hp Ht Hw. split; [by eapply here_contained|]. destruct Hw as [_ _ (k & Hk & Hkt & _ & Hq) _ _ _].
  intros k' Hk'. simplify_eq. by eauto.
Qed.

Lemma submit_here P c d t cs fr o what dsp : tame P t o -> P d ->
  hoare (here c d t cs fr) (_submit c o what dsp)
    (fun ax w => (ax.2 = None \/ ax.2 = Some CancelledError) /\ acted c d t cs fr o (Ok ax.1) w)
    (fun e w => from_worker (fun e' => acted c d t cs fr o (Raise e') w) e \/
                _already_fail_stopped e = true /\ lost P c w).
Proof.
  intros Ht Hp. unfold _submit.
  eapply hoare_bind; [apply here_task|]. intros id. eapply hoare_bind; [apply here_start|]. intros ?.
  eapply hoare_bind; [apply here_turn|]. intros tn. eapply hoare_bind; [apply here_waited|]. intros ?.
  destruct (t_ending tn) eqn:Ee.
  - intros w Hw. cbv [mbind M_bind run_pure modify]. unfold drain.
    assert (Hr : perform c o (t_fault tn) (match conns w !! c with
        | Some k => Nat.iter (length (queue k)) (fun w => run_next w c) w | None => w end) = perform c o (t_fault tn) w).
    { destruct (conns w !! c) as [k|] eqn:Hk; [|done]. by rewrite (here_queues _ _ _ _ _ _ _ _ Hw Hk). }
    rewrite Hr. pose proof (here_perform c d t cs fr o (t_fault tn) w Hw) as Ha.
    destruct (perform c o (t_fault tn) w) as [[y|e] w'].
    + split; [|by apply acted_finish]. unfold owed. destruct (t_cancelled tn); by eauto.
    + left. exists e. split; [destruct (t_cancelled tn); by eauto|]. by apply acted_finish.
  - eapply hoare_weaken; [by apply (lost_submission P c id o what dsp (t_fault tn) Unanswered (t_cancelled tn) (fun _ _ => False))|..].
    + intros w. by apply here_queueable.
    + done.
    + intros e w H. by right.
  - eapply hoare_weaken; [by apply (lost_submission P c id o what dsp (t_fault tn) Dropped (t_cancelled tn) (fun _ _ => False))|..].
    + intros w. by apply here_queueable.
    + done.
    + intros e w H. by right.
Qed.

(** Cleaning up never makes what may still happen worse. *)
Lemma run_next_queue c w k : conns w !! c = Some k ->
  exists k', conns (run_next w c) !! c = Some k' /\ queue k' = tail (queue k).
Proof.
  intros Hk. unfold run_next. rewrite Hk. destruct (queue k) as [|[[t o] f] q] eqn:Hq; [by exists k|].
  unfold perform, on_conn. simpl. rewrite (alter_at _ _ _ k) by done.
  assert (Hl : (c < length (conns w))%nat) by by eapply lookup_lt_Some.
  rewrite list_lookup_insert_eq by done.
  destruct (act _ o f _) as [r [[k' d'] n']] eqn:Ea. apply act_queue in Ea. exists k'. simpl.
  rewrite list_lookup_insert_eq by (by rewrite length_insert). done.
Qed.

Lemma drained c w k : conns (drain c w) !! c = Some k -> queue k = [].
Proof.
  unfold drain. destruct (conns w !! c) as [k0|] eqn:Hk; [|by rewrite Hk].
  assert (H : forall n, exists k', conns (Nat.iter n (fun w => run_next w c) w) !! c = Some k' /\ queue k' = drop n (queue k0)).
  { induction n as [|n (k1 & H1 & Q1)]; [by exists k0|]. simpl. destruct (run_next_queue _ _ _ H1) as (k2 & H2 & Q2).
    exists k2. split; [done|]. rewrite Q2, Q1. clear. revert n. induction (queue k0) as [|x q IH]; intros [|n]; try done.
    apply IH. }
  destruct (H (length (queue k0))) as (k' & H' & Q'). rewrite H'. intros [= <-]. by rewrite Q', drop_all.
Qed.

Lemma submit_contained P c o what dsp : cleaning o -> keeps (contained P c) (_submit c o what dsp).
Proof.
  intros Hc. unfold _submit. apply keeps_bind; [by intros w []; split|]. intros id.
  apply keeps_bind; [by destruct o; intros w Hw|]. intros _.
  apply keeps_bind; [apply contained_turn|]. intros tn.
  apply keeps_bind; [intros w [? ? ?]; unfold waited, modify; destruct (t_cancelled tn); by split|]. intros _.
  assert (Hlost : forall en, en <> Answered -> keeps (contained P c)
    (_ ← modify (on_conn c (fun k => set_queue (queue k ++ [(id, o, t_fault tn)]) k));
     _ ← (match en with
          | Dropped => modify (fun w => with_tasks w (alter (fun _ => TaskCancelled) id (tasks w)))
          | _ => mret tt end);
     _ ← _register_unresolved what id dsp c;
     (raise (match en with Dropped => ChildCancelled what (t_cancelled tn) | _ => OutcomeUnknown what (t_cancelled tn) end)
       : K (answer R * option exn)))).
  { intros en Hne w Hw. pose proof (lost_submission P c id o what dsp (t_fault tn) en (t_cancelled tn) (fun _ => contained P c) Hne w) as H.
    specialize (H (conj Hw (fun k _ => conj (cleaning_tame P (tx k) o Hc) (or_intror Hc)))).
    match goal with |- contained P c (snd ?m) => destruct m as [[a|e] w'] end; [done|by destruct H as [_ []]]. }
  destruct (t_ending tn); [|by apply (Hlost Unanswered)|by apply (Hlost Dropped)].
  intros w Hw. cbv [mbind M_bind run_pure modify].
  pose proof (contained_drain P c c w Hw) as Hd. set (v := drain c w) in *.
  assert (Hv : contained P c (perform c o (t_fault tn) v).2).
  { destruct (conns v !! c) as [k|] eqn:Hk; [|unfold perform; by rewrite Hk].
    destruct (act (locked_out c v) o (t_fault tn) (k, disk v, counter v)) as [r [[k' d'] n']] eqn:Ea.
    unfold perform. rewrite Hk, Ea. simpl. pose proof (act_queue _ _ _ _ _ _ _ _ _ _ Ea) as Eq.
    destruct Hd as [Hd Ho Hp]. split; simpl; [by eapply act_tame; [apply cleaning_tame|..]|by apply others_insert|].
    intros k0. rewrite list_lookup_insert_eq by (by eapply lookup_lt_Some). intros [= <-].
    unfold pending. by rewrite Eq, (drained c w k Hk). }
  destruct (perform c o (t_fault tn) v) as [[a|e] w']; by destruct Hv.
Qed.
End Submitting.
