(* ===== verification/BoundarySteps.v ===== *)
(** * The steps of the operation boundary

    What cleaning up keeps, whatever has been lost before it, and what each single
    submission leaves when nothing has been lost: exactly its effect, or the latch set
    and the content of the file still contained. *)
From S2P Require Import Prelude Py Effects PyOps PyVals DbCore Worker Boundary WorkerFacts.
Open Scope Z_scope.

Section Safety.
Context {D S R : Type} {E : Engine D S R} {L : EngineLaws}.
Implicit Types (w : db D S R) (k : conn D S R) (P : D -> Prop) (d : D) (t : option D).
Implicit Types (cs : list (nat * option R)) (o : outcome).
Abbreviation K := (M (db D S R)).

(** ** What cleaning up keeps *)

Record tidy (c : nat) (I : db D S R -> Prop) : Prop := {
  td_submit (p : op S) what dsp : cleaning p -> keeps I (_submit c p what dsp);
  td_turn : keeps I next_turn;
  td_latch w x y : x <> None -> I w -> I (with_latch w x y);
  td_unclosed w l : I w -> I (with_unclosed w l);
  td_handle w h : I w -> I (with_handle w h);
  td_counter w n : I w -> I (with_counter w n);
  td_turns w l b : I w -> I (with_turns w l b);
  td_drop w : I w -> I (on_conn c drop_wrapper w)
}.

Lemma contained_tidy P c : tidy c (contained P c).
Proof.
  split.
  - intros p what dsp. apply submit_contained.
  - apply contained_turn.
  - intros w x y _ []. by split.
  - intros w l []. by split.
  - intros w h []. by split.
  - intros w n []. by split.
  - intros w l b []. by split.
  - intros w. by apply contained_on.
Qed.

Lemma run_next_latch w c : fail_stop (run_next w c) = fail_stop w.
Proof.
  unfold run_next. destruct (conns w !! c) as [k|]; [|done]. destruct (queue k) as [|[[t p] f] q]; [done|].
  unfold perform. destruct (conns _ !! c) as [k'|]; [|done]. by destruct (act _ _ _ _) as [r [[? ?] ?]].
Qed.

Lemma turn_latch (Q : option string -> Prop) : keeps (fun w => Q (fail_stop w)) (next_turn : K turn).
Proof.
  intros w Hw. unfold next_turn. cbv zeta. cbn [snd].
  assert (H : forall l v, fail_stop (fold_left run_next l v) = fail_stop v).
  { induction l as [|c l IH]; intros v; [done|]. simpl. by rewrite IH, run_next_latch. }
  rewrite H. destruct (t_exits _), (t_closing _); exact Hw.
Qed.

Lemma submit_latched c p what dsp : keeps latched (_submit c p what dsp).
Proof.
  unfold latched, _submit. apply keeps_bind; [by intros w|]. intros id. apply keeps_bind; [by intros w; destruct p|].
  intros _. apply keeps_bind; [apply (turn_latch (fun x => x <> None))|]. intros tn.
  apply keeps_bind; [intros w Hw; unfold waited, modify; by destruct (t_cancelled tn)|]. intros _.
  destruct (t_ending tn).
  - intros w Hw. cbv [mbind M_bind run_pure modify].
    assert (Hd : fail_stop (perform c p (t_fault tn) (drain c w)).2 = fail_stop w).
    { assert (H : fail_stop (drain c w) = fail_stop w).
      { unfold drain. destruct (conns w !! c) as [k|]; [|done]. induction (length (queue k)) as [|n IH]; [done|].
        simpl. by rewrite run_next_latch. }
      rewrite <- H. unfold perform. destruct (conns (drain c w) !! c); [|done].
      by destruct (act _ _ _ _) as [r [[? ?] ?]]. }
    destruct (perform c p (t_fault tn) (drain c w)) as [[a|e] v]; simpl in *; by rewrite Hd.
  - intros w Hw. simpl. by destruct (fail_stop w).
  - intros w Hw. simpl. by destruct (fail_stop w).
Qed.

Lemma lost_tidy P c : tidy c (lost P c).
Proof.
  destruct (contained_tidy P c) as [H1 H2 H3 H4 H5 H6 H7 H8]. split.
  - intros p what dsp Hp w [Hw Hl]. split; [by apply H1|by apply submit_latched].
  - intros w [Hw Hl]. split; [by apply H2|by apply (turn_latch (fun x => x <> None))].
  - intros w x y Hx [Hw Hl]. split; [by apply H3|done].
  - intros w l [Hw Hl]. split; [by apply H4|done].
  - intros w h [Hw Hl]. split; [by apply H5|done].
  - intros w n [Hw Hl]. split; [by apply H6|done].
  - intros w l b [Hw Hl]. split; [by apply H7|done].
  - intros w [Hw Hl]. split; [by apply H8|done].
Qed.

Section Tidy.
Context (c : nat) (I : db D S R -> Prop) (HI : tidy c I).

Ltac tidy_step :=
  match goal with
  | |- keeps _ (mret _) => apply keeps_ret
  | |- keeps _ (raise _) => apply keeps_raise
  | |- keeps _ (gets _) => apply keeps_gets
  | |- keeps _ (trying _) => apply keeps_trying
  | |- keeps _ (match ?x with _ => _ end) => destruct x
  | |- keeps _ (_ ≫= _) => apply keeps_bind; [|intros ?]
  | |- keeps _ (for_each _ _) => apply keeps_for_each; intros ?
  end.
Ltac tidy := repeat (tidy_step || (cbv zeta; progress (eauto with keeps))).

Lemma tidy_stop reason : keeps I (enter_fail_stop reason).
Proof. intros w Hw. by apply HI. Qed.

Lemma tidy_unclosed n : keeps I (register_unclosed n).
Proof. intros w Hw. unfold register_unclosed, modify. destruct (existsb _ _); [done|]. by apply HI. Qed.

Lemma tidy_handle f : keeps I (on_handle f).
Proof. intros w Hw. by apply HI. Qed.

Lemma tidy_number : keeps I fresh_number.
Proof. intros w Hw. by apply HI. Qed.

Lemma tidy_state : keeps I (_transaction_state c).
Proof.
  unfold _transaction_state. tidy; try apply HI. intros w Hw. unfold modify. destruct (t_readable _); [done|by apply HI].
Qed.

Lemma tidy_submit (p : op S) what dsp : cleaning p -> keeps I (_submit c p what dsp).
Proof. intros. by apply HI. Qed.

Hint Resolve tidy_stop tidy_unclosed tidy_handle tidy_number tidy_state : keeps.

Lemma tidy_unsafe msg b i o : keeps I (unsafe msg b i o).
Proof. unfold unsafe. tidy. Qed.

Lemma tidy_settle o : keeps I (settle o).
Proof. unfold settle. tidy. Qed.

Lemma tidy_close cur : keeps I (_close_cursor c cur).
Proof. unfold _close_cursor. tidy. by apply tidy_submit. Qed.

Lemma tidy_rollback : keeps I (_rollback c).
Proof. unfold _rollback. tidy. by apply tidy_submit. Qed.

Hint Resolve tidy_unsafe tidy_settle tidy_close tidy_rollback : keeps.

Lemma tidy_report r s1 s2 s3 s4 o : keeps I (report_ending r s1 s2 s3 s4 o).
Proof. unfold report_ending. tidy. Qed.
Hint Resolve tidy_report : keeps.

Lemma tidy_cleanup_each l : forall o, keeps I (cleanup_each c l o).
Proof. induction l as [|cur l IH]; intros o; simpl; tidy. Qed.
Hint Resolve tidy_cleanup_each : keeps.

Lemma tidy_cleanup o : keeps I (_cleanup_cursors c o).
Proof. unfold _cleanup_cursors. tidy. Qed.

Lemma tidy_force_close i o : keeps I (_force_close_transaction c i o).
Proof. unfold _force_close_transaction. tidy. Qed.
Hint Resolve tidy_cleanup tidy_force_close : keeps.

Lemma tidy_abort : keeps I (_abort_transaction c).
Proof. unfold _abort_transaction. tidy. Qed.

Lemma tidy_raise_settled o : keeps I (raise_settled o).
Proof. unfold raise_settled. tidy. Qed.

Lemma tidy_raise_if_owed o : keeps I (raise_if_owed o).
Proof. unfold raise_if_owed. tidy. Qed.

Lemma tidy_reclassify ab e : keeps I (_reclassify ab e).
Proof. unfold _reclassify. tidy. Qed.

Lemma tidy_release cur : keeps I (_release c cur).
Proof. unfold _release. tidy. Qed.

Lemma tidy_public {A} e : keeps I (_raise_public e : K A).
Proof. unfold _raise_public. tidy. Qed.

Lemma tidy_finish {A} o cur (v : option A) : keeps I (_finish c o cur v).
Proof. unfold _finish. tidy; by auto using tidy_release, tidy_public. Qed.

Lemma tidy_close_into label cur o : keeps I (close_into c label cur o).
Proof. unfold close_into. tidy. Qed.

Lemma tidy_join : keeps I (_join_worker c).
Proof.
  unfold _join_worker. tidy; [apply HI|]. intros w Hw. unfold waited, modify. case_match; [by apply HI|done].
Qed.

Lemma tidy_discard what : keeps I (_discard_connection c what).
Proof. unfold _discard_connection. tidy; [by apply tidy_submit|apply tidy_join]. Qed.

Lemma tidy_abandon what reason : keeps I (_abandon_unpublished c what reason).
Proof. unfold _abandon_unpublished. tidy. apply tidy_discard. Qed.

Lemma tidy_abort_with {A} e : keeps I (abort_with c e : K A).
Proof. unfold abort_with. tidy; [apply tidy_abort|apply tidy_reclassify]. Qed.
End Tidy.

(** ** One submission, from a state in which nothing is lost *)

Definition without (cur : nat) cs : list (nat * option R) := List.filter (fun p => negb (p.1 =? cur)%nat) cs.

Definition cancel_only (x : option exn) : Prop := x = None \/ x = Some CancelledError.

(** After an exception: [Q] holds, or the outcome is on record as unknown. *)
Definition or_lost (Q : exn -> db D S R -> Prop) P c (e : exn) w : Prop :=
  Q e w /\ _already_fail_stopped e = false /\ e <> CancelledError \/ _already_fail_stopped e = true /\ lost P c w.

Lemma worker_error e e' : is_driver e' = true -> e = e' \/ e = CancelledAfterWorkerError e' ->
  _already_fail_stopped e = false /\ e <> CancelledError.
Proof. intros Hd [-> | ->]; [|done]. by destruct e'. Qed.

Lemma submit_then P c d t cs fr p what dsp Q X : tame P t p -> P d ->
  (forall a w, acted c d t cs fr p (Ok a) w -> Q a w) ->
  (forall e w, acted c d t cs fr p (Raise e) w -> is_driver e = true /\ X e w /\ X (CancelledAfterWorkerError e) w) ->
  hoare (here c d t cs fr) (_submit c p what dsp) (fun ax w => cancel_only ax.2 /\ Q ax.1 w) (or_lost X P c).
Proof.
  intros Ht Hp HQ HX. eapply hoare_weaken; [by apply (submit_here P)|done|..].
  - intros [a x] w [Hx Ha]. split; [done|]. by apply HQ.
  - intros e w [(e' & He & Ha)|Hl]; [left|by right]. destruct (HX e' w Ha) as (Hd & H1 & H2).
    split; [by destruct He as [-> | ->]|by eapply worker_error].
Qed.

Lemma close_here c d t cs fr cur :
  hoare (here c d t cs fr) (_close_cursor c cur) (fun x w => cancel_only x /\ here c d t (without cur cs) fr w)
    (or_lost (fun e w => here c d t cs fr w \/ here c d t (without cur cs) fr w) (eq d) c).
Proof.
  unfold _close_cursor. eapply hoare_bind.
  - eapply hoare_trying.
    apply (submit_then (eq d) c d t cs fr (CloseCursor cur) _ _
      (fun _ w => here c d t (without cur cs) fr w)
      (fun e w => here c d t (without cur cs) fr w \/ here c d t cs fr w /\ _cursor_already_gone e = false)); [done|done|..].
    + intros a w (l & f & k & n & k' & d' & n' & Ht & Hc & _ & Ha & Hw).
      destruct (act_close _ _ _ _ _ _ _ _ _ _ Ha) as (Et & -> & [[-> _]|(_ & e & He & _)]); [|done].
      simpl in Hw. unfold without. by rewrite <- Ht, <- Hc.
    + intros e w (l & f & k & n & k' & d' & n' & Ht & Hc & _ & Ha & Hw).
      destruct (act_close _ _ _ _ _ _ _ _ _ _ Ha) as (Et & -> & [[-> [?|(e' & [= <-] & Hd)]]|(-> & e' & [= <-] & Hd & Hg)]); [done|..].
      * simpl in Hw. unfold without. rewrite <- Ht, <- Hc. by eauto.
      * rewrite <- Ht, <- Hc. split; [done|]. split; right; by split.
  - intros [[a x]|e]; [by intros w|]. intros w Hw. destruct (_cursor_already_gone e) eqn:Eg.
    + destruct Hw as [[[Hw|[_ Hn]] _]|[Ha _]]; [by split; [left|]|congruence|by destruct e].
    + destruct Hw as [[[Hw|[Hw _]] He]|Hl]; [by left; eauto..|by right].
Qed.

Lemma rollback_here c d t cs fr :
  hoare (here c d t cs fr) (_rollback c) (fun x w => cancel_only x /\ (here c d None cs fr w \/ here c d t cs fr w))
    (or_lost (fun e w => here c d None cs fr w \/ here c d t cs fr w) (eq d) c).
Proof.
  assert (H : forall r w, acted c d t cs fr Rollback r w ->
    (here c d None cs fr w \/ here c d t cs fr w) /\ (r = Ok Nothing \/ exists e, r = Raise e /\ is_driver e = true)).
  { intros r w (l & f & k & n & k' & d' & n' & Ht & Hc & _ & Ha & Hw).
    destruct (act_rollback _ _ _ _ _ _ _ _ _ Ha) as (-> & Hk & Hr). split; [|done].
    rewrite <- Ht, <- Hc. destruct Hk as [-> | ->]; by eauto. }
  unfold _rollback. eapply hoare_bind.
  - apply (submit_then (eq d) c d t cs fr Rollback _ _ (fun _ w => here c d None cs fr w \/ here c d t cs fr w)); [done|done|..].
    + intros a w Ha. by apply (H _ _ Ha).
    + intros e w Ha. destruct (H _ _ Ha) as (Hw & [|(e' & [= <-] & Hd)]); [done|]. split; [done|]. by split; exact Hw.
  - intros [a x] w [Hx Hw]. done.
Qed.

Lemma execute_here c d v fr s what dsp :
  hoare (here c d (Some v) [] fr) (_submit c (Execute s) what dsp)
    (fun ax w => cancel_only ax.2 /\ exists n rows v', ax.1 = Cursor n /\ exec s v = (Ok rows, v') /\
       here c d (Some v') [(n, Some rows)] fr w)
    (or_lost (fun e w => exists t, here c d t [] fr w) (eq d) c).
Proof.
  apply (submit_then (eq d) c d (Some v) [] fr (Execute s) _ _
    (fun a w => exists n rows v', a = Cursor n /\ exec s v = (Ok rows, v') /\ here c d (Some v') [(n, Some rows)] fr w)); [done|done|..].
  - intros a w (l & f & k & n & k' & d' & n' & Ht & Hc & _ & Ha & Hw).
    destruct (act_execute _ _ _ _ _ _ _ _ _ _ _ Ht Hc Ha) as (-> & [(rows & v' & [= ->] & Hx & ->)|(e & t & ? & _)]); [|done].
    simpl in Hw. by eexists _, _, _.
  - intros e w (l & f & k & n & k' & d' & n' & Ht & Hc & _ & Ha & Hw).
    destruct (act_execute _ _ _ _ _ _ _ _ _ _ _ Ht Hc Ha) as (-> & [(rows & v' & ? & _)|(e' & t & [= <-] & Hd & Et & Ec)]); [done|].
    rewrite Et, Ec in Hw. split; [done|]. split; by eexists.
Qed.

Lemma read_here c d fr s what dsp : (forall d, (exec s d).2 = d) ->
  hoare (here c d None [] fr) (_submit c (Execute s) what dsp)
    (fun ax w => cancel_only ax.2 /\ exists n rows, ax.1 = Cursor n /\ exec s d = (Ok rows, d) /\
       here c d None [(n, Some rows)] fr w)
    (or_lost (fun e w => here c d None [] fr w) (eq d) c).
Proof.
  intros Hs. apply (submit_then (eq d) c d None [] fr (Execute s) _ _
    (fun a w => exists n rows, a = Cursor n /\ exec s d = (Ok rows, d) /\ here c d None [(n, Some rows)] fr w)); [done|done|..].
  - intros a w (l & f & k & n & k' & d' & n' & Ht & Hc & _ & Ha & Hw).
    destruct (act_read _ _ _ _ _ _ _ _ _ _ Ht Hc Hs Ha) as (-> & Et & [(rows & [= ->] & Hx & ->)|(e & ? & _)]); [|done].
    simpl in Hw. rewrite Ht in Hw. by eexists _, _.
  - intros e w (l & f & k & n & k' & d' & n' & Ht & Hc & _ & Ha & Hw).
    destruct (act_read _ _ _ _ _ _ _ _ _ _ Ht Hc Hs Ha) as (-> & Et & [(rows & ? & _)|(e' & [= <-] & Hd & Ec)]); [done|].
    rewrite Et, Ec in Hw. split; [done|]. by split.
Qed.

Lemma fetch_here c d t n rows fr what dsp :
  hoare (here c d t [(n, Some rows)] fr) (_submit c (Fetch n) what dsp)
    (fun ax w => cancel_only ax.2 /\ ax.1 = Rows rows /\ here c d t [(n, Some rows)] fr w)
    (or_lost (fun e w => here c d t [(n, Some rows)] fr w \/ here c d None [(n, Some rows)] fr w) (eq d) c).
Proof.
  apply (submit_then (eq d) c d t [(n, Some rows)] fr (Fetch n) _ _
    (fun a w => a = Rows rows /\ here c d t [(n, Some rows)] fr w)); [done|done|..].
  - intros a w (l & f & k & m & k' & d' & m' & Ht & Hc & _ & Ha & Hw).
    destruct (act_fetch _ _ _ _ _ _ _ _ _ _ _ Hc Ha) as (-> & _ & [([= ->] & ->)|(e & ? & _)]); [|done].
    by rewrite Ht, Hc in Hw.
  - intros e w (l & f & k & m & k' & d' & m' & Ht & Hc & _ & Ha & Hw).
    destruct (act_fetch _ _ _ _ _ _ _ _ _ _ _ Hc Ha) as (-> & Hk & [(? & _)|(e' & [= <-] & Hd)]); [done|].
    split; [done|]. destruct Hk as [-> | ->]; simpl in Hw; rewrite ?Ht, Hc in Hw; by eauto.
Qed.

Lemma begin_here c d fr what dsp :
  hoare (here c d None [] fr) (_submit c Begin what dsp)
    (fun ax w => cancel_only ax.2 /\ exists n, ax.1 = Cursor n /\ here c d (Some d) [(n, None)] fr w)
    (or_lost (fun e w => exists t, here c d t [] fr w) (eq d) c).
Proof.
  apply (submit_then (eq d) c d None [] fr Begin _ _
    (fun a w => exists n, a = Cursor n /\ here c d (Some d) [(n, None)] fr w)); [done|done|..].
  - intros a w (l & f & k & n & k' & d' & n' & Ht & Hc & _ & Ha & Hw).
    destruct (act_begin _ _ _ _ _ _ _ _ _ Ht Hc Ha) as (-> & [([= ->] & ->)|(e & t & ? & _)]); [|done].
    simpl in Hw. by eexists.
  - intros e w (l & f & k & n & k' & d' & n' & Ht & Hc & _ & Ha & Hw).
    destruct (act_begin _ _ _ _ _ _ _ _ _ Ht Hc Ha) as (-> & [(? & _)|(e' & t & [= <-] & Hd & Et & Ec)]); [done|].
    rewrite Et, Ec in Hw. split; [done|]. split; by eexists.
Qed.

(** The content before or after. *)
Definition either d v : D -> Prop := fun x => x = d \/ x = v.

Lemma commit_here c d v cs fr what dsp :
  hoare (here c d (Some v) cs fr) (_submit c Commit what dsp)
    (fun ax w => cancel_only ax.2 /\ (here c v None cs fr w \/ here c d (Some v) cs fr w))
    (or_lost (fun e w => here c v None cs fr w \/ here c d (Some v) cs fr w \/ here c d None cs fr w) (either d v) c).
Proof.
  apply (submit_then (either d v) c d (Some v) cs fr Commit _ _
    (fun _ w => here c v None cs fr w \/ here c d (Some v) cs fr w)); [by right|by left|..].
  - intros a w (l & f & k & n & k' & d' & n' & Ht & Hc & _ & Ha & Hw).
    destruct (act_commit _ _ _ _ _ _ _ _ _ _ Ht Ha) as ([[= ->]|(e & ? & _)] & [[-> ->]|[[-> ->]|(_ & _ & ?)]]); try done;
      simpl in Hw; rewrite ?Ht, Hc in Hw; by eauto.
  - intros e w (l & f & k & n & k' & d' & n' & Ht & Hc & _ & Ha & Hw).
    destruct (act_commit _ _ _ _ _ _ _ _ _ _ Ht Ha) as ([?|(e' & [= <-] & Hd)] & Hk); [done|]. split; [done|].
    destruct Hk as [[-> ->]|[[-> ->]|(-> & -> & _)]]; simpl in Hw; rewrite ?Ht, Hc in Hw; split; by eauto.
Qed.

(** ** What the caller is owed *)

Definition settled o : option exn :=
  match o_error o with Some e => Some (_caller_owed (o_cancelled o) e) | None => o_cancelled o end.

Lemma settle_none o w : o_problems o = [] -> settle o w = (Ok (settled o), w).
Proof. intros H. unfold settle, settled. by rewrite H. Qed.

Lemma owe_problems x o : o_problems (owe x o) = o_problems o.
Proof. unfold owe. by destruct x, (o_cancelled o). Qed.

Lemma with_error_problems e o : o_problems (with_error e o) = o_problems o.
Proof. unfold with_error. by destruct (o_error o). Qed.

Lemma absorb_problems e o : o_problems (absorb e o) = o_problems o.
Proof. unfold absorb. destruct e; by rewrite ?with_error_problems, ?owe_problems. Qed.

Lemma absorb_settled e o : exists e', settled (absorb e o) = Some e'.
Proof.
  assert (H : forall e o, exists e', settled (with_error e o) = Some e').
  { intros e' o'. unfold settled, with_error. destruct (o_error o') as [e2|] eqn:He; simpl; rewrite ?He; by eexists. }
  unfold absorb. destruct e; try apply H. unfold settled, owe. simpl.
  destruct (o_cancelled o) as [x|] eqn:Hc; simpl; [rewrite Hc|]; destruct (o_error o); by eexists.
Qed.

Lemma stop_lost P c reason X : hoare (contained P c) (enter_fail_stop reason) (fun _ => lost P c) X.
Proof. intros w [? ? ?]. split; [by split|]. unfold latched. simpl. by destruct (fail_stop w). Qed.

Lemma stop_each P c {A} (f : A -> string) l X :
  hoare (fun w => contained P c w /\ (latched w \/ l <> [])) (for_each (fun g => enter_fail_stop (f g)) l)
    (fun _ => lost P c) X.
Proof.
  induction l as [|g l IH]; simpl.
  - intros w [Hw [Hl|]]; [by split|done].
  - eapply hoare_bind with (Q := fun _ w => contained P c w /\ (latched w \/ l <> [])); [|done].
    eapply hoare_weaken; [by apply (stop_lost P c _ X)|by intros w []| |done]. intros ? w [? ?]. split; [done|by left].
Qed.

(** A problem sets the latch. *)
Lemma settle_problems P c o X : o_problems o <> [] ->
  hoare (contained P c) (settle o) (fun f w => (exists e, f = Some e) /\ lost P c w) X.
Proof.
  intros Ho. unfold settle. destruct (o_problems o) as [|p l] eqn:Hp; [done|].
  set (fresh := List.filter _ _).
  eapply hoare_bind with (Q := fun stop w => contained P c w /\ stop = fail_stop w); [by intros w|]. intros stop.
  eapply hoare_bind with (Q := fun _ w => contained P c w /\ (latched w \/ fresh <> [])).
  - destruct ((_ && _)%bool) eqn:Eb.
    + eapply hoare_weaken; [by apply (stop_lost P c _ X)|by intros w []| |done]. intros ? w [? ?]. split; [done|by left].
    + intros w [Hw ->]. split; [done|]. apply andb_false_iff in Eb as [Eb|Eb]; [right; by intros Hf; rewrite Hf in Eb|].
      left. by apply bool_decide_eq_false in Eb.
  - intros ?. eapply hoare_bind; [by apply (stop_each P c (fun g => semicolons g.2))|]. intros ? w Hw. split; [by eexists|done].
Qed.

Lemma unsafe_contained P c msg b i o X :
  hoare (contained P c) (unsafe msg b i o) (fun r w => o_problems r.2 <> [] /\ contained P c w) X.
Proof.
  unfold unsafe. eapply hoare_bind with (Q := fun _ => contained P c).
  - destruct i; [by intros w|]. intros w []. by split.
  - intros i' w Hw. split; [|done]. simpl. by destruct (o_problems o).
Qed.

(** ** The outcome in hand, and the state *)

(** An outcome that will raise, and set the latch if it is not set yet. *)
Definition doomed P c o w : Prop :=
  contained P c w /\ (o_problems o <> [] \/ latched w /\ o_error o <> None).

(** Either nothing was lost, or the outcome says so. *)
Definition going c d t cs fr o w : Prop :=
  o_problems o = [] /\ here c d t cs fr w \/ doomed (eq d) c o w.

Lemma doomed_problems P c o w : o_problems o <> [] -> contained P c w -> doomed P c o w.
Proof. split; [done|by left]. Qed.

Lemma doomed_lost P c o w : o_error o <> None -> lost P c w -> doomed P c o w.
Proof. intros Ho []. split; [done|by right]. Qed.

Lemma doomed_tidy P c o : tidy c (doomed P c o).
Proof.
  destruct (contained_tidy P c) as [H1 H2 H3 H4 H5 H6 H7 H8], (lost_tidy P c) as [L1 L2 L3 L4 L5 L6 L7 L8].
  assert (Hk : forall A (m : K A), keeps (contained P c) m -> keeps (lost P c) m -> keeps (doomed P c o) m).
  { intros A m Hc Hl w [Hw [Ho|[Ho Hs]]]; (split; [by apply Hc|]); [by left|right; split; [by apply Hl|done]]. }
  split; [by eauto| by eauto| | | | | |]; intros; match goal with H : doomed _ _ _ _ |- _ => destruct H as [Hw [Ho|[Hl Hs]]] end;
    (split; [by eauto|]); first [by left|by right].
Qed.

Lemma settle_doomed P c o X :
  hoare (doomed P c o) (settle o) (fun f w => (exists e, f = Some e) /\ lost P c w) X.
Proof.
  intros w [Hw Ho]. destruct (decide (o_problems o = [])) as [Hp|Hp]; [|by apply (settle_problems P c o X Hp w Hw)].
  destruct Ho as [Ho|[Hl Ho]]; [done|]. rewrite settle_none by done. split; [|by split].
  unfold settled. destruct (o_error o) as [e|]; [by eexists|done].
Qed.

Lemma owe_settled x o : settled o <> None -> settled (owe x o) <> None.
Proof. unfold settled, owe. by destruct x, (o_cancelled o) eqn:Hc, (o_error o) eqn:He; simpl; rewrite ?Hc, ?He. Qed.

Lemma owe_error x o : o_error (owe x o) = o_error o.
Proof. unfold owe. by destruct x, (o_cancelled o). Qed.

Lemma with_error_some e o : exists e', o_error (with_error e o) = Some e'.
Proof. unfold with_error. destruct (o_error o) as [e2|] eqn:H; simpl; rewrite ?H; by eexists. Qed.

Lemma absorb_error e o : e <> CancelledError -> exists e', o_error (absorb e o) = Some e'.
Proof. intros He. unfold absorb. by destruct e; try apply with_error_some. Qed.

Lemma absorb_keeps_error e o : o_error o <> None -> o_error (absorb e o) <> None.
Proof.
  intros Ho. unfold absorb. destruct e; try (by rewrite owe_error);
    match goal with |- o_error (with_error ?e ?o) <> None => by destruct (with_error_some e o) as [? ->] end.
Qed.

Lemma doomed_owe P c x o w : doomed P c o w -> doomed P c (owe x o) w.
Proof. intros [Hw [Ho|[Hl Ho]]]; (split; [done|]); [left; by rewrite owe_problems|right; by rewrite owe_error]. Qed.

Lemma doomed_absorb P c e o w : doomed P c o w -> doomed P c (absorb e o) w.
Proof.
  intros [Hw [Ho|[Hl Ho]]]; (split; [done|]); [left; by rewrite absorb_problems|right; split; [done|by apply absorb_keeps_error]].
Qed.

Lemma going_owe c d t cs fr x o w : going c d t cs fr o w -> going c d t cs fr (owe x o) w.
Proof. intros [[Hp Hw]|Hw]; [left; by rewrite owe_problems|right; by apply doomed_owe]. Qed.

Lemma unsafe_doomed P c msg b i o X :
  hoare (contained P c) (unsafe msg b i o) (fun r => doomed P c r.2) X.
Proof. eapply hoare_weaken; [apply unsafe_contained|done| |done]. intros [i' o'] w []. by apply doomed_problems. Qed.

Lemma settle_going c d t cs fr o X :
  hoare (going c d t cs fr o) (settle o)
    (fun f w => f = settled o /\ here c d t cs fr w \/ (exists e, f = Some e) /\ lost (eq d) c w) X.
Proof.
  intros w [[Hp Hw]|Hw]; [rewrite settle_none by done; by left|].
  pose proof (settle_doomed (eq d) c o (fun _ _ => False) w Hw) as H.
  destruct (settle o w) as [[f|e] w']; [by right|done].
Qed.
End Safety.
