(* ===== verification/BoundarySafety.v ===== *)
(** * Transactions are all or nothing, or the database refuses

    However submissions end, whatever the workers do meanwhile and whatever fails: a
    transaction that returns is committed whole, one that raises left no trace or was
    committed before its cancellation could be delivered, and in every other case the
    latch is set and the file holds one of the two. *)
From S2P Require Import Prelude Py Effects PyOps PyVals DbCore Worker Boundary WorkerFacts BoundarySteps.
Open Scope Z_scope.

Lemma hoare_or {S A} (P1 P2 : S -> Prop) (m : M S A) Q X :
  hoare P1 m Q X -> hoare P2 m Q X -> hoare (fun s => P1 s \/ P2 s) m Q X.
Proof. intros H1 H2 s [H|H]; [by apply H1|by apply H2]. Qed.

Lemma hoare_exists {S A B} (P : B -> S -> Prop) (m : M S A) Q X :
  (forall b, hoare (P b) m Q X) -> hoare (fun s => exists b, P b s) m Q X.
Proof. intros H s [b Hb]. by apply (H b). Qed.

Lemma hoare_pre {S A} (P P' : S -> Prop) (m : M S A) Q X : (forall s, P' s -> P s) -> hoare P m Q X -> hoare P' m Q X.
Proof. intros HP Hm s Hs. by apply Hm, HP. Qed.

Lemma hoare_hyp {S A} (phi : Prop) P (m : M S A) Q X :
  (phi -> hoare P m Q X) -> hoare (fun s => phi /\ P s) m Q X.
Proof. intros H s [Hp Hs]. by apply H. Qed.

Lemma hoare_try_keeps {D S R A} (I : db D S R -> Prop) (m : M (db D S R) A) X :
  keeps I m -> hoare I (trying m) (fun _ => I) X.
Proof. intros H w Hw. specialize (H w Hw). unfold trying. by destruct (m w) as [r w']. Qed.

Section Safety.
Context {D S R : Type} {E : Engine D S R} {L : EngineLaws}.
Implicit Types (w : db D S R) (k : conn D S R) (P : D -> Prop) (d : D) (t : option D).
Implicit Types (cs : list (nat * option R)) (o : outcome).
Abbreviation K := (M (db D S R)).

(** ** Closing what is open *)

(** A problem is on record, and what may still run is contained. *)
Definition flawed P c o w : Prop := o_problems o <> [] /\ contained P c w.

(** How the endings of a clean-up step are told apart. *)
Lemma report_bad P c e s1 s2 s3 s4 o X : e <> CancelledError ->
  hoare (contained P c) (report_ending (Raise e) s1 s2 s3 s4 o) (fun r => flawed P c r.2) X.
Proof.
  intros He. unfold report_ending.
  destruct e; try done; (eapply hoare_bind; [apply unsafe_contained|]); intros [i o']; by intros w.
Qed.

Lemma report_flawed P c r s1 s2 s3 s4 o X :
  hoare (flawed P c o) (report_ending r s1 s2 s3 s4 o) (fun r => flawed P c r.2) X.
Proof.
  apply hoare_hyp. intros Ho. destruct r as [x|e].
  - intros w Hw. split; [simpl; by rewrite owe_problems|done].
  - destruct e; try by apply report_bad.
    intros w Hw. split; [by destruct o as [[] ? ?]|done].
Qed.

Lemma flawed_tidy P c o : tidy c (flawed P c o).
Proof.
  destruct (contained_tidy P c) as [H1 H2 H3 H4 H5 H6 H7 H8].
  split.
  - intros p what dsp Hp w [Ho Hw]. split; [done|by apply H1].
  - intros w [Ho Hw]. split; [done|by apply H2].
  - intros w x y Hx [Ho Hw]. split; [done|by apply H3].
  - intros w l [Ho Hw]. split; [done|by apply H4].
  - intros w h [Ho Hw]. split; [done|by apply H5].
  - intros w n [Ho Hw]. split; [done|by apply H6].
  - intros w l b [Ho Hw]. split; [done|by apply H7].
  - intros w [Ho Hw]. split; [done|by apply H8].
Qed.

(** Nothing but these cursors is open, or a problem is on record. *)
Definition swept c d t fr l o w : Prop :=
  o_problems o = [] /\ (exists cs, here c d t cs fr w /\ Forall (fun p => In p.1 l) cs) \/ flawed (eq d) c o w.

Lemma without_in cur l cs : Forall (fun p => In p.1 (cur :: l)) cs -> Forall (fun p => In p.1 l) (without cur cs).
Proof.
  rewrite !List.Forall_forall. intros H p Hp. unfold without in Hp. apply filter_In in Hp as [Hp Hn].
  destruct (H p Hp) as [He|?]; [|done]. by rewrite He, Nat.eqb_refl in Hn.
Qed.

(** A close from which the caller learns that something is left, at most. *)
Lemma or_lost_contained d c e w (Q : exn -> db D S R -> Prop) : (forall w, Q e w -> contained (eq d) c w) ->
  or_lost Q (eq d) c e w -> e <> CancelledError /\ contained (eq d) c w.
Proof. intros H [(Hq & _ & ?)|[He [Hw _]]]; [by split; [|apply H]|]. split; [by intros ->|done]. Qed.

Lemma swept_step c d t fr cur l o s1 s2 s3 s4 X :
  hoare (swept c d t fr (cur :: l) o)
    (r ← trying (_close_cursor c cur); report_ending r s1 s2 s3 s4 o) (fun r => swept c d t fr l r.2) X.
Proof.
  apply hoare_or.
  - apply hoare_hyp. intros Ho. apply hoare_exists. intros cs.
    apply hoare_pure. intros Hcs. eapply hoare_bind; [eapply hoare_trying, close_here|].
    intros [x|e].
    + intros w [_ H]. left. split; [simpl; by rewrite owe_problems|]. eexists. split; [exact H|by apply without_in].
    + intros w H. apply or_lost_contained in H as [He Hc]; [|intros v [Hv|Hv]; by eapply here_contained].
      pose proof (report_bad (eq d) c e s1 s2 s3 s4 o (fun _ _ => False) He w Hc) as Hr.
      destruct (report_ending _ _ _ _ _ _ w) as [[r|?] w']; [|done]. by right.
  - eapply hoare_bind.
    + apply hoare_try_keeps. by apply (tidy_close c _ (flawed_tidy (eq d) c o)).
    + intros r. eapply hoare_weaken; [apply report_flawed|done|by right|done].
Qed.

Lemma cleanup_each_here c d t fr l X : forall o,
  hoare (swept c d t fr l o) (cleanup_each c l o) (fun o => swept c d t fr [] o) X.
Proof.
  induction l as [|cur l IH]; intros o; simpl; [by intros w|].
  intros w Hw. pose proof (swept_step c d t fr cur l o "cursor close failed under cancellation: " "cursor close submission cancelled: "
    "cursor close outcome unknown: " "cursor close: " (fun _ _ => False) w Hw) as H.
  cbv [mbind M_bind] in H |- *. destruct (trying (_close_cursor c cur) w) as [[r|e] w1]; [|done].
  destruct (report_ending _ _ _ _ _ _ w1) as [[[i o']|e] w2]; [|done]. by apply IH.
Qed.

(** What the handle still tracks covers what is open. *)
Definition tracked (h : handle) cs : Prop := Forall (fun p => In p.1 (h_cursors h)) cs.

Lemma here_handle c d t cs h sh me h' w : here c d t cs (h, sh, me) w -> here c d t cs (h', sh, me) (with_handle w h').
Proof.
  intros [Hd Ho Hk Hcl Hf Hb]. split; try done. unfold frame in *. simpl. by injection Hf as _ -> ->.
Qed.

Definition emptied (h : handle) : handle := set_handle_cursors [] h.

(** Nothing is open, or a problem is on record. *)
Definition emptied_or c d t fr o w : Prop := o_problems o = [] /\ here c d t [] fr w \/ flawed (eq d) c o w.

Lemma cleanup_here c d t cs h sh me X : tracked h cs ->
  hoare (here c d t cs (h, sh, me)) (_cleanup_cursors c no_outcome) (fun o => emptied_or c d t (emptied h, sh, me) o) X.
Proof.
  intros Ht. unfold _cleanup_cursors.
  eapply hoare_bind with (Q := fun l w => here c d t cs (h, sh, me) w /\ l = h_cursors h).
  { intros w Hw. split; [done|]. pose proof (hr_frame _ _ _ _ _ _ Hw) as Hf. unfold frame in Hf. by injection Hf as ->. }
  intros l. apply hoare_pure. intros ->.
  eapply hoare_bind with (Q := fun _ => swept c d t (emptied h, sh, me) (h_cursors h) no_outcome).
  { intros w Hw. left. split; [done|]. exists cs. split; [|done].
    pose proof (hr_frame _ _ _ _ _ _ Hw) as Hf. unfold frame in Hf. injection Hf as <- _ _. by eapply here_handle. }
  intros ?. eapply hoare_weaken; [apply cleanup_each_here|done| |done].
  intros o w [(Hp & cs' & Hw & Hcs)|Hw]; [left|by right]. split; [done|].
  destruct cs' as [|p cs']; [done|]. by inversion Hcs.
Qed.

(** ** Ending a transaction *)

(** A state that cannot be read cannot be read again. *)
Definition unreadable c w : Prop := forall k, conns w !! c = Some k -> opened k = false.

Lemma drop_harmless : harmless (D:=D) (S:=S) (R:=R) drop_wrapper.
Proof. by intros k. Qed.

Lemma state_here c d t cs fr X :
  hoare (here c d t cs fr) (_transaction_state c)
    (fun r w => here c d t cs fr w /\ match r with Some b => b = bool_decide (is_Some t) | None => unreadable c w end) X.
Proof.
  unfold _transaction_state. eapply hoare_bind; [apply here_turn|]. intros tn.
  eapply hoare_bind with (Q := fun _ => here c d t cs fr).
  { intros w Hw. unfold modify. destruct (t_readable tn); [done|]. by apply here_on. }
  intros ? w Hw. split; [done|]. destruct Hw as [_ _ (k & Hk & Ht & _) _ _ _]. unfold unreadable. rewrite Hk.
  destruct (opened k) eqn:Ho; [|by intros k' [= <-]]. unfold has_open_tx. rewrite Ht. by destruct t.
Qed.

Lemma unsafe_and_unclosed P c msg i o X : hoare (contained P c)
  ('(_, o) ← unsafe msg false i o; _ ← register_unclosed c; mret o) (fun o => flawed P c o) X.
Proof.
  eapply hoare_bind; [apply unsafe_contained|]. intros [i' o'].
  eapply hoare_bind with (Q := fun _ => flawed P c o'); [|by intros ? w].
  intros w [Ho Hw]. split; [done|]. unfold register_unclosed, modify. destruct (existsb _ _); [done|]. by destruct Hw.
Qed.

Lemma unsafe_only P c msg b i o X : hoare (contained P c)
  ('(_, o) ← unsafe msg b i o; mret o) (fun o => flawed P c o) X.
Proof. eapply hoare_bind; [apply unsafe_contained|]. by intros [i' o'] w. Qed.

Lemma hoare_state_keeps c (I : db D S R -> Prop) X : tidy c I -> hoare I (_transaction_state c) (fun _ => I) X.
Proof. intros HI w Hw. apply (tidy_state c _ HI) in Hw. by destruct (_transaction_state c w) as [[s|e] w'] eqn:He. Qed.

Lemma force_flawed P c i o X :
  hoare (flawed P c o) (_force_close_transaction c i o) (fun o => flawed P c o) X.
Proof.
  unfold _force_close_transaction. eapply hoare_bind; [apply hoare_state_keeps, flawed_tidy|].
  intros [[|]|]; [|by intros w|eapply hoare_weaken; [apply unsafe_and_unclosed|by intros w []|done..]].
  eapply hoare_bind; [apply hoare_try_keeps, (tidy_rollback c _ (flawed_tidy P c o))|]. intros r.
  eapply hoare_bind; [apply report_flawed|]. intros [i' o']. cbv zeta.
  eapply hoare_bind; [apply hoare_state_keeps, flawed_tidy|].
  intros [[|]|]; [eapply hoare_weaken; [apply unsafe_only|by intros w []|done..]|by intros w|].
  eapply hoare_weaken; [apply unsafe_and_unclosed|by intros w []|done..].
Qed.

(** Nothing is open but perhaps the transaction, or a problem is on record. *)
Definition maybe_open c d fr o w : Prop := o_problems o = [] /\ (exists t, here c d t [] fr w) \/ flawed (eq d) c o w.

Lemma reported_here c d fr r s1 s2 s3 s4 o X : o_problems o = [] ->
  hoare (fun w => match r with
           | Ok x => cancel_only x /\ (here c d None [] fr w \/ exists t, here c d t [] fr w)
           | Raise e => e <> CancelledError /\ contained (eq d) c w end)
    (report_ending r s1 s2 s3 s4 o) (fun r => maybe_open c d fr r.2) X.
Proof.
  intros Ho. destruct r as [x|e].
  - intros w [_ Hw]. left. split; [simpl; by rewrite owe_problems|]. destruct Hw as [Hw|?]; [by eexists|done].
  - apply hoare_hyp. intros He. eapply hoare_weaken; [by apply report_bad|done| |done]. by right.
Qed.

(** What a state that was read leaves of the transaction. *)
Lemma reread_here c d fr i msg1 msg2 o X :
  hoare (maybe_open c d fr o)
    (state ← _transaction_state c;
     match state with
     | None => '(_, o) ← unsafe msg1 false i o; _ ← register_unclosed c; mret o
     | Some true => '(_, o) ← unsafe msg2 false i o; mret o
     | Some false => mret o
     end) (fun o => emptied_or c d None fr o) X.
Proof.
  apply hoare_or.
  - apply hoare_hyp. intros Ho. apply hoare_exists. intros t. eapply hoare_bind; [apply state_here|].
    intros [[|]|].
    + eapply hoare_weaken; [apply (unsafe_only (eq d) c)|intros w [Hw _]; by eapply here_contained| |done]. by right.
    + intros w [Hw Hs]. left. by destruct t.
    + eapply hoare_weaken; [apply (unsafe_and_unclosed (eq d) c)|intros w [Hw _]; by eapply here_contained| |done]. by right.
  - eapply hoare_bind; [apply hoare_state_keeps, flawed_tidy|].
    intros [[|]|]; [|by right|]; (eapply hoare_weaken; [first [apply (unsafe_only (eq d) c)|apply (unsafe_and_unclosed (eq d) c)]|by intros w []| |done]);
      by right.
Qed.

Lemma force_close_here c d t fr i o X :
  hoare (emptied_or c d t fr o) (_force_close_transaction c i o) (fun o => emptied_or c d None fr o) X.
Proof.
  apply hoare_or; [|eapply hoare_weaken; [apply force_flawed|done|by right|done]].
  apply hoare_hyp. intros Ho. unfold _force_close_transaction. eapply hoare_bind; [apply state_here|].
  intros [[|]|].
  - apply hoare_pure. intros _. eapply hoare_bind; [eapply hoare_trying, rollback_here|].
    intros r. eapply hoare_bind with (Q := fun r => maybe_open c d fr r.2); [|intros [i' o']; cbv zeta; apply reread_here].
    eapply hoare_weaken; [apply (reported_here c d fr r _ _ _ _ o X Ho)| |done|done]. intros w Hw. destruct r as [x|e].
    + destruct Hw as [Hx [Hw|Hw]]; (split; [done|]); [by left|right; by exists t].
    + eapply or_lost_contained; [|exact Hw]. intros v [Hv|Hv]; by eapply here_contained.
  - intros w [Hw Hs]. left. by destruct t.
  - eapply hoare_weaken; [apply (unsafe_and_unclosed (eq d) c)|intros w [Hw _]; by eapply here_contained| |done]. by right.
Qed.

(** What may still be done to the connection of a transaction that failed. *)
Definition abortable c d sh me w : Prop :=
  (exists t cs h, here c d t cs (h, sh, me) w /\ tracked h cs) \/ lost (eq d) c w.

(** Nothing was done and nothing is open, or the latch is set and nothing will be. *)
Definition undone c d sh me w : Prop := (exists h, here c d None [] (h, sh, me) w) \/ lost (eq d) c w.

Lemma on_handle_here c d t cs h sh me f X :
  hoare (here c d t cs (h, sh, me)) (on_handle f : K unit) (fun _ => here c d t cs (f h, sh, me)) X.
Proof.
  intros w Hw. unfold on_handle, modify. pose proof (hr_frame _ _ _ _ _ _ Hw) as Hf. unfold frame in Hf.
  injection Hf as <- _ _. by eapply here_handle.
Qed.

Lemma hoare_tidy {A} c I (m : K A) (Q : db D S R -> Prop) X : tidy c I -> (tidy c I -> keeps I m) ->
  (forall w, I w -> Q w) -> (forall e w, I w -> X e w) -> hoare I m (fun _ => Q) X.
Proof.
  intros HI Hm HQ HX w Hw. specialize (Hm HI w Hw). destruct (m w) as [[a|e] w']; [by apply HQ|by apply HX].
Qed.

Lemma lost_keeps {A} P c (m : K A) (Q : db D S R -> Prop) X : (tidy c (lost P c) -> keeps (lost P c) m) ->
  (forall w, lost P c w -> Q w) -> (forall e w, lost P c w -> X e w) -> hoare (lost P c) m (fun _ => Q) X.
Proof. intros. eapply hoare_tidy; [apply lost_tidy|done..]. Qed.

Lemma abort_here c d sh me X :
  hoare (abortable c d sh me) (_abort_transaction c) (fun _ => undone c d sh me) (fun e w => undone c d sh me w \/ X e w).
Proof.
  apply hoare_or; [|apply lost_keeps; [apply tidy_abort|by right|by left; right]].
  apply hoare_exists. intros t. apply hoare_exists. intros cs. apply hoare_exists. intros h. apply hoare_pure. intros Ht.
  unfold _abort_transaction. eapply hoare_bind; [apply on_handle_here|]. intros ?.
  eapply hoare_bind; [by apply cleanup_here|]. intros o.
  eapply hoare_bind; [apply force_close_here|]. intros o'. apply hoare_or.
  - apply hoare_hyp. intros Ho w Hw. rewrite Ho. left. by eexists.
  - apply hoare_hyp. intros Ho. destruct (o_problems o') as [|p l] eqn:Hp; [done|].
    eapply hoare_bind; [apply (settle_problems (eq d) c o'); by rewrite Hp|]. intros f w [_ Hw]. by right.
Qed.

Lemma undone_keeps {A} c d sh me (m : K A) (Q : db D S R -> Prop) X :
  (forall w, (m w).2 = w) -> (forall w, undone c d sh me w -> Q w) -> (forall e w, undone c d sh me w -> X e w) ->
  hoare (undone c d sh me) m (fun _ => Q) X.
Proof. intros Hm HQ HX w Hw. specialize (Hm w). destruct (m w) as [[a|e] w']; simpl in Hm; subst; by auto. Qed.

Lemma reclassify_same ab e w : (_reclassify ab e w).2 = w.
Proof. unfold _reclassify. destruct e; simpl; try done; destruct (ab_cancelled ab); try done; by destruct (ab_unresolved ab). Qed.

Lemma abort_with_here {A} c d sh me e :
  hoare (abortable c d sh me) (abort_with c e : K A) (fun _ _ => False) (fun _ => undone c d sh me).
Proof.
  unfold abort_with. eapply hoare_bind.
  - eapply hoare_weaken; [apply (abort_here c d sh me (fun _ _ => False))|done..|]. by intros e' w [?|].
  - intros ab. eapply hoare_bind with (Q := fun _ => undone c d sh me); [|by intros ? w].
    apply undone_keeps; [apply reclassify_same|done|done].
Qed.

(** ** Committing *)

(** An outcome that raises when it is settled. *)
Definition owing o : Prop := o_problems o <> [] \/ settled o <> None.

Lemma owing_owe x o : owing o -> owing (owe x o).
Proof. intros [Ho|Ho]; [left; by rewrite owe_problems|right; by apply owe_settled]. Qed.

Lemma owing_unsafe msg b i o X : hoare (fun _ => True) (unsafe msg b i o : K _) (fun r _ => owing r.2) X.
Proof.
  unfold unsafe. eapply hoare_bind with (Q := fun _ _ => True); [by destruct i|].
  intros i' w _. left. simpl. by destruct (o_problems o).
Qed.

Lemma owing_report r s1 s2 s3 s4 o X : owing o ->
  hoare (fun _ => True) (report_ending r s1 s2 s3 s4 o : K _) (fun r _ => owing r.2) X.
Proof.
  intros Ho. destruct r as [x|e]; [intros w _; by apply owing_owe|].
  unfold report_ending. destruct e; try (eapply hoare_bind; [apply owing_unsafe|]; intros [i o']; by intros w).
  intros w _. by apply (owing_owe (Some CancelledError)).
Qed.

Lemma hoare_true {A} (m : K A) X : (forall e w, X e w) -> hoare (fun _ => True) m (fun _ _ => True) X.
Proof. intros HX w _. destruct (m w) as [[a|e] w']; [done|apply HX]. Qed.

Lemma hoare_value {A B} (m : K A) (k : A -> K B) (phi : A -> Prop) Q X :
  hoare (fun _ => True) m (fun a _ => phi a) X -> (forall a, phi a -> hoare (fun _ => True) (k a) Q X) ->
  hoare (fun _ => True) (m ≫= k) Q X.
Proof.
  intros Hm Hk w Hw. specialize (Hm w Hw). unfold mbind, M_bind. destruct (m w) as [[a|e] w']; [by apply Hk|done].
Qed.

Lemma owing_force c i o : owing o ->
  hoare (fun _ => True) (_force_close_transaction c i o : K _) (fun o _ => owing o) (fun _ _ => True).
Proof.
  intros Ho. unfold _force_close_transaction. eapply hoare_value; [by apply (hoare_true _ (fun _ _ => True))|].
  assert (Hu : forall msg i o, hoare (fun _ => True) ('(_, o) ← unsafe msg false i o; _ ← register_unclosed c; mret o : K outcome)
      (fun o _ => owing o) (fun _ _ => True)).
  { intros msg i' o'. eapply hoare_value; [apply owing_unsafe|]. intros [i2 o2] H2.
    eapply hoare_value; [by apply (hoare_true _ (fun _ _ => True))|]. by intros ? ? w. }
  intros [[|]|] _; [|by intros w|apply Hu].
  eapply hoare_value; [by apply (hoare_true _ (fun _ _ => True))|]. intros r _.
  eapply hoare_value; [by apply owing_report|]. intros [i' o'] Ho'. cbv zeta.
  eapply hoare_value; [by apply (hoare_true _ (fun _ _ => True))|].
  intros [[|]|] _; [|by intros w|apply Hu].
  eapply hoare_value; [apply owing_unsafe|]. by intros [i2 o2] H2 w.
Qed.

Lemma hoare_and {A} (P1 P2 : db D S R -> Prop) (m : K A) (Q1 Q2 : A -> db D S R -> Prop) X :
  hoare P1 m Q1 X -> hoare P2 m Q2 (fun _ _ => True) ->
  hoare (fun w => P1 w /\ P2 w) m (fun a w => Q1 a w /\ Q2 a w) X.
Proof. intros H1 H2 w [Hw1 Hw2]. specialize (H1 w Hw1). specialize (H2 w Hw2). by destruct (m w) as [[a|e] w']. Qed.

Lemma raise_owing I X o : owing o ->
  hoare I (settle o) (fun f w => exists e, f = Some e /\ X e w) X ->
  hoare I (raise_if_owed o) (fun _ _ => False) X /\ hoare I (raise_settled o) (fun _ _ => False) X.
Proof.
  intros Ho Hs. split; (eapply hoare_bind; [exact Hs|]); by intros f w (e & -> & Hx).
Qed.

(** A transaction that is given up is undone and raises. *)
Lemma undo_here c d t sh me h i o m : owing o -> (m = raise_if_owed \/ m = raise_settled) ->
  hoare (emptied_or c d t (h, sh, me) o) (o ← _force_close_transaction c i o; m o)
    (fun _ _ => False) (fun _ => undone c d sh me).
Proof.
  intros Ho Hm. eapply hoare_bind.
  - eapply hoare_weaken; [apply (hoare_and _ _ _ _ _ _ (force_close_here c d t (h, sh, me) i o (fun _ => undone c d sh me)) (owing_force c i o Ho))| |done|done].
    by intros w.
  - intros o'. apply hoare_pure. intros Ho'.
    assert (H : hoare (emptied_or c d None (h, sh, me) o') (settle o') (fun f w => exists e, f = Some e /\ undone c d sh me w)
      (fun _ => undone c d sh me)).
    { intros w [[Hp Hw]|[Hp Hw]].
      - rewrite settle_none by done. destruct Ho' as [|Ho']; [done|].
        destruct (settled o') as [e|]; [exists e; split; [done|left; by eexists]|done].
      - pose proof (settle_problems (eq d) c o' (fun _ _ => False) Hp w Hw) as H.
        destruct (settle o' w) as [[f|e] w']; [|done]. destruct H as [[e ->] H]. exists e. split; [done|by right]. }
    apply raise_owing in H as [H1 H2]; [|done]. by destruct Hm as [-> | ->].
Qed.

Lemma lose_flawed P c o : o_problems o <> [] ->
  hoare (contained P c) (raise_settled o) (fun _ _ => False) (fun _ => lost P c).
Proof.
  intros Ho. unfold raise_settled. eapply hoare_bind; [by apply settle_problems|]. by intros f w [[e ->] Hw].
Qed.

Lemma lose_forced P c i o :
  hoare (flawed P c o) (o ← _force_close_transaction c i o; raise_settled o) (fun _ _ => False) (fun _ => lost P c).
Proof. eapply hoare_bind; [apply force_flawed|]. intros o'. apply hoare_hyp. intros Ho. by apply lose_flawed. Qed.

(** How a commit of [v] over [d] can end with an exception. *)
Definition not_returned c d v sh me e w : Prop :=
  (exists h, here c d None [] (h, sh, me) w) \/
  is_cancelled e = true /\ (exists h, here c v None [] (h, sh, me) w) \/ lost (either d v) c w.

Lemma undone_not_returned c d v sh me e w : undone c d sh me w -> not_returned c d v sh me e w.
Proof. intros [?|?]; [by left|right; right]. eapply lost_weaken; [|done]. intros x <-. by left. Qed.

Definition only_cancels o : Prop := match o_cancelled o with Some e => is_cancelled e = true | None => True end.

Lemma commit_returned_here c d v sh me h o :
  only_cancels o ->
  hoare (fun w => here c v None [] (h, sh, me) w \/ here c d (Some v) [] (h, sh, me) w) (commit_returned c o)
    (fun _ w => exists h, here c v None [] (h, sh, me) w) (not_returned c d v sh me).
Proof.
  intros Ho. unfold commit_returned.
  assert (Hl : forall msg, hoare (contained (either d v) c)
      ('(i, o) ← unsafe msg false None o; o ← _force_close_transaction c (Some i) o; raise_settled o)
      (fun _ w => exists h, here c v None [] (h, sh, me) w) (not_returned c d v sh me)).
  { intros msg. eapply hoare_bind; [apply (unsafe_contained (either d v) c)|]. intros [i o'].
    eapply hoare_weaken; [apply (lose_forced (either d v) c)|done|done|]. intros e w Hw. by right; right. }
  apply hoare_or; (eapply hoare_bind; [apply state_here|]); (intros [[|]|];
    [|intros w [Hw Hs]; try done|
     eapply hoare_weaken; [apply Hl|intros w [Hw _]; eapply here_contained; [|exact Hw]; unfold either; by auto|done|done]]).
  - eapply hoare_weaken; [apply Hl|intros w [Hw _]; eapply here_contained; [|exact Hw]; unfold either; by auto|done|done].
  - unfold only_cancels in Ho. destruct (o_cancelled o) as [e|]; [|by eexists]. right. left. split; [done|by eexists].
  - eapply hoare_weaken; [apply Hl|intros w [Hw _]; eapply here_contained; [|exact Hw]; unfold either; by auto|done|done].
Qed.

Lemma unread_turn c d t cs fr X :
  hoare (fun w => here c d t cs fr w /\ unreadable c w) next_turn (fun _ w => here c d t cs fr w /\ unreadable c w) X.
Proof.
  intros w [Hw Hu]. pose proof (here_turn c d t cs fr X w Hw) as Ht. revert Ht. unfold next_turn. cbv zeta.
  set (tn := default calm (head (turns w))). intros Ht. split; [exact Ht|]. clear Ht.
  set (w1 := with_turns w (tail (turns w)) (interrupted w)).
  assert (H1 : here c d t cs fr w1) by (eapply here_same; [exact Hw|..]; try done; apply Hw).
  set (w2 := if t_closing tn then with_shut w1 true (closed w1) else w1).
  assert (H2 : here c d t cs fr w2).
  { unfold w2. destruct (t_closing tn); [|done]. eapply here_same; [exact H1|..]; try done; apply H1. }
  assert (E2 : conns w2 = conns w) by (unfold w2; by destruct (t_closing tn)).
  assert (H3 : here c d t cs fr (if t_exits tn then with_conns w2 (exits <$> conns w2) else w2)).
  { destruct (t_exits tn); [by apply here_exits|done]. }
  erewrite here_run by exact H3. intros k Hk. destruct (t_exits tn); simpl in Hk; rewrite E2 in Hk; [|by apply Hu].
  rewrite list_lookup_fmap, fmap_Some in Hk. destruct Hk as (k0 & Hk0 & ->).
  specialize (Hu k0 Hk0). unfold exits. by destruct (worker k0).
Qed.

Lemma state_unread c d t cs fr X :
  hoare (fun w => here c d t cs fr w /\ unreadable c w) (_transaction_state c) (fun r w => here c d t cs fr w /\ r = None) X.
Proof.
  unfold _transaction_state. eapply hoare_bind; [apply unread_turn|]. intros tn.
  eapply hoare_bind with (Q := fun _ w => here c d t cs fr w /\ unreadable c w).
  - intros w [Hw Hu]. unfold modify. destruct (t_readable tn); [done|]. split; [by apply here_on|].
    destruct (hr_conn _ _ _ _ _ _ Hw) as (k & Hk & _). intros k'. unfold on_conn. simpl. rewrite (alter_at _ _ _ k) by done.
    rewrite list_lookup_insert_eq by (by eapply lookup_lt_Some). by intros [= <-].
  - intros ? w [Hw Hu]. split; [done|]. destruct (conns w !! c) as [k|] eqn:Hk; [|done]. by rewrite (Hu k Hk).
Qed.

Lemma force_unread P c d t cs fr i o X : P d ->
  hoare (fun w => here c d t cs fr w /\ unreadable c w) (_force_close_transaction c i o) (fun o => flawed P c o) X.
Proof.
  intros Hp. unfold _force_close_transaction. eapply hoare_bind; [apply state_unread|]. intros r. apply hoare_pure. intros ->.
  eapply hoare_weaken; [apply (unsafe_and_unclosed P c)|intros w Hw; by eapply here_contained|done|done].
Qed.

Lemma lose_settled P c o : hoare (flawed P c o) (raise_if_owed o) (fun _ _ => False) (fun _ => lost P c).
Proof.
  apply hoare_hyp. intros Ho. unfold raise_if_owed. eapply hoare_bind; [by apply settle_problems|]. by intros f w [[e ->] Hw].
Qed.

Lemma commit_failed_here c d v sh me h e o x t :
  e <> CancelledError -> o_problems o = [] -> (t = None /\ either d v x \/ is_Some t /\ x = d) ->
  hoare (here c x t [] (h, sh, me)) (commit_failed c e o) (fun _ _ => False) (not_returned c d v sh me).
Proof.
  intros He Ho Hx. assert (Hp : either d v x) by (destruct Hx as [[_ ?]|[_ ->]]; [done|by left]).
  unfold commit_failed. cbv zeta. destruct (absorb_error e o He) as [e' Ee]. rewrite Ee.
  pose proof (absorb_problems e o) as Hap. set (o' := absorb e o) in *. clearbody o'.
  assert (Hor : owing o') by (right; unfold settled; by rewrite Ee).
  assert (Hu : hoare (fun w => here c x t [] (h, sh, me) w /\ unreadable c w)
     (o ← _force_close_transaction c None o'; raise_if_owed o) (fun _ _ => False) (not_returned c d v sh me)).
  { eapply hoare_bind; [by apply (force_unread (either d v))|]. intros o2.
    eapply hoare_weaken; [apply (lose_settled (either d v) c)|done|done|]. intros e2 w Hw. by right; right. }
  eapply hoare_bind with (Q := fun (b : bool) w => here c x t [] (h, sh, me) w /\
    (b = true /\ t = None \/ b = false /\ (unreadable c w \/ is_Some t))).
  { eapply hoare_bind; [apply state_here|]. intros st w [Hw Hs]. split; [done|].
    destruct st as [[|]|]; [right; split; [done|right]|left; split; [done|]|right; split; [done|by left]]; destruct t; by eauto. }
  intros b. destruct b.
  - intros w [Hw [[_ ->]|[? _]]]; [|done]. unfold fail_stop_now. right. right.
    split; [|unfold latched; simpl; by destruct (fail_stop w)].
    pose proof (here_contained (either d v) c x None [] _ w Hp Hw) as []. by split.
  - intros w [Hw [[? _]|[_ [Hr|Ht]]]]; [done|by apply Hu|].
    destruct Hx as [[-> _]|[_ ->]]; [by destruct Ht|].
    eapply (hoare_weaken (emptied_or c d t (h, sh, me) o') (eq w)); [|by intros ? <-; left; rewrite Hap|..|done];
      [by apply undo_here; [|left]|done|]. intros e2 w' H. by apply undone_not_returned.
Qed.

Lemma owe_only x o : o_cancelled o = None -> cancel_only x -> only_cancels (owe x o).
Proof. intros Ho [-> | ->]; unfold only_cancels, owe; rewrite Ho; by rewrite ?Ho. Qed.

(** The commit itself. *)
Lemma commit_submitted_here c d v sh me h o : o_problems o = [] -> o_cancelled o = None ->
  hoare (here c d (Some v) [] (h, sh, me))
    (r ← trying (_submit c Commit "commit" OwnsNothing);
     match r with
     | Raise (OutcomeUnknown what owes) =>
         '(_, o) ← unsafe ("commit outcome unknown (" ++ what ++ ")")%string true None (owe (owed_if owes) o);
         raise_settled o
     | Raise (ChildCancelled what owes) =>
         '(_, o) ← unsafe ("commit submission cancelled (" ++ what ++ ")")%string true None (owe (owed_if owes) o);
         o ← _force_close_transaction c None o;
         raise_settled o
     | Raise e => commit_failed c e o
     | Ok (_, cancelled) => commit_returned c (owe cancelled o)
     end)
    (fun _ w => exists h, here c v None [] (h, sh, me) w) (not_returned c d v sh me).
Proof.
  intros Hp Hc. eapply hoare_bind; [eapply hoare_trying, commit_here|]. intros [[a x]|e].
  - apply hoare_hyp. intros Hx. eapply hoare_weaken; [apply (commit_returned_here c d v sh me h)|done..]. by apply owe_only.
  - apply hoare_or.
    + assert (Hf : e <> CancelledError -> hoare (fun w => here c v None [] (h, sh, me) w \/ here c d (Some v) [] (h, sh, me) w \/
          here c d None [] (h, sh, me) w) (commit_failed c e o)
          (fun _ w => exists h, here c v None [] (h, sh, me) w) (not_returned c d v sh me)).
      { intros He. apply hoare_or; [|apply hoare_or]; (eapply hoare_weaken; [apply commit_failed_here; [done|done|]|done|done|done]).
        - left. split; [done|by right].
        - right. by split.
        - left. split; [done|by left]. }
      intros w (Hw & Ha & He). destruct e; try done; by apply Hf.
    + apply hoare_hyp. intros Ha. destruct e as [| | | | | | | | | | | | | | | | | | | | |what owes|what owes| | | |]; try done;
        (eapply hoare_bind; [eapply hoare_weaken; [apply (unsafe_contained (either d v) c)|by intros w []|done|done]|]); intros [i o'].
      * apply hoare_hyp. intros Ho. eapply hoare_weaken; [by apply (lose_flawed (either d v) c)|done|done|].
        intros e w Hw. by right; right.
      * eapply hoare_weaken; [apply (lose_forced (either d v) c)|done|done|]. intros e w Hw. by right; right.
Qed.

Lemma commit_transaction_here c d v sh me h cs : tracked h cs ->
  hoare (here c d (Some v) cs (h, sh, me)) (_commit_transaction c)
    (fun _ w => exists h, here c v None [] (h, sh, me) w) (not_returned c d v sh me).
Proof.
  intros Ht. unfold _commit_transaction. eapply hoare_bind; [apply on_handle_here|]. intros ?.
  eapply hoare_bind; [by apply cleanup_here|]. intros o.
  assert (Hu : owing o -> hoare (emptied_or c d (Some v) (emptied (close_handle h), sh, me) o)
     (o ← _force_close_transaction c None o; raise_if_owed o)
     (fun _ w => exists h, here c v None [] (h, sh, me) w) (not_returned c d v sh me)).
  { intros Ho. eapply hoare_weaken; [apply undo_here; [done|by left]|done|done|]. intros e w. by apply undone_not_returned. }
  destruct (o_problems o) as [|p l] eqn:Hp; [|apply Hu; left; by rewrite Hp].
  destruct (o_cancelled o) as [e|] eqn:Hc.
  - apply Hu. right. unfold settled. rewrite Hc. by destruct (o_error o).
  - apply hoare_or; [|apply hoare_hyp; by rewrite Hp]. apply hoare_hyp. intros _. by apply commit_submitted_here.
Qed.
End Safety.
