(* ===== verification/BoundaryBody.v ===== *)
(** * What runs inside a transaction

    The statements of a body, against [denote]: what a body means on a content of the
    file, without workers, cursors or failures. *)
From S2P Require Import Prelude Py Effects PyOps PyVals DbCore Worker Boundary WorkerFacts BoundarySteps BoundarySafety.
Open Scope Z_scope.

Section Denote.
Context {D S R : Type} {E : Engine D S R}.

(** The meaning of a body. *)
Fixpoint denote {A} (b : body S R A) : M D A :=
  match b with
  | Ret a => mret a
  | Throw e => raise e
  | Run s k | Query s k => r ← exec s; denote (k r)
  end.
(** The boundary as its clients see it, on a content of the file. *)
Definition spec {A} (b : body S R A) d : res A * D := transaction (fun _ => healthy) (denote b) d.

Lemma spec_ok {A} (b : body S R A) d a v : denote b d = (Ok a, v) -> spec b d = (Ok a, v).
Proof. intros H. unfold spec, transaction, rolled_back. simpl. by rewrite H. Qed.

Lemma spec_raise {A} (b : body S R A) d e v : denote b d = (Raise e, v) -> spec b d = (Raise e, d).
Proof. intros H. unfold spec, transaction, rolled_back. simpl. by rewrite H. Qed.
End Denote.

Section Body.
Context {D S R : Type} {E : Engine D S R} {L : EngineLaws}.
Implicit Types (w : db D S R) (k : conn D S R) (P : D -> Prop) (d v : D) (t : option D).
Implicit Types (cs : list (nat * option R)) (o : outcome) (h : handle) (sh me : option nat).
Abbreviation K := (M (db D S R)).

(** ** One statement *)

Lemma release_here c d t cs h sh me cur :
  hoare (here c d t cs (h, sh, me)) (_release c cur)
    (fun x w => cancel_only x /\ here c d t (without cur cs) (set_handle_cursors (remove_first cur (h_cursors h)) h, sh, me) w)
    (or_lost (fun e w => here c d t cs (h, sh, me) w \/ here c d t (without cur cs) (h, sh, me) w) (eq d) c).
Proof.
  unfold _release. eapply hoare_bind; [apply close_here|]. intros x. apply hoare_hyp. intros Hx.
  eapply hoare_bind; [apply on_handle_here|]. intros ? w Hw. by split.
Qed.

(** A statement that failed leaves nothing open but perhaps the transaction. *)
Definition statement_failed c d sh me w : Prop := (exists t h, here c d t [] (h, sh, me) w) \/ lost (eq d) c w.

Lemma failed_abortable c d sh me w : statement_failed c d sh me w -> abortable c d sh me w.
Proof. intros [(t & h & Hw)|Hw]; [left|by right]. exists t, [], h. split; [done|constructor]. Qed.

(** What settling leads to, when the outcome in hand speaks of the state. *)
Lemma finish_settled {A} c d t h sh me o (v : option A) :
  hoare (going c d t [] (h, sh, me) o)
    (f ← settle o; match f, v with Some e, _ => _raise_public e | None, Some a => mret a | None, None => raise TypeError end)
    (fun a w => v = Some a /\ settled o = None /\ here c d t [] (h, sh, me) w)
    (fun _ => statement_failed c d sh me).
Proof.
  eapply hoare_bind; [apply settle_going|]. intros f w [[-> Hw]|[[e ->] Hw]]; [|right; exact Hw].
  destruct (settled o) as [e|]; [left; exists t, h; exact Hw|].
  destruct v as [a|]; [by split_and!|left; exists t, h; exact Hw].
Qed.

Lemma finish_no_cursor {A} c d t h sh me o (v : option A) :
  hoare (going c d t [] (h, sh, me) o) (_finish c o None v)
    (fun a w => v = Some a /\ settled o = None /\ here c d t [] (h, sh, me) w) (fun _ => statement_failed c d sh me).
Proof.
  unfold _finish. eapply hoare_bind with (Q := fun o' w => o' = o /\ going c d t [] (h, sh, me) o w); [by intros w|].
  intros o'. apply hoare_hyp. intros ->. apply finish_settled.
Qed.

Lemma settled_owe x o : settled (owe x o) = None -> settled o = None.
Proof. intros H. destruct (settled o) eqn:Hs; [|done]. exfalso. apply (owe_settled x o); [by rewrite Hs|done]. Qed.

(** The cursor is closed, and the outcome settled. *)
Lemma finish_here {A} c d t h sh me o (v : option A) n x : o_problems o = [] -> h_cursors h = [n] ->
  hoare (here c d t [(n, x)] (h, sh, me)) (_finish c o (Some n) v)
    (fun a w => v = Some a /\ settled o = None /\ here c d t [] (emptied h, sh, me) w)
    (fun _ => statement_failed c d sh me).
Proof.
  intros Ho Hh. unfold _finish.
  eapply hoare_bind with (Q := fun o' w =>
    ((exists y, o' = owe y o) /\ here c d t [] (emptied h, sh, me) w) \/ doomed (eq d) c o' w).
  - eapply hoare_bind; [eapply hoare_trying, release_here|]. rewrite Hh. simpl. rewrite Nat.eqb_refl. intros [y|e].
    + intros w [Hy Hw]. left. split; [by eexists|done].
    + eapply (hoare_weaken (contained (eq d) c)); [apply (unsafe_only (eq d) c _ _ _ _ (fun _ => statement_failed c d sh me))| |..].
      * intros w Hw. by eapply or_lost_contained in Hw as [_ ?]; [|intros v' [Hv|Hv]; by eapply here_contained].
      * intros o' w [Ho' Hw]. right. by apply doomed_problems.
      * done.
  - intros o'. apply hoare_or.
    + apply hoare_hyp. intros [y ->]. eapply hoare_weaken; [apply (finish_settled c d t (emptied h) sh me)| | |done].
      * intros w Hw. left. by rewrite owe_problems.
      * intros a w (-> & Hs & Hw). split_and!; [done|by eapply settled_owe|done].
    + eapply hoare_bind; [apply settle_doomed|]. intros f w [[e ->] Hw]. right. exact Hw.
Qed.

Lemma check_same (i j : nat) w : (_check i j w).2 = w.
Proof. unfold _check. cbv [mbind M_bind gets]. by repeat case_match. Qed.

Lemma run_here c d v h sh me s what : h_cursors h = [] ->
  hoare (here c d (Some v) [] (h, sh, me)) (_run c s what)
    (fun r w => cancel_only r.2 /\ exists rows v', exec s v = (Ok rows, v') /\
       here c d (Some v') [(r.1, Some rows)] (set_handle_cursors [r.1] h, sh, me) w)
    (or_lost (fun e w => exists t, here c d t [] (h, sh, me) w) (eq d) c).
Proof.
  intros Hh. unfold _run. eapply hoare_bind; [apply execute_here|]. intros [a x].
  apply hoare_hyp. intros Hx. apply hoare_exists. intros n. apply hoare_exists. intros rows. apply hoare_exists. intros v'.
  apply hoare_hyp. simpl. intros ->. apply hoare_hyp. intros He.
  eapply hoare_bind; [apply on_handle_here|]. intros ? w Hw. split; [done|]. exists rows, v'. by rewrite Hh in Hw.
Qed.

(** A statement that the worker refused, or whose outcome is unknown. *)
Lemma run_failed_here {A} c d h sh me e (v : option A) :
  hoare (or_lost (fun e w => exists t, here c d t [] (h, sh, me) w) (eq d) c e)
    (_finish c (absorb e no_outcome) None v) (fun _ _ => False) (fun _ => statement_failed c d sh me).
Proof.
  apply hoare_or.
  - intros w [[t Hw] _]. pose proof (finish_no_cursor c d t h sh me (absorb e no_outcome) v w) as H.
    assert (Hg : going c d t [] (h, sh, me) (absorb e no_outcome) w) by (left; split; [apply absorb_problems|done]).
    specialize (H Hg). destruct (_finish _ _ _ _ w) as [[a|e'] w']; [|done]. destruct H as (_ & Hn & _).
    by destruct (absorb_settled e no_outcome) as [e' He]; rewrite He in Hn.
  - apply hoare_hyp. intros Ha w Hw.
    assert (Hs : o_error (absorb e no_outcome) <> None).
    { destruct (absorb_error e no_outcome) as [e' ->]; [by intros ->|done]. }
    pose proof (finish_no_cursor c d None h sh me (absorb e no_outcome) v w (or_intror (doomed_lost _ _ _ _ Hs Hw))) as H.
    destruct (_finish _ _ _ _ w) as [[a|e'] w']; [|done]. destruct H as (_ & Hn & _).
    by destruct (absorb_settled e no_outcome) as [e' He]; rewrite He in Hn.
Qed.

Lemma hoare_same {A} (I : db D S R -> Prop) (m : K A) : (forall w, (m w).2 = w) -> hoare I m (fun _ => I) (fun _ => I).
Proof. intros Hm. apply hoare_keeps. intros w Hw. by rewrite Hm. Qed.

(** Inside the transaction, between two statements. *)
Definition in_tx c d v sh me w : Prop :=
  exists h, h_conn h = c /\ h_cursors h = [] /\ here c d (Some v) [] (h, sh, me) w.

Lemma handle_conn_here {A} c d v h sh me (k : nat -> K A) Q X : h_conn h = c ->
  hoare (here c d (Some v) [] (h, sh, me)) (k c) Q X ->
  hoare (here c d (Some v) [] (h, sh, me)) (c ← gets (fun w => h_conn (hnd w)); k c) Q X.
Proof.
  intros Hc Hk w Hw. cbv [mbind M_bind gets]. pose proof (hr_frame _ _ _ _ _ _ Hw) as Hf. unfold frame in Hf.
  injection Hf as -> _ _. rewrite Hc. by apply Hk.
Qed.

Lemma check_then {A} I (i j : nat) (k : unit -> K A) Q X : (forall e w, I w -> X e w) ->
  hoare I (k tt) Q X -> hoare I (x ← _check i j; k x) Q X.
Proof.
  intros HX Hk. eapply hoare_bind with (Q := fun _ => I); [|by intros []].
  eapply hoare_weaken; [apply (hoare_same I), check_same|done|done|exact HX].
Qed.

Lemma in_tx_failed c d v h sh me w : here c d (Some v) [] (h, sh, me) w -> statement_failed c d sh me w.
Proof. intros Hw. left. by eexists _, _. Qed.

Lemma finish_rows c d v h sh me o n (rows : R) x : o_problems o = [] -> h_cursors h = [n] -> h_conn h = c ->
  hoare (here c d (Some v) [(n, x)] (h, sh, me)) (_finish c o (Some n) (Some rows))
    (fun a w => a = rows /\ in_tx c d v sh me w) (fun _ => statement_failed c d sh me).
Proof.
  intros Ho Hh Hc. eapply hoare_weaken; [by apply (finish_here c d (Some v) h sh me o (Some rows) n x)|done| |done].
  intros a w ([= ->] & _ & Hw). split; [done|]. by exists (emptied h).
Qed.

Lemma cursor_result_here c d t n rows fr X :
  hoare (here c d t [(n, Some rows)] fr) (cursor_result c n : K (option R))
    (fun (r : option R) w => r = Some rows /\ here c d t [(n, Some rows)] fr w) X.
Proof.
  intros w Hw. split; [|done]. destruct Hw as [_ _ (k & -> & _ & Hc & _) _ _ _]. simpl.
  unfold find_cursor. rewrite Hc. simpl. by rewrite Nat.eqb_refl.
Qed.

Lemma execute_stmt_here c d v sh me i j s :
  hoare (in_tx c d v sh me) (execute i j s)
    (fun a w => exists v', exec s v = (Ok a, v') /\ in_tx c d v' sh me w) (fun _ => statement_failed c d sh me).
Proof.
  apply hoare_exists. intros h. apply hoare_hyp. intros Hc. apply hoare_hyp. intros Hh.
  unfold execute. apply check_then; [by intros e w; apply in_tx_failed|]. apply handle_conn_here; [done|].
  eapply hoare_bind; [by eapply hoare_trying, run_here|]. intros [[n x]|e].
  - apply hoare_hyp. simpl. intros Hx. apply hoare_exists. intros rows. apply hoare_exists. intros v'. apply hoare_hyp. intros He.
    eapply hoare_bind; [apply cursor_result_here|]. intros r. apply hoare_hyp. intros ->.
    eapply hoare_weaken; [apply (finish_rows c d v' (set_handle_cursors [n] h)); [by rewrite owe_problems|done|done]|done| |done].
    intros a w [-> Hw]. by exists v'.
  - eapply hoare_weaken; [apply run_failed_here|done|done|done].
Qed.

(** The rows could not be fetched: the cursor is closed all the same. *)
Lemma fetch_failed_here {A} c d v h sh me o n rows e : o_problems o = [] -> h_cursors h = [n] ->
  hoare (or_lost (fun e w => here c d (Some v) [(n, Some rows)] (h, sh, me) w \/ here c d None [(n, Some rows)] (h, sh, me) w) (eq d) c e)
    (_finish c (absorb e o) (Some n) None : K A) (fun _ _ => False) (fun _ => statement_failed c d sh me).
Proof.
  intros Ho Hh. assert (Hf : forall t, hoare (here c d t [(n, Some rows)] (h, sh, me)) (_finish c (absorb e o) (Some n) None : K A)
      (fun _ _ => False) (fun _ => statement_failed c d sh me)).
  { intros t. eapply hoare_weaken; [apply (finish_here c d t h sh me (absorb e o) None n (Some rows)); [by rewrite absorb_problems|done]|done| |done].
    by intros a w (? & _). }
  apply hoare_or.
  - intros w [[Hw|Hw] _]; [by apply (Hf (Some v) w)|by apply (Hf None w)].
  - intros w [_ Hw]. pose proof (tidy_finish c _ (lost_tidy (eq d) c) (absorb e o) (Some n) (None : option A) w Hw) as Hl.
    assert (Hn : forall a w', _finish c (absorb e o) (Some n) (None : option A) w <> (Ok a, w')).
    { intros a w'. unfold _finish. cbv [mbind M_bind]. repeat case_match; intros [=]. }
    destruct (_finish _ _ _ _ w) as [[a|e'] w']; [by destruct (Hn a w')|]. by right.
Qed.

Lemma fetch_stmt_here c d v sh me i j s :
  hoare (in_tx c d v sh me) (fetch_all i j s)
    (fun a w => exists v', exec s v = (Ok a, v') /\ in_tx c d v' sh me w) (fun _ => statement_failed c d sh me).
Proof.
  apply hoare_exists. intros h. apply hoare_hyp. intros Hc. apply hoare_hyp. intros Hh.
  unfold fetch_all. apply check_then; [by intros e w; apply in_tx_failed|]. apply handle_conn_here; [done|].
  eapply hoare_bind; [by eapply hoare_trying, run_here|]. intros [[n x]|e].
  - apply hoare_hyp. simpl. intros Hx. apply hoare_exists. intros rows. apply hoare_exists. intros v'. apply hoare_hyp. intros He.
    eapply hoare_bind; [apply hoare_trying with (X' := fun _ => statement_failed c d sh me), fetch_here|]. intros [[a y]|e].
    + simpl. apply hoare_hyp. intros Hy. apply hoare_hyp. intros ->.
      eapply hoare_weaken; [apply (finish_rows c d v' (set_handle_cursors [n] h)); [by rewrite !owe_problems|done|done]|done| |done].
      intros a w [-> Hw]. by exists v'.
    + eapply hoare_weaken; [apply (fetch_failed_here c d v' (set_handle_cursors [n] h) sh me _ n rows); [by rewrite owe_problems|done]|done|done|done].
  - eapply hoare_weaken; [apply run_failed_here|done|done|done].
Qed.

(** ** A body *)

Lemma run_body_here {A} c d sh me i j (b : body S R A) : forall v,
  hoare (in_tx c d v sh me) (run_body i j b)
    (fun a w => exists v', denote b v = (Ok a, v') /\ in_tx c d v' sh me w)
    (fun e w => statement_failed c d sh me w).
Proof.
  induction b as [a|e|s k IH|s k IH]; intros v; simpl.
  - intros w Hw. by exists v.
  - intros w (h & _ & _ & Hw). by eapply in_tx_failed.
  - eapply hoare_bind; [apply execute_stmt_here|]. intros r. apply hoare_exists. intros v'. apply hoare_hyp. intros He.
    eapply hoare_weaken; [apply IH|done| |done]. intros a w (v2 & Hd & Hw). exists v2. split; [|done].
    unfold mbind, M_bind. by rewrite He.
  - eapply hoare_bind; [apply fetch_stmt_here|]. intros r. apply hoare_exists. intros v'. apply hoare_hyp. intros He.
    eapply hoare_weaken; [apply IH|done| |done]. intros a w (v2 & Hd & Hw). exists v2. split; [|done].
    unfold mbind, M_bind. by rewrite He.
Qed.

(** ** Beginning *)

Definition begun_well c d sh me o w : Prop :=
  o_problems o = [] /\ (in_tx c d d sh me w \/ settled o <> None /\ abortable c d sh me w).

Lemma begun_badly P c d sh me e o w : o_problems o = [] -> abortable c d sh me w -> begun_well c d sh me (absorb e o) w.
Proof.
  intros Ho Hw. split; [by rewrite absorb_problems|]. right. by destruct (absorb_settled e o) as [e' ->].
Qed.

Lemma in_tx_abortable c d v sh me w : in_tx c d v sh me w -> abortable c d sh me w.
Proof. intros (h & _ & _ & Hw). left. exists (Some v), [], h. split; [done|constructor]. Qed.

Lemma begin_release_here c d h sh me n o : h_conn h = c -> h_cursors h = [n] -> o_problems o = [] -> forall X,
  hoare (here c d (Some d) [(n, None)] (h, sh, me))
    (r ← trying (_release c n); mret (match r with Raise e => absorb e o | Ok cancelled => owe cancelled o end))
    (fun o w => begun_well c d sh me o w) X.
Proof.
  intros Hc Hh Ho X. eapply hoare_bind; [eapply hoare_trying, release_here|]. rewrite Hh. simpl. rewrite Nat.eqb_refl.
  intros [y|e].
  - intros w [_ Hw]. split; [by rewrite owe_problems|]. left. by exists (emptied h).
  - intros w Hw. apply (begun_badly (eq d)); [done|]. destruct Hw as [[[Hw|Hw] _]|[_ Hw]]; [left|left|by right].
    + exists (Some d), [(n, None)], h. split; [done|]. unfold tracked. rewrite Hh. repeat constructor.
    + exists (Some d), [], h. split; [done|constructor].
Qed.

Lemma begin_transaction_here c d h sh me X : h_conn h = c -> h_cursors h = [] ->
  hoare (here c d None [] (h, sh, me)) (begin_transaction c) (begun_well c d sh me) X.
Proof.
  intros Hc Hh. unfold begin_transaction. eapply hoare_bind.
  - eapply hoare_trying with (Q := fun nx w => cancel_only nx.2 /\ here c d (Some d) [(nx.1, None)] (set_handle_cursors [nx.1] h, sh, me) w).
    eapply hoare_bind; [apply begin_here|]. intros [a x].
    apply hoare_hyp. simpl. intros Hx. apply hoare_exists. intros n. apply hoare_hyp. simpl. intros ->.
    eapply hoare_bind; [apply on_handle_here|]. simpl. intros ? w Hw. rewrite Hh in Hw. by split.
  - intros [[n x]|e].
    + apply hoare_hyp. intros Hx. apply (begin_release_here c d (set_handle_cursors [n] h)); [done|done|by rewrite owe_problems].
    + intros w Hw. apply (begun_badly (eq d)); [done|]. destruct Hw as [[[t Hw] _]|[_ Hw]]; [left|by right].
      exists t, [], h. split; [done|constructor].
Qed.
End Body.
