(* ===== verification/BoundaryConn.v ===== *)
(** * Reads, and connections built on demand

    A statement that changes nothing leaves nothing open and nothing changed; a
    connection is published configured and idle, or discarded, or the latch is set. *)
From S2P Require Import Prelude Py Effects PyOps PyVals DbCore Worker Boundary WorkerFacts BoundarySteps BoundarySafety BoundaryBody.
Open Scope Z_scope.

Section Connections.
Context {D S R : Type} {E : Engine D S R} {L : EngineLaws}.
Implicit Types (w : db D S R) (k : conn D S R) (P : D -> Prop) (d v : D) (t : option D).
Implicit Types (cs : list (nat * option R)) (o : outcome) (h : handle) (fr : handle * option nat * option nat).
Abbreviation K := (M (db D S R)).

(** A statement that changes nothing, wherever it runs. *)
Definition pure_statement (s : S) : Prop := forall d, (exec s d).2 = d.

(** The connection is idle again, or the latch is set. *)
Definition idle_or_lost c d fr w : Prop := here c d None [] fr w \/ lost (eq d) c w.

(** What a statement and its fetch leave. *)
Definition fetched c d (s : S) fr (r : option nat * option R * outcome) w : Prop :=
  let '(cur, rows, o) := r in
  o_problems o = [] /\
  ((exists n x, cur = Some n /\ exec s d = (Ok x, d) /\ here c d None [(n, Some x)] fr w /\ (rows = Some x \/ o_error o <> None)) \/
   cur = None /\ o_error o <> None /\ here c d None [] fr w \/
   o_error o <> None /\ lost (eq d) c w).

Lemma raised_error e o : e <> CancelledError -> o_error (absorb e o) <> None.
Proof. intros He. by destruct (absorb_error e o He) as [e' ->]. Qed.

Lemma execute_fetch_here c d (s : S) fr what what' X : pure_statement s ->
  hoare (here c d None [] fr) (execute_fetch c s what what') (fetched c d s fr) X.
Proof.
  intros Hs. unfold execute_fetch. eapply hoare_bind; [by eapply hoare_trying, read_here|]. intros [[a x]|e].
  - apply hoare_hyp. simpl. intros Hx. apply hoare_exists. intros n. apply hoare_exists. intros r.
    apply hoare_hyp. simpl. intros ->. apply hoare_hyp. intros He.
    eapply hoare_bind; [eapply hoare_trying, fetch_here|]. intros [[b y]|e] w.
    + intros (Hy & Hb & Hw). simpl in Hb. subst b. split; [by rewrite !owe_problems|]. left. exists n, r. by eauto.
    + intros Hw. split; [by rewrite absorb_problems, owe_problems|]. destruct Hw as [[[Hw|Hw] [_ Hn]]|[Ha Hl]].
      * left. exists n, r. split_and!; try done. right. by apply raised_error.
      * left. exists n, r. split_and!; try done. right. by apply raised_error.
      * right. right. split; [|done]. apply raised_error. by intros ->.
  - intros w Hw. split; [by rewrite absorb_problems|]. right. destruct Hw as [[Hw [_ Hn]]|[Ha Hl]].
    + left. split_and!; [done|by apply raised_error|done].
    + right. split; [|done]. apply raised_error. by intros ->.
Qed.

(** The rows are those of the statement, or the outcome says otherwise. *)
Definition drained c d (s : S) fr (rows : option R) o w : Prop :=
  o_problems o = [] /\ here c d None [] fr w /\ (o_error o = None -> exists x, rows = Some x /\ exec s d = (Ok x, d)) \/
  doomed (eq d) c o w.

Lemma close_into_here c d (s : S) fr label r X :
  hoare (fetched c d s fr r) (close_into c label r.1.1 r.2) (fun o w => drained c d s fr r.1.2 o w) X.
Proof.
  destruct r as [[cur rows] o]. apply hoare_hyp. intros Ho. simpl. apply hoare_or; [|apply hoare_or].
  - apply hoare_exists. intros n. apply hoare_exists. intros x. apply hoare_hyp. intros ->. apply hoare_hyp. intros He.
    apply hoare_pure. intros Hr. simpl. eapply hoare_bind; [eapply hoare_trying, close_here|]. intros [y|e].
    + intros w [_ Hw]. left. simpl in Hw. rewrite Nat.eqb_refl in Hw. split_and!; [by rewrite owe_problems|done|].
      rewrite owe_error. intros Hn. destruct Hr; [by exists x|done].
    + eapply (hoare_weaken (contained (eq d) c)); [apply (unsafe_only (eq d) c _ _ _ _ X)| |..].
      * intros w Hw. by eapply or_lost_contained in Hw as [_ ?]; [|intros v' [Hv|Hv]; by eapply here_contained].
      * intros o' w [Ho' Hw]. right. by apply doomed_problems.
      * done.
  - apply hoare_hyp. intros ->. apply hoare_hyp. intros Hn w Hw. left. by split_and!.
  - apply hoare_hyp. intros Hn. unfold close_into. destruct cur as [n|]; [|intros w Hw; right; by apply doomed_lost].
    eapply hoare_bind; [apply hoare_try_keeps, (tidy_close c _ (lost_tidy (eq d) c))|]. intros [y|e].
    + intros w Hw. right. apply doomed_lost; [by rewrite owe_error|done].
    + eapply (hoare_weaken (contained (eq d) c)); [apply (unsafe_only (eq d) c _ _ _ _ X)|by intros w []| |done].
      intros o' w [Ho' Hw]. right. by apply doomed_problems.
Qed.

(** A statement, drained, on an idle connection. *)
Lemma drained_statement c d (s : S) fr what what' label X : pure_statement s ->
  hoare (here c d None [] fr)
    ('(cur, rows, o) ← execute_fetch c s what what'; o ← close_into c label cur o; mret (rows, o))
    (fun r w => drained c d s fr r.1 r.2 w) X.
Proof.
  intros Hs. eapply hoare_bind; [by apply execute_fetch_here|]. intros [[cur rows] o].
  eapply hoare_bind; [apply (close_into_here c d s fr label (cur, rows, o))|]. by intros o' w.
Qed.

Lemma resolved_none o : resolved o = true -> o_problems o = [] /\ o_error o = None.
Proof. unfold resolved. by destruct (o_error o), (o_problems o). Qed.

Lemma run_statement_here c d (s : S) fr what : pure_statement s ->
  hoare (here c d None [] fr) (_run_statement c s what)
    (fun r w => here c d None [] fr w /\ exists x, r.1 = Some x /\ exec s d = (Ok x, d)) (fun _ => idle_or_lost c d fr).
Proof.
  intros Hs. unfold _run_statement. eapply hoare_bind; [by apply execute_fetch_here|]. intros [[cur rows] o].
  eapply hoare_bind; [apply (close_into_here c d s fr _ (cur, rows, o))|]. intros o'. simpl.
  destruct (resolved o') eqn:Hr.
  - apply resolved_none in Hr as [Hp He]. intros w [(_ & Hw & Hx)|[_ [?|[_ ?]]]]; [|congruence..]. split; [done|by apply Hx].
  - eapply hoare_bind with (Q := fun _ => idle_or_lost c d fr); [|intros [e|]; by intros w].
    apply hoare_or.
    + intros w (Hp & Hw & _). rewrite settle_none by done. by left.
    + eapply hoare_weaken; [apply (settle_doomed (eq d) c o' (fun _ => idle_or_lost c d fr))|done| |done]. intros f w [_ Hw]. by right.
Qed.

Definition pragmas (l : list (string * string * (option pyval -> bool))) : Prop :=
  Forall (fun p => In p.1.1 connection_settings /\ In p.1.2 connection_settings) l.

(** Still idle, or failed, or failed for good. *)
Definition configured c d fr (r : option exn * outcome) w : Prop :=
  o_problems r.2 = [] /\ (here c d None [] fr w \/ r.1 <> None /\ lost (eq d) c w).

Lemma failed_configured c d fr e o w : o_problems o = [] -> idle_or_lost c d fr w -> configured c d fr (Some e, o) w.
Proof. intros Ho [Hw|Hw]; (split; [done|]); [by left|by right]. Qed.

Lemma set_pragmas_here c d fr l X : pragmas l -> forall o, o_problems o = [] ->
  hoare (here c d None [] fr) (set_pragmas c l o) (configured c d fr) X.
Proof.
  induction l as [|[[a r] p] l IH]; intros Hl o Ho; simpl; [intros w Hw; split; [done|by left]|].
  inversion Hl as [|? ? [Ha Hr] Hl']; subst. simpl in Ha, Hr.
  eapply hoare_bind; [eapply hoare_trying, run_statement_here; intros d'; by apply pragma_pure|].
  intros [[rows x]|e]; [|intros w; by apply failed_configured]. simpl. apply hoare_pure. intros _.
  eapply hoare_bind; [eapply hoare_trying, run_statement_here; intros d'; by apply pragma_pure|].
  intros [[rows' x']|e]; [|intros w; apply failed_configured; by rewrite owe_problems]. simpl. apply hoare_pure. intros _.
  destruct (p _); [apply IH; [done|by rewrite !owe_problems]|].
  intros w Hw. apply failed_configured; [by rewrite !owe_problems|by left].
Qed.

(** Settling an outcome without a problem changes nothing. *)
Lemma settle_same {A} (I : db D S R -> Prop) o (k : option exn -> K A) Q X : o_problems o = [] ->
  hoare I (k (settled o)) Q X -> hoare I (f ← settle o; k f) Q X.
Proof. intros Ho Hk w Hw. cbv [mbind M_bind]. rewrite settle_none by done. by apply Hk. Qed.

Lemma setup_pragmas : pragmas (_PRAGMA_SETUP (E:=E)).
Proof. by repeat constructor. Qed.

Lemma configure_here c d fr :
  hoare (here c d None [] fr) (_configure c) (fun _ => here c d None [] fr) (fun _ => idle_or_lost c d fr).
Proof.
  unfold _configure. eapply hoare_bind; [by apply set_pragmas_here; [apply setup_pragmas|]|]. intros [[e|] o].
  - apply hoare_hyp. simpl. intros Ho. apply settle_same; [by rewrite absorb_problems|].
    intros w [Hw|[_ Hw]]; [by left|by right].
  - intros w [_ [Hw|[? _]]]; done.
Qed.

(** ** Discarding *)

(** Connecting and closing, on an idle connection. *)
Lemma idle_op_here c d fr (p : op S) what dsp : p = Connect \/ p = CloseConn ->
  hoare (here c d None [] fr) (_submit c p what dsp)
    (fun ax w => here c d None [] fr w) (or_lost (fun e w => here c d None [] fr w) (eq d) c).
Proof.
  intros Hp. assert (Ha : forall r w, acted c d None [] fr p r w -> here c d None [] fr w /\
      (r = Ok Nothing \/ exists e, r = Raise e /\ is_driver e = true)).
  { intros r w (l & f & k & n & k' & d' & n' & Ht & Hc & Hq & Ha & Hw).
    destruct (act_idle _ _ _ _ _ _ _ _ _ _ (conj Ht (conj Hc Hq)) Hp Ha) as ((Et & Ec & _) & -> & Hr).
    by rewrite Et, Ec in Hw. }
  eapply hoare_weaken; [apply (submit_then (eq d) c d None [] fr p _ _ (fun _ w => here c d None [] fr w)
     (fun _ w => here c d None [] fr w)); [by destruct Hp as [-> | ->]|done|..]|done|by intros a w []|done].
  - intros a w H. by apply Ha in H as [H _].
  - intros e w H. apply Ha in H as [Hw [|(e' & [= <-] & He)]]; done.
Qed.

Lemma join_here c d t cs fr :
  hoare (here c d t cs fr) (_join_worker c) (fun _ => here c d t cs fr) (fun _ => here c d t cs fr).
Proof.
  unfold _join_worker. eapply hoare_bind with (Q := fun _ => here c d t cs fr); [by intros w|]. intros [|]; [|by intros w]. simpl.
  eapply hoare_bind; [apply here_turn|]. intros tn. eapply hoare_bind; [apply here_waited|]. intros ?.
  destruct (t_cancelled tn); by intros w.
Qed.

Lemma unsafe_going c d fr msg b i o X :
  hoare (here c d None [] fr) ('(_, o) ← unsafe msg b i o; mret o) (fun o => going c d None [] fr o) X.
Proof.
  eapply (hoare_weaken (contained (eq d) c)); [apply (unsafe_only (eq d) c _ _ _ _ X)|intros w Hw; by eapply here_contained| |done].
  intros o' w [? ?]. right. by apply doomed_problems.
Qed.

Lemma discard_here c d fr what X :
  hoare (here c d None [] fr) (_discard_connection c what) (fun o => going c d None [] fr o) X.
Proof.
  unfold _discard_connection. eapply hoare_bind; [eapply hoare_trying, idle_op_here; by right|]. intros r.
  eapply hoare_bind with (Q := fun o => going c d None [] fr o).
  { destruct r as [[a x]|e]; [intros w Hw; left; by rewrite owe_problems|].
    eapply (hoare_weaken (contained (eq d) c)); [apply (unsafe_only (eq d) c _ _ _ _ X)| | |done].
    - intros w Hw. by eapply or_lost_contained in Hw as [_ ?]; [|intros v Hv; by eapply here_contained].
    - intros o w [? ?]. right. by apply doomed_problems. }
  intros o. eapply hoare_bind with (Q := fun o => going c d None [] fr o).
  { destruct (resolved o) eqn:Hr; [|by intros w]. apply resolved_none in Hr as [Hp He].
    apply hoare_or; [|intros w [_ [?|[_ ?]]]; congruence]. apply hoare_hyp. intros _.
    eapply hoare_bind; [eapply hoare_trying, join_here|]. intros [[|]|e]; [by left|apply unsafe_going..]. }
  intros o'. destruct (o_problems o') as [|p l] eqn:Hp.
  - eapply hoare_bind with (Q := fun _ => going c d None [] fr o'); by intros ? w.
  - eapply hoare_bind with (Q := fun _ => going c d None [] fr o'); [|by intros ? w]. intros w [[? _]|Hw]; [congruence|].
    right. by apply (tidy_unclosed c _ (doomed_tidy (eq d) c o')).
Qed.

(** ** Building *)

(** What an operation that could not get its connection leaves. *)
Definition quiet_or_lost d fr w : Prop := quiet d fr w \/ exists c, lost (eq d) c w.

Lemma idle_quiet c d fr w : idle_or_lost c d fr w -> quiet_or_lost d fr w.
Proof. intros [Hw|Hw]; [left; by eapply here_quiet|right; by exists c]. Qed.

Lemma shutting_same w : (shutting (D:=D) (S:=S) (R:=R) w).2 = w.
Proof. done. Qed.

Lemma verify_here c d fr build X : o_problems build = [] ->
  hoare (here c d None [] fr) (verify c build) (configured c d fr) X.
Proof.
  intros Ho. unfold verify. eapply hoare_bind; [eapply hoare_trying, configure_here|]. intros [x|e].
  - intros w Hw. unfold shutting. cbn. split; [simpl; by rewrite owe_problems|by left].
  - intros w. by apply failed_configured.
Qed.

(** Discarded, and the outcome settled. *)
Lemma discard_settle {A} c d fr ps (k : outcome -> outcome) what (g : option exn -> K A) Q X :
  (forall o, o_problems (k o) = ps ++ o_problems o) -> ps = [] -> (forall e w, lost (eq d) c w -> X e w) ->
  (forall f, hoare (idle_or_lost c d fr) (g f) Q X) ->
  hoare (idle_or_lost c d fr) (o ← _discard_connection c what; f ← settle (k o); g f) Q X.
Proof.
  intros Hk -> HX Hg.
  assert (Hl : forall o, hoare (lost (eq d) c) (f ← settle (k o); g f) Q X).
  { intros o. eapply hoare_bind with (Q := fun _ => lost (eq d) c).
    - apply lost_keeps; [intros Ht; by apply (tidy_settle c _ Ht)|done|done].
    - intros f. eapply hoare_weaken; [apply Hg|by right|done|done]. }
  apply hoare_or.
  - eapply hoare_bind; [apply discard_here|]. intros o. apply hoare_or.
    + apply hoare_hyp. intros Ho. apply settle_same; [by rewrite Hk, Ho|]. eapply hoare_weaken; [apply Hg|by left|done|done].
    + intros w [Hw [Hp|[Hlt _]]]; [|by apply Hl]. revert w Hw.
      change (hoare (contained (eq d) c) (f ← settle (k o); g f) Q X).
      eapply hoare_bind; [by apply settle_problems; rewrite Hk|]. intros f.
      eapply hoare_weaken; [apply Hg| |done|done]. intros w [_ Hw]. by right.
  - eapply hoare_bind with (Q := fun _ => lost (eq d) c); [|exact Hl].
    apply lost_keeps; [intros Ht; by apply (tidy_discard c _ Ht)|done|done].
Qed.

Lemma quiet_built d fr X :
  hoare (quiet d fr) new_connection (fun c w => here c d None [] fr w) X.
Proof.
  intros w [Hd Hi Hc Hf Hb]. unfold new_connection. split; simpl; try done.
  - intros c k Hn Hk. apply lookup_app_Some in Hk as [Hk|[Hl Hk]]; [by eapply Hi|].
    apply list_lookup_singleton_Some in Hk as [Hz <-]. unfold idle. done.
  - exists (Conn None [] [] false Unstarted). split_and!; try done. by rewrite lookup_app_r, Nat.sub_diag by lia.
  - intros c Hc'. destruct (Hb c Hc') as [k Hk]. exists k. by apply lookup_app_l_Some.
Qed.

Lemma take_owe_absorb x e build o : o_problems (take_problems o (owe x (absorb e build))) = o_problems build ++ o_problems o.
Proof. unfold take_problems. simpl. by rewrite owe_problems, absorb_problems. Qed.

Lemma open_connection_here d fr what :
  hoare (quiet d fr) (_open_connection what) (fun c w => here c d None [] fr w) (fun _ => quiet_or_lost d fr).
Proof.
  unfold _open_connection. eapply hoare_bind with (Q := fun _ => quiet d fr); [by intros w|]. intros [|]; [by left|].
  eapply hoare_bind; [apply quiet_built|]. intros c.
  eapply hoare_bind.
  { eapply hoare_weaken; [apply idle_op_here; by left|done|done|].
    intros e w [[Hw _]|[_ Hw]]; apply (idle_quiet c); [by left|by right]. }
  intros [a x]. simpl. eapply hoare_bind; [apply verify_here; by rewrite owe_problems|]. intros [[e|] o].
  - apply hoare_hyp. simpl. intros Ho.
    eapply hoare_weaken; [apply (discard_settle c d fr [] _ _ _ (fun _ _ => False) (fun _ => idle_or_lost c d fr))|..].
    + intros o'. by rewrite take_owe_absorb, Ho.
    + done.
    + intros e' w Hw. by right.
    + by intros f w Hw.
    + intros w [Hw|[_ Hw]]; [by left|by right].
    + done.
    + intros e' w. apply idle_quiet.
  - intros w [_ [Hw|[? _]]]; [exact Hw|done].
Qed.

Lemma quiet_same d fr w w' : quiet d fr w -> disk w' = disk w -> conns w' = conns w -> clean w' -> frame w' = frame w -> quiet d fr w'.
Proof.
  intros [Hd Hi Hc Hf Hb] Ed Ec Hc' Ef. split; try congruence.
  - intros c k. rewrite Ec. apply Hi.
  - unfold frame in Ef. intros c. rewrite Ec. injection Ef as _ -> ->. apply Hb.
Qed.

Lemma quiet_turn d fr X : hoare (quiet d fr) next_turn (fun _ => quiet d fr) X.
Proof.
  intros w Hw. unfold next_turn. set (tn := default calm (head (turns w))). cbv zeta.
  assert (Hrun : forall l w, quiet d fr w -> fold_left run_next l w = w).
  { intros l v Hv. induction l as [|c l IH]; simpl; [done|]. rewrite run_next_idle; [done|].
    intros k Hk. by destruct (qt_idle _ _ _ Hv c k Hk) as (_ & _ & ?). }
  set (w1 := with_turns w (tail (turns w)) (interrupted w)).
  assert (H1 : quiet d fr w1) by (eapply quiet_same; [exact Hw|..]; try done; apply Hw).
  set (w2 := if t_closing tn then with_shut w1 true (closed w1) else w1).
  assert (H2 : quiet d fr w2).
  { unfold w2. destruct (t_closing tn); [|done]. eapply quiet_same; [exact H1|done|done|exact (qt_clean _ _ _ H1)|done]. }
  clearbody w2. assert (H3 : quiet d fr (if t_exits tn then with_conns w2 (exits <$> conns w2) else w2)); [|by rewrite Hrun].
  destruct (t_exits tn); [|done]. destruct H2 as [Hd Hi Hc Hf Hb]. split; try done.
  - intros c k. simpl. rewrite list_lookup_fmap, fmap_Some. intros (k0 & Hk0 & ->).
    specialize (Hi c k0 Hk0). unfold exits. by destruct (worker k0).
  - intros c Hc'. simpl. rewrite list_lookup_fmap. by apply fmap_is_Some, Hb.
Qed.

(** An operation that raised before it wrote. *)
Definition still d w : Prop := (exists fr, quiet d fr w) \/ exists c, lost (eq d) c w.

Lemma quiet_or_lost_still d fr w : quiet_or_lost d fr w -> still d w.
Proof. intros [Hw|Hw]; [left; by exists fr|by right]. Qed.

Lemma make_directory_here d fr : hoare (quiet d fr) (make_directory : K unit) (fun _ => quiet d fr) (fun _ => quiet d fr).
Proof.
  unfold make_directory. destruct in_memory; [by intros w|]. eapply hoare_bind; [apply quiet_turn|].
  intros tn. by destruct (t_fault tn) as [[| | |]|]; intros w.
Qed.

Lemma publish_here c d h sh me w : here c d None [] (h, sh, me) w ->
  here c d None [] (h, Some c, me) (with_published w (Some c) (metric w)) /\
  here c d None [] (h, sh, Some c) (with_published w (shared w) (Some c)).
Proof.
  intros [Hd Ho Hk Hcl Hf Hb]. unfold frame in Hf. injection Hf as Eh Es Em.
  assert (Hc : is_Some (conns w !! c)) by (destruct Hk as (k & -> & _); by eexists).
  split; (split; [done|done|done|done|unfold frame; simpl; congruence|]); intros c' Hc'; simpl in *;
    destruct Hc' as [Hc'|Hc']; first [by injection Hc' as <-|apply Hb; by auto].
Qed.

(** The tail of the two builders. *)
Lemma publish_or_abandon c d h sh me what reason (pub : db D S R -> db D S R) sh' me' :
  (forall w, here c d None [] (h, sh, me) w -> here c d None [] (h, sh', me') (pub w)) ->
  hoare (here c d None [] (h, sh, me))
    (down ← shutting; if (down : bool) then e ← _abandon_unpublished c what reason; raise e else _ ← modify pub; mret c)
    (fun c w => exists fr, here c d None [] fr w) (fun _ => still d).
Proof.
  intros Hp. eapply hoare_bind with (Q := fun _ => here c d None [] (h, sh, me)); [by intros w|]. intros [|].
  - unfold _abandon_unpublished. eapply hoare_bind with (Q := fun _ => idle_or_lost c d (h, sh, me)).
    + eapply hoare_weaken; [apply (discard_settle c d (h, sh, me) [] _ _ _ (fun _ => idle_or_lost c d (h, sh, me)) (fun _ => idle_or_lost c d (h, sh, me)))|..]; try done.
      * intros o. rewrite absorb_problems. unfold take_problems. simpl. by rewrite owe_problems.
      * intros e w Hw. by right.
      * by intros f w Hw.
      * by intros w; left.
      * intros e w Hw. eapply quiet_or_lost_still, idle_quiet, Hw.
    + intros e w Hw. eapply quiet_or_lost_still, idle_quiet, Hw.
  - intros w Hw. eexists. by apply Hp.
Qed.

(** A published connection is at hand, idle. *)
Lemma published_here c d fr w : quiet d fr w -> shared w = Some c \/ metric w = Some c -> here c d None [] fr w.
Proof. intros Hw Hc. apply quiet_here; [done|]. by eapply qt_bound. Qed.

Lemma get_conn_here d fr :
  hoare (quiet d fr) _get_conn (fun c w => exists fr, here c d None [] fr w) (fun _ => still d).
Proof.
  unfold _get_conn. eapply hoare_bind with (Q := fun c w => quiet d fr w /\ c = shared w); [by intros w|]. intros [c|].
  - intros w [Hw Hc]. exists fr. apply published_here; [done|by left].
  - eapply hoare_bind with (Q := fun _ => quiet d fr); [by intros w []|]. intros [|]; [intros w Hw; left; by exists fr|].
    eapply hoare_bind; [eapply hoare_weaken; [apply make_directory_here|done|done|intros e w Hw; left; by exists fr]|]. intros ?.
    eapply hoare_bind; [eapply hoare_weaken; [apply open_connection_here|done|done|intros e w; apply quiet_or_lost_still]|].
    intros c. destruct fr as [[h sh] me]. apply (publish_or_abandon c d h sh me _ _ (fun w => with_published w (Some c) (metric w)) (Some c) me).
    intros w Hw. by eapply publish_here.
Qed.

Lemma get_metric_here d fr :
  hoare (quiet d fr) _get_metric_db (fun c w => exists fr, here c d None [] fr w) (fun _ => still d).
Proof.
  unfold _get_metric_db. eapply hoare_bind with (Q := fun c w => quiet d fr w /\ c = metric w); [by intros w|]. intros [c|].
  - intros w [Hw Hc]. exists fr. apply published_here; [done|by right].
  - eapply hoare_bind; [eapply hoare_weaken; [apply open_connection_here|by intros w []|done|intros e w; apply quiet_or_lost_still]|].
    intros c. destruct fr as [[h sh] me]. apply (publish_or_abandon c d h sh me _ _ (fun w => with_published w (shared w) (Some c)) sh (Some c)).
    intros w Hw. by eapply publish_here.
Qed.

Lemma publicly_here {A} I (m : K A) Q (X : db D S R -> Prop) :
  hoare I m Q (fun _ => X) -> hoare I (publicly m) Q (fun _ => X).
Proof. intros Hm. unfold publicly. eapply hoare_bind; [by eapply hoare_trying|]. intros [a|e]; by intros w. Qed.

Lemma acquire_here d fr b :
  hoare (quiet d fr) (_acquire_connection b) (fun c w => exists fr, here c d None [] fr w) (fun _ => still d).
Proof. unfold _acquire_connection. apply publicly_here. destruct b; [apply get_metric_here|apply get_conn_here]. Qed.

(** What comes before: admission, and the lock. *)
Lemma admitted_here {A} d fr (k : unit -> K A) Q (X : exn -> db D S R -> Prop) : (forall e w, quiet d fr w -> X e w) ->
  hoare (quiet d fr) (k tt) Q X -> hoare (quiet d fr) (x ← require_admission; k x) Q X.
Proof.
  intros HX Hk. eapply hoare_bind with (Q := fun _ => quiet d fr); [|by intros []].
  unfold require_admission. intros w Hw. cbv [gets mbind M_bind lift_res].
  destruct (_require_admission (admission_of w)); [done|by apply HX].
Qed.

Lemma lock_here {A} d fr (k : unit -> K A) Q (X : exn -> db D S R -> Prop) : (forall e w, quiet d fr w -> X e w) ->
  hoare (quiet d fr) (k tt) Q X -> hoare (quiet d fr) (x ← acquire_lock; k x) Q X.
Proof.
  intros HX Hk. eapply hoare_bind with (Q := fun _ => quiet d fr); [|by intros []].
  unfold acquire_lock. eapply hoare_bind; [apply quiet_turn|]. intros tn.
  eapply hoare_bind with (Q := fun _ => quiet d fr).
  - intros w Hw. unfold waited, modify. destruct (t_cancelled tn); [|done].
    eapply quiet_same; [exact Hw|done|done|exact (qt_clean _ _ _ Hw)|done].
  - intros ?. destruct (t_cancelled tn); [intros w; by apply HX|by intros w].
Qed.

Lemma here_still c d fr w : here c d None [] fr w -> still d w.
Proof. intros Hw. left. exists fr. by eapply here_quiet. Qed.

(** ** Reads *)

(** What [_fetch_all] returns is what the statement means; nothing is left open. *)
Lemma read_all_here s d fr : (_require_read_only (text s) = Ok tt -> pure_statement s) ->
  hoare (quiet d fr) (_fetch_all s)
    (fun r w => (exists fr, quiet d fr w) /\ exists x, r = Some x /\ exec s d = (Ok x, d)) (fun _ => still d).
Proof.
  intros Hs. assert (HX : forall (e : exn) w, quiet d fr w -> still d w) by (intros e w Hw; left; by exists fr).
  unfold _fetch_all. apply admitted_here; [done|].
  destruct (_require_read_only (text s)) as [[]|e]; [|by intros w; apply (HX e)]. specialize (Hs eq_refl).
  apply (hoare_lift _ (Ok tt)); [|done]. intros ? _. apply lock_here; [done|]. apply admitted_here; [done|].
  eapply hoare_bind; [apply acquire_here|]. intros c. apply hoare_exists. intros fr'.
  eapply hoare_bind; [by apply execute_fetch_here|]. intros [[cur rows] o].
  eapply hoare_bind; [apply (close_into_here c d s fr' _ (cur, rows, o))|]. intros o'. simpl.
  apply hoare_or.
  - apply hoare_hyp. intros Hp. apply settle_same; [done|]. intros w [Hw Hx].
    destruct (settled o') as [e|] eqn:He; [by eapply here_still|]. split; [exists fr'; by eapply here_quiet|].
    apply Hx. unfold settled in He. by destruct (o_error o').
  - eapply hoare_bind; [apply settle_doomed|]. intros f w [[e ->] Hw]. right. by exists c.
Qed.

(** C26: a read gives back exactly the rows of its statement on the committed content and
    leaves nothing open; one that raises changes nothing, now or later, and leaves nothing
    open unless the latch is set. *)
Theorem read_exact d fr s w : quiet d fr w ->
  match _fetch_all s w with
  | (Ok x, w') => (exists fr', quiet d fr' w') /\ exists rows, x = Some rows /\ exec s d = (Ok rows, d)
  | (Raise _, w') =>
      (exists fr', quiet d fr' w') \/ fail_stop w' <> None /\ forall late, disk (fold_left run_next late w') = d
  end.
Proof.
  intros Hq. pose proof (read_all_here s d fr (fun H d => read_only_pure s d H) w Hq) as H.
  destruct (_fetch_all s w) as [[x|e] w']; [done|]. destruct H as [Hw|[c [Hc Hl]]]; [by left|right].
  split; [done|]. intros late. symmetry. by apply (ct_disk _ _ _ (contained_run (eq d) c late w' Hc)).
Qed.
End Connections.
