(* ===== verification/Transactions.v ===== *)
(** * Write transactions

    [write_transaction] against [DbCore.transaction], the boundary as the rest of the
    server sees it: for every schedule of worker endings, faults and cancellations, and
    for every sequence of operations. *)
From S2P Require Import Prelude Py Effects PyOps PyVals DbCore Worker Boundary WorkerFacts BoundarySteps BoundarySafety BoundaryBody BoundaryConn.
Open Scope Z_scope.

Section Transactions.
Context {D S R : Type} {E : Engine D S R} {L : EngineLaws}.
Implicit Types (w : db D S R) (P : D -> Prop) (d v : D).
Abbreviation K := (M (db D S R)).

Lemma undone_still c d sh me w : undone c d sh me w -> still d w.
Proof. intros [[h Hw]|Hw]; [by eapply here_still|right; by exists c]. Qed.

(** The transaction raised: it left no trace, or it was committed and the caller was
    cancelled, or what is in the file is one of the two for good. *)
Definition raised {A} d (b : body S R A) (e : exn) w : Prop :=
  still d w \/ exists a v, denote b d = (Ok a, v) /\
    (is_cancelled e = true /\ (exists fr, quiet v fr w) \/ exists c, lost (either d v) c w).

Lemma new_handle_here c d fr me X :
  hoare (here c d None [] fr) (new_handle c me)
    (fun _ w => exists h sh mt, h_conn h = c /\ h_cursors h = [] /\ here c d None [] (h, sh, mt) w) X.
Proof.
  destruct fr as [[h0 sh] mt]. intros w Hw.
  assert (H : here c d None [] (h0, sh, mt) (with_counter w (counter w + 1)%nat)).
  { eapply here_same; [exact Hw|done|done|exact (hr_clean _ _ _ _ _ _ Hw)|done]. }
  apply (here_handle _ _ _ _ _ _ _ (Handle (counter w) c me [] false)) in H.
  exists (Handle (counter w) c me [] false), sh, mt. split_and!; [done|done|exact H].
Qed.

Lemma abort_raised {A B} c d sh me e (b : body S R B) :
  hoare (abortable c d sh me) (abort_with c e : K A) (fun _ _ => False) (fun e w => raised d b e w).
Proof. eapply hoare_weaken; [apply abort_with_here|done|done|]. intros e2 w Hw. left. exact (undone_still _ _ _ _ _ Hw). Qed.

(** From the connection on. *)
Lemma transact_here {A} c d fr me (b : body S R A) :
  hoare (here c d None [] fr)
    (h ← new_handle c me;
     begun ← begin_transaction c;
     failure ← settle begun;
     match failure with
     | Some e => abort_with c e
     | None =>
         r ← trying (run_body h me b);
         match r with
         | Raise e => abort_with c e
         | Ok a => _ ← _commit_transaction c; mret a
         end
     end)
    (fun a w => exists fr v, denote b d = (Ok a, v) /\ quiet v fr w) (fun e w => raised d b e w).
Proof.
  eapply hoare_bind; [apply new_handle_here|]. intros i. apply hoare_exists. intros h. apply hoare_exists. intros sh.
  apply hoare_exists. intros mt. apply hoare_hyp. intros Hc. apply hoare_hyp. intros Hh.
  eapply hoare_bind; [by apply begin_transaction_here|]. intros o. apply hoare_hyp. intros Ho. apply settle_same; [done|].
  destruct (settled o) as [e|].
  - eapply hoare_weaken; [apply (abort_raised c d sh mt _ b)| |by intros|done]. intros w [Hw|[_ Hw]]; [by eapply in_tx_abortable|exact Hw].
  - apply (hoare_pre (in_tx c d d sh mt)); [by intros w [Hw|[? _]]|].
    eapply hoare_bind; [eapply hoare_trying, run_body_here|]. intros [a|e].
    + simpl. apply hoare_exists. intros v. apply hoare_hyp. intros Hd.
      apply hoare_exists. intros h'. apply hoare_hyp. intros Hc'. apply hoare_hyp. intros Hh'.
      eapply hoare_bind.
      * eapply hoare_weaken; [apply (commit_transaction_here c d v sh mt h' []); constructor|done|done|].
        intros e w [Hw|[[He [h2 Hw]]|Hw]]; [left; destruct Hw as [h2 Hw]; by eapply here_still|..]; right; exists a, v; (split; [done|]).
        -- left. split; [done|]. eexists. by eapply here_quiet.
        -- right. by exists c.
      * intros ? w [h2 Hw]. eexists _, v. split; [done|]. by eapply here_quiet.
    + eapply hoare_weaken; [apply (abort_raised c d sh mt _ b)| |by intros|done]. intros w Hw. by apply failed_abortable.
Qed.

Lemma still_raised {A} d (b : body S R A) e w : still d w -> raised d b e w.
Proof. by left. Qed.

Lemma write_transaction_here {A} d fr me on_metric (b : body S R A) :
  hoare (quiet d fr) (write_transaction me on_metric b)
    (fun a w => exists fr v, denote b d = (Ok a, v) /\ quiet v fr w)
    (fun e w => still d w \/ exists a v, denote b d = (Ok a, v) /\
       (e = CancelledError /\ (exists fr, quiet v fr w) \/ exists c, lost (either d v) c w)).
Proof.
  assert (HX : forall (e : exn) w, quiet d fr w -> raised d b e w) by (intros e w Hw; left; left; by exists fr).
  assert (Hm : hoare (quiet d fr) (_write_transaction me on_metric b)
    (fun a w => exists fr v, denote b d = (Ok a, v) /\ quiet v fr w) (fun e w => raised d b e w)).
  { unfold _write_transaction. apply admitted_here; [done|]. apply lock_here; [done|]. apply admitted_here; [done|].
    eapply hoare_bind; [eapply hoare_weaken; [apply acquire_here|done|done|intros e w; by apply still_raised]|].
    intros c. apply hoare_exists. intros fr'. apply transact_here. }
  unfold write_transaction, publicly. eapply hoare_bind; [eapply hoare_trying, Hm|]. intros [a|e]; [by intros w|].
  intros w [Hw|(a & v & Hd & [[He Hw]|Hw])]; [by left|right; exists a, v..].
  - split; [done|]. left. split; [by destruct e|done].
  - split; [done|]. by right.
Qed.

(** ** What is lost stays contained *)

Lemma lost_forever P c late w : lost P c w -> P (disk (fold_left run_next late w)).
Proof. intros [Hw _]. by apply ct_disk with (c := c), contained_run. Qed.

Lemma quiet_forever d fr late w : quiet d fr w -> disk (fold_left run_next late w) = d.
Proof.
  intros Hw. induction late as [|c late IH]; simpl; [apply Hw|]. rewrite run_next_idle; [done|].
  intros k Hk. by destruct (qt_idle _ _ _ Hw c k Hk) as (_ & _ & ?).
Qed.

Lemma require_admission_latched w : latched w -> exists r, (require_admission w : res unit * db D S R) = (Raise (DatabaseFailStop r), w).
Proof.
  intros Hw. unfold require_admission. cbv [gets mbind M_bind lift_res]. unfold _require_admission. simpl.
  unfold latched in Hw. destruct (fail_stop w) as [r|]; [by exists r|done].
Qed.

(** Once the latch is set, an operation is refused before it does anything. *)
Lemma refused_when_latched {A} me on_metric (b : body S R A) w : latched w ->
  exists r, write_transaction me on_metric b w = (Raise (DatabaseFailStop r), w).
Proof.
  intros Hw. destruct (require_admission_latched w Hw) as [r Hr]. exists r.
  unfold write_transaction, publicly, trying, _write_transaction. cbv [mbind M_bind]. by rewrite Hr.
Qed.

(** ** Histories *)

(** One transaction after the other, whatever each ends in. *)
Fixpoint history {A} (l : list (nat * bool * body S R A)) : db D S R -> list (res A) * db D S R := fun w =>
  match l with
  | [] => ([], w)
  | (me, on_metric, b) :: l =>
      let '(r, w) := write_transaction me on_metric b w in
      let '(rs, w) := history l w in (r :: rs, w)
  end.

Definition refusal {A} (r : res A) : Prop := exists reason, r = Raise (DatabaseFailStop reason).

(** The content is that of the transactions that returned, one after the other, and of
    no other, except one that was cancelled and one after which everything is refused. *)
Inductive explains {A} : D -> list (body S R A * res A) -> D -> Prop :=
| ex_end d : explains d [] d
| ex_returned b a d v l d' : denote b d = (Ok a, v) -> explains v l d' -> explains d ((b, Ok a) :: l) d'
| ex_undone b e d l d' : explains d l d' -> explains d ((b, Raise e) :: l) d'
| ex_cancelled b a d v l d' : denote b d = (Ok a, v) -> explains v l d' -> explains d ((b, Raise CancelledError) :: l) d'
| ex_unknown b e a d v l : denote b d = (Ok a, v) -> Forall (fun p => refusal p.2) l -> explains d ((b, Raise e) :: l) v.

Lemma history_refused {A} (l : list (nat * bool * body S R A)) w : latched w ->
  exists rs, history l w = (rs, w) /\ length rs = length l /\ Forall refusal rs.
Proof.
  intros Hw. induction l as [|[[me m] b] l (rs & Hr & Hn & Hf)]; [by exists []|]. simpl.
  destruct (refused_when_latched me m b w Hw) as [r ->]. rewrite Hr. exists (Raise (DatabaseFailStop r) :: rs).
  split_and!; [done|simpl; by f_equal|]. constructor; [by eexists|done].
Qed.

Lemma refused_zip {A} (bs : list (body S R A)) : forall rs : list (res A), Forall refusal rs ->
  Forall (fun p => refusal p.2) (zip bs rs).
Proof. induction bs as [|b bs IH]; intros rs H; [constructor|]. destruct H; [constructor|]. constructor; [done|by apply IH]. Qed.

Lemma refused_undone {A} d (l : list (body S R A * res A)) : Forall (fun p => refusal p.2) l -> explains d l d.
Proof. induction 1 as [|[b r] l [e He] _ IH]; [constructor|]. simpl in He. subst. by constructor. Qed.

Lemma history_explained {A} (l : list (nat * bool * body S R A)) late : forall d fr w, quiet d fr w ->
  let '(rs, w') := history l w in explains d (zip ((fun x => x.2) <$> l) rs) (disk (fold_left run_next late w')).
Proof.
  induction l as [|[[me m] b] l IH]; intros d fr w Hw; simpl; [rewrite (quiet_forever d fr) by done; constructor|].
  pose proof (write_transaction_here d fr me m b w Hw) as H.
  assert (Hlost : forall P c w1, lost P c w1 -> let '(rs, w') := history l w1 in
    P (disk (fold_left run_next late w')) /\ Forall (fun p => refusal p.2) (zip ((fun x => x.2) <$> l) rs)).
  { intros P c w1 Hl. destruct (history_refused l w1 (proj2 Hl)) as (rs & -> & _ & Hf).
    split; [by eapply lost_forever|by apply refused_zip]. }
  destruct (write_transaction me m b w) as [[a|e] w1].
  - destruct H as (fr' & v & Hd & Hq). specialize (IH v fr' w1 Hq). destruct (history l w1) as [rs w']. by econstructor.
  - destruct H as [[[fr' Hq]|[c Hl]]|(a & v & Hd & [[-> [fr' Hq]]|[c Hl]])].
    + specialize (IH d fr' w1 Hq). destruct (history l w1) as [rs w']. by constructor.
    + specialize (Hlost _ _ _ Hl). destruct (history l w1) as [rs w']. destruct Hlost as [<- Hf].
      constructor. by apply refused_undone.
    + specialize (IH v fr' w1 Hq). destruct (history l w1) as [rs w']. by econstructor.
    + specialize (Hlost _ _ _ Hl). destruct (history l w1) as [rs w']. destruct Hlost as [[-> | ->] Hf].
      * constructor. by apply refused_undone.
      * by econstructor.
Qed.

(** C2: write_transaction refines [DbCore.transaction], whatever the schedule of worker
    endings, faults and cancellations.  If it returns, the body's effect is committed, the
    answer is the body's and nothing is left open; if it raises, either nothing is left
    open and the file is as before - or committed, when it is the cancellation that is
    raised - or the latch is set and, whatever the workers still do, the file holds one of
    the two contents. *)
Theorem transaction_all_or_nothing {A} d fr me on_metric (b : body S R A) w : quiet d fr w ->
  let '(r, w') := write_transaction me on_metric b w in
  let '(r0, v) := transaction (fun _ => healthy) (denote b) d in
  match r with
  | Ok a => r0 = Ok a /\ disk w' = v /\ exists fr', quiet v fr' w'
  | Raise e =>
      (exists fr', quiet (disk w') fr' w' /\ (disk w' = d \/ e = CancelledError /\ disk w' = v)) \/
      fail_stop w' <> None /\ forall late, let x := disk (fold_left run_next late w') in x = d \/ x = v
  end.
Proof.
  intros Hq. pose proof (write_transaction_here d fr me on_metric b w Hq) as H. fold (spec b d).
  destruct (write_transaction me on_metric b w) as [[a|e] w'].
  - destruct H as (fr' & v & Hd & Hw). rewrite (spec_ok b d a v Hd). split_and!; [done|apply Hw|by exists fr'].
  - destruct (spec b d) as [r0 v0] eqn:Hs.
    destruct H as [[[fr' Hw]|[c Hl]]|(a & v & Hd & [[-> [fr' Hw]]|[c Hl]])].
    + left. rewrite (qt_disk _ _ _ Hw). exists fr'. by auto.
    + right. split; [apply Hl|]. intros late. left. symmetry. by apply (lost_forever (eq d) c).
    + left. rewrite (qt_disk _ _ _ Hw). rewrite (spec_ok b d a v Hd) in Hs. injection Hs as _ <-. exists fr'. by auto.
    + right. rewrite (spec_ok b d a v Hd) in Hs. injection Hs as _ <-. split; [apply Hl|]. intros late.
      by apply (lost_forever (either d v) c).
Qed.

(** C23: over any sequence of transactions and any schedule, whatever the workers still do
    afterwards, the content of the file is that of the transactions that returned, in
    their order, and of no other - except one whose caller was cancelled, and one after
    which the database refuses everything. *)
Theorem history_serial {A} (l : list (nat * bool * body S R A)) d fr w late : quiet d fr w ->
  let '(rs, w') := history l w in
  explains d (zip ((fun x => x.2) <$> l) rs) (disk (fold_left run_next late w')).
Proof. apply history_explained. Qed.
End Transactions.
