(* ===== verification/BoundaryCalm.v ===== *)
(** * Nothing fails, nobody is cancelled

    With a published connection and workers that answer, a write transaction is exactly
    [DbCore.transaction]: the boundary refuses nothing that could have been done. *)
From S2P Require Import Prelude Py Effects PyOps PyVals DbCore Worker Boundary WorkerFacts BoundarySteps BoundarySafety BoundaryBody BoundaryConn.
Open Scope Z_scope.

Section CalmBoundary.
Context {D S R : Type} {E : Engine D S R} {L : EngineLaws}.
Implicit Types (w : db D S R) (k : conn D S R) (d v : D) (t : option D) (cs : list (nat * option R)).
Implicit Types (fr : handle * option nat * option nat) (p : op S).
Abbreviation K := (M (db D S R)).

Record easy (c : nat) (d : D) (t : option D) (cs : list (nat * option R)) (fr : handle * option nat * option nat) w : Prop := {
  ez_here : here c d t cs fr w;
  ez_turns : turns w = [];
  ez_closing : closing w = false;
  ez_closed : closed w = false;
  ez_open k : conns w !! c = Some k -> opened k = true
}.

Lemma easy_turn c d t cs fr w : easy c d t cs fr w ->
  exists w', next_turn w = (Ok calm, w') /\ easy c d t cs fr w'.
Proof.
  intros [Hw Ht H1 H2 Ho]. set (w1 := with_turns w [] (interrupted w)).
  assert (Hw1 : here c d t cs fr w1) by (eapply here_same; [exact Hw|done|done|exact (hr_clean _ _ _ _ _ _ Hw)|done]).
  exists (with_conns w1 (exits <$> conns w1)). split; [unfold next_turn; by rewrite Ht|].
  split; [by apply here_exits|done|done|done|].
  intros k. simpl. rewrite list_lookup_fmap, fmap_Some. intros (k0 & Hk & ->). specialize (Ho k0 Hk).
  unfold exits. by destruct (worker k0).
Qed.

Lemma unlocked c d t cs fr w : here c d t cs fr w -> locked_out c w = false.
Proof.
  intros [_ Ho _ _ _ _]. unfold locked_out. apply not_true_is_false. intros H. apply existsb_exists in H as (k & Hk & Ht).
  apply base.list_elem_of_In, list_elem_of_lookup in Hk as [i Hi]. rewrite list_lookup_delete in Hi.
  assert (Hn : exists j, j <> c /\ conns w !! j = Some k) by (case_decide; eexists; (split; [|exact Hi]); lia).
  destruct Hn as (j & Hj & Hk). destruct (Ho j k Hj Hk) as (Hx & _). unfold has_open_tx in Ht. by rewrite Hx in Ht.
Qed.

(** What the worker does with an operation that meets no fault. *)
Definition did c d t cs fr p (r : res (answer R)) w : Prop :=
  exists k n k' d' n', tx k = t /\ cursors k = cs /\ opened k = true /\
    effect false p (k, d, n) = (r, (k', d', n')) /\ (opened k' = true -> easy c d' (tx k') (cursors k') fr w).

Lemma perform_easy c d t cs fr p w : p <> Connect -> easy c d t cs fr w ->
  let '(r, w') := perform c p None (drain c w) in did c d t cs fr p r w'.
Proof.
  intros Ho [Hw Ht H1 H2 Hop]. destruct (hr_conn _ _ _ _ _ _ Hw) as (k & Hk & Hkt & Hkc & Hkq). specialize (Hop k Hk).
  assert (Hd : drain c w = w) by (unfold drain; by rewrite Hk, Hkq). rewrite Hd. unfold perform. rewrite Hk.
  assert (Ea : act (locked_out c w) p None (k, disk w, counter w) = effect false p (k, d, counter w)).
  { unfold act. rewrite (unlocked _ _ _ _ _ _ Hw), (hr_disk _ _ _ _ _ _ Hw). unfold usable. rewrite Hop. by destruct p. }
  destruct (act (locked_out c w) p None _) as [r [[k' d'] n']] eqn:Er. pose proof (act_queue _ _ _ _ _ _ _ _ _ _ Er) as Eq.
  exists k, (counter w), k', d', n'. split_and!; [done..|]. intros Hk'. split; try done.
  - eapply here_touched; [exact Hw|congruence].
  - intros k0. simpl. rewrite list_lookup_insert_eq by (by eapply lookup_lt_Some). by intros [= <-].
Qed.

Lemma did_finish c d t cs fr p r id r' w : did c d t cs fr p r w -> did c d t cs fr p r (finish_task id r' w).
Proof.
  intros (k & n & k' & d' & n' & ? & ? & ? & ? & Hw). exists k, n, k', d', n'. split_and!; try done.
  intros Hk'. destruct (Hw Hk') as [Hh ? ? ? ?]. split; try done.
  eapply here_same; [exact Hh|done|done|exact (hr_clean _ _ _ _ _ _ Hh)|done].
Qed.

Lemma submit_easy c d t cs fr p what dsp : p <> Connect ->
  hoare (easy c d t cs fr) (_submit c p what dsp)
    (fun ax w => ax.2 = None /\ did c d t cs fr p (Ok ax.1) w) (fun e w => did c d t cs fr p (Raise e) w).
Proof.
  intros Ho. unfold _submit.
  eapply hoare_bind with (Q := fun _ => easy c d t cs fr).
  { intros w [Hw Ht H1 H2 Hop]. split; try done. eapply here_same; [exact Hw|done|done|exact (hr_clean _ _ _ _ _ _ Hw)|done]. }
  intros id. eapply hoare_bind with (Q := fun _ => easy c d t cs fr); [intros w; by destruct p|]. intros ?.
  eapply hoare_bind with (Q := fun tn w => easy c d t cs fr w /\ tn = calm).
  { intros w Hw. destruct (easy_turn _ _ _ _ _ _ Hw) as (w' & -> & Hw'). done. }
  intros tn. apply hoare_pure. intros ->. eapply hoare_bind with (Q := fun _ => easy c d t cs fr); [by intros w|]. intros ?.
  intros w Hw. pose proof (perform_easy c d t cs fr p w Ho Hw) as Hp.
  cbv [mbind M_bind run_pure modify calm t_ending t_fault t_cancelled owed].
  destruct (perform c p None (drain c w)) as [[y|e] w']; [split; [done|]|]; by apply did_finish.
Qed.

Lemma submit_did c d t cs fr p what dsp (Q : answer R -> db D S R -> Prop) X : p <> Connect ->
  (forall a w, did c d t cs fr p (Ok a) w -> Q a w) -> (forall e w, did c d t cs fr p (Raise e) w -> X e w) ->
  hoare (easy c d t cs fr) (_submit c p what dsp) (fun ax w => ax.2 = None /\ Q ax.1 w) X.
Proof.
  intros Hp HQ HX. eapply hoare_weaken; [by apply submit_easy|done| |done]. intros ax w [? Hw]. split; [done|by apply HQ].
Qed.

(** ** The steps of a transaction *)

Implicit Types (h : handle) (sh mt : option nat).

Lemma close_easy c d t cs fr cur X :
  hoare (easy c d t cs fr) (_close_cursor c cur) (fun x w => x = None /\ easy c d t (without cur cs) fr w) X.
Proof.
  unfold _close_cursor. eapply hoare_bind; [eapply hoare_trying, submit_easy; done|].
  intros [[a x]|e] w; simpl.
  - intros [-> (k & n & k' & d' & n' & <- & <- & Hop & He & Hw)]. simpl in He. simplify_eq. split; [done|by apply Hw].
  - intros (k & n & k' & d' & n' & ? & ? & ? & He & ?). by simpl in He.
Qed.

Lemma handle_easy c d t cs h sh mt f X :
  hoare (easy c d t cs (h, sh, mt)) (on_handle f : K unit) (fun _ => easy c d t cs (f h, sh, mt)) X.
Proof.
  intros w [Hw Ht H1 H2 Hop]. split; try done. by apply (on_handle_here c d t cs h sh mt f (fun _ _ => False) w).
Qed.

Lemma release_easy c d t cs h sh mt cur X :
  hoare (easy c d t cs (h, sh, mt)) (_release c cur)
    (fun x w => x = None /\ easy c d t (without cur cs) (set_handle_cursors (remove_first cur (h_cursors h)) h, sh, mt) w) X.
Proof.
  unfold _release. eapply hoare_bind; [apply close_easy|]. intros x. apply hoare_hyp. intros ->.
  eapply hoare_bind; [apply handle_easy|]. by intros ? w.
Qed.

Lemma begin_submit_easy c d fr what dsp X :
  hoare (easy c d None [] fr) (_submit c Begin what dsp)
    (fun ax w => ax.2 = None /\ exists n, ax.1 = Cursor n /\ easy c d (Some d) [(n, None)] fr w) X.
Proof.
  apply (submit_did c d None [] fr Begin _ _ (fun a w => exists n, a = Cursor n /\ easy c d (Some d) [(n, None)] fr w)); [done|..].
  - intros a w (k & n & k' & d' & n' & Ht & Hc & Hop & He & Hw). simpl in He. rewrite Ht in He. injection He as <- <- <- <-.
    exists n. split; [done|]. specialize (Hw Hop). simpl in Hw. by rewrite Hc in Hw.
  - intros e w (k & n & k' & d' & n' & Ht & Hc & Hop & He & Hw). simpl in He. by rewrite Ht in He.
Qed.

Lemma begin_easy c d h sh mt X : h_cursors h = [] ->
  hoare (easy c d None [] (h, sh, mt)) (begin_transaction c)
    (fun o w => o = no_outcome /\ easy c d (Some d) [] (h, sh, mt) w) X.
Proof.
  intros Hh. unfold begin_transaction. eapply hoare_bind.
  - eapply hoare_trying with (Q := fun nx w => nx.2 = None /\ easy c d (Some d) [(nx.1, None)] (set_handle_cursors [nx.1] h, sh, mt) w)
      (X := fun _ _ => False).
    eapply hoare_bind; [apply begin_submit_easy|].
    intros [a x]. apply hoare_hyp. simpl. intros ->. apply hoare_exists. intros n. apply hoare_hyp. simpl. intros ->.
    eapply hoare_bind; [apply handle_easy|]. simpl. rewrite Hh. intros ? w Hw. by split.
  - intros [[n x]|e]; [|by intros w]. apply hoare_hyp. simpl. intros ->.
    eapply hoare_bind; [eapply hoare_trying with (X := fun _ _ => False), release_easy|]. simpl. rewrite Nat.eqb_refl.
    intros [y|e]; [|by intros w]. intros w [-> Hw]. split; [done|].
    destruct h as [i hc ow l cl]. simpl in Hh. by subst l.
Qed.

(** Inside the transaction, with the handle of its owner. *)
Definition in_easy c d v i me sh mt w : Prop := easy c d (Some v) [] (Handle i c me [] false, sh, mt) w.

Lemma check_easy c d t cs i me sh mt l X :
  hoare (easy c d t cs (Handle i c me l false, sh, mt)) (_check i me)
    (fun _ => easy c d t cs (Handle i c me l false, sh, mt)) X.
Proof.
  intros w Hw. pose proof (hr_frame _ _ _ _ _ _ (ez_here _ _ _ _ _ _ Hw)) as Hf. unfold frame in Hf. injection Hf as Hh _ _.
  unfold _check. cbv [mbind M_bind gets]. rewrite Hh. simpl. by rewrite !Nat.eqb_refl.
Qed.

(** What a statement gives, as it is. *)
Definition gave (s : S) v c d i me sh mt (r : res R) w : Prop :=
  exists v', exec s v = (r, v') /\ in_easy c d v' i me sh mt w.

Lemma run_easy c d v i me sh mt s what :
  hoare (in_easy c d v i me sh mt) (_run c s what)
    (fun nx w => nx.2 = None /\ exists rows v', exec s v = (Ok rows, v') /\
       easy c d (Some v') [(nx.1, Some rows)] (Handle i c me [nx.1] false, sh, mt) w)
    (fun e => gave s v c d i me sh mt (Raise e)).
Proof.
  unfold _run, in_easy. eapply hoare_bind.
  - apply (submit_did c d (Some v) [] _ (Execute s) _ _ (fun a w => exists n rows v', a = Cursor n /\ exec s v = (Ok rows, v') /\
      easy c d (Some v') [(n, Some rows)] (Handle i c me [] false, sh, mt) w)); [done|..].
    + intros a w (k & n & k' & d' & n' & Ht & Hc & Hop & He & Hw). simpl in He. rewrite Ht in He.
      destruct (exec s v) as [[rows|e] v'] eqn:Hx; [|done]. injection He as <- <- <- <-.
      exists n, rows, v'. split_and!; [done..|]. specialize (Hw Hop). simpl in Hw. by rewrite Hc in Hw.
    + intros e w (k & n & k' & d' & n' & Ht & Hc & Hop & He & Hw). simpl in He. rewrite Ht in He.
      destruct (exec s v) as [[rows|e'] v'] eqn:Hx; [done|]. injection He as <- <- <- <-.
      exists v'. split; [done|]. specialize (Hw Hop). simpl in Hw. by rewrite Hc in Hw.
  - intros [a x]. apply hoare_hyp. simpl. intros ->. apply hoare_exists. intros n. apply hoare_exists. intros rows.
    apply hoare_exists. intros v'. apply hoare_hyp. intros ->. apply hoare_hyp. intros Hx.
    eapply hoare_bind; [apply handle_easy|]. intros ? w Hw. split; [done|]. by exists rows, v'.
Qed.

Lemma finish_easy {A} c d v i me sh mt n x (a : A) X :
  hoare (easy c d (Some v) [(n, x)] (Handle i c me [n] false, sh, mt)) (_finish c no_outcome (Some n) (Some a))
    (fun b w => b = a /\ in_easy c d v i me sh mt w) X.
Proof.
  unfold _finish. eapply hoare_bind with (Q := fun o w => o = no_outcome /\ in_easy c d v i me sh mt w).
  - eapply hoare_bind; [eapply hoare_trying with (X := fun _ _ => False), release_easy|]. simpl. rewrite Nat.eqb_refl.
    intros [y|e]; [|by intros w]. by intros w [-> Hw].
  - intros o. apply hoare_hyp. intros ->. intros w Hw. by split.
Qed.

Lemma driver_public stop e : is_driver e = true -> _as_public stop e = e.
Proof. by destruct e. Qed.

(** A statement that fails raises what SQLite raised. *)
Lemma refused_easy {A} c d v i me sh mt s e :
  hoare (gave s v c d i me sh mt (Raise e)) (_finish c (absorb e no_outcome) None (None : option A))
    (fun _ _ => False) (fun e => gave s v c d i me sh mt (Raise e)).
Proof.
  apply hoare_exists. intros v'. apply hoare_hyp. intros Hx.
  assert (Hd : is_driver e = true) by (by eapply exec_raises).
  unfold _finish. eapply hoare_bind with (Q := fun o w => o = absorb e no_outcome /\ in_easy c d v' i me sh mt w); [by intros w|].
  intros o. apply hoare_hyp. intros ->. apply settle_same; [apply absorb_problems|].
  assert (Hs : settled (absorb e no_outcome) = Some e) by (by destruct e).
  rewrite Hs. intros w Hw. unfold _raise_public. cbv [mbind M_bind gets raise]. rewrite driver_public by done. by exists v'.
Qed.

Lemma conn_easy {A} c d v i me sh mt (k : nat -> K A) Q X :
  hoare (in_easy c d v i me sh mt) (k c) Q X -> hoare (in_easy c d v i me sh mt) (c ← gets (fun w => h_conn (hnd w)); k c) Q X.
Proof.
  intros Hk w Hw. pose proof (hr_frame _ _ _ _ _ _ (ez_here _ _ _ _ _ _ Hw)) as Hf. unfold frame in Hf. injection Hf as Hh _ _.
  cbv [mbind M_bind gets]. rewrite Hh. by apply Hk.
Qed.

Lemma statement_easy c d v i me sh mt s (query : bool) :
  hoare (in_easy c d v i me sh mt) (if query then fetch_all i me s else execute i me s)
    (fun a => gave s v c d i me sh mt (Ok a)) (fun e => gave s v c d i me sh mt (Raise e)).
Proof.
  assert (Hr : forall A e, hoare (gave s v c d i me sh mt (Raise e)) (_finish c (absorb e no_outcome) None (None : option A))
    (fun _ _ => False) (fun e => gave s v c d i me sh mt (Raise e))) by (intros; apply refused_easy).
  destruct query; [unfold fetch_all|unfold execute]; (eapply hoare_bind; [apply check_easy|]; intros ?; apply conn_easy;
    eapply hoare_bind; [eapply hoare_trying, run_easy|]; intros [[n x]|e];
    [|eapply hoare_weaken; [apply Hr|done|done|done]];
    apply hoare_hyp; simpl; intros ->; apply hoare_exists; intros rows; apply hoare_exists; intros v'; apply hoare_hyp; intros Hx).
  - eapply hoare_bind.
    + eapply hoare_trying with (X := fun _ _ => False). eapply (submit_did c d (Some v') [(n, Some rows)] _ (Fetch n) _ _
        (fun a w => a = Rows rows /\ easy c d (Some v') [(n, Some rows)] (Handle i c me [n] false, sh, mt) w)); [done|..].
      * intros y w (k & m & k' & d' & m' & Ht & Hc & Hop & He & Hw). simpl in He. unfold find_cursor in He. rewrite Hc in He.
        simpl in He. rewrite Nat.eqb_refl in He. simpl in He. injection He as <- <- <- <-. by rewrite Ht, Hc in Hw; auto.
      * intros e w (k & m & k' & d' & m' & Ht & Hc & Hop & He & Hw). simpl in He. unfold find_cursor in He. rewrite Hc in He.
        simpl in He. by rewrite Nat.eqb_refl in He.
    + intros [[y x]|e2]; [|by intros w]. apply hoare_hyp. simpl. intros ->. apply hoare_hyp. intros ->.
      eapply hoare_weaken; [apply (finish_easy c d v' i me sh mt n (Some rows) rows (fun e => gave s v c d i me sh mt (Raise e)))|done| |done]. intros y w [-> Hw]. by exists v'.
  - eapply hoare_bind with (Q := fun r w => r = Some rows /\ easy c d (Some v') [(n, Some rows)] (Handle i c me [n] false, sh, mt) w).
    + intros w Hw. split; [|exact Hw]. exact (proj1 (cursor_result_here c d (Some v') n rows _ (fun _ _ => False) w (ez_here _ _ _ _ _ _ Hw))).
    + intros r. apply hoare_hyp. intros ->. eapply hoare_weaken; [apply (finish_easy c d v' i me sh mt n (Some rows) rows (fun e => gave s v c d i me sh mt (Raise e)))|done| |done]. intros y w [-> Hw]. by exists v'.
Qed.

Lemma body_easy {A} c d i me sh mt (b : body S R A) : forall v,
  hoare (in_easy c d v i me sh mt) (run_body i me b)
    (fun a w => exists v', denote b v = (Ok a, v') /\ in_easy c d v' i me sh mt w)
    (fun e w => exists v', denote b v = (Raise e, v') /\ in_easy c d v' i me sh mt w).
Proof.
  assert (Hk : forall s (k : R -> body S R A) m, (m = execute i me s \/ m = fetch_all i me s) ->
    (forall r v, hoare (in_easy c d v i me sh mt) (run_body i me (k r))
      (fun a w => exists v', denote (k r) v = (Ok a, v') /\ in_easy c d v' i me sh mt w)
      (fun e w => exists v', denote (k r) v = (Raise e, v') /\ in_easy c d v' i me sh mt w)) ->
    forall v, hoare (in_easy c d v i me sh mt) (r ← m; run_body i me (k r))
      (fun a w => exists v', (r ← exec s; denote (k r)) v = (Ok a, v') /\ in_easy c d v' i me sh mt w)
      (fun e w => exists v', (r ← exec s; denote (k r)) v = (Raise e, v') /\ in_easy c d v' i me sh mt w)).
  { intros s k m Hm IH v. eapply hoare_bind.
    - eapply hoare_weaken; [|done|intros a w H; exact H|].
      + destruct Hm as [-> | ->]; [apply (statement_easy c d v i me sh mt s false)|apply (statement_easy c d v i me sh mt s true)].
      + intros e w (v' & He & Hw). exists v'. split; [|done]. unfold mbind, M_bind. by rewrite He.
    - intros r. apply hoare_exists. intros v'. apply hoare_hyp. intros He.
      eapply hoare_weaken; [apply (IH r v')|done|..]; intros x w (v2 & Hd & Hw); exists v2; (split; [|done]);
        unfold mbind, M_bind; by rewrite He. }
  induction b as [a|e|s k IH|s k IH]; intros v; simpl; [intros w Hw; by exists v|intros w Hw; by exists v|..];
    apply Hk; auto.
Qed.

(** ** Ending it *)

Lemma state_easy c d t cs fr X :
  hoare (easy c d t cs fr) (_transaction_state c) (fun r w => r = Some (bool_decide (is_Some t)) /\ easy c d t cs fr w) X.
Proof.
  intros w Hw. destruct (easy_turn _ _ _ _ _ _ Hw) as (w' & Ht & Hw'). unfold _transaction_state. cbv [mbind M_bind modify gets].
  rewrite Ht. simpl. split; [|done]. destruct (hr_conn _ _ _ _ _ _ (ez_here _ _ _ _ _ _ Hw')) as (k & Hk & Hkt & _).
  rewrite Hk, (ez_open _ _ _ _ _ _ Hw' k Hk). unfold has_open_tx. rewrite Hkt. by destruct t.
Qed.

Lemma rollback_easy c d t cs fr X :
  hoare (easy c d t cs fr) (_rollback c) (fun x w => x = None /\ easy c d None cs fr w) X.
Proof.
  unfold _rollback. eapply hoare_bind.
  - apply (submit_did c d t cs fr Rollback _ _ (fun _ w => easy c d None cs fr w)); [done|..].
    + intros a w (k & n & k' & d' & n' & Ht & Hc & Hop & He & Hw). simpl in He. injection He as <- <- <- <-.
      specialize (Hw Hop). simpl in Hw. by rewrite Hc in Hw.
    + intros e w (k & n & k' & d' & n' & Ht & Hc & Hop & He & Hw). done.
  - intros [a x] w [Hx Hw]. by split.
Qed.

Lemma cleanup_easy c d t i me sh mt cl X :
  hoare (easy c d t [] (Handle i c me [] cl, sh, mt)) (_cleanup_cursors c no_outcome)
    (fun o w => o = no_outcome /\ easy c d t [] (Handle i c me [] cl, sh, mt) w) X.
Proof.
  intros w Hw. unfold _cleanup_cursors. cbv [mbind M_bind gets].
  pose proof (hr_frame _ _ _ _ _ _ (ez_here _ _ _ _ _ _ Hw)) as Hf. unfold frame in Hf. injection Hf as Hh _ _. rewrite Hh. simpl.
  split; [done|]. by apply (handle_easy c d t [] _ sh mt (set_handle_cursors []) (fun _ _ => False) w) in Hw.
Qed.

Lemma abort_easy c d v i me sh mt X :
  hoare (in_easy c d v i me sh mt) (_abort_transaction c)
    (fun ab w => ab = AbortOutcome false None None /\ easy c d None [] (Handle i c me [] true, sh, mt) w) X.
Proof.
  unfold _abort_transaction, in_easy. eapply hoare_bind; [apply handle_easy|]. intros ?.
  eapply hoare_bind; [apply cleanup_easy|]. intros o. apply hoare_hyp. intros ->.
  unfold _force_close_transaction. eapply hoare_bind with (Q := fun o w => o = no_outcome /\ easy c d None [] (Handle i c me [] true, sh, mt) w).
  - eapply hoare_bind; [apply state_easy|]. intros st. apply hoare_hyp. simpl. intros ->.
    eapply hoare_bind; [eapply hoare_trying with (X := fun _ _ => False), rollback_easy|].
    intros [x|e]; [|by intros w]. apply hoare_hyp. intros ->. simpl.
    eapply hoare_bind with (Q := fun r w => r = (None, no_outcome) /\ easy c d None [] (Handle i c me [] true, sh, mt) w); [by intros w|].
    intros r. apply hoare_hyp. intros ->. eapply hoare_bind; [apply state_easy|]. intros st. apply hoare_hyp. simpl. intros ->. by intros w.
  - intros o. apply hoare_hyp. intros ->. by intros w.
Qed.

Lemma commit_easy c d v i me sh mt X :
  hoare (in_easy c d v i me sh mt) (_commit_transaction c)
    (fun _ w => easy c v None [] (Handle i c me [] true, sh, mt) w) X.
Proof.
  unfold _commit_transaction, in_easy. eapply hoare_bind; [apply handle_easy|]. intros ?.
  eapply hoare_bind; [apply cleanup_easy|]. intros o. apply hoare_hyp. intros ->. simpl.
  eapply hoare_bind.
  - eapply hoare_trying with (X := fun _ _ => False).
    apply (submit_did c d (Some v) [] _ Commit _ _ (fun _ w => easy c v None [] (Handle i c me [] true, sh, mt) w)); [done|..].
    + intros y w (k & n & k' & d' & n' & Ht & Hc & Hop & He & Hw). simpl in He. rewrite Ht in He. injection He as <- <- <- <-.
      specialize (Hw Hop). simpl in Hw. by rewrite Hc in Hw.
    + intros e w (k & n & k' & d' & n' & Ht & Hc & Hop & He & Hw). done.
  - intros [[y x]|e]; [|by intros w]. apply hoare_hyp. simpl. intros ->. unfold commit_returned.
    eapply hoare_bind; [apply state_easy|]. intros st. apply hoare_hyp. simpl. intros ->. by intros w.
Qed.

(** ** The whole *)

Lemma admission_easy w : clean w -> closing w = false -> closed w = false -> _require_admission (admission_of w) = Ok tt.
Proof. intros (Hf & _ & _ & _) H1 H2. unfold _require_admission. simpl. by rewrite Hf, H1, H2. Qed.

Lemma abort_with_easy {A} c d v i me sh mt e : _is_private e = false ->
  hoare (in_easy c d v i me sh mt) (abort_with c e : K A) (fun _ _ => False)
    (fun e' w => e' = e /\ easy c d None [] (Handle i c me [] true, sh, mt) w).
Proof.
  intros He. unfold abort_with. eapply hoare_bind; [apply abort_easy|]. intros ab. apply hoare_hyp. intros ->.
  eapply hoare_bind with (Q := fun _ => easy c d None [] (Handle i c me [] true, sh, mt)); [|by intros ? w].
  intros w Hw. by destruct e.
Qed.

Lemma transact_easy {A} c d h sh mt me (b : body S R A) : (forall e v, denote b d = (Raise e, v) -> _is_private e = false) ->
  hoare (easy c d None [] (h, sh, mt))
    (h ← new_handle c me;
     begun ← begin_transaction c;
     failure ← settle begun;
     match failure with
     | Some e => abort_with c e
     | None =>
         r ← trying (run_body h me b);
         match r with
         | Raise e => abort_with c e
         | Ok a => _ ← _commit_transaction c; mret a
         end
     end)
    (fun a w => exists v fr, spec b d = (Ok a, v) /\ quiet v fr w)
    (fun e w => _is_private e = false /\ spec b d = (Raise e, d) /\ exists fr, quiet d fr w).
Proof.
  intros Hb. eapply hoare_bind with (Q := fun i w => easy c d None [] (Handle i c me [] false, sh, mt) w).
  { intros w [Hw Ht H1 H2 Hop]. split; try done.
    assert (H : here c d None [] (h, sh, mt) (with_counter w (counter w + 1)%nat)).
    { eapply here_same; [exact Hw|done|done|exact (hr_clean _ _ _ _ _ _ Hw)|done]. }
    exact (here_handle _ _ _ _ _ _ _ (Handle (counter w) c me [] false) _ H). }
  intros i. eapply hoare_bind; [by apply begin_easy|]. intros o. apply hoare_hyp. intros ->. apply settle_same; [done|]. simpl.
  eapply hoare_bind; [eapply hoare_trying; apply (body_easy c d i me sh mt b d)|]. intros [a|e].
  - apply hoare_exists. intros v. apply hoare_hyp. intros Hd.
    eapply hoare_bind; [apply commit_easy|]. intros ? w Hw. eexists v, _. split; [by apply spec_ok|].
    eapply here_quiet, ez_here, Hw.
  - apply hoare_exists. intros v. apply hoare_hyp. intros Hd.
    eapply hoare_weaken; [apply (abort_with_easy c d v i me sh mt e); by eapply Hb|done|done|].
    intros e' w [-> Hw]. split_and!; [by eapply Hb|by eapply spec_raise|]. eexists. eapply here_quiet, ez_here, Hw.
Qed.

Lemma admit_easy c d fr X :
  hoare (easy c d None [] fr) (require_admission : K unit) (fun _ => easy c d None [] fr) X.
Proof.
  intros w Hw. unfold require_admission. cbv [mbind M_bind gets lift_res].
  rewrite admission_easy; [done|exact (hr_clean _ _ _ _ _ _ (ez_here _ _ _ _ _ _ Hw))|apply Hw|apply Hw].
Qed.

Lemma lock_easy c d fr X : hoare (easy c d None [] fr) (acquire_lock : K unit) (fun _ => easy c d None [] fr) X.
Proof.
  intros w Hw. destruct (easy_turn _ _ _ _ _ _ Hw) as (w' & Ht & Hw'). unfold acquire_lock, waited. cbv [mbind M_bind modify].
  by rewrite Ht.
Qed.

Lemma whole_easy {A} c d fr on_metric me (b : body S R A) : (forall e v, denote b d = (Raise e, v) -> _is_private e = false) ->
  (if (on_metric : bool) then fr.2 else fr.1.2) = Some c ->
  hoare (easy c d None [] fr) (write_transaction me on_metric b)
    (fun a w => exists v fr, spec b d = (Ok a, v) /\ quiet v fr w) (fun e w => spec b d = (Raise e, d) /\ exists fr, quiet d fr w).
Proof.
  intros Hb Hc. unfold write_transaction, publicly.
  eapply hoare_bind with (Q := fun r w => match r with
    | Ok a => exists v fr, spec b d = (Ok a, v) /\ quiet v fr w
    | Raise e => _is_private e = false /\ spec b d = (Raise e, d) /\ exists fr, quiet d fr w end).
  - apply hoare_trying with (X := fun e w => _is_private e = false /\ spec b d = (Raise e, d) /\ exists fr, quiet d fr w)
      (Q := fun a w => exists v fr, spec b d = (Ok a, v) /\ quiet v fr w).
    unfold _write_transaction. eapply hoare_bind; [apply admit_easy|]. intros ?. eapply hoare_bind; [apply lock_easy|]. intros ?.
    eapply hoare_bind; [apply admit_easy|]. intros ?.
    eapply hoare_bind with (Q := fun c' w => c' = c /\ easy c d None [] fr w).
    + intros w Hw. pose proof (hr_frame _ _ _ _ _ _ (ez_here _ _ _ _ _ _ Hw)) as Hf. unfold frame in Hf. rewrite <- Hf in Hc. simpl in Hc.
      unfold _acquire_connection, publicly, trying, _get_metric_db, _get_conn. cbv [mbind M_bind gets].
      destruct on_metric; by rewrite Hc.
    + intros c'. apply hoare_hyp. intros ->. destruct fr as [[h sh] mt]. by apply transact_easy.
  - intros [a|e]; [by intros w|]. intros w (He & Hs & Hw). unfold _raise_public. cbv [mbind M_bind gets raise]. by destruct e.
Qed.

(** C24: with a connection published and open, workers that answer and no cancellation, a
    write transaction is [DbCore.transaction] of its body: the same answer or the same
    exception, the same content of the file, and nothing left open. *)
Theorem write_transaction_exact {A} d fr c me on_metric (b : body S R A) w :
  quiet d fr w -> turns w = [] -> closing w = false -> closed w = false ->
  (if (on_metric : bool) then metric w else shared w) = Some c ->
  (forall k, conns w !! c = Some k -> opened k = true) ->
  (forall e v, denote b d = (Raise e, v) -> _is_private e = false) ->
  let '(r, w') := write_transaction me on_metric b w in
  (r, disk w') = transaction (fun _ => healthy) (denote b) d /\ exists fr', quiet (disk w') fr' w'.
Proof.
  intros Hq Ht H1 H2 Hc Ho Hb. assert (Hc' : (if on_metric then fr.2 else fr.1.2) = Some c).
  { rewrite <- (qt_frame _ _ _ Hq). by destruct on_metric. }
  assert (He : easy c d None [] fr w).
  { split; try done. apply quiet_here; [done|]. apply (qt_bound _ _ _ Hq). destruct on_metric; by auto. }
  pose proof (whole_easy c d fr on_metric me b Hb Hc' w He) as H.
  destruct (write_transaction me on_metric b w) as [[a|e] w'].
  - destruct H as (v & fr' & Hs & Hw). rewrite (qt_disk _ _ _ Hw). split; [by rewrite <- Hs|by exists fr'].
  - destruct H as (Hs & fr' & Hw). rewrite (qt_disk _ _ _ Hw). split; [by rewrite <- Hs|by exists fr'].
Qed.
End CalmBoundary.
