(* ===== verification/BoundaryCancel.v ===== *)
(** * A cancellation is delivered

    Whatever an operation waited for when its caller was cancelled, it ends in
    [CancelledError]; and no private classification ever leaves the boundary. *)
From S2P Require Import Prelude Py Effects PyOps PyVals DbCore Worker Boundary WorkerFacts BoundarySteps BoundarySafety.
Open Scope Z_scope.

(** The cancellation that an exception carries, and the first of two. *)
Definition cancel_of (e : exn) : option exn :=
  match e with
  | CancelledError | CancelledAfterWorkerError _ => Some e
  | OutcomeUnknown _ true | ChildCancelled _ true => Some CancelledError
  | _ => None
  end.

Definition first_of (x y : option exn) : option exn := match x with Some _ => x | None => y end.

Section Cancellation.
Context {D S R : Type} {E : Engine D S R}.
Implicit Types (w : db D S R) (x y : option exn) (e : exn) (o : outcome).
Abbreviation K := (M (db D S R)).

(** What is owed is a cancellation, and if a waiting was cancelled, it is owed. *)
Definition carries x w : Prop := (forall e, x = Some e -> is_cancelled e = true) /\ (interrupted w = true -> x <> None).

Definition heard {A} (m : K A) (f : A -> option exn) : Prop :=
  hoare (carries None) m (fun a => carries (f a)) (fun e => carries (cancel_of e)).

(** ... over something that is owed already. *)
Definition heard_over {A} y (m : K A) (f : A -> option exn) : Prop :=
  hoare (carries y) m (fun a => carries (f a)) (fun e => carries (first_of y (cancel_of e))).

Lemma cancel_of_cancelled e e' : cancel_of e = Some e' -> is_cancelled e' = true.
Proof. destruct e as [| | | | | | | | | | | | | | | | | | | | |? []|? []| | | |]; intros [= <-]; done. Qed.

Lemma carries_any e w : carries None w -> carries (cancel_of e) w.
Proof. intros [_ Hw]. split; [apply cancel_of_cancelled|]. intros Hi. by destruct (Hw Hi). Qed.

Lemma carries_some e w : is_cancelled e = true -> carries (Some e) w.
Proof. intros He. split; [|done]. by intros e' [= <-]. Qed.

Lemma heard_lift {A} y (m : K A) f : heard m f ->
  heard_over y m (fun a => first_of y (f a)).
Proof.
  intros Hm. destruct y as [c|]; [|exact Hm]. intros w [Hc _]. specialize (Hc c eq_refl).
  destruct (m w) as [[a|e] w']; (split; [|done]); by intros e' [= <-].
Qed.

Definition steady {A} (m : K A) : Prop := forall w, interrupted (m w).2 = interrupted w.

Lemma carries_steady {A} x (m : K A) X : steady m -> (forall e w, X e w) \/ (forall w e w', m w <> (Raise e, w')) ->
  hoare (carries x) m (fun _ => carries x) X.
Proof.
  intros Hm HX w [H1 H2]. specialize (Hm w). destruct (m w) as [[a|e] w'] eqn:Em; simpl in Hm.
  - split; [done|]. by rewrite Hm.
  - destruct HX as [HX|HX]; [apply HX|by destruct (HX w e w')].
Qed.

Lemma carries_same x w w' : interrupted w' = interrupted w -> carries x w -> carries x w'.
Proof. intros Hi [H1 H2]. split; [done|]. by rewrite Hi. Qed.

Lemma owe_first x o : o_cancelled (owe x o) = first_of (o_cancelled o) x.
Proof. unfold owe, first_of. by destruct x, (o_cancelled o) eqn:H; simpl; rewrite ?H. Qed.

Lemma with_error_cancelled e o : o_cancelled (with_error e o) = o_cancelled o.
Proof. unfold with_error. by destruct (o_error o). Qed.

Lemma absorb_first e o : o_cancelled (absorb e o) = first_of (o_cancelled o) (cancel_of e).
Proof.
  unfold absorb. destruct e as [| | | | | | | | | | | | | | | | | | | | |? []|? []| | | |]; rewrite ?with_error_cancelled, ?owe_first; simpl;
    by destruct (o_cancelled o).
Qed.

Lemma owe_none x : first_of None x = o_cancelled (owe x no_outcome).
Proof. by rewrite owe_first. Qed.

Lemma absorb_none e : first_of None (cancel_of e) = o_cancelled (absorb e no_outcome).
Proof. by rewrite absorb_first. Qed.

Lemma caller_owed_cancels c e : cancel_of (_caller_owed (Some c) e) <> None.
Proof. unfold _caller_owed. by destruct e. Qed.

(** ** One submission *)

Lemma run_next_steady w c : interrupted (run_next w c) = interrupted w.
Proof.
  unfold run_next. destruct (conns w !! c) as [k|]; [|done]. destruct (queue k) as [|[[t p] f] q]; [done|].
  unfold perform. destruct (conns _ !! c) as [k'|]; [|done]. by destruct (act _ _ _ _) as [r [[? ?] ?]].
Qed.

Lemma drain_steady w c : interrupted (drain c w) = interrupted w.
Proof.
  unfold drain. destruct (conns w !! c) as [k|]; [|done]. induction (length (queue k)) as [|n IH]; [done|].
  simpl. by rewrite run_next_steady.
Qed.

Lemma turn_steady : steady (next_turn : K turn).
Proof.
  intros w. unfold next_turn. cbv zeta. cbn [snd].
  assert (H : forall l v, interrupted (fold_left run_next l v) = interrupted v).
  { induction l as [|c l IH]; intros v; [done|]. simpl. by rewrite IH, run_next_steady. }
  rewrite H. by destruct (t_exits _), (t_closing _).
Qed.

Lemma turn_carries x X : hoare (carries x) (next_turn : K turn) (fun _ => carries x) X.
Proof. apply carries_steady; [exact turn_steady|]. right. by intros w e w'. Qed.

Lemma waited_carries t X : hoare (carries None) (waited t : K unit) (fun _ => carries (owed t)) X.
Proof.
  intros w [H1 H2]. unfold waited, modify, owed. destruct (t_cancelled t); split; try done. by intros e [= <-].
Qed.

Lemma perform_steady c (p : op S) f w : interrupted (perform c p f w).2 = interrupted w.
Proof. unfold perform. destruct (conns w !! c); [|done]. by destruct (act _ _ _ _) as [r [[? ?] ?]]. Qed.

Lemma submit_heard c (p : op S) what dsp : heard (_submit c p what dsp) (fun ax => ax.2).
Proof.
  unfold heard, _submit. eapply hoare_bind with (Q := fun _ => carries None); [by intros w|]. intros id.
  eapply hoare_bind with (Q := fun _ => carries None); [by intros w; destruct p|]. intros ?.
  eapply hoare_bind; [apply turn_carries|]. intros t. eapply hoare_bind; [apply waited_carries|]. intros ?.
  destruct (t_ending t).
  - intros w Hw. cbv [mbind M_bind run_pure modify].
    pose proof (perform_steady c p (t_fault t) (drain c w)) as Hi. rewrite drain_steady in Hi.
    destruct (perform c p (t_fault t) (drain c w)) as [[z|e] w']; simpl in Hi; unfold owed in *.
    + simpl. by eapply carries_same; [|exact Hw].
    + destruct (t_cancelled t); simpl; [by apply carries_some|]. apply carries_any. by eapply carries_same; [|exact Hw].
  - intros w Hw. unfold owed in Hw. destruct (t_cancelled t); by eapply carries_same; [|exact Hw].
  - intros w Hw. unfold owed in Hw. destruct (t_cancelled t); by eapply carries_same; [|exact Hw].
Qed.

Lemma heard_try {A B} y (m : K A) f (k : res A -> K B) Q X : heard m f ->
  (forall a, hoare (carries (first_of y (f a))) (k (Ok a)) Q X) ->
  (forall e, hoare (carries (first_of y (cancel_of e))) (k (Raise e)) Q X) ->
  hoare (carries y) (r ← trying m; k r) Q X.
Proof.
  intros Hm Ha He. eapply hoare_bind; [eapply hoare_trying; by apply (heard_lift y m f)|]. by intros [a|e].
Qed.

(** An outcome is handed on, with what it owes. *)
Definition hears y (m : K outcome) : Prop := forall X, hoare (carries y) m (fun o => carries (o_cancelled o)) X.

Lemma hears_ret y o : o_cancelled o = y -> hears y (mret o).
Proof. by intros <- X w. Qed.

Lemma unsafe_carries {B} msg b i o (k : incident * outcome -> K B) y Q X : o_cancelled o = y ->
  (forall i o, hoare (carries (o_cancelled o)) (k (i, o)) Q X) -> hoare (carries y) (r ← unsafe msg b i o; k r) Q X.
Proof.
  intros <- Hk. eapply hoare_bind with (Q := fun r => carries (o_cancelled r.2)); [|by intros [i' o']].
  unfold unsafe. destruct i; by intros w.
Qed.

Lemma unsafe_hears msg b i o y : o_cancelled o = y -> hears y ('(_, o) ← unsafe msg b i o; mret o).
Proof. intros Ho X. apply unsafe_carries; [done|]. by intros i' o' w. Qed.

(** The exception that an outcome raises. *)
Definition raising (f : option exn) : option exn := match f with Some e => cancel_of e | None => None end.

Lemma owed_raises x e w : (interrupted w = true -> x <> None) -> carries (cancel_of (_caller_owed x e)) w.
Proof.
  intros Hx. destruct x as [c|]; [split; [apply cancel_of_cancelled|]; intros _; apply caller_owed_cancels|].
  apply carries_any. by split.
Qed.

Lemma cancelled_self e : is_cancelled e = true -> cancel_of e = Some e.
Proof. by destruct e. Qed.

Lemma settle_carries o X :
  hoare (carries (o_cancelled o)) (settle o : K _) (fun f => carries (raising f)) X.
Proof.
  unfold settle. destruct (o_problems o) as [|p ps].
  - intros w Hw. destruct (o_error o) as [e|]; simpl; [apply owed_raises, Hw|].
    destruct (o_cancelled o) as [c|]; simpl; [|done]. destruct Hw as [Hc _]. rewrite cancelled_self; [by apply carries_some, Hc|by apply Hc].
  - eapply hoare_bind with (Q := fun _ => carries (o_cancelled o)); [by intros w|]. intros stop.
    eapply hoare_bind with (Q := fun _ => carries (o_cancelled o)); [by destruct (_ && _)%bool; intros w|]. intros ?.
    eapply hoare_bind with (Q := fun _ => carries (o_cancelled o)); [apply hoare_for_each; by intros g w|]. intros ? w Hw.
    apply owed_raises, Hw.
Qed.

Lemma raise_settled_heard o (m : K unit) : (m = raise_settled o \/ m = raise_if_owed o) ->
  hoare (carries (o_cancelled o)) m (fun _ => carries None) (fun e => carries (cancel_of e)).
Proof.
  intros [-> | ->]; (eapply hoare_bind; [apply settle_carries|]); intros [e|] w Hw; exact Hw.
Qed.

(** ** Ending a transaction *)

Lemma close_heard c cur : heard (_close_cursor c cur) (fun x => x).
Proof.
  unfold heard, _close_cursor. eapply hoare_bind; [eapply hoare_trying, submit_heard|]. intros [[a x]|e]; [by intros w|].
  destruct (_cursor_already_gone e) eqn:Hg; [|by intros w]. intros w Hw. assert (Hc : cancel_of e = None) by by destruct e.
  simpl in Hw. by rewrite Hc in Hw.
Qed.

Lemma rollback_heard c : heard (_rollback c) (fun x => x).
Proof. unfold heard, _rollback. eapply hoare_bind; [apply submit_heard|]. by intros [a x] w. Qed.

Lemma report_carries r s1 s2 s3 s4 o X :
  hoare (carries (first_of (o_cancelled o) (match r with Ok x => x | Raise e => cancel_of e end)))
    (report_ending r s1 s2 s3 s4 o) (fun r => carries (o_cancelled r.2)) X.
Proof.
  assert (Hu : forall msg b o' y, o_cancelled o' = y -> hoare (carries y)
      ('(i, o) ← unsafe msg b None o'; mret (Some i, o)) (fun r : option incident * outcome => carries (o_cancelled r.2)) X).
  { intros msg b o' y Hy. apply unsafe_carries; [done|]. by intros i o2 w. }
  destruct r as [x|e]; [intros w; simpl; by rewrite owe_first|].
  unfold report_ending. destruct e as [| | | | | | | | | | | | | | | | | | | | |? []|? []| | | |];
    cbn [cancel_of owed_if]; first [apply Hu; rewrite ?owe_first; by destruct (o_cancelled o)|by rewrite <- owe_first; intros w].
Qed.

Lemma cleanup_each_hears c l : forall o, hears (o_cancelled o) (cleanup_each c l o).
Proof.
  induction l as [|cur l IH]; intros o X; simpl; [by intros w|].
  eapply heard_try; [apply close_heard|..].
  - intros x. eapply hoare_bind; [apply (report_carries (Ok x))|]. intros [i o']. apply IH.
  - intros e. eapply hoare_bind; [apply (report_carries (Raise e))|]. intros [i o']. apply IH.
Qed.

Lemma handle_carries f x X : hoare (carries x) (on_handle f : K unit) (fun _ => carries x) X.
Proof. by intros w. Qed.

Lemma cleanup_hears c o : hears (o_cancelled o) (_cleanup_cursors c o : K _).
Proof.
  intros X. unfold _cleanup_cursors. eapply hoare_bind with (Q := fun _ => carries (o_cancelled o)); [by intros w|]. intros l.
  eapply hoare_bind; [apply handle_carries|]. intros ?. apply cleanup_each_hears.
Qed.

Lemma state_carries c x X : hoare (carries x) (_transaction_state c) (fun _ => carries x) X.
Proof.
  unfold _transaction_state. eapply hoare_bind; [apply turn_carries|]. intros t.
  eapply hoare_bind with (Q := fun _ => carries x); [intros w; unfold modify; by destruct (t_readable t)|]. by intros ? w.
Qed.

Lemma unclosed_carries c x X : hoare (carries x) (register_unclosed c : K _) (fun _ => carries x) X.
Proof. intros w. unfold register_unclosed, modify. by destruct (existsb _ _). Qed.

Lemma unsafe_unclosed_hears c msg i o : hears (o_cancelled o) ('(_, o) ← unsafe msg false i o; _ ← register_unclosed c; mret o : K _).
Proof.
  intros X. apply unsafe_carries; [done|]. intros i' o'. eapply hoare_bind; [apply unclosed_carries|]. by intros ? w.
Qed.

Lemma force_close_hears c i o : hears (o_cancelled o) (_force_close_transaction c i o : K _).
Proof.
  intros X. unfold _force_close_transaction. eapply hoare_bind; [apply state_carries|].
  intros [[|]|]; [|by intros w|apply unsafe_unclosed_hears].
  assert (Hk : forall r, hoare (carries (first_of (o_cancelled o) (match r with Ok x => x | Raise e => cancel_of e end)))
    ('(i', o) ← report_ending r "rollback failed under cancellation: " "rollback submission cancelled: "
                  "rollback outcome unknown: " "rollback: " o;
     let i := match i' with Some i => Some i | None => i end in
     state ← _transaction_state c;
     match state with
     | None => '(_, o) ← unsafe "transaction state unreadable after rollback" false i o; _ ← register_unclosed c; mret o
     | Some true => '(_, o) ← unsafe "transaction still open after rollback" false i o; mret o
     | Some false => mret o
     end) (fun o => carries (o_cancelled o)) X).
  { intros r. eapply hoare_bind; [apply report_carries|]. intros [i' o']. cbv zeta. eapply hoare_bind; [apply state_carries|].
    intros [[|]|]; [by apply unsafe_hears|by intros w|apply unsafe_unclosed_hears]. }
  eapply heard_try; [apply rollback_heard|intros x; apply (Hk (Ok x))|intros e; apply (Hk (Raise e))].
Qed.

(** Ends in the cancellation that is owed, or in nothing. *)
Definition ends {A} x (m : K A) : Prop := hoare (carries x) m (fun _ => carries None) (fun e => carries (cancel_of e)).

Lemma ends_raise {A} e : ends (cancel_of e) (raise e : K A).
Proof. by intros w. Qed.

Lemma force_then c i o (m : outcome -> K unit) : (m = raise_settled \/ m = raise_if_owed) ->
  ends (o_cancelled o) (o ← _force_close_transaction c i o; m o).
Proof.
  intros Hm. eapply hoare_bind; [apply force_close_hears|]. intros o'. apply raise_settled_heard. by destruct Hm as [-> | ->]; [left|right].
Qed.

Lemma commit_failed_ends c e o : ends (first_of (o_cancelled o) (cancel_of e)) (commit_failed c e o).
Proof.
  unfold ends, commit_failed. cbv zeta. rewrite <- absorb_first. set (o' := absorb e o). clearbody o'.
  eapply hoare_bind with (Q := fun _ => carries (o_cancelled o')).
  { destruct (o_error o'); [|by intros w]. eapply hoare_bind; [apply state_carries|]. by intros st w. }
  intros [|]; destruct (o_error o'); try (apply force_then; by right).
  intros w Hw. apply owed_raises, Hw.
Qed.

Lemma commit_returned_ends c o : ends (o_cancelled o) (commit_returned c o).
Proof.
  unfold ends, commit_returned. eapply hoare_bind; [apply state_carries|].
  intros [[|]|]; try (apply unsafe_carries; [done|]; intros i o'; apply force_then; by left).
  intros w Hw. destruct (o_cancelled o) as [e|]; [|exact Hw]. simpl. rewrite cancelled_self; [exact Hw|]. by apply Hw.
Qed.

Lemma commit_ends c : ends None (_commit_transaction c).
Proof.
  unfold ends, _commit_transaction. eapply hoare_bind; [apply handle_carries|]. intros ?.
  eapply hoare_bind; [apply (cleanup_hears c no_outcome)|]. intros o.
  destruct (o_problems o); [|apply force_then; by right]. destruct (o_cancelled o) as [x|] eqn:Hc; [rewrite <- Hc; apply force_then; by right|].
  apply (hoare_pre (carries (o_cancelled o))); [intros w; by rewrite Hc|]. eapply heard_try; [apply submit_heard|..].
  - intros [y x]. cbn [snd]. rewrite <- owe_first. apply commit_returned_ends.
  - intros e. destruct e as [| | | | | | | | | | | | | | | | | | | | |what owes|what owes| | | |]; try apply commit_failed_ends.
    + apply unsafe_carries; [rewrite owe_first; by destruct owes|]. intros i o'. apply raise_settled_heard. by left.
    + apply unsafe_carries; [rewrite owe_first; by destruct owes|]. intros i o'. apply force_then. by left.
Qed.

(** Computations that never raise. *)
Definition total {A} (m : K A) : Prop := hoare (fun _ => True) m (fun _ _ => True) (fun _ _ => False).

Lemma total_bind {A B} (m : K A) (k : A -> K B) : total m -> (forall a, total (k a)) -> total (m ≫= k).
Proof. intros Hm Hk. by eapply hoare_bind. Qed.

Lemma total_try {A} (m : K A) : total (trying m).
Proof. intros w _. unfold trying. by destruct (m w). Qed.

Ltac total :=
  repeat match goal with
  | |- total (match ?x with _ => _ end) => destruct x
  | |- total (_ ≫= _) => apply total_bind; [|intros ?]
  | |- total (trying _) => apply total_try
  | |- total _ => by intros w
  | _ => progress cbv zeta
  end.

Lemma total_unsafe msg b i o : total (unsafe msg b i o).
Proof. unfold unsafe. total. Qed.

Lemma total_settle o : total (settle o).
Proof.
  unfold settle. destruct (o_problems o); [by intros w|]. total. apply hoare_for_each. by intros g w.
Qed.

Lemma total_report r s1 s2 s3 s4 o : total (report_ending r s1 s2 s3 s4 o).
Proof. unfold report_ending. total; apply total_unsafe. Qed.

Lemma total_cleanup c o : total (_cleanup_cursors c o).
Proof.
  unfold _cleanup_cursors. total. match goal with |- total (cleanup_each _ ?l _) => revert o; induction l as [|cur l IH] end; intros o;
    simpl; total; [apply total_report|apply IH].
Qed.

Lemma total_state c : total (_transaction_state c).
Proof. unfold _transaction_state. total. Qed.

Lemma total_force c i o : total (_force_close_transaction c i o).
Proof. unfold _force_close_transaction. total; by auto using total_state, total_unsafe, total_report. Qed.

Lemma total_abort c : total (_abort_transaction c).
Proof. unfold _abort_transaction. total; by auto using total_cleanup, total_force, total_settle. Qed.

Lemma abort_hears c x X : hoare (carries x) (_abort_transaction c) (fun ab => carries (first_of x (ab_cancelled ab))) X.
Proof.
  assert (H : hoare (carries None) (_abort_transaction c) (fun ab => carries (ab_cancelled ab)) (fun _ _ => False)).
  { unfold _abort_transaction. eapply hoare_bind; [apply handle_carries|]. intros ?.
    eapply hoare_bind; [apply (cleanup_hears c no_outcome)|]. intros o. eapply hoare_bind; [apply force_close_hears|]. intros o'.
    destruct (o_problems o'); [by intros w|].
    eapply hoare_bind with (Q := fun _ => carries (o_cancelled o')); [|by intros f w].
    unfold settle. destruct (o_problems o'); [by intros w|].
    eapply hoare_bind with (Q := fun _ => carries (o_cancelled o')); [by intros w|]. intros stop.
    eapply hoare_bind with (Q := fun _ => carries (o_cancelled o')); [by destruct (_ && _)%bool; intros w|]. intros ?.
    eapply hoare_bind with (Q := fun _ => carries (o_cancelled o')); [apply hoare_for_each; by intros g w|]. by intros ? w. }
  intros w Hw. pose proof (total_abort c w I) as Ht. specialize (H w).
  destruct x as [c'|]; [|specialize (H Hw)]; destruct (_abort_transaction c w) as [[ab|e] w']; try done.
  apply carries_some. by apply Hw.
Qed.

Lemma reclassify_ends ab e :
  hoare (carries (first_of (cancel_of e) (ab_cancelled ab))) (_reclassify ab e : K unit)
    (fun _ => carries (cancel_of e)) (fun e => carries (cancel_of e)).
Proof.
  assert (Hp : forall e, cancel_of e = None -> is_cancelled e = false ->
    hoare (carries (ab_cancelled ab))
      (if ab_cancelled ab then raise (CancelledAfterWorkerError e)
       else if negb (ab_unresolved ab) then mret tt
       else stop ← gets fail_stop; raise (default (DatabaseFailStop (default "" stop)) (ab_failure ab)))
      (fun _ => carries (cancel_of e)) (fun e => carries (cancel_of e) : db D S R -> Prop)).
  { intros e' He _ w Hw. rewrite He. destruct (ab_cancelled ab); [by apply carries_some|].
    destruct (ab_unresolved ab); [by apply carries_any|done]. }
  assert (Hu : forall owes w f, carries (first_of (if owes : bool then Some CancelledError else None) (ab_cancelled ab)) w ->
    carries (cancel_of (_caller_owed (match ab_cancelled ab with Some c => Some c | None => owed_if owes end) f)) w).
  { intros owes w f [_ Hw]. apply owed_raises. intros Hi. specialize (Hw Hi). by destruct (ab_cancelled ab), owes. }
  unfold _reclassify. destruct e as [| | | | | | | | | | | | | | | | | | | | |what owes|what owes| | | |]; try (by apply Hp); try by intros w.
  - intros w Hw. destruct owes; by apply Hu.
  - intros w Hw. destruct owes; by apply Hu.
Qed.

(** ** Statements, and the transaction *)

Lemma as_public_carries stop e w : carries (cancel_of e) w -> carries (cancel_of (_as_public stop e)) w.
Proof.
  intros Hw. destruct (cancel_of e) as [c|] eqn:Hc; [|by apply carries_any].
  assert (He : _as_public stop e = CancelledError).
  { by destruct e as [| | | | | | | | | | | | | | | | | | | | |? []|? []| | | |]. }
  rewrite He. by apply carries_some.
Qed.

Lemma raise_public_ends {A} e : ends (cancel_of e) (_raise_public e : K A).
Proof. intros w Hw. by apply as_public_carries. Qed.

Lemma publicly_ends {A} (m : K A) : ends None m -> ends None (publicly m).
Proof.
  intros Hm. unfold ends, publicly. eapply hoare_bind; [by eapply hoare_trying|].
  intros [a|e]; [by intros w|apply raise_public_ends].
Qed.

Lemma release_heard c cur : heard (_release c cur) (fun x => x).
Proof.
  unfold heard, _release. eapply hoare_bind; [apply close_heard|]. intros x.
  eapply hoare_bind; [apply handle_carries|]. by intros ? w.
Qed.

Lemma finish_ends {A} c o cur (v : option A) : ends (o_cancelled o) (_finish c o cur v).
Proof.
  unfold ends, _finish. eapply hoare_bind with (Q := fun o => carries (o_cancelled o)).
  - destruct cur as [cur|]; [|by intros w]. eapply heard_try; [apply release_heard|..].
    + intros x. rewrite <- owe_first. by intros w.
    + intros e. apply unsafe_hears. by rewrite absorb_first.
  - intros o'. eapply hoare_bind; [apply settle_carries|].
    intros [e|]; [apply raise_public_ends|]. by destruct v; intros w.
Qed.

Lemma run_heard c s what : heard (_run c s what) (fun r => r.2).
Proof.
  unfold heard, _run. eapply hoare_bind; [apply submit_heard|]. intros [a x].
  eapply hoare_bind; [apply handle_carries|]. by intros ? w.
Qed.

Lemma check_ends (h me : nat) : ends None (_check h me : K unit).
Proof.
  intros w Hw. unfold _check. cbv [mbind M_bind gets].
  destruct (negb (h_id (hnd w) =? h)%nat || h_closed (hnd w)); [exact Hw|].
  destruct (negb (h_owner (hnd w) =? me)%nat); exact Hw.
Qed.

Lemma over_none {A} (m : K A) x : ends x m -> hoare (carries (first_of None x)) m (fun _ => carries None) (fun e => carries (cancel_of e)).
Proof. done. Qed.

Lemma statement_ends h me s (query : bool) : ends None (if query then fetch_all h me s else execute h me s).
Proof.
  destruct query; [unfold fetch_all|unfold execute];
    (unfold ends; eapply hoare_bind; [apply check_ends|]; intros ?;
     eapply hoare_bind with (Q := fun _ => carries None); [by intros w|]; intros c;
     eapply heard_try; [apply run_heard| |intros e; rewrite absorb_none; apply finish_ends];
     intros [cur x]; cbn [snd]; rewrite owe_none).
  - eapply heard_try; [apply submit_heard|..].
    + intros [y z]. cbn [snd]. rewrite <- owe_first. by destruct y; apply finish_ends.
    + intros e. rewrite <- absorb_first. apply finish_ends.
  - eapply hoare_bind with (Q := fun _ => carries (o_cancelled (owe x no_outcome))); [by intros w|]. intros r. apply finish_ends.
Qed.

Lemma body_ends {A} h me (b : body S R A) : ends None (run_body h me b).
Proof.
  induction b as [a|e|s k IH|s k IH]; simpl; [by intros w|intros w Hw; by apply carries_any|..];
    (eapply hoare_bind; [|exact IH]); [apply (statement_ends h me s false)|apply (statement_ends h me s true)].
Qed.

Lemma begin_hears c : hears None (begin_transaction c : K _).
Proof.
  intros X. unfold begin_transaction. eapply (heard_try None _ (fun r => r.2)).
  - eapply hoare_bind; [apply submit_heard|]. intros [a x]. eapply hoare_bind; [apply handle_carries|]. by intros ? w.
  - intros [cur x]. cbn [snd]. rewrite owe_none. eapply heard_try; [apply release_heard|..].
    + intros y. rewrite <- owe_first. by intros w.
    + intros e. rewrite <- absorb_first. by intros w.
  - intros e. rewrite absorb_none. by intros w.
Qed.

Lemma abort_with_ends {A} c e : ends (cancel_of e) (abort_with c e : K A).
Proof.
  unfold ends, abort_with. eapply hoare_bind; [apply abort_hears|]. intros ab.
  eapply hoare_bind; [apply reclassify_ends|]. by intros ? w.
Qed.

(** ** Connections *)

Lemma execute_fetch_hears c (s : S) what what' X :
  hoare (carries None) (execute_fetch c s what what') (fun r => carries (o_cancelled r.2)) X.
Proof.
  unfold execute_fetch. eapply heard_try; [apply submit_heard|..].
  - intros [a x]. cbn [snd]. rewrite owe_none. eapply heard_try; [apply submit_heard|..].
    + intros [b y]. cbn [snd]. rewrite <- owe_first. by destruct b; intros w.
    + intros e. rewrite <- absorb_first. by intros w.
  - intros e. rewrite absorb_none. by intros w.
Qed.

Lemma close_into_hears c label cur o : hears (o_cancelled o) (close_into c label cur o).
Proof.
  intros X. unfold close_into. destruct cur as [cur|]; [|by intros w]. eapply heard_try; [apply close_heard|..].
  - intros x. rewrite <- owe_first. by intros w.
  - intros e. apply unsafe_hears. by rewrite absorb_first.
Qed.

Lemma run_statement_heard c s what : heard (_run_statement c s what) (fun r => r.2).
Proof.
  unfold heard, _run_statement. eapply hoare_bind; [apply execute_fetch_hears|]. intros [[cur rows] o].
  eapply hoare_bind; [apply close_into_hears|]. intros o'. destruct (resolved o'); [by intros w|].
  eapply hoare_bind; [apply settle_carries|]. intros [e|] w Hw; exact Hw.
Qed.

(** A failure in hand, over the outcome so far. *)
Definition pending_failure (r : option exn * outcome) : option exn :=
  match r.1 with Some e => first_of (o_cancelled r.2) (cancel_of e) | None => o_cancelled r.2 end.

Lemma set_pragmas_hears c l X : forall o,
  hoare (carries (o_cancelled o)) (set_pragmas c l o) (fun r => carries (pending_failure r)) X.
Proof.
  induction l as [|[[a r] p] l IH]; intros o; simpl; [by intros w|].
  eapply heard_try; [apply run_statement_heard| |by intros e w]. intros [rows x]. cbn [snd]. rewrite <- owe_first.
  eapply heard_try; [apply run_statement_heard| |by intros e w]. intros [rows' x']. cbn [snd]. rewrite <- owe_first.
  destruct (p _); [apply IH|]. intros w Hw. unfold pending_failure. simpl. unfold first_of. by destruct (o_cancelled _).
Qed.

Lemma configure_heard c : heard (_configure c) (fun x => x).
Proof.
  unfold heard, _configure. eapply hoare_bind; [apply (set_pragmas_hears c _ _ no_outcome)|]. intros [[e|] o]; [|by intros w].
  unfold pending_failure. cbn [fst snd]. rewrite <- absorb_first.
  eapply hoare_bind; [apply settle_carries|]. intros [e'|] w Hw; [exact Hw|]. by apply carries_any.
Qed.

Lemma join_heard c : heard (_join_worker c) (fun _ => None).
Proof.
  unfold heard, _join_worker. eapply hoare_bind with (Q := fun _ => carries None); [by intros w|]. intros [|]; [|by intros w]. simpl.
  eapply hoare_bind; [apply turn_carries|]. intros t. eapply hoare_bind; [apply waited_carries|]. intros ?.
  unfold owed. destruct (t_cancelled t); by intros w.
Qed.

Lemma total_discard c what : total (_discard_connection c what).
Proof. unfold _discard_connection. total; apply total_unsafe. Qed.

Lemma trying_heard {A} y (m : K A) f X : heard m f ->
  hoare (carries y) (trying m) (fun r => carries (first_of y (match r with Ok a => f a | Raise e => cancel_of e end))) X.
Proof.
  intros Hm w Hw. pose proof (heard_lift y m f Hm w Hw) as H. unfold trying. by destruct (m w) as [[a|e] w'].
Qed.

Lemma discard_hears c what y X :
  hoare (carries y) (_discard_connection c what) (fun o => carries (first_of y (o_cancelled o))) X.
Proof.
  assert (H : hoare (carries None) (_discard_connection c what) (fun o => carries (o_cancelled o)) (fun _ _ => False)).
  { unfold _discard_connection. eapply hoare_bind; [apply trying_heard, submit_heard|]. intros r.
    eapply hoare_bind with (Q := fun o => carries (o_cancelled o)).
    { destruct r as [[a x]|e]; [cbn [snd]; rewrite owe_none; by intros w|]. apply unsafe_hears. by rewrite absorb_none. }
    intros o. eapply hoare_bind with (Q := fun o => carries (o_cancelled o)).
    { destruct (resolved o); [|by intros w]. eapply hoare_bind; [apply trying_heard, join_heard|].
      intros [[|]|e]; [|apply unsafe_hears; unfold first_of; by destruct (o_cancelled o)|apply unsafe_hears; by rewrite absorb_first].
      intros w Hw. cbn. unfold first_of in Hw. destruct (o_cancelled o); exact Hw. }
    intros o'. eapply hoare_bind with (Q := fun _ => carries (o_cancelled o')); [|by intros ? w].
    destruct (o_problems o'); [by intros w|apply unclosed_carries]. }
  intros w Hw. pose proof (total_discard c what w I) as Ht. specialize (H w).
  destruct y as [c'|]; [|specialize (H Hw)]; destruct (_discard_connection c what w) as [[o|e] w']; try done.
  apply carries_some. by apply Hw.
Qed.

(** A connection that will not be published: what is owed is raised. *)
Lemma discard_then {A} c what o (k : outcome -> outcome) e0 :
  (forall d, o_cancelled (k d) = first_of (o_cancelled o) (o_cancelled d)) ->
  ends (o_cancelled o) (d ← _discard_connection c what; f ← settle (k d); raise (default e0 f) : K A).
Proof.
  intros Hk. eapply hoare_bind; [apply discard_hears|]. intros d. cbv beta. rewrite <- (Hk d).
  eapply hoare_bind; [apply settle_carries|]. intros [e|] w Hw; [exact Hw|]. by apply carries_any.
Qed.

Lemma verify_hears c build X :
  hoare (carries (o_cancelled build)) (verify c build)
    (fun r w => match r.1 with Some e => carries (first_of (o_cancelled r.2) (cancel_of e)) w | None => carries None w end) X.
Proof.
  unfold verify. eapply heard_try; [apply configure_heard| |by intros e w]. intros x. rewrite <- owe_first.
  set (b := owe x build). clearbody b.
  eapply hoare_bind with (Q := fun _ => carries (o_cancelled b)); [by intros w|]. intros [|] w Hw; cbn.
  - unfold first_of. by destruct (o_cancelled b).
  - destruct (o_cancelled b) as [e|]; exact Hw.
Qed.

Lemma open_connection_ends what : ends None (_open_connection what : K _).
Proof.
  unfold ends, _open_connection. eapply hoare_bind with (Q := fun _ => carries None); [by intros w|].
  intros [|]; [by intros w|]. eapply hoare_bind with (Q := fun _ => carries None); [by intros w|]. intros c.
  eapply hoare_bind; [apply submit_heard|]. intros [a x]. cbn [snd].
  eapply hoare_bind; [apply (hoare_pre (carries (o_cancelled (owe x no_outcome)))); [intros w; by rewrite <- owe_none|apply verify_hears]|].
  intros [[e|] build]; cbn [fst snd]; [|by intros w].
  rewrite <- absorb_first. apply discard_then. intros d. unfold take_problems. simpl. by rewrite owe_first.
Qed.

Lemma publish_ends c what reason (pub : db D S R -> db D S R) : (forall w, interrupted (pub w) = interrupted w) ->
  ends None (down ← shutting; if (down : bool) then e ← _abandon_unpublished c what reason; raise e else _ ← modify pub; mret c).
Proof.
  intros Hp. unfold ends. eapply hoare_bind with (Q := fun _ => carries None); [by intros w|]. intros [|].
  - unfold _abandon_unpublished. eapply hoare_bind with (Q := fun e => carries (cancel_of e)); [|by intros e w].
    eapply hoare_bind; [apply discard_hears|]. intros d.
    match goal with |- context [settle ?o] => assert (Ho : o_cancelled o = first_of None (o_cancelled d)) end.
    { rewrite absorb_first. unfold take_problems. simpl. rewrite owe_first. simpl. by destruct (o_cancelled d). }
    eapply hoare_bind; [eapply hoare_pre; [|apply settle_carries]; intros w Hw; rewrite Ho; exact Hw|]. intros [e|] w Hw; [exact Hw|]. by apply carries_any.
  - intros w Hw. exact (carries_same None w _ (Hp w) Hw).
Qed.

Lemma make_directory_ends : ends None (make_directory : K unit).
Proof.
  unfold ends, make_directory. destruct in_memory; [by intros w|]. eapply hoare_bind; [apply turn_carries|].
  intros t. destruct (t_fault t) as [[| | |]|]; intros w Hw; try done. by apply carries_any.
Qed.

Lemma get_conn_ends (on_metric : bool) : ends None (if on_metric then _get_metric_db else _get_conn : K _).
Proof.
  destruct on_metric; [unfold _get_metric_db|unfold _get_conn];
    (unfold ends; eapply hoare_bind with (Q := fun _ => carries None); [by intros w|]; intros [c|]; [by intros w|]).
  - eapply hoare_bind; [apply open_connection_ends|]. intros c. by apply publish_ends.
  - eapply hoare_bind with (Q := fun _ => carries None); [by intros w|]. intros [|]; [by intros w|].
    eapply hoare_bind; [apply make_directory_ends|]. intros ?.
    eapply hoare_bind; [apply open_connection_ends|]. intros c. by apply publish_ends.
Qed.

Lemma acquire_ends b : ends None (_acquire_connection b : K _).
Proof. apply publicly_ends, get_conn_ends. Qed.

Lemma admission_ends : ends None (require_admission : K unit).
Proof.
  intros w Hw. unfold require_admission. cbv [mbind M_bind gets lift_res].
  destruct (_require_admission (admission_of w)); [exact Hw|by apply carries_any].
Qed.

Lemma lock_ends : ends None (acquire_lock : K unit).
Proof.
  unfold ends, acquire_lock. eapply hoare_bind; [apply turn_carries|]. intros t.
  eapply hoare_bind; [apply waited_carries|]. intros ?. unfold owed. destruct (t_cancelled t); by intros w.
Qed.

(** ** The boundary *)

Lemma write_transaction_ends {A} me on_metric (b : body S R A) : ends None (write_transaction me on_metric b).
Proof.
  apply publicly_ends. unfold ends, _write_transaction. eapply hoare_bind; [apply admission_ends|]. intros ?.
  eapply hoare_bind; [apply lock_ends|]. intros ?. eapply hoare_bind; [apply admission_ends|]. intros ?.
  eapply hoare_bind; [apply acquire_ends|]. intros c.
  eapply hoare_bind with (Q := fun _ => carries None); [by intros w|]. intros h.
  eapply hoare_bind; [apply begin_hears|]. intros o. eapply hoare_bind; [apply settle_carries|].
  intros [e|]; [apply abort_with_ends|].
  eapply hoare_bind; [eapply hoare_trying, body_ends|]. intros [y|e]; [|apply abort_with_ends].
  eapply hoare_bind; [apply commit_ends|]. by intros ? w.
Qed.

Lemma fetch_all_ends (s : S) : ends None (_fetch_all s : K _).
Proof.
  unfold ends, _fetch_all. eapply hoare_bind; [apply admission_ends|]. intros ?.
  eapply hoare_bind with (Q := fun _ => carries None).
  { destruct (guard_verdict (text s)) as [-> | ->]; intros w Hw; [exact Hw|by apply carries_any]. }
  intros ?. eapply hoare_bind; [apply lock_ends|]. intros ?. eapply hoare_bind; [apply admission_ends|]. intros ?.
  eapply hoare_bind; [apply acquire_ends|]. intros c. eapply hoare_bind; [apply execute_fetch_hears|]. intros [[cur rows] o].
  eapply hoare_bind; [apply close_into_hears|]. intros o'. eapply hoare_bind; [apply settle_carries|].
  intros [e|]; [apply raise_public_ends|by intros w].
Qed.

Lemma fetch_all_unrestricted_ends (s : S) : ends None (_fetch_all_unrestricted s : K _).
Proof.
  unfold ends, _fetch_all_unrestricted. eapply hoare_bind; [apply admission_ends|]. intros ?.
  eapply hoare_bind; [apply lock_ends|]. intros ?. eapply hoare_bind; [apply admission_ends|]. intros ?.
  eapply hoare_bind; [apply acquire_ends|]. intros c.
  eapply heard_try; [apply run_statement_heard| |intros e; apply raise_public_ends].
  intros [rows [e|]]; cbn [snd first_of]; [|by intros w].
  intros w Hw. apply raise_public_ends. rewrite cancelled_self; [exact Hw|]. by apply Hw.
Qed.

(** ** What is raised is public *)

Lemma as_public_public stop e : _is_private (_as_public stop e) = false.
Proof. by destruct e as [| | | | | | | | | | | | | | | | | | | | |? []|? []| | | |]. Qed.

Definition raises_public {A} (m : K A) : Prop := forall w e w', m w = (Raise e, w') -> _is_private e = false.

Lemma publicly_public {A} (m : K A) : raises_public (publicly m).
Proof.
  intros w e w'. unfold publicly, trying. cbv [mbind M_bind]. destruct (m w) as [[a|e'] v]; [done|].
  unfold _raise_public. cbv [mbind M_bind gets raise]. intros [= <- _]. apply as_public_public.
Qed.

Lemma public_cancelled e w : _is_private e = false -> carries (cancel_of e) w -> interrupted w = true -> e = CancelledError.
Proof. intros He [_ Hw] Hi. specialize (Hw Hi). by destruct e. Qed.

Lemma public_bind {A B} (m : K A) (k : A -> K B) : raises_public m -> (forall a, raises_public (k a)) -> raises_public (m ≫= k).
Proof.
  intros Hm Hk w e w'. unfold mbind, M_bind. destruct (m w) as [[a|e'] v] eqn:Em; [apply Hk|].
  intros [= <- _]. by eapply Hm.
Qed.

Lemma public_total {A} (m : K A) : total m -> raises_public m.
Proof. intros Hm w e w' He. specialize (Hm w I). by rewrite He in Hm. Qed.

Lemma public_raise {A} e : raises_public (_raise_public e : K A).
Proof. intros w e' w'. unfold _raise_public. cbv [mbind M_bind gets raise]. intros [= <- _]. apply as_public_public. Qed.

Lemma public_admission : raises_public (require_admission : K unit).
Proof.
  intros w e w'. unfold require_admission. cbv [mbind M_bind gets lift_res]. unfold _require_admission.
  destruct (_fail_stop _); [by intros [= <- _]|]. destruct (_closed _); [by intros [= <- _]|]. destruct (_closing _); by intros [= <- _].
Qed.

Lemma public_lock : raises_public (acquire_lock : K unit).
Proof.
  unfold acquire_lock. apply public_bind; [by apply public_total; intros w|]. intros t.
  apply public_bind; [by apply public_total; intros w|]. intros ?. destruct (t_cancelled t); intros w e w'; by intros [= <- _].
Qed.

Lemma total_close_into c label cur o : total (close_into c label cur o).
Proof. unfold close_into. total; apply total_unsafe. Qed.

Lemma total_execute_fetch c (s : S) what what' : total (execute_fetch c s what what').
Proof. unfold execute_fetch. total. Qed.

Lemma fetch_all_public (s : S) : raises_public (_fetch_all s).
Proof.
  unfold _fetch_all. apply public_bind; [apply public_admission|]. intros ?. apply public_bind.
  { destruct (guard_verdict (text s)) as [-> | ->]; intros w e w'; by intros [= <- _]. }
  intros ?. apply public_bind; [apply public_lock|]. intros ?. apply public_bind; [apply public_admission|]. intros ?.
  apply public_bind; [apply publicly_public|]. intros c. apply public_bind; [apply public_total, total_execute_fetch|].
  intros [[cur rows] o]. apply public_bind; [apply public_total, total_close_into|]. intros o'.
  apply public_bind; [apply public_total, total_settle|]. intros [e|]; [apply public_raise|by intros w e w'].
Qed.

Lemma fetch_all_unrestricted_public (s : S) : raises_public (_fetch_all_unrestricted s).
Proof.
  unfold _fetch_all_unrestricted. apply public_bind; [apply public_admission|]. intros ?.
  apply public_bind; [apply public_lock|]. intros ?. apply public_bind; [apply public_admission|]. intros ?.
  apply public_bind; [apply publicly_public|]. intros c. apply public_bind; [apply public_total, total_try|].
  intros [[rows [e|]]|e]; try apply public_raise. by intros w e w'.
Qed.

(** How an operation may end, for a caller that was cancelled in it or not. *)
Definition answers {A} (m : K A) w : Prop :=
  match m w with
  | (Ok _, w') => interrupted w' = false
  | (Raise e, w') => _is_private e = false /\ (interrupted w' = true -> e = CancelledError)
  end.

Lemma ends_answers {A} (m : K A) w : ends None m -> raises_public m -> interrupted w = false -> answers m w.
Proof.
  intros Hm Hp Hi. assert (Hc : carries None w) by (split; [done|congruence]). specialize (Hm w Hc).
  unfold answers. specialize (Hp w). destruct (m w) as [[a|e] w'].
  - destruct Hm as [_ Hn]. destruct (interrupted w'); [by destruct (Hn eq_refl)|done].
  - pose proof (Hp e w' eq_refl) as He. split; [done|]. by apply public_cancelled.
Qed.

(** C16: a caller that is cancelled while a transaction or a read waits is handed its
    cancellation, whatever else went wrong meanwhile; one that gets an answer was not
    cancelled; and no private classification of a worker's ending leaves the boundary. *)
Theorem cancellation_delivered {A} me on_metric (b : body S R A) (s : S) w : interrupted w = false ->
  answers (write_transaction me on_metric b) w /\ answers (_fetch_all s) w /\ answers (_fetch_all_unrestricted s) w.
Proof.
  intros Hi. split_and!; apply ends_answers; try done.
  - apply write_transaction_ends.
  - apply publicly_public.
  - apply fetch_all_ends.
  - apply fetch_all_public.
  - apply fetch_all_unrestricted_ends.
  - apply fetch_all_unrestricted_public.
Qed.
End Cancellation.
