(* ===== verification/Shutdown.v ===== *)
(** * Closing the database (src/backend/app/database.py, lines 913-1041 and 2078-2224)

    What became of the submissions that were given up, what their workers handed back
    too late, and the verdict of [close_db]. *)
From stdpp Require Import pretty.
From S2P Require Import Prelude Py Effects PyOps PyVals DbCore Worker Boundary.
Open Scope Z_scope.

Inductive close_verdict := CLOSED | RESTART_REQUIRED.

Section Shutdown.
Context {D S R : Type} {E : Engine D S R}.
Abbreviation K := (M (db D S R)).

(** ** Submissions that were given up *)

(** What is decided about one of them: it stays, it settled, or it handed back
    something that has to be closed. *)
Inductive adjudged := StillRunning | Settled | HandedBack (l : late_result).

Definition adjudge (w : db D S R) (u : unresolved) : adjudged :=
  match tasks w !! u_task u with
  | None | Some TaskRunning => StillRunning
  | Some TaskCancelled => if _worker_alive (u_owner u) w then StillRunning else Settled
  | Some (TaskDone (Raise _)) => Settled
  | Some (TaskDone (Ok a)) =>
      match u_disposal u, a with
      | OwnsNothing, _ => Settled
      | OwnsConnection, _ => HandedBack (LateResult (u_what u) OwnsConnection (u_owner u) (u_owner u))
      | OwnsCursor, Cursor n => HandedBack (LateResult (u_what u) OwnsCursor n (u_owner u))
      | OwnsCursor, _ => Settled
      end
  end.

Definition adjudicate_unresolved : K unit := modify (fun w =>
  let handed u := match adjudge w u with HandedBack l => Some l | _ => None end in
  let running u := match adjudge w u with StillRunning => true | _ => false end in
  with_unresolved (with_late w (late_ w ++ omap handed (unresolved_ w))) (List.filter running (unresolved_ w))).

(** ** Results that came too late *)

Definition disposal_eqb (a b : disposal) : bool :=
  match a, b with
  | OwnsNothing, OwnsNothing | OwnsConnection, OwnsConnection | OwnsCursor, OwnsCursor => true
  | _, _ => false
  end.

Definition late_kind (d : disposal) : string :=
  match d with OwnsNothing => "value" | OwnsConnection => "connection" | OwnsCursor => "cursor" end.

Definition close_op (l : late_result) : op S :=
  match l_disposal l with OwnsCursor => CloseCursor (l_obj l) | _ => CloseConn end.

(** Whether the thread of a connection that was closed has gone: any exception is no. *)
Definition joined (c : nat) : K bool := r ← trying (_join_worker c); mret (match r with Ok b => b | Raise _ => false end).

Definition dispose_one (l : late_result) : K unit :=
  let kind d := disposal_eqb (l_disposal l) d in
  r ← trying (_submit (l_owner l) (close_op l) (l_what l ++ ": late " ++ late_kind (l_disposal l) ++ " close")%string OwnsNothing);
  match r with
  | Raise e =>
      if kind OwnsCursor && _cursor_already_gone e then mret tt
      else
        _ ← (if _already_fail_stopped e then mret tt
             else enter_fail_stop (l_what l ++ ": late " ++ late_kind (l_disposal l) ++ " could not be closed: "
                                   ++ _public_detail e)%string);
        if kind OwnsConnection then register_unclosed (l_obj l)
        else modify (fun w => with_late w (late_ w ++ [l]))
  | Ok _ =>
      gone ← (if kind OwnsConnection then joined (l_obj l) else mret true);
      if (gone : bool) then mret tt
      else
        _ ← enter_fail_stop (l_what l ++ ": late connection closed but its aiosqlite worker thread did not exit")%string;
        register_unclosed (l_obj l)
  end.

(** Close what was handed back: of one kind, or all of it. *)
Definition _dispose_late_results (only : option disposal) : K unit :=
  let chosen l := match only with Some d => disposal_eqb (l_disposal l) d | None => true end in
  pending ← gets (fun w => List.filter chosen (late_ w));
  _ ← modify (fun w => with_late w (List.filter (fun l => negb (chosen l)) (late_ w)));
  for_each dispose_one pending.

(** ** [close_db] *)

(** One published connection: closed and its thread gone, or on record. *)
Definition close_target (name : string) (c : nat) : K close_verdict :=
  r ← trying (_submit c CloseConn (name ++ " connection close")%string OwnsNothing);
  problem ← (match r with
             | Raise e =>
                 mret (if is_cancelled e
                       then Some (name ++ " connection close unconfirmed: " ++ _public_detail e, false)
                       else Some (name ++ " connection close: " ++ _public_detail e, _already_fail_stopped e))%string
             | Ok _ =>
                 j ← trying (_join_worker c);
                 mret (match j with
                       | Ok true => None
                       | Ok false => Some (name ++ " connection closed but its aiosqlite worker thread did not exit", false)
                       | Raise e => Some (name ++ " worker thread exit could not be confirmed: " ++ repr e, false)
                       end)%string
             end);
  match problem with
  | None => mret CLOSED
  | Some (msg, recorded) =>
      _ ← register_unclosed c;
      _ ← (if (recorded : bool) then mret tt else enter_fail_stop msg);
      mret RESTART_REQUIRED
  end.

Definition close_optional (name : string) (c : option nat) : K close_verdict :=
  match c with None => mret CLOSED | Some c => close_target name c end.

Definition register_optional (c : option nat) : K unit :=
  match c with None => mret tt | Some c => register_unclosed c end.

Definition worse (a b : close_verdict) : close_verdict := match a with CLOSED => b | _ => RESTART_REQUIRED end.

(** Every connection this process ever built whose thread is left running. *)
Definition stragglers (w : db D S R) : list nat := List.filter (fun c => _worker_alive c w) (seq 0 (length (conns w))).

Definition accounted (w : db D S R) : bool :=
  match unresolved_ w, unclosed_ w, late_ w with [], [], [] => true | _, _, _ => false end.

(** The verdict, with the lock held and the connections detached. *)
Definition close_detached (conn metric : option nat) : K close_verdict :=
  _ ← adjudicate_unresolved;
  _ ← _dispose_late_results (Some OwnsCursor);
  _ ← adjudicate_unresolved;
  _ ← _dispose_late_results (Some OwnsCursor);
  _ ← adjudicate_unresolved;
  left ← gets unresolved_;
  match left with
  | _ :: _ =>
      _ ← register_optional conn;
      _ ← register_optional metric;
      _ ← _dispose_late_results None;
      mret RESTART_REQUIRED
  | [] =>
      v1 ← close_optional "shared" conn;
      v2 ← close_optional "metric" metric;
      _ ← adjudicate_unresolved;
      _ ← _dispose_late_results None;
      _ ← adjudicate_unresolved;
      ok ← gets accounted;
      if negb ok then mret RESTART_REQUIRED
      else
        alive ← gets stragglers;
        match alive with
        | [] => mret (worse v1 v2)
        | _ =>
            _ ← for_each register_unclosed alive;
            _ ← enter_fail_stop (pretty (N.of_nat (length alive)) ++
                  " aiosqlite worker thread(s) were still running when the database was closed")%string;
            mret RESTART_REQUIRED
        end
  end.

(** The whole: the waiting for the lock ends with it, with a timeout or with a
    cancellation; however it all ends, the database stays shut. *)
Definition close_db (timeout : string) : K close_verdict :=
  finally
    (_ ← modify (fun w => with_shut w true (closed w));
     t ← next_turn;
     _ ← waited t;
     if t_cancelled t then
       _ ← enter_fail_stop "close_db was cancelled while quiescing"; mret RESTART_REQUIRED
     else match t_ending t with
          | Answered =>
              conn ← gets shared;
              metric ← gets metric;
              _ ← modify (fun w => with_published w None None);
              close_detached conn metric
          | _ =>
              _ ← enter_fail_stop ("close_db could not quiesce in-flight operations within " ++ timeout ++ "s")%string; mret RESTART_REQUIRED
          end)
    (modify (fun w => with_shut w false true)).
End Shutdown.
