(* ===== verification/Lifetimes.v ===== *)
(** * What holds of every connection, whatever runs

    [stable]: what each single step of the boundary keeps, every operation keeps.  Then:
    a connection whose thread is not running is closed off for good, and the latch keeps
    its first reason. *)
From S2P Require Import Prelude Py Effects PyOps PyVals DbCore Worker Boundary WorkerFacts Shutdown.
Open Scope Z_scope.

Section Stable.
Context {D S R : Type} {E : Engine D S R}.
Implicit Types (w : db D S R) (k : conn D S R) (o : outcome).
Abbreviation K := (M (db D S R)).

(** [F c]: the connection [c] was just built and nothing was submitted to it. *)
Record stable (I : db D S R -> Prop) (F : nat -> db D S R -> Prop) : Prop := {
  st_submit c (p : op S) what dsp : p <> Connect -> keeps I (_submit c p what dsp);
  st_new w : I w -> I (new_connection w).2 /\ forall c w', new_connection w = (Ok c, w') -> F c w';
  st_connect c what dsp w : I w -> F c w -> I (_submit c Connect what dsp w).2;
  st_turn : keeps I next_turn;
  st_turns w l b : I w -> I (with_turns w l b);
  st_stop reason : keeps I (enter_fail_stop reason);
  st_unclosed w l : I w -> I (with_unclosed w l);
  st_handle w h : I w -> I (with_handle w h);
  st_counter w n : I w -> I (with_counter w n);
  st_published w x y : I w -> I (with_published w x y);
  st_late w l : I w -> I (with_late w l);
  st_unresolved w l : I w -> I (with_unresolved w l);
  st_shut w : I w -> I (with_shut w true (closed w)) /\ I (with_shut w false true);
  st_drop c w : I w -> I (on_conn c drop_wrapper w)
}.

Create HintDb kept.

Section Kept.
Context (I : db D S R -> Prop) (F : nat -> db D S R -> Prop) (HI : stable I F).

Ltac step :=
  match goal with
  | |- keeps _ (mret _) => apply keeps_ret
  | |- keeps _ (raise _) => apply keeps_raise
  | |- keeps _ (gets _) => apply keeps_gets
  | |- keeps _ (trying _) => apply keeps_trying
  | |- keeps _ (lift_res _) => apply keeps_lift_res
  | |- keeps _ (match ?x with _ => _ end) => destruct x
  | |- keeps _ (_ ≫= _) => apply keeps_bind; [|intros ?]
  | |- keeps _ (for_each _ _) => apply keeps_for_each; intros ?
  | |- keeps _ next_turn => apply HI
  | |- keeps _ (_submit _ _ _ _) => by apply HI
  | |- keeps _ (enter_fail_stop _) => apply HI
  end.
Ltac kept := repeat (step || (progress (cbv zeta)) || solve [auto 2 with kept]).

Lemma kept_unclosed c : keeps I (register_unclosed c).
Proof. intros w Hw. unfold register_unclosed, modify. destruct (existsb _ _); [done|]. by apply HI. Qed.
Hint Resolve kept_unclosed : kept.

Lemma kept_handle f : keeps I (on_handle f).
Proof. intros w Hw. by apply HI. Qed.

Lemma kept_number : keeps I fresh_number.
Proof. intros w Hw. by apply HI. Qed.

Lemma kept_waited t : keeps I (waited t).
Proof. intros w Hw. unfold waited, modify. destruct (t_cancelled t); [by apply HI|done]. Qed.

Lemma kept_state c : keeps I (_transaction_state c).
Proof. unfold _transaction_state. kept. intros w Hw. unfold modify. destruct (t_readable _); [done|by apply HI]. Qed.
Hint Resolve kept_handle kept_number kept_waited kept_state : kept.

Lemma kept_unsafe msg b i o : keeps I (unsafe msg b i o).
Proof. unfold unsafe. kept. Qed.

Lemma kept_settle o : keeps I (settle o).
Proof. unfold settle. kept. Qed.
Hint Resolve kept_unsafe kept_settle : kept.

Lemma kept_close c cur : keeps I (_close_cursor c cur).
Proof. unfold _close_cursor. kept. Qed.

Lemma kept_rollback c : keeps I (_rollback c).
Proof. unfold _rollback. kept. Qed.

Lemma kept_join c : keeps I (_join_worker c).
Proof. unfold _join_worker. kept. Qed.
Hint Resolve kept_close kept_rollback kept_join : kept.

Lemma kept_report r s1 s2 s3 s4 o : keeps I (report_ending r s1 s2 s3 s4 o).
Proof. unfold report_ending. kept. Qed.
Hint Resolve kept_report : kept.

Lemma kept_cleanup_each c l : forall o, keeps I (cleanup_each c l o).
Proof. induction l as [|cur l IH]; intros o; simpl; kept. Qed.
Hint Resolve kept_cleanup_each : kept.

Lemma kept_cleanup c o : keeps I (_cleanup_cursors c o).
Proof. unfold _cleanup_cursors. kept. Qed.

Lemma kept_force c i o : keeps I (_force_close_transaction c i o).
Proof. unfold _force_close_transaction. kept. Qed.
Hint Resolve kept_cleanup kept_force : kept.

Lemma kept_abort c : keeps I (_abort_transaction c).
Proof. unfold _abort_transaction. kept. Qed.

Lemma kept_commit c : keeps I (_commit_transaction c).
Proof.
  unfold _commit_transaction, commit_failed, commit_returned, raise_settled, raise_if_owed, fail_stop_now. kept.
Qed.
Hint Resolve kept_abort kept_commit : kept.

Lemma kept_abort_with {A} c e : keeps I (abort_with c e : K A).
Proof. unfold abort_with, _reclassify. kept. Qed.

Lemma kept_public {A} (m : K A) : keeps I m -> keeps I (publicly m).
Proof. intros Hm. unfold publicly, _raise_public. kept. Qed.

Lemma kept_release c cur : keeps I (_release c cur).
Proof. unfold _release. kept. Qed.
Hint Resolve kept_abort_with kept_public kept_release : kept.

Lemma kept_finish {A} c o cur (v : option A) : keeps I (_finish c o cur v).
Proof. unfold _finish, _raise_public. kept. Qed.
Hint Resolve kept_finish : kept.

Lemma kept_run c s what : keeps I (_run c s what).
Proof. unfold _run, _track. kept. Qed.

Lemma kept_check (h me : nat) : keeps I (_check h me).
Proof. unfold _check. kept. Qed.
Hint Resolve kept_run kept_check : kept.

Lemma kept_statement (h me : nat) s : keeps I (execute h me s) /\ keeps I (fetch_all h me s).
Proof. unfold execute, fetch_all, cursor_result. split; kept. Qed.

Lemma kept_body {A} h me (b : body S R A) : keeps I (run_body h me b).
Proof.
  induction b as [a|e|s k IH|s k IH]; simpl; [apply keeps_ret|apply keeps_raise|..]; (apply keeps_bind; [|exact IH]);
    [apply (proj1 (kept_statement h me s))|apply (proj2 (kept_statement h me s))].
Qed.

Lemma kept_begin c : keeps I (begin_transaction c).
Proof. unfold begin_transaction, _track. kept. Qed.

Lemma kept_close_into c label cur o : keeps I (close_into c label cur o).
Proof. unfold close_into. kept. Qed.
Hint Resolve kept_body kept_begin kept_close_into : kept.

Lemma kept_execute_fetch c (s : S) what what' : keeps I (execute_fetch c s what what').
Proof. unfold execute_fetch. kept. Qed.
Hint Resolve kept_execute_fetch : kept.

Lemma kept_run_statement c (s : S) what : keeps I (_run_statement c s what).
Proof. unfold _run_statement. kept. Qed.
Hint Resolve kept_run_statement : kept.

Lemma kept_pragmas c l : forall o, keeps I (set_pragmas c l o).
Proof. induction l as [|[[a r] p] l IH]; intros o; simpl; kept. Qed.
Hint Resolve kept_pragmas : kept.

Lemma kept_discard c what : keeps I (_discard_connection c what).
Proof. unfold _discard_connection. kept. Qed.

Lemma kept_verify c build : keeps I (verify c build).
Proof. unfold verify, _configure, shutting. kept. Qed.
Hint Resolve kept_discard kept_verify : kept.

Lemma kept_built {A} what dsp (k : nat -> answer R * option exn -> K A) : (forall c r, keeps I (k c r)) ->
  keeps I (c ← new_connection; r ← _submit c Connect what dsp; k c r).
Proof.
  intros Hk w Hw. unfold mbind, M_bind. destruct (st_new _ _ HI w Hw) as [Hn Hf].
  destruct (new_connection w) as [[c|e] w1]; [|done]. specialize (Hf c w1 eq_refl).
  pose proof (st_connect _ _ HI c what dsp w1 Hn Hf) as H1.
  destruct (_submit c Connect what dsp w1) as [[r|e] w2]; [by apply Hk|done].
Qed.

Lemma kept_open what : keeps I (_open_connection what).
Proof.
  unfold _open_connection, shutting. apply keeps_bind; [apply keeps_gets|]. intros [|]; [apply keeps_raise|].
  apply kept_built. intros c [a x]. kept.
Qed.
Hint Resolve kept_open : kept.

Lemma kept_connection b : keeps I (_acquire_connection b).
Proof.
  unfold _acquire_connection. apply kept_public. destruct b; [unfold _get_metric_db|unfold _get_conn, make_directory];
    unfold shutting, _abandon_unpublished; kept; intros w Hw; by apply HI.
Qed.

Lemma kept_gate : keeps I require_admission /\ keeps I acquire_lock.
Proof. unfold require_admission, acquire_lock. split; kept. Qed.

Lemma kept_write_transaction {A} me on_metric (b : body S R A) : keeps I (write_transaction me on_metric b).
Proof.
  destruct kept_gate as [Ha Hl]. apply kept_public. unfold _write_transaction. apply keeps_bind; [exact Ha|]. intros ?.
  apply keeps_bind; [exact Hl|]. intros ?. apply keeps_bind; [exact Ha|]. intros ?.
  apply keeps_bind; [apply kept_connection|]. intros c. apply keeps_bind; [|intros h; kept].
  unfold new_handle. kept. intros w Hw. by apply HI.
Qed.

Lemma kept_reads (s : S) : keeps I (_fetch_all s) /\ keeps I (_fetch_all_unrestricted s).
Proof.
  unfold _fetch_all, _fetch_all_unrestricted, _raise_public.
  assert (Hg := kept_gate). assert (Hc := kept_connection). destruct Hg as [Ha Hl].
  split; kept; solve [exact Ha|exact Hl|exact (Hc false)].
Qed.

(** ** Closing *)

Lemma kept_adjudicate : keeps I adjudicate_unresolved.
Proof. intros w Hw. unfold adjudicate_unresolved, modify. by apply HI, HI. Qed.

Lemma kept_joined c : keeps I (joined c).
Proof. unfold joined. kept. Qed.
Hint Resolve kept_adjudicate kept_joined : kept.

Lemma kept_dispose_one l : keeps I (dispose_one l).
Proof.
  unfold dispose_one. cbv zeta. apply keeps_bind; [apply keeps_trying, HI; unfold close_op; by destruct (l_disposal l)|].
  intros r. kept. intros w Hw. by apply HI.
Qed.
Hint Resolve kept_dispose_one : kept.

Lemma kept_dispose only : keeps I (_dispose_late_results only).
Proof.
  unfold _dispose_late_results. cbv zeta. apply keeps_bind; [apply keeps_gets|]. intros l.
  apply keeps_bind; [intros w Hw; by apply HI|]. intros ?. kept.
Qed.

Lemma kept_close_target name c : keeps I (close_target name c).
Proof. unfold close_target. kept. Qed.

Lemma kept_register c : keeps I (register_optional c).
Proof. unfold register_optional. kept. Qed.
Hint Resolve kept_dispose kept_close_target kept_register : kept.

Lemma kept_close_optional name c : keeps I (close_optional name c).
Proof. unfold close_optional. kept. Qed.
Hint Resolve kept_close_optional : kept.

Lemma kept_close_detached c1 c2 : keeps I (close_detached c1 c2).
Proof. unfold close_detached. kept. Qed.

Lemma kept_close_db timeout : keeps I (close_db timeout).
Proof.
  unfold close_db. apply keeps_finally; [|intros w Hw; by apply HI].
  apply keeps_bind; [intros w Hw; by apply HI|]. intros ?. kept; [|apply kept_close_detached]. intros w Hw. by apply HI.
Qed.
End Kept.
End Stable.

(** ** A connection whose thread is not running *)

Section Sound.
Context {D S R : Type} {E : Engine D S R}.
Implicit Types (w : db D S R) (k : conn D S R).
Abbreviation K := (M (db D S R)).

(** Nothing of SQLite is left behind it. *)
Definition closed_off k : Prop := tx k = None /\ cursors k = [] /\ opened k = false.

Definition no_connect (q : list (nat * op S * option fault)) : Prop := Forall (fun i => i.1.2 <> Connect) q.

(** Its thread runs, or it is closed off; a connect is only ever the first operation. *)
Definition sound_conn k : Prop :=
  no_connect (queue k) /\ (worker k = Running \/ closed_off k) \/
  worker k = Running /\ closed_off k /\ exists t f q, queue k = (t, Connect, f) :: q /\ no_connect q.

Definition sound w : Prop := forall c k, conns w !! c = Some k -> sound_conn k.

(** Just built. *)
Definition brand_new (c : nat) w : Prop := exists k, conns w !! c = Some k /\ closed_off k /\ queue k = [].

Lemma act_worker l o f k d n r k' d' n' : o <> Connect ->
  act l o f (k, d, n) = (r, (k', d', n')) -> worker k' = worker k \/ closed_off k'.
Proof. intros Ho Ha. destruct o; try done; run_act; simplify_eq; first [by left|by right]. Qed.

Lemma act_shut l o f k d n r k' d' n' : o <> Connect -> closed_off k ->
  act l o f (k, d, n) = (r, (k', d', n')) -> closed_off k' /\ d' = d.
Proof.
  intros Ho (Ht & Hc & Hop) Ha. destruct o; try done; unfold act, usable in Ha; rewrite Hop in Ha; simpl in Ha;
    repeat case_match; simplify_eq; unfold closed_off; simpl; rewrite ?Hc; done.
Qed.

Lemma act_connect l f k d n r k' d' n' : worker k = Running -> closed_off k ->
  act l Connect f (k, d, n) = (r, (k', d', n')) -> worker k' = Running \/ closed_off k'.
Proof.
  intros Hw (Ht & Hc & Hop) Ha. unfold act in Ha. simpl in Ha.
  destruct f as [[| | |]|]; simplify_eq; unfold closed_off; simpl; auto.
Qed.

Lemma is_connect (o : op S) : o = Connect \/ o <> Connect.
Proof. destruct o; auto; by right. Qed.

Lemma act_sound l o f k d n r k' d' n' :
  act l o f (k, d, n) = (r, (k', d', n')) -> (worker k = Running \/ closed_off k) ->
  (o = Connect -> worker k = Running /\ closed_off k) -> worker k' = Running \/ closed_off k'.
Proof.
  intros Ha Hk Hc. destruct (is_connect o) as [->|Ho].
  - destruct (Hc eq_refl) as [Hw Hcl]. by eapply act_connect.
  - destruct Hk as [Hw|Hcl]; [|right; by eapply act_shut].
    destruct (act_worker _ _ _ _ _ _ _ _ _ _ Ho Ha) as [->|?]; [by left|by right].
Qed.

Lemma sound_insert c k w f : sound w -> sound_conn k -> (forall v, conns (f v) = conns v) ->
  sound (f (with_conns w (<[c := k]> (conns w)))).
Proof.
  intros Hw Hk Hf c' k'. rewrite Hf. simpl. destruct (decide (c' = c)) as [->|Hn].
  - destruct (decide (c < length (conns w))%nat).
    + rewrite list_lookup_insert_eq by done. by intros [= <-].
    + rewrite list_insert_ge by lia. apply Hw.
  - rewrite list_lookup_insert_ne by done. apply Hw.
Qed.

Lemma sound_same w w' : conns w' = conns w -> sound w -> sound w'.
Proof. intros Hc Hw c k. rewrite Hc. apply Hw. Qed.

Lemma no_connect_tail k : sound_conn k -> no_connect (tail (queue k)).
Proof.
  intros [[Hn _]|(_ & _ & t & f & q & -> & Hq)]; [|done]. destruct (queue k); [done|]. by inversion Hn.
Qed.

(** Running what is first in the queue, or an operation that was just handed over. *)
Lemma perform_sound c o f w k : conns w !! c = Some k -> no_connect (queue k) -> (worker k = Running \/ closed_off k) ->
  (o = Connect -> worker k = Running /\ closed_off k) -> sound w -> sound (perform c o f w).2.
Proof.
  intros Hk Hn Hw Hc Hs. unfold perform. rewrite Hk. destruct (act _ o f _) as [r [[k' d'] n']] eqn:Ha. simpl.
  apply (sound_insert c k' w (fun v => with_counter (with_disk v d') n')); [done| |done]. left.
  rewrite (act_queue _ _ _ _ _ _ _ _ _ _ Ha). split; [done|]. by eapply act_sound.
Qed.

Lemma run_next_sound w c : sound w -> sound (run_next w c).
Proof.
  intros Hs. unfold run_next. destruct (conns w !! c) as [k|] eqn:Hk; [|done]. pose proof (Hs c k Hk) as Hsk.
  destruct (queue k) as [|[[t o] f] q] eqn:Hq; [done|].
  assert (Hq' : no_connect q) by (pose proof (no_connect_tail k Hsk) as H; by rewrite Hq in H).
  assert (Hw : worker k = Running \/ closed_off k) by (destruct Hsk as [[_ ?]|(? & _)]; auto).
  assert (Ho : o = Connect -> worker k = Running /\ closed_off k).
  { intros ->. destruct Hsk as [[Hn _]|(? & ? & _)]; [|done]. rewrite Hq in Hn. by inversion Hn. }
  assert (Hp : sound (perform c o f (on_conn c (set_queue q) w)).2).
  { apply perform_sound with (k := set_queue q k).
    - unfold on_conn. simpl. rewrite (alter_at _ _ _ k) by done. apply list_lookup_insert_eq. by eapply lookup_lt_Some.
    - done.
    - done.
    - done.
    - unfold on_conn. rewrite (alter_at _ _ _ k) by done. apply (sound_insert c _ w id); [done| |done]. left. by split. }
  destruct (perform c o f (on_conn c (set_queue q) w)) as [r w']. by eapply sound_same; [|exact Hp].
Qed.

Lemma runs_sound l w : sound w -> sound (fold_left run_next l w).
Proof. revert w. induction l as [|c l IH]; intros w Hw; [done|]. by apply IH, run_next_sound. Qed.

Lemma drain_sound c w : sound w -> sound (drain c w).
Proof.
  intros Hw. unfold drain. destruct (conns w !! c); [|done]. induction (length _) as [|n IH]; [done|]. simpl. by apply run_next_sound.
Qed.

(** What leaves the thread and what it has to do alone. *)
Lemma sound_alter c f w : (forall k, sound_conn k -> sound_conn (f k)) -> sound w -> sound (on_conn c f w).
Proof.
  intros Hf Hw. unfold on_conn. destruct (conns w !! c) as [k|] eqn:Hk; [|by rewrite alter_none].
  rewrite (alter_at _ _ _ k) by done. apply (sound_insert c _ w id); [done|by apply Hf, Hw with c|done].
Qed.

Lemma exits_sound w : sound w -> sound (with_conns w (exits <$> conns w)).
Proof.
  intros Hw c k. simpl. rewrite list_lookup_fmap, fmap_Some. intros (k0 & Hk & ->). specialize (Hw c k0 Hk).
  unfold exits. destruct (worker k0) eqn:E0; try done.
  destruct Hw as [[Hn [Hr|Hc]]|(Hr & _)]; [congruence| |congruence]. left. split; [done|]. by right.
Qed.

Lemma turn_sound : keeps sound (next_turn : K turn).
Proof.
  intros w Hw. unfold next_turn. cbv zeta. cbn [snd]. apply runs_sound.
  set (w1 := with_turns w (tail (turns w)) (interrupted w)). assert (H1 : sound w1) by done. clearbody w1.
  set (w2 := if t_closing _ then with_shut w1 true (closed w1) else w1).
  assert (H2 : sound w2) by (unfold w2; destruct (t_closing _); exact H1). clearbody w2.
  destruct (t_exits _); [by apply exits_sound|done].
Qed.

Definition submittable (c : nat) (o : op S) w : Prop :=
  o <> Connect \/ exists k, conns w !! c = Some k /\ worker k = Running /\ closed_off k /\ queue k = [].

Lemma enqueue_sound c o t f w : submittable c o w -> sound w -> sound (on_conn c (fun k => set_queue (queue k ++ [(t, o, f)]) k) w).
Proof.
  intros Ho Hw. unfold on_conn. destruct (conns w !! c) as [k|] eqn:Hk; [|by rewrite alter_none].
  rewrite (alter_at _ _ _ k) by done. apply (sound_insert c _ w id); [done| |done].
  destruct (is_connect o) as [->|Hn].
  - destruct Ho as [?|(k0 & Hk0 & Hr & Hc & Hq)]; [done|]. assert (k0 = k) as -> by congruence.
    right. split; [done|]. split; [done|]. exists t, f, []. simpl. rewrite Hq. split; [done|constructor].
  - pose proof (Hw c k Hk) as Hs. assert (Hone : no_connect [(t, o, f)]) by (by repeat constructor).
    destruct Hs as [[Hq Hs]|(Hr & Hc & t' & f' & q & Hq & Hs)].
    + left. split; [by apply Forall_app|done].
    + right. split; [done|]. split; [done|]. exists t', f', (q ++ [(t, o, f)]). simpl. rewrite Hq. split; [done|by apply Forall_app].
Qed.

Lemma perform_drained_sound c o f w : submittable c o w -> sound w -> sound (perform c o f (drain c w)).2.
Proof.
  intros Ho Hw. pose proof (drain_sound c w Hw) as Hd.
  destruct (conns (drain c w) !! c) as [k|] eqn:Hk; [|unfold perform; by rewrite Hk].
  pose proof (drained c w k Hk) as Hq. pose proof (Hd c k Hk) as Hs.
  assert (Hst : worker k = Running \/ closed_off k).
  { destruct Hs as [[_ ?]|(? & _)]; auto. }
  apply perform_sound with (k := k); [done|rewrite Hq; constructor|done| |done].
  intros ->. destruct Ho as [?|(k0 & Hk0 & Hr & Hc & Hq0)]; [done|].
  assert (Hsame : drain c w = w) by (unfold drain; by rewrite Hk0, Hq0). rewrite Hsame in Hk. by assert (k0 = k) as <- by congruence.
Qed.

(** ** Submitting *)

(** A connection that waits for its connect. *)
Definition connecting (c : nat) w : Prop := exists k, conns w !! c = Some k /\ worker k = Running /\ closed_off k /\ queue k = [].

Lemma run_next_other w c c' : c' <> c -> conns (run_next w c') !! c = conns w !! c.
Proof.
  intros Hn. unfold run_next. destruct (conns w !! c') as [k|] eqn:Hk; [|done]. destruct (queue k) as [|[[t o] f] q]; [done|].
  unfold perform. destruct (conns (on_conn c' _ w) !! c') as [k1|] eqn:E1.
  - destruct (act _ o f _) as [r [[k' d'] n']]. simpl. rewrite list_lookup_insert_ne by done. unfold on_conn. simpl.
    by rewrite list_lookup_alter_ne.
  - unfold on_conn. simpl. by rewrite list_lookup_alter_ne.
Qed.

Lemma run_next_connecting c c' w : connecting c w -> connecting c (run_next w c').
Proof.
  intros (k & Hk & Hr & Hc & Hq). destruct (decide (c' = c)) as [->|Hn].
  - rewrite run_next_idle; [by exists k|]. intros k' Hk'. by assert (k' = k) as -> by congruence.
  - exists k. by rewrite run_next_other.
Qed.

Lemma turn_connecting c : keeps (connecting c) (next_turn : K turn).
Proof.
  intros w Hw. unfold next_turn. cbv zeta. cbn [snd].
  assert (Hl : forall l v, connecting c v -> connecting c (fold_left run_next l v)).
  { induction l as [|c' l IH]; intros v Hv; [done|]. by apply IH, run_next_connecting. }
  apply Hl. set (w1 := with_turns w (tail (turns w)) (interrupted w)). assert (H1 : connecting c w1) by done. clearbody w1.
  set (w2 := if t_closing _ then with_shut w1 true (closed w1) else w1).
  assert (H2 : connecting c w2) by (unfold w2; destruct (t_closing _); exact H1). clearbody w2.
  destruct (t_exits _); [|done]. destruct H2 as (k & Hk & Hr & Hc). exists k. simpl. rewrite list_lookup_fmap, Hk.
  unfold exits. simpl. by rewrite Hr.
Qed.

Definition ready_to c (o : op S) w : Prop := sound w /\ submittable c o w.

Lemma turn_ready c o : keeps (ready_to c o) (next_turn : K turn).
Proof.
  intros w [Hs Ho]. split; [by apply turn_sound|]. destruct Ho as [Ho|Hc]; [by left|right]. by apply turn_connecting.
Qed.

Lemma lost_sound c id o what dsp f en b : en <> Answered ->
  forall w, ready_to c o w -> sound (
    (_ ← modify (on_conn c (fun k => set_queue (queue k ++ [(id, o, f)]) k));
     _ ← (match en with
          | Dropped => modify (fun w => with_tasks w (alter (fun _ => TaskCancelled) id (tasks w)))
          | _ => mret tt end);
     _ ← _register_unresolved what id dsp c;
     raise (match en with Dropped => ChildCancelled what b | _ => OutcomeUnknown what b end) : K (answer R * option exn)) w).2.
Proof.
  intros Hen w [Hs Ho]. pose proof (enqueue_sound c o id f w Ho Hs) as H. destruct en; [done|..]; by eapply sound_same; [|exact H].
Qed.

Lemma submit_sound c o what dsp : o <> Connect -> keeps sound (_submit c o what dsp).
Proof.
  intros Ho. unfold _submit. apply keeps_bind; [by intros w|]. intros id. apply keeps_bind; [by destruct o; intros w|]. intros _.
  apply keeps_bind; [apply turn_sound|]. intros t.
  apply keeps_bind; [intros w Hw; unfold waited, modify; by destruct (t_cancelled t)|]. intros _.
  destruct (t_ending t).
  - intros w Hw. cbv [mbind M_bind run_pure modify].
    pose proof (perform_drained_sound c o (t_fault t) w (or_introl Ho) Hw) as Hp.
    destruct (perform c o (t_fault t) (drain c w)) as [[a|e] w']; exact Hp.
  - intros w Hw. apply (lost_sound c id o what dsp (t_fault t) Unanswered (t_cancelled t)); [done|]. split; [done|by left].
  - intros w Hw. apply (lost_sound c id o what dsp (t_fault t) Dropped (t_cancelled t)); [done|]. split; [done|by left].
Qed.

(** What a run leads to, however it ends. *)
Definition leads {A} (P : db D S R -> Prop) (m : K A) (Q : db D S R -> Prop) : Prop := forall w, P w -> Q (m w).2.

Lemma leads_bind {A B} (P P' Q : db D S R -> Prop) (m : K A) (k : A -> K B) : (forall w, P' w -> Q w) ->
  leads P m P' -> (forall a, leads P' (k a) Q) -> leads P (m ≫= k) Q.
Proof.
  intros HQ Hm Hk w Hw. specialize (Hm w Hw). unfold mbind, M_bind. destruct (m w) as [[a|e] w']; [by apply Hk|by apply HQ].
Qed.

Lemma connect_sound c what dsp : leads (fun w => sound w /\ brand_new c w) (_submit c Connect what dsp) sound.
Proof.
  assert (Hr : forall w, ready_to c Connect w -> sound w) by (intros w []; done).
  unfold _submit. eapply leads_bind with (P' := fun w => sound w /\ brand_new c w); [by intros w []|by intros w|]. intros id.
  eapply leads_bind with (P' := ready_to c Connect); [exact Hr| |].
  { intros w [Hs (k & Hk & Hc & Hq)]. unfold start_worker, modify. split.
    - apply sound_alter; [|done]. intros k0 [[Hn _]|(_ & H)]; [left; split; [done|by left]|right; by split].
    - right. exists (set_worker Running k). split_and!; [|done..]. unfold on_conn. simpl. rewrite (alter_at _ _ _ k) by done.
      apply list_lookup_insert_eq. by eapply lookup_lt_Some. }
  intros _. eapply leads_bind; [exact Hr|apply turn_ready|]. intros t.
  eapply leads_bind with (P' := ready_to c Connect); [exact Hr| |].
  { intros w Hw. unfold waited, modify. by destruct (t_cancelled t). }
  intros _. destruct (t_ending t).
  - intros w [Hs Ho]. cbv [mbind M_bind run_pure modify].
    pose proof (perform_drained_sound c Connect (t_fault t) w Ho Hs) as Hp.
    destruct (perform c Connect (t_fault t) (drain c w)) as [[a|e] w']; exact Hp.
  - intros w Hw. by apply (lost_sound c id Connect what dsp (t_fault t) Unanswered (t_cancelled t)).
  - intros w Hw. by apply (lost_sound c id Connect what dsp (t_fault t) Dropped (t_cancelled t)).
Qed.

Lemma built_sound w : sound w -> sound (new_connection w).2 /\ forall c w', new_connection w = (Ok c, w') -> brand_new c w'.
Proof.
  intros Hw. split.
  - intros c k. simpl. intros Hk. apply lookup_app_Some in Hk as [Hk|[_ Hk]]; [by apply (Hw c)|].
    apply list_lookup_singleton_Some in Hk as [_ <-]. left. split; [constructor|right]. by split_and!.
  - intros c w' [= <- <-]. exists (Conn None [] [] false Unstarted). simpl. rewrite lookup_app_r, Nat.sub_diag by lia. by split_and!.
Qed.

Lemma drop_sound k : sound_conn k -> sound_conn (drop_wrapper k).
Proof.
  intros [[Hn [Hr|(Ht & Hc & _)]]|(Hr & (Ht & Hc & _) & Hq)]; [left; split; [done|by left]|left; split; [done|right; by split_and!]|right; by split_and!].
Qed.

(** However an operation ends, every connection whose thread is gone is closed off. *)
Lemma sound_stable : stable sound brand_new.
Proof.
  split; try (by intros; eapply sound_same; [|eassumption]); try (by intros ? w Hw).
  - apply submit_sound.
  - apply built_sound.
  - intros c what dsp w Hs Hb. by apply connect_sound.
  - apply turn_sound.
  - intros w Hw. split; by eapply sound_same; [|exact Hw].
  - intros c w. apply sound_alter, drop_sound.
Qed.
End Sound.

(** ** The latch *)

Section Latch.
Context {D S R : Type} {E : Engine D S R}.
Implicit Types (w : db D S R).
Abbreviation K := (M (db D S R)).

Lemma run_next_reason w c : fail_stop (run_next w c) = fail_stop w.
Proof.
  unfold run_next. destruct (conns w !! c) as [k|]; [|done]. destruct (queue k) as [|[[t p] f] q]; [done|].
  unfold perform. destruct (conns _ !! c) as [k'|]; [|done]. by destruct (act _ _ _ _) as [r [[? ?] ?]].
Qed.

Lemma turn_reason w : fail_stop (next_turn w).2 = fail_stop w.
Proof.
  unfold next_turn. cbv zeta. cbn [snd].
  assert (H : forall l v, fail_stop (fold_left run_next l v) = fail_stop v).
  { induction l as [|c l IH]; intros v; [done|]. simpl. by rewrite IH, run_next_reason. }
  rewrite H. by destruct (t_exits _), (t_closing _).
Qed.

Lemma perform_reason c (p : op S) f w : fail_stop (perform c p f (drain c w)).2 = fail_stop w.
Proof.
  assert (H : fail_stop (drain c w) = fail_stop w).
  { unfold drain. destruct (conns w !! c) as [k|]; [|done]. induction (length (queue k)) as [|n IH]; [done|].
    simpl. by rewrite run_next_reason. }
  rewrite <- H. unfold perform. destruct (conns (drain c w) !! c); [|done]. by destruct (act _ _ _ _) as [r [[? ?] ?]].
Qed.

Lemma submit_reason r c (p : op S) what dsp : keeps (fun w => fail_stop w = Some r) (_submit c p what dsp).
Proof.
  unfold _submit. apply keeps_bind; [by intros w|]. intros id. apply keeps_bind; [by intros w; destruct p|].
  intros _. apply keeps_bind; [intros w Hw; by rewrite turn_reason|]. intros tn.
  apply keeps_bind; [intros w Hw; unfold waited, modify; by destruct (t_cancelled tn)|]. intros _.
  destruct (t_ending tn); intros w Hw; [|simpl; by rewrite Hw..].
  cbv [mbind M_bind run_pure modify]. pose proof (perform_reason c p (t_fault tn) w) as Hp.
  destruct (perform c p (t_fault tn) (drain c w)) as [[a|e] v]; simpl in *; by rewrite Hp.
Qed.

(** The latch keeps its first reason through every operation. *)
Lemma latch_stable r : stable (fun w => fail_stop w = Some r) (fun _ _ => True).
Proof.
  split; try done.
  - intros c p what dsp _. apply submit_reason.
  - intros c what dsp w Hw _. by apply submit_reason.
  - intros w Hw. by rewrite turn_reason.
  - intros reason w Hw. cbn. by rewrite Hw.
Qed.
End Latch.

(** ** The whole life of a process *)

Section Life.
Context {D S R A : Type} {E : Engine D S R}.
Implicit Types (w : db D S R) (k : conn D S R).
Abbreviation K := (M (db D S R)).

Inductive operation :=
| OpWrite (me : nat) (on_metric : bool) (b : body S R A)
| OpRead (s : S)
| OpReadUnrestricted (s : S)
| OpClose (timeout : string).

Definition run_operation (o : operation) w : db D S R :=
  match o with
  | OpWrite me on_metric b => (write_transaction me on_metric b w).2
  | OpRead s => (_fetch_all s w).2
  | OpReadUnrestricted s => (_fetch_all_unrestricted s w).2
  | OpClose timeout => (close_db timeout w).2
  end.

(** A process that built no connection yet, its operations one after the other, and its
    workers at any time. *)
Inductive reachable : db D S R -> Prop :=
| reach_start w : conns w = [] -> reachable w
| reach_operation w o : reachable w -> reachable (run_operation o w)
| reach_worker w c : reachable w -> reachable (run_next w c).

Lemma kept_operation I F o : stable I F -> forall w, I w -> I (run_operation o w).
Proof.
  intros HI w Hw. destruct o as [me m b|s|s|timeout]; simpl.
  - by apply (kept_write_transaction I F HI).
  - by apply (proj1 (kept_reads I F HI s)).
  - by apply (proj2 (kept_reads I F HI s)).
  - by apply (kept_close_db I F HI).
Qed.

Lemma reachable_sound w : reachable w -> sound w.
Proof.
  induction 1 as [w Hw|w o _ IH|w c _ IH].
  - intros c k. by rewrite Hw.
  - by apply (kept_operation sound brand_new o sound_stable).
  - by apply run_next_sound.
Qed.

(** Nothing of SQLite is left, and nothing that is queued can bring it back. *)
Definition dead w : Prop := forall c k, conns w !! c = Some k -> closed_off k /\ no_connect (queue k).

Lemma dead_next w c : dead w -> dead (run_next w c) /\ disk (run_next w c) = disk w.
Proof.
  intros Hw. unfold run_next. destruct (conns w !! c) as [k|] eqn:Hk; [|done]. destruct (Hw c k Hk) as [Hc Hn].
  destruct (queue k) as [|[[t o] f] q] eqn:Hq; [done|]. inversion Hn as [|? ? Ho Hn']; subst. simpl in Ho.
  unfold perform, on_conn. simpl. rewrite (alter_at _ _ _ k) by done.
  rewrite list_lookup_insert_eq by (by eapply lookup_lt_Some).
  destruct (act _ o f _) as [r [[k' d'] n']] eqn:Ha. pose proof (act_queue _ _ _ _ _ _ _ _ _ _ Ha) as Eq.
  destruct (act_shut _ _ _ _ _ _ _ _ _ _ Ho (Hc : closed_off (set_queue q k)) Ha) as [Hc' ->]. split; [|done].
  intros c' k0. simpl. rewrite list_insert_insert_eq. destruct (decide (c' = c)) as [->|Hne].
  - rewrite list_lookup_insert_eq by (by eapply lookup_lt_Some). intros [= <-]. split; [done|]. by rewrite Eq.
  - rewrite list_lookup_insert_ne by done. apply Hw.
Qed.

Lemma dead_forever l w : dead w -> disk (fold_left run_next l w) = disk w.
Proof.
  revert w. induction l as [|c l IH]; intros w Hw; [done|]. simpl. destruct (dead_next w c Hw) as [Hd Hs]. by rewrite IH.
Qed.

Lemma not_alive_dead w : sound w -> stragglers w = [] -> dead w.
Proof.
  intros Hs Ha c k Hk. specialize (Hs c k Hk).
  assert (Hw : worker k <> Running).
  { intros Hr. assert (Hin : In c (stragglers w)).
    { unfold stragglers. apply filter_In. split; [|unfold _worker_alive; rewrite Hk; simpl; by rewrite Hr].
      apply in_seq. apply lookup_lt_Some in Hk. lia. }
    by rewrite Ha in Hin. }
  destruct Hs as [[Hn [?|Hc]]|(? & _)]; [done|by split|done].
Qed.

(** What the verdict was given on. *)
Lemma closed_detached c1 c2 w w' : close_detached c1 c2 w = (Ok CLOSED, w') -> stragglers w' = [] /\ accounted w' = true.
Proof.
  unfold close_detached. intros H. run_ok.
  repeat match goal with
  | H : (match ?x with _ => _ end) _ = (Ok _, _) |- _ => destruct x eqn:?; run_ok; try done
  end.
  split; [done|]. by apply negb_false_iff.
Qed.

(** Afterwards the database refuses every operation. *)
Lemma closed_refuses w : closed w = true -> exists reason, (require_admission w : res unit * db D S R) = (Raise (DatabaseFailStop reason), w).
Proof.
  intros Hc. unfold require_admission. cbv [mbind M_bind gets lift_res]. unfold _require_admission. simpl.
  destruct (fail_stop w) as [r|]; [by exists r|]. rewrite Hc. by eexists.
Qed.

Lemma close_db_runs timeout w w' : close_db timeout w = (Ok CLOSED, w') ->
  closed w' = true /\ closing w' = false /\ stragglers w' = [] /\ accounted w' = true.
Proof.
  unfold close_db. intros H. apply finally_ok in H as (w1 & H1 & H2). injection H2 as <-.
  assert (Hc : stragglers w1 = [] /\ accounted w1 = true); [|by split_and!; try apply Hc].
  run_ok. repeat match goal with
  | H : (if ?x then _ else _) _ = (Ok _, _) |- _ => destruct x; run_ok; try done
  | H : (match ?x with _ => _ end) _ = (Ok _, _) |- _ => destruct x; run_ok; try done
  end. by eapply closed_detached.
Qed.

Lemma closed_is_dead timeout w w' : reachable w -> close_db timeout w = (Ok CLOSED, w') -> dead w'.
Proof.
  intros Hr Hc. apply not_alive_dead; [|by eapply close_db_runs].
  pose proof (kept_close_db sound brand_new sound_stable timeout w (reachable_sound w Hr)) as H. by rewrite Hc in H.
Qed.

(** C15: when close_db reports CLOSED, at any point of any life of the process, no
    connection it ever built has a transaction, a cursor or a handle left, no thread runs,
    nothing is unaccounted for, nothing that is still queued can change the file, and
    every operation is refused. *)
Theorem closed_is_final timeout w w' : reachable w -> close_db timeout w = (Ok CLOSED, w') ->
  (forall c k, conns w' !! c = Some k -> tx k = None /\ cursors k = [] /\ opened k = false /\ _worker_alive c w' = false) /\
  (unresolved_ w' = [] /\ unclosed_ w' = [] /\ late_ w' = []) /\
  (forall late, disk (fold_left run_next late w') = disk w') /\
  (forall me on_metric (b : body S R A), exists r, write_transaction me on_metric b w' = (Raise (DatabaseFailStop r), w')).
Proof.
  intros Hr Hc. pose proof (closed_is_dead timeout w w' Hr Hc) as Hd.
  destruct (close_db_runs timeout w w' Hc) as (Hcl & _ & Ha & Hac). split_and!.
  - intros c k Hk. destruct (Hd c k Hk) as [(? & ? & ?) _]. split_and!; try done.
    apply not_true_is_false. intros Hl. assert (Hin : In c (stragglers w')); [|by rewrite Ha in Hin].
    apply filter_In. split; [|done]. apply in_seq. apply lookup_lt_Some in Hk. lia.
  - unfold accounted in Hac. by destruct (unresolved_ w').
  - unfold accounted in Hac. by destruct (unresolved_ w'), (unclosed_ w').
  - unfold accounted in Hac. by destruct (unresolved_ w'), (unclosed_ w'), (late_ w').
  - intros late. by apply dead_forever.
  - intros me m b. destruct (closed_refuses w' Hcl) as [r Hq]. exists r.
    unfold write_transaction, publicly, trying, _write_transaction. cbv [mbind M_bind]. by rewrite Hq.
Qed.

(** C25: the fail-stop latch keeps its first reason through every operation, closing
    included, and every worker that still runs, and refuses every transaction with it. *)
Theorem latch_for_good r w (l : list (operation + nat)) : fail_stop w = Some r ->
  let w' := fold_left (fun w x => match x with inl o => run_operation o w | inr c => run_next w c end) l w in
  fail_stop w' = Some r /\
  forall me on_metric (b : body S R A), write_transaction me on_metric b w' = (Raise (DatabaseFailStop r), w').
Proof.
  intros Hw. cbv zeta. revert w Hw. induction l as [|[o|c] l IH]; intros w Hw; simpl.
  - split; [done|]. intros me m b. unfold write_transaction, publicly, trying, _write_transaction, require_admission.
    cbv [mbind M_bind gets lift_res]. unfold _require_admission. simpl. by rewrite Hw.
  - apply IH. by apply (kept_operation _ _ o (latch_stable r)).
  - apply IH. by rewrite run_next_reason.
Qed.
End Life.
