(* ===== verification/BoundarySample.v ===== *)
(** * A small database, and what the boundary does with it

    An engine whose content is a list of numbers, schedules that succeed, fail and cancel,
    and the theorems of the boundary at these inputs. *)
From S2P Require Import Prelude Py Effects PyOps PyVals DbCore Worker Boundary WorkerFacts BoundarySteps BoundarySafety BoundaryBody BoundaryConn Transactions BoundaryCalm BoundaryCancel Shutdown Lifetimes.
Open Scope Z_scope.

(** ** The engine *)

Inductive sql := Put (n : Z) | Count | Broken | Text (s : string).

(** What a pragma that is read back answers. *)
Definition pragma (s : string) : list pyval :=
  if String.eqb s "PRAGMA journal_mode" then [VStr "wal"]
  else if String.eqb s "PRAGMA busy_timeout" then [VInt 5000]
  else if String.eqb s "PRAGMA foreign_keys" then [VInt 1]
  else [].

#[export] Instance sql_engine : Engine (list Z) sql (list pyval) := {|
  exec s d :=
    match s with
    | Put n => (Ok [VInt n], d ++ [n])
    | Count => (Ok [VInt (Z.of_nat (length d))], d)
    | Broken => (Raise (SqliteError "IntegrityError"), d)
    | Text s => (Ok (pragma s), d)
    end;
  writes s := match s with Put _ | Broken => true | _ => false end;
  statement := Text;
  text s :=
    match s with
    | Put _ => "INSERT INTO numbers VALUES (?)"
    | Count => "SELECT COUNT(*) FROM numbers"
    | Broken => "INSERT INTO absent VALUES (1)"
    | Text s => s
    end%string;
  first_value := head;
  in_memory := false;
  repr _ := "error"%string;
  repr_value _ := "value"%string
|}.

#[export] Instance sql_laws : EngineLaws.
Proof.
  split.
  - intros [n| | |s] d e d'; simpl; by intros [= <- <-].
  - by intros [n| | |s] d H; [vm_compute in H|..|vm_compute in H|].
  - done.
Qed.

(** What the read helper takes, and what it refuses. *)
Example guard_takes :
  (fun s => match _require_read_only s with Ok _ => true | Raise _ => false end) <$>
    ["select 1"; " with t as (select 1) select * from t"; "SELECT created_at, updates FROM t";
     "INSERT INTO t VALUES (1) RETURNING id"; "WITH t AS (SELECT 1) delete from u"; "PRAGMA user_version"; ""]%string
  = [true; true; true; false; false; false; false].
Proof. vm_compute. reflexivity. Qed.

Definition world := db (list Z) sql (list pyval).

(** A process that has just started, and its schedule. *)
Definition start (d : list Z) (ts : list turn) : world :=
  Db d [] [] 0 None None None false false [] [] [] [] (Handle 0 0 0 [] true) ts false.

Lemma start_quiet d ts : quiet d (Handle 0 0 0 [] true, None, None) (start d ts).
Proof. split; try done. by intros c [?|?]. Qed.

(** Two numbers, and how many there are. *)
Definition two : body sql (list pyval) (list pyval) := Run (Put 1) (fun _ => Run (Put 2) (fun _ => Query Count Ret)).
Definition broken : body sql (list pyval) (list pyval) := Run (Put 3) (fun _ => Run Broken Ret).

Definition result {A} (m : M world A) (w : world) : res A * list Z * option string :=
  let '(r, w') := m w in (r, disk w', fail_stop w').

(** ** Runs *)

Example two_runs : result (write_transaction 7 false two) (start [9] []) = (Ok [VInt 3], [9; 1; 2], None).
Proof. vm_compute. reflexivity. Qed.

Example broken_runs : result (write_transaction 7 false broken) (start [9] []) = (Raise (SqliteError "IntegrityError"), [9], None).
Proof. vm_compute. reflexivity. Qed.

(** The schedule up to the commit of [two] in a process that has no connection yet. *)
Definition before_commit : nat := 30.

Definition commit_turn (t : turn) : world := start [9] (repeat calm before_commit ++ [t]).

(** The commit is done, and the caller is cancelled meanwhile. *)
Definition cancelled_turn : turn := Turn [] true true false true Answered None.
(** ... is done, and its answer is lost. *)
Definition lost_turn : turn := Turn [] true true false false Answered (Some (FailsAfter (DriverError "OperationalError"))).
(** ... is never answered. *)
Definition unanswered_turn : turn := Turn [] true true false false Unanswered None.

Example cancelled_commit : result (write_transaction 7 false two) (commit_turn cancelled_turn) = (Raise CancelledError, [9; 1; 2], None).
Proof. vm_compute. reflexivity. Qed.

Example lost_commit : result (write_transaction 7 false two) (commit_turn lost_turn) =
  (Raise (DatabaseFailStop "database is restart-required: commit response lost after a durable COMMIT (error)"), [9; 1; 2],
   Some "database is restart-required: commit response lost after a durable COMMIT (error)"%string).
Proof. vm_compute. reflexivity. Qed.

Example unanswered_commit : result (write_transaction 7 false two) (commit_turn unanswered_turn) =
  (Raise (DatabaseFailStop "database is restart-required: commit outcome unknown (commit)"), [9],
   Some "database is restart-required: commit: worker outcome unresolved"%string).
Proof. vm_compute. reflexivity. Qed.

(** ** The theorems at these inputs *)

(** The commit that is never answered may still land. *)
Lemma transaction_all_or_nothing_witness :
  quiet [9] (Handle 0 0 0 [] true, None, None) (commit_turn unanswered_turn) /\
  forall late, let x := disk (fold_left run_next late (write_transaction 7 false two (commit_turn unanswered_turn)).2) in
    x = [9] \/ x = [9; 1; 2].
Proof.
  assert (Hq : quiet [9] (Handle 0 0 0 [] true, None, None) (commit_turn unanswered_turn)) by apply start_quiet.
  pose proof unanswered_commit as Hr. split; [exact Hq|]. revert Hq Hr. generalize (commit_turn unanswered_turn) as w.
  intros w Hq Hr late. unfold result in Hr.
  pose proof (transaction_all_or_nothing [9] _ 7 false two w Hq) as H.
  assert (Hs : transaction (fun _ => healthy) (denote two) [9] = (Ok [VInt 3], [9; 1; 2])) by reflexivity. rewrite Hs in H.
  destruct (write_transaction 7 false two w) as [[a|e] w']; [done|]. injection Hr as He Hd Hf.
  destruct H as [(fr & Hq' & _)|[_ H]]; [|exact (H late)].
  destruct (qt_clean _ _ _ Hq') as [Hn _]. by rewrite Hf in Hn.
Defined.

(** One that was cancelled at its commit, and one that returns. *)
Lemma history_serial_witness :
  quiet [9] (Handle 0 0 0 [] true, None, None) (commit_turn cancelled_turn) /\
  let '(rs, w') := history [(7%nat, false, two); (8%nat, true, two)] (commit_turn cancelled_turn) in
  explains [9] (zip [two; two] rs) (disk (fold_left run_next [0; 1]%nat w')).
Proof.
  assert (Hq : quiet [9] (Handle 0 0 0 [] true, None, None) (commit_turn cancelled_turn)) by apply start_quiet.
  split; [exact Hq|]. revert Hq. generalize (commit_turn cancelled_turn) as w. intros w Hq.
  exact (history_serial [(7%nat, false, two); (8%nat, true, two)] [9] _ w [0; 1]%nat Hq).
Defined.

(** A connection that is published and open. *)
Definition published : world :=
  Db [9] [Conn None [] [] true Running] [] 0 (Some 0%nat) None None false false [] [] [] [] (Handle 0 0 0 [] true) [] false.

Lemma published_quiet : quiet [9] (Handle 0 0 0 [] true, Some 0%nat, None) published.
Proof. split; try done; [by intros [|c] k [= <-]|]. intros c [[= <-]|?]; [by eexists|done]. Qed.

Lemma write_transaction_exact_witness :
  quiet [9] (Handle 0 0 0 [] true, Some 0%nat, None) published /\ turns published = [] /\
  (write_transaction 7 false broken published).1 = Raise (SqliteError "IntegrityError").
Proof.
  split; [apply published_quiet|]. split; [done|].
  assert (Ho : forall k, conns published !! 0%nat = Some k -> opened k = true) by (by intros k [= <-]).
  assert (H1 : turns published = [] /\ closing published = false /\ closed published = false /\ shared published = Some 0%nat) by done.
  pose proof published_quiet as Hq. revert Ho H1 Hq. generalize published as w. intros w Ho (H1 & H2 & H3 & H4) Hq.
  assert (Hp : forall e v, denote broken [9] = (Raise e, v) -> _is_private e = false) by (by intros e v [= <- <-]).
  pose proof (write_transaction_exact [9] _ 0 7 false broken w Hq H1 H2 H3 H4 Ho Hp) as H.
  destruct (write_transaction 7 false broken w) as [r w']. destruct H as [[= -> _] _]. done.
Defined.

Lemma read_exact_witness :
  quiet [9] (Handle 0 0 0 [] true, Some 0%nat, None) published /\
  match _fetch_all Count published with
  | (Ok x, w') => (exists fr', quiet [9] fr' w') /\ exists rows, x = Some rows /\ exec Count [9] = (Ok rows, [9])
  | (Raise _, w') =>
      (exists fr', quiet [9] fr' w') \/ fail_stop w' <> None /\ forall late, disk (fold_left run_next late w') = [9]
  end.
Proof.
  pose proof published_quiet as Hq. split; [exact Hq|]. revert Hq. generalize published as w. intros w Hq.
  exact (read_exact [9] _ Count w Hq).
Defined.

(** The caller is cancelled while the commit is under way. *)
Lemma cancellation_delivered_witness :
  interrupted (commit_turn cancelled_turn) = false /\
  (write_transaction 7 false two (commit_turn cancelled_turn)).1 = Raise CancelledError.
Proof.
  assert (H0 : interrupted (commit_turn cancelled_turn) = false) by reflexivity. split; [exact H0|].
  assert (Hi : interrupted (write_transaction 7 false two (commit_turn cancelled_turn)).2 = true) by (vm_compute; reflexivity).
  revert H0 Hi. generalize (commit_turn cancelled_turn) as w. intros w H0 Hi.
  destruct (cancellation_delivered 7 false two Count w H0) as [H _]. unfold answers in H.
  destruct (write_transaction 7 false two w) as [[a|e] w']; simpl in Hi; [congruence|].
  destruct H as [_ He]. simpl. by rewrite (He Hi).
Defined.

(** A process that wrote, read, and closed. *)
Definition lived : world := run_operation (A := list pyval) (OpRead Count) (run_operation (OpWrite 7 false two) (start [9] [])).

Lemma lived_reachable : reachable (A := list pyval) lived.
Proof. apply reach_operation, reach_operation, reach_start. done. Qed.

Lemma closed_is_final_witness :
  (close_db "10" lived).1 = Ok CLOSED /\
  forall late, disk (fold_left run_next late (close_db "10" lived).2) = disk (close_db "10" lived).2.
Proof.
  assert (Hc : (close_db "10" lived).1 = Ok CLOSED) by (vm_compute; reflexivity). split; [exact Hc|].
  pose proof lived_reachable as Hr. revert Hc Hr. generalize lived as w. intros w Hc Hr.
  destruct (close_db "10" w) as [r w'] eqn:E. simpl in Hc. subst r. simpl.
  destruct (closed_is_final (A := list pyval) "10" w w' Hr E) as (_ & _ & H & _). exact H.
Defined.

Lemma latch_for_good_witness :
  let w := (write_transaction 7 false two (commit_turn unanswered_turn)).2 in
  let r := "database is restart-required: commit: worker outcome unresolved"%string in
  fail_stop w = Some r /\
  (write_transaction 8 false two (run_operation (A := list pyval) (OpClose "10") w)).1 = Raise (DatabaseFailStop r).
Proof.
  intros w r. assert (Hw : fail_stop w = Some r) by (vm_compute; reflexivity). split; [exact Hw|]. revert Hw.
  generalize w as w1, r as r1. intros w1 r1 Hw.
  destruct (latch_for_good (A := list pyval) r1 w1 [inl (OpClose "10")] Hw) as [_ H]. exact (f_equal fst (H 8%nat false two)).
Defined.
