(* ===== verification/IpAddress.v ===== *)
(** * The part of Python's [ipaddress] module (3.12) the sources call

    Address and network parsing, membership, the classification properties
    and the canonical text, for IPv4 and IPv6. *)
From S2P Require Import Prelude Py.
Open Scope Z_scope.

Inductive ip_addr :=
| IPv4 (ip : Z)
| IPv6 (ip : Z) (scope_id : option string).

Record ip_net := IpNet { net_v6 : bool; net_addr : Z; net_mask : Z }.

(** ** Parsing *)

Definition all_digits (s : string) : bool := str_forall is_digit s && str_nonempty s.

Definition parse_octet (s : string) : option Z :=
  if negb (all_digits s) then None
  else if (3 <? String.length s)%nat then None
  else if negb (String.eqb s "0") && startswith "0" s then None
  else match parse_int 10 s with
       | Some n => if 255 <? n then None else Some n
       | None => None
       end.

Definition parse_ipv4_int (s : string) : option Z :=
  match parse_octet <$> split_on "." s with
  | [Some a; Some b; Some c; Some d] =>
      Some (Z.lor (Z.shiftl a 24) (Z.lor (Z.shiftl b 16) (Z.lor (Z.shiftl c 8) d)))
  | _ => None
  end.

Definition parse_ipv4 (s : string) : option Z :=
  if char_in_str "/" s then None else parse_ipv4_int s.

Definition is_hex (c : ascii) : bool := is_digit c || chr_in 65 70 c || chr_in 97 102 c.

Definition parse_hextet (s : string) : option Z :=
  if negb (str_forall is_hex s) then None
  else if (4 <? String.length s)%nat then None
  else parse_int 16 s.

Definition hex_digit (n : Z) : ascii :=
  let n := Z.to_nat n in if (n <? 10)%nat then ch (48 + n) else ch (87 + n).

(** ['%x' % n] for [0 <= n < 65536]. *)
Definition hex4 (n : Z) : string :=
  let ds := [Z.land (Z.shiftr n 12) 15; Z.land (Z.shiftr n 8) 15;
             Z.land (Z.shiftr n 4) 15; Z.land n 15] in
  let fix strip0 (l : list Z) :=
    match l with
    | [d] => [d]
    | 0 :: l => strip0 l
    | _ => l
    end in
  of_chars (hex_digit <$> strip0 ds).

(** Positions [1 .. len-2] of the empty fields of a colon-separated address. *)
Definition inner_empties (parts : list string) : list nat :=
  List.filter (fun i => match parts !! i with Some "" => true | _ => false end)
    (seq 1 (length parts - 2)).

Definition hextets_value (l : list string) : option Z :=
  fold_left (fun acc p =>
    match acc, parse_hextet p with
    | Some acc, Some h => Some (Z.lor (Z.shiftl acc 16) h)
    | _, _ => None
    end) l (Some 0).

Definition expand_ipv4_tail (parts : list string) : option (list string) :=
  match last parts with
  | Some p =>
      if char_in_str "." p then
        match parse_ipv4 p with
        | Some v => Some (removelast parts
                          ++ [hex4 (Z.land (Z.shiftr v 16) 65535); hex4 (Z.land v 65535)])
        | None => None
        end
      else Some parts
  | None => None
  end.

Definition parse_ipv6_int (s : string) : option Z :=
  let parts := split_on ":" s in
  if String.eqb s "" then None
  else if (length parts <? 3)%nat then None
  else match expand_ipv4_tail parts with
  | None => None
  | Some parts =>
      let n := length parts in
      let first := default "" (head parts) in
      let final := default "" (last parts) in
      if (9 <? n)%nat then None
      else match inner_empties parts with
      | [] =>
          if negb (n =? 8)%nat then None
          else if String.eqb first "" || String.eqb final "" then None
          else hextets_value parts
      | [skip] =>
          let hi := skip in
          let lo := (n - skip - 1)%nat in
          if String.eqb first "" && negb (hi =? 1)%nat then None
          else if String.eqb final "" && negb (lo =? 1)%nat then None
          else
            let hi := if String.eqb first "" then 0%nat else hi in
            let lo := if String.eqb final "" then 0%nat else lo in
            if (8 <=? hi + lo)%nat then None
            else match hextets_value (take hi parts), hextets_value (drop (n - lo) parts) with
                 | Some h, Some l =>
                     Some (Z.lor (Z.shiftl h (16 * Z.of_nat (8 - hi))) l)
                 | _, _ => None
                 end
      | _ => None
      end
  end.

Definition parse_ipv6 (s : string) : option ip_addr :=
  if char_in_str "/" s then None
  else match split_on "%" s with
  | [a] => (fun v => IPv6 v None) <$> parse_ipv6_int a
  | [a; scope] =>
      if String.eqb scope "" then None
      else (fun v => IPv6 v (Some scope)) <$> parse_ipv6_int a
  | _ => None
  end.

(** [ipaddress.ip_address(s)]; [None] is the [ValueError]. *)
Definition ip_address (s : string) : option ip_addr :=
  match parse_ipv4 s with
  | Some v => Some (IPv4 v)
  | None => parse_ipv6 s
  end.

Definition all_ones (bits : Z) : Z := Z.ones bits.

Definition mask_of_prefix (bits p : Z) : Z :=
  Z.lxor (all_ones bits) (Z.shiftr (all_ones bits) p).

(** The prefix length of a contiguous IPv4 netmask. *)
Definition prefix_of_mask (v : Z) : option Z :=
  find (fun p => mask_of_prefix 32 p =? v) (Z.of_nat <$> seq 0 33).

Definition prefix_string (bits : Z) (s : string) : option Z :=
  if negb (all_digits s) then None
  else match parse_int 10 s with
       | Some p => if p <=? bits then Some p else None
       | None => None
       end.

Definition ipv4_prefix (s : string) : option Z :=
  match prefix_string 32 s with
  | Some p => Some p
  | None =>
      match parse_ipv4_int s with
      | Some v =>
          match prefix_of_mask v with
          | Some p => Some p
          | None => prefix_of_mask (Z.lxor v (all_ones 32))
          end
      | None => None
      end
  end.

Definition make_net (v6 : bool) (bits ip prefix : Z) : ip_net :=
  let mask := mask_of_prefix bits prefix in IpNet v6 (Z.land ip mask) mask.

(** [ipaddress.ip_network(s, strict=False)]; [None] is the [ValueError]. *)
Definition ip_network (s : string) : option ip_net :=
  let split :=
    match split_on "/" s with
    | [a] => Some (a, None)
    | [a; m] => Some (a, Some m)
    | _ => None
    end in
  match split with
  | None => None
  | Some (a, m) =>
      let p4 := match m with None => Some 32 | Some m => ipv4_prefix m end in
      let p6 := match m with None => Some 128 | Some m => prefix_string 128 m end in
      match parse_ipv4 a, p4 with
      | Some ip, Some p => Some (make_net false 32 ip p)
      | _, _ =>
          match parse_ipv6 a, p6 with
          | Some (IPv6 ip _), Some p => Some (make_net true 128 ip p)
          | _, _ => None
          end
      end
  end.

(** ** Membership and classification *)

Definition ip_in_net (a : ip_addr) (n : ip_net) : bool :=
  match a with
  | IPv4 ip => negb (net_v6 n) && (Z.land ip (net_mask n) =? net_addr n)
  | IPv6 ip _ => net_v6 n && (Z.land ip (net_mask n) =? net_addr n)
  end.

Definition in_prefix (bits ip net p : Z) : bool :=
  Z.land ip (mask_of_prefix bits p) =? net.

Definition is_loopback (a : ip_addr) : bool :=
  match a with
  | IPv4 ip => in_prefix 32 ip (Z.shiftl 127 24) 8
  | IPv6 ip _ => ip =? 1
  end.

Definition is_link_local (a : ip_addr) : bool :=
  match a with
  | IPv4 ip => in_prefix 32 ip (Z.shiftl 43518 16) 16
  | IPv6 ip _ => in_prefix 128 ip (Z.shiftl 65152 112) 10
  end.

Definition is_unspecified (a : ip_addr) : bool :=
  match a with IPv4 ip => ip =? 0 | IPv6 ip _ => ip =? 0 end.

Definition is_multicast (a : ip_addr) : bool :=
  match a with
  | IPv4 ip => in_prefix 32 ip (Z.shiftl 224 24) 4
  | IPv6 ip _ => in_prefix 128 ip (Z.shiftl 65280 112) 8
  end.

Definition ipv6_reserved_nets : list (Z * Z) :=
  [(0, 8); (256, 8); (512, 7); (1024, 6); (2048, 5); (4096, 4); (16384, 3);
   (24576, 3); (32768, 3); (40960, 3); (49152, 3); (57344, 4); (61440, 5);
   (63488, 6); (65024, 9)].

Definition is_reserved (a : ip_addr) : bool :=
  match a with
  | IPv4 ip => in_prefix 32 ip (Z.shiftl 240 24) 4
  | IPv6 ip _ => existsb (fun '(n, p) => in_prefix 128 ip (Z.shiftl n 112) p) ipv6_reserved_nets
  end.

(** [IPv6Address.ipv4_mapped]. *)
Definition ipv4_mapped (a : ip_addr) : option ip_addr :=
  match a with
  | IPv6 ip _ => if Z.shiftr ip 32 =? 65535 then Some (IPv4 (Z.land ip (all_ones 32))) else None
  | IPv4 _ => None
  end.

(** ** Canonical text: [str(address)] *)

Definition ipv4_text (ip : Z) : string :=
  let o k := str_of_int (Z.land (Z.shiftr ip k) 255) in
  (o 24 ++ "." ++ o 16 ++ "." ++ o 8 ++ "." ++ o 0)%string.

Definition hextets_of (ip : Z) : list Z :=
  (fun k => Z.land (Z.shiftr ip (16 * (7 - Z.of_nat k))) 65535) <$> seq 0 8.

Fixpoint zero_run (l : list Z) : nat :=
  match l with 0 :: l => S (zero_run l) | _ => 0 end.

(** Start and length of the leftmost longest run of zero hextets. *)
Fixpoint best_run (i : nat) (l : list Z) (best : nat * nat) : nat * nat :=
  match l with
  | [] => best
  | _ :: l' =>
      let r := zero_run l in
      best_run (S i) l' (if (snd best <? r)%nat then (i, r) else best)
  end.

Fixpoint join (sep : string) (l : list string) : string :=
  match l with
  | [] => ""
  | [s] => s
  | s :: l => (s ++ sep ++ join sep l)%string
  end.

Definition ipv6_text (ip : Z) : string :=
  let hs := hextets_of ip in
  let '(start, len) := best_run 0 hs (0%nat, 0%nat) in
  let words := hex4 <$> hs in
  if (1 <? len)%nat
  then (join ":" (take start words) ++ "::" ++ join ":" (drop (start + len) words))%string
  else join ":" words.

Definition ip_text (a : ip_addr) : string :=
  match a with
  | IPv4 ip => ipv4_text ip
  | IPv6 ip None => ipv6_text ip
  | IPv6 ip (Some s) => (ipv6_text ip ++ "%" ++ s)%string
  end.

Example ip_address_v4 : ip_address "192.168.1.10" = Some (IPv4 3232235786).
Proof. reflexivity. Qed.
Example ip_address_v6 :
  ip_text <$> ip_address "2001:DB8:0:0:0::1" = Some "2001:db8::1"%string.
Proof. reflexivity. Qed.
Example ip_address_mapped :
  (a ← ip_address "::ffff:127.0.0.1"; ipv4_mapped a) = Some (IPv4 2130706433).
Proof. reflexivity. Qed.
Example ip_address_bad :
  ip_address <$> ["1.2.3"; "01.2.3.4"; "1::2::3"; ":1::2"; "12345::"; "fe80::1%"; ""] =
  [None; None; None; None; None; None; None].
Proof. reflexivity. Qed.
Example ip_network_host_bits : 
  ip_network "10.1.2.3/8" = ip_network "10.0.0.0/255.0.0.0".
Proof. reflexivity. Qed.
