(* ===== verification/Accounts.v ===== *)
(** * Accounts, tokens, runtime configuration and the audit log

    The tables behind src/backend/app/database.py (from "Alert config" to the end of
    the file) and src/backend/app/runtime_config_validate.py.  [db] holds the
    tables; every operation goes through the boundary of [DbCore].  Column values
    are typed as SQLite stores them (booleans are 0 and 1); [time.time()] readings
    are arguments named [now]. *)
From S2P Require Import Prelude Py Effects DbCore IpAddress.
Open Scope Z_scope.

Record user := User {
  email : string;
  password_hash : string;
  totp_secret : option string;
  totp_enabled : Z;
  must_change_password : Z;
  created_at : Q;
  role : string;
  is_active : Z;
  tokens_valid_after : Q
}.

Record audit_row := AuditRow {
  au_id : Z;
  au_time : Q;
  au_user : string;
  au_action : string;
  au_agent : string;
  au_detail : dict
}.

Record db := Db {
  adm : admission;
  users : gmap string user;
  user_host_accounts : gmap (string * string) string;
  token_blacklist : gmap string Q;
  runtime_config : gmap string string;
  alert_config : option dict;
  audit_log : list audit_row;
  audit_seq : Z;
  initial_admin_password : option string
}.

Definition with_users d m := Db (adm d) m (user_host_accounts d) (token_blacklist d)
  (runtime_config d) (alert_config d) (audit_log d) (audit_seq d) (initial_admin_password d).
Definition with_hosts d m := Db (adm d) (users d) m (token_blacklist d)
  (runtime_config d) (alert_config d) (audit_log d) (audit_seq d) (initial_admin_password d).
Definition with_blacklist d m := Db (adm d) (users d) (user_host_accounts d) m
  (runtime_config d) (alert_config d) (audit_log d) (audit_seq d) (initial_admin_password d).
Definition with_runtime d m := Db (adm d) (users d) (user_host_accounts d) (token_blacklist d)
  m (alert_config d) (audit_log d) (audit_seq d) (initial_admin_password d).
Definition with_alert_config d c := Db (adm d) (users d) (user_host_accounts d)
  (token_blacklist d) (runtime_config d) c (audit_log d) (audit_seq d)
  (initial_admin_password d).
Definition with_audit d l n := Db (adm d) (users d) (user_host_accounts d) (token_blacklist d)
  (runtime_config d) (alert_config d) l n (initial_admin_password d).
Definition with_pw_file d f := Db (adm d) (users d) (user_host_accounts d) (token_blacklist d)
  (runtime_config d) (alert_config d) (audit_log d) (audit_seq d) f.
Definition with_adm d a := Db a (users d) (user_host_accounts d) (token_blacklist d)
  (runtime_config d) (alert_config d) (audit_log d) (audit_seq d) (initial_admin_password d).

Abbreviation tx := (@transaction db adm _).
Abbreviation query := (@reading db adm _).

(** ** Users *)

(** [bool(row[...])] of the row [get_user] returns. *)
Definition active (u : user) : bool := negb (is_active u =? 0).
Definition totp_on (u : user) : bool := negb (totp_enabled u =? 0).
Definition must_change (u : user) : bool := negb (must_change_password u =? 0).

Definition get_user (e : string) : M db (option user) := query (fun d => users d !! e).

Definition create_user (now : Q) (e pw_hash rl : string) (must : bool) : M db bool :=
  catch
    (_ ← tx (d ← gets id;
             match users d !! e with
             | Some _ => raise IntegrityError
             | None => modify (fun d => with_users d
                 (<[e := User e pw_hash None 0 (Z.b2z must) now rl 1 0]> (users d)))
             end);
     mret true)
    (fun ex => match ex with
               | DatabaseFailStop _ => None
               | _ => Some (mret false)
               end).

(** [ON DELETE CASCADE] takes the host accounts along. *)
Definition delete_user (e : string) : M db bool :=
  tx (d ← gets id;
      _ ← modify (fun d =>
        with_hosts (with_users d (delete e (users d)))
          (filter (fun kv => kv.1.1 <> e) (user_host_accounts d)));
      mret (bool_decide (is_Some (users d !! e)))).

Definition is_active_admin (u : user) : bool :=
  String.eqb (role u) "admin" && (is_active u =? 1).

Definition active_admins (d : db) : gmap string user :=
  filter (fun kv => is_active_admin kv.2 = true) (users d).

Definition count_active_admins : M db Z :=
  query (fun d => Z.of_nat (size (active_admins d))).

(** A column of [users] set to a stored value; a value of the wrong storage class
    is not produced by any caller and leaves the row alone. *)
Definition set_column (u : user) (kv : string * pyval) : user :=
  let '(User e pw ts te mc ca rl ac tv) := u in
  let col := String.eqb kv.1 in
  match kv.2 with
  | VStr v =>
      if col "password_hash" then User e v ts te mc ca rl ac tv
      else if col "totp_secret" then User e pw (Some v) te mc ca rl ac tv
      else if col "role" then User e pw ts te mc ca v ac tv
      else u
  | VInt v =>
      if col "totp_enabled" then User e pw ts v mc ca rl ac tv
      else if col "must_change_password" then User e pw ts te v ca rl ac tv
      else if col "is_active" then User e pw ts te mc ca rl v tv
      else u
  | VFloat (Fin v) => if col "tokens_valid_after" then User e pw ts te mc ca rl ac v else u
  | _ => u
  end%string.

Definition _ALLOWED_USER_FIELDS : list string :=
  ["password_hash"; "totp_secret"; "totp_enabled"; "must_change_password"; "role";
   "is_active"; "tokens_valid_after"].

Definition update_user (e : string) (fields : dict) : M db bool :=
  match fields with
  | [] => mret false
  | _ =>
      match List.filter (fun kv => str_mem kv.1 _ALLOWED_USER_FIELDS) fields with
      | [] => mret false
      | safe =>
          _ ← tx (modify (fun d =>
                 with_users d (alter (fun u => fold_left set_column safe u) e (users d))));
          mret true
      end
  end.

(** ** Host account mappings *)

Definition get_user_host_accounts (e : string) : M db (gmap string string) :=
  query (fun d => list_to_map
    ((fun kv => (kv.1.2, kv.2)) <$>
     List.filter (fun kv => String.eqb kv.1.1 e) (map_to_list (user_host_accounts d)))).

(** The foreign key on [user_email] refuses a row whose user does not exist, and
    the primary key a second row for the same agent. *)
Definition insert_host_account (e agent host : string) : M db unit :=
  d ← gets id;
  match users d !! e, user_host_accounts d !! (e, agent) with
  | Some _, None => modify (fun d => with_hosts d (<[(e, agent) := host]> (user_host_accounts d)))
  | _, _ => raise IntegrityError
  end.

Definition set_user_host_accounts (e : string) (mapping : list (string * string)) : M db unit :=
  tx (_ ← modify (fun d =>
            with_hosts d (filter (fun kv => kv.1.1 <> e) (user_host_accounts d)));
      for_each (fun '(agent, host) =>
        if str_nonempty host then insert_host_account e agent host else mret tt) mapping).

(** ** Runtime configuration *)

Definition USERNAME_PATTERN : string -> bool :=
  re_dollar (re_head_class (fun c => is_lower c || Ascii.eqb c "_"%char)
    (fun c => is_lower c || is_digit c || Ascii.eqb c "_"%char || Ascii.eqb c "-"%char) 0 31).

Definition validate_config_value (key value : string) : res unit :=
  if String.eqb key "collect_interval" then
    match parse_int 10 value with
    | None => Raise (ValueError "Interval must be a number")
    | Some n => if (n <? 1) || (60 <? n) then Raise (ValueError "Interval must be 1-60")
                else Ok tt
    end
  else if str_mem key ["enable_gpu"; "enable_docker"] then
    if str_mem value ["true"; "false"] then Ok tt
    else Raise (ValueError (key ++ " must be 'true' or 'false'")%string)
  else if String.eqb key "terminal_user" then
    if str_nonempty value && negb (USERNAME_PATTERN value)
    then Raise (ValueError "Invalid username format") else Ok tt
  else if String.eqb key "allowed_ips" then
    (fix entries (l : list string) : res unit :=
       match l with
       | [] => Ok tt
       | e :: l =>
           if str_nonempty e then
             match ip_network e with
             | Some _ => entries l
             | None => Raise (ValueError ("Invalid CIDR: " ++ e)%string)
             end
           else entries l
       end) (strip <$> split_on "," value)
  else Ok tt.

Definition ALLOWED_KEYS : list string :=
  ["enable_gpu"; "enable_docker"; "collect_interval"; "terminal_user"; "allowed_ips"].

Definition get_runtime_config : M db (gmap string string) := query runtime_config.

Definition set_runtime_config (key value : string) : M db unit :=
  if negb (str_mem key ALLOWED_KEYS) then mret tt
  else
    _ ← lift_res (validate_config_value key value);
    tx (modify (fun d => with_runtime d (<[key := value]> (runtime_config d)))).

Definition set_runtime_configs (configs : list (string * string)) : M db unit :=
  for_each (fun '(k, v) => set_runtime_config k v) configs.

(** ** Token blacklist *)

Definition blacklist_token (h : string) (expires_at : Q) : M db unit :=
  tx (modify (fun d =>
    match token_blacklist d !! h with
    | Some _ => d
    | None => with_blacklist d (<[h := expires_at]> (token_blacklist d))
    end)).

Definition is_token_blacklisted (h : string) : M db bool :=
  query (fun d => bool_decide (is_Some (token_blacklist d !! h))).

Definition cleanup_blacklist (now : Q) : M db Z :=
  tx (d ← gets id;
      let kept := filter (fun kv => q_ltb kv.2 now = false) (token_blacklist d) in
      _ ← modify (fun d => with_blacklist d kept);
      mret (Z.of_nat (size (token_blacklist d)) - Z.of_nat (size kept))).

(** ** Audit log *)

(** Best effort: no failure of the insert reaches the caller. *)
Definition audit (now : Q) (usr action agent : string) (detail : dict) : M db unit :=
  catch
    (tx (modify (fun d =>
       with_audit d
         (audit_log d ++ [AuditRow (audit_seq d) now (str_take 256 usr) action agent detail])
         (audit_seq d + 1))))
    (fun _ => Some (mret tt)).

Definition cleanup_audit_log (now : Q) (max_age_days max_rows : Z) : M db Z :=
  let cutoff := (now - inject_Z (max_age_days * 86400))%Q in
  tx (d ← gets id;
      let young := List.filter (fun r => negb (q_ltb (au_time r) cutoff)) (audit_log d) in
      (* a negative LIMIT is no limit *)
      let kept := if max_rows <? 0 then young
                  else drop (length young - Z.to_nat max_rows) young in
      _ ← modify (fun d => with_audit d kept (audit_seq d));
      mret (Z.of_nat (length (audit_log d)) - Z.of_nat (length kept))).

Definition get_alert_config_row : M db (option dict) := query alert_config.

(** ** Start-up: the foreign-key check and the first admin account *)

Definition fk_violations (d : db) : list (string * string) :=
  fst <$> List.filter (fun kv => bool_decide (users d !! kv.1.1 = None))
            (map_to_list (user_host_accounts d)).

Definition _assert_foreign_keys_intact (violations : list (string * string)) : M db unit :=
  match violations with
  | [] => mret tt
  | _ =>
      let detail := ("user_host_accounts=" ++ str_of_int (Z.of_nat (length violations))
                     ++ " row(s)")%string in
      _ ← modify (fun d => with_adm d
             (_enter_fail_stop ("existing rows violate declared foreign keys: " ++ detail) (adm d)));
      raise (SchemaIntegrityViolation
               ("existing rows violate the schema's foreign keys: " ++ detail)%string)
  end.

(** The end of [init_db]: [env_pw] is GLASSOPS_ADMIN_PASSWORD, [random_pw] the
    generated one-time password, [write_ok] whether its file could be written. *)
Definition init_first_admin (hashpw : string -> string) (now : Q)
    (default_email env_pw random_pw : string) (write_ok : bool) : M db unit :=
  d ← gets id;
  if bool_decide (users d = ∅) then
    let explicit := str_nonempty env_pw in
    _ ← (if explicit then mret tt
         else if write_ok
         then modify (fun d => with_pw_file d (Some random_pw))
         else raise (OtherError "Could not write initial admin password file"));
    let password := if explicit then env_pw else random_pw in
    modify (fun d => with_users d
      (<[default_email := User default_email (hashpw password) None 0
           (Z.b2z (negb explicit)) now "admin" 1 0]> (users d)))
  else mret tt.

(** ** Well-formed tables *)

(** The table also holds start-up's aggregation mark, which is no setting. *)
Definition _AGG_CUTOVER_KEY : string := "metric_agg_cutover_raw_id".

(** Every stored setting is one the validator accepts. *)
Definition runtime_valid (d : db) : Prop :=
  forall k v, runtime_config d !! k = Some v -> k <> _AGG_CUTOVER_KEY ->
    str_mem k ALLOWED_KEYS = true /\ validate_config_value k v = Ok tt.

(** Every host account belongs to an existing user. *)
Definition hosts_owned (d : db) : Prop :=
  forall e a h, user_host_accounts d !! (e, a) = Some h -> is_Some (users d !! e).

(** Audit ids grow with the log and stay below the sequence. *)
Definition audit_ordered (d : db) : Prop :=
  StronglySorted (fun x y => au_id x < au_id y) (audit_log d) /\
  Forall (fun x => au_id x < audit_seq d) (audit_log d).

Record wf (d : db) : Prop := Wf {
  wf_runtime : runtime_valid d;
  wf_hosts : hosts_owned d;
  wf_audit : audit_ordered d
}.

Inductive account_op :=
| OCreate (now : Q) (e h r : string) (must : bool)
| ODelete (e : string)
| OUpdate (e : string) (fields : dict)
| OHosts (e : string) (mapping : list (string * string))
| OConfigs (configs : list (string * string))
| OBlacklist (h : string) (expires : Q)
| OCleanBlacklist (now : Q)
| OAudit (now : Q) (usr action agent : string) (detail : dict)
| OCleanAudit (now : Q) (days rows : Z).

Definition perform (o : account_op) : M db unit :=
  match o with
  | OCreate now e h r must => _ ← create_user now e h r must; mret tt
  | ODelete e => _ ← delete_user e; mret tt
  | OUpdate e fields => _ ← update_user e fields; mret tt
  | OHosts e mapping => set_user_host_accounts e mapping
  | OConfigs configs => set_runtime_configs configs
  | OBlacklist h expires => blacklist_token h expires
  | OCleanBlacklist now => _ ← cleanup_blacklist now; mret tt
  | OAudit now usr action agent detail => audit now usr action agent detail
  | OCleanAudit now days rows => _ ← cleanup_audit_log now days rows; mret tt
  end.

(** A trace of operations; one that raises does not stop the ones after it. *)
Fixpoint perform_all (ops : list account_op) (d : db) : db :=
  match ops with
  | [] => d
  | o :: ops => perform_all ops (snd (perform o d))
  end.

(** ** Every operation keeps the tables well formed *)

Lemma wf_users d m :
  wf d -> (forall e, is_Some (users d !! e) -> is_Some (m !! e)) -> wf (with_users d m).
Proof. intros [Hr Hh Ha] Hm. split; [done| |done]. intros e a h E. eauto. Qed.

Lemma wf_hosts_filter d e m :
  wf d -> (forall e', e' <> e -> is_Some (users d !! e') -> is_Some (m !! e')) ->
  wf (with_hosts (with_users d m) (filter (fun kv => kv.1.1 <> e) (user_host_accounts d))).
Proof.
  intros [Hr Hh Ha] Hm. split; [done| |done].
  intros e' a h (E & Hne)%map_lookup_filter_Some. simpl in *. eauto.
Qed.

Lemma wf_host_insert d e a h :
  wf d -> is_Some (users d !! e) ->
  wf (with_hosts d (<[(e, a) := h]> (user_host_accounts d))).
Proof.
  intros [Hr Hh Ha] Hu. split; [done| |done]. intros e' a' h'.
  unfold with_hosts. simpl. rewrite lookup_insert. case_decide as E; [|eauto].
  by injection E as <- <-.
Qed.

Lemma wf_runtime_insert d k v :
  wf d -> str_mem k ALLOWED_KEYS = true -> validate_config_value k v = Ok tt ->
  wf (with_runtime d (<[k := v]> (runtime_config d))).
Proof.
  intros [Hr Hh Ha] Hk Hv. split; [|done|done]. intros k' v'. unfold with_runtime. simpl.
  rewrite lookup_insert. case_decide as E; [|apply Hr]. by intros [= <-]; subst.
Qed.

Lemma wf_blacklist d m : wf d -> wf (with_blacklist d m).
Proof. by intros [Hr Hh Ha]. Qed.

Lemma StronglySorted_app_r {A} (R : A -> A -> Prop) l1 l2 :
  StronglySorted R (l1 ++ l2) -> StronglySorted R l2.
Proof. induction l1 as [|x l1 IH]; simpl; [done|]. intros H. inversion H; auto. Qed.

Lemma StronglySorted_snoc {A} (R : A -> A -> Prop) l x :
  StronglySorted R l -> Forall (fun y => R y x) l -> StronglySorted R (l ++ [x]).
Proof.
  induction l as [|y l IH]; intros Hs Hf; simpl; [by repeat constructor|].
  apply StronglySorted_inv in Hs as [Hs Hy]. apply Forall_cons in Hf as [Hyx Hf].
  constructor; [by apply IH|]. apply Forall_app. by auto.
Qed.

Lemma StronglySorted_filter {A} (R : A -> A -> Prop) (p : A -> bool) l :
  StronglySorted R l -> StronglySorted R (List.filter p l).
Proof.
  induction l as [|x l IH]; intros H; [constructor|]. simpl.
  apply StronglySorted_inv in H as [Hs Hx]. destruct (p x); [|by apply IH].
  constructor; [by apply IH|]. rewrite Forall_forall in Hx |- *.
  intros y Hy. apply Hx. rewrite list_elem_of_In in Hy |- *.
  by apply List.filter_In in Hy as [? _].
Qed.

Lemma wf_audit_append d now usr action agent detail :
  wf d ->
  wf (with_audit d (audit_log d ++ [AuditRow (audit_seq d) now usr action agent detail])
        (audit_seq d + 1)).
Proof.
  intros [Hr Hh [Hs Hf]]. split; [done|done|]. split; simpl.
  - apply StronglySorted_snoc; [done|]. simpl. done.
  - apply Forall_app. split; [|constructor; [simpl; lia|constructor]].
    eapply Forall_impl; [exact Hf|]. simpl. lia.
Qed.

Lemma audit_ordered_sublist d l l0 p :
  audit_ordered d -> l0 ++ l = List.filter p (audit_log d) ->
  audit_ordered (with_audit d l (audit_seq d)).
Proof.
  intros [Hs Hf] E. split; simpl.
  - apply StronglySorted_app_r with l0. rewrite E. by apply StronglySorted_filter.
  - apply Forall_forall. intros x Hx. rewrite Forall_forall in Hf. apply Hf.
    apply list_elem_of_In. assert (Hin : List.In x (List.filter p (audit_log d))).
    { rewrite <- E. apply in_or_app. right. by apply list_elem_of_In. }
    by apply List.filter_In in Hin as [? _].
Qed.

Lemma keeps_insert_host e a h : keeps wf (insert_host_account e a h).
Proof.
  intros d Hd. unfold insert_host_account, mbind, M_bind, gets. simpl.
  destruct (users d !! e) eqn:Hu; [|done].
  destruct (user_host_accounts d !! (e, a)); [done|]. simpl.
  apply wf_host_insert; [done|by eexists].
Qed.

Lemma keeps_set_hosts e mapping : keeps wf (set_user_host_accounts e mapping).
Proof.
  apply keeps_transaction, keeps_bind.
  - apply keeps_modify. intros d Hd.
    replace (with_hosts d _) with
      (with_hosts (with_users d (users d)) (filter (fun kv => kv.1.1 <> e) (user_host_accounts d)))
      by (by destruct d).
    by apply wf_hosts_filter.
  - intros _. apply keeps_for_each. intros [a h]. apply keeps_if; [|apply keeps_ret].
    apply keeps_insert_host.
Qed.

Lemma keeps_set_runtime k v : keeps wf (set_runtime_config k v).
Proof.
  unfold set_runtime_config. destruct (str_mem k ALLOWED_KEYS) eqn:Hk; simpl; [|apply keeps_ret].
  intros d Hd. unfold mbind, M_bind, lift_res.
  destruct (validate_config_value k v) as [[]|ex] eqn:Hv; [|done].
  apply keeps_transaction; [|done]. apply keeps_modify. intros d' Hd'.
  by apply wf_runtime_insert.
Qed.

Lemma keeps_create_user now e h r must : keeps wf (create_user now e h r must).
Proof.
  apply keeps_catch; [|intros []; naive_solver eauto with keeps].
  apply keeps_bind; [|eauto with keeps]. apply keeps_transaction. intros d Hd.
  unfold mbind, M_bind, gets. simpl. destruct (users d !! e); [done|].
  apply wf_users; [done|]. intros e' He'. rewrite lookup_insert. case_decide; [by eexists|done].
Qed.

Lemma keeps_delete_user e : keeps wf (delete_user e).
Proof.
  apply keeps_transaction, keeps_bind; [apply keeps_gets|]. intros d0.
  apply keeps_bind; [|eauto with keeps]. apply keeps_modify. intros d Hd.
  apply wf_hosts_filter; [done|]. intros e' Hne He'. by rewrite lookup_delete_ne.
Qed.

Lemma keeps_update_user e fields : keeps wf (update_user e fields).
Proof.
  unfold update_user. destruct fields as [|f fs]; [apply keeps_ret|].
  destruct (List.filter _ _) as [|g gs]; [apply keeps_ret|].
  apply keeps_bind; [|eauto with keeps]. apply keeps_transaction, keeps_modify.
  intros d Hd. apply wf_users; [done|]. intros e' He'. rewrite lookup_alter.
  case_decide; [|done]. subst. destruct He' as [u ->]. by eexists.
Qed.

Lemma keeps_cleanup_audit now days rows : keeps wf (cleanup_audit_log now days rows).
Proof.
  apply keeps_transaction. intros d [Hr Hh Ha]. unfold mbind, M_bind, gets. simpl.
  split; [done|done|]. simpl.
  case_match; [eapply (audit_ordered_sublist d _ []) | eapply audit_ordered_sublist];
    try done. apply take_drop.
Qed.

Lemma keeps_perform o : keeps wf (perform o).
Proof.
  destruct o; simpl.
  - apply keeps_bind; [apply keeps_create_user|eauto with keeps].
  - apply keeps_bind; [apply keeps_delete_user|eauto with keeps].
  - apply keeps_bind; [apply keeps_update_user|eauto with keeps].
  - apply keeps_set_hosts.
  - apply keeps_for_each. intros [k v]. apply keeps_set_runtime.
  - apply keeps_transaction, keeps_modify. intros d Hd.
    destruct (token_blacklist d !! h); [done|by apply wf_blacklist].
  - apply keeps_bind; [|eauto with keeps]. apply keeps_transaction, keeps_bind; [apply keeps_gets|].
    intros d0. apply keeps_bind; [|eauto with keeps]. apply keeps_modify.
    intros d Hd. by apply wf_blacklist.
  - apply keeps_catch; [|naive_solver eauto with keeps].
    apply keeps_transaction, keeps_modify. intros d Hd. by apply wf_audit_append.
  - apply keeps_bind; [apply keeps_cleanup_audit|eauto with keeps].
Qed.

Definition empty_db : db := Db healthy ∅ ∅ ∅ ∅ None [] 1 None.

Lemma wf_empty : wf empty_db.
Proof. split; [by intros k v ?|by intros e a h ?|by repeat constructor]. Qed.

(** C30: stored settings stay valid, host accounts stay owned and audit ids stay
    ordered, whatever operations run and whichever of them raise. *)
Theorem accounts_wf ops d : wf d -> wf (perform_all ops d).
Proof.
  revert d. induction ops as [|o ops IH]; intros d Hd; [done|]. simpl.
  by apply IH, keeps_perform.
Qed.

Lemma accounts_wf_witness :
  let ops := [OCreate 0 "a@x" "h" "user" true; OHosts "a@x" [("web", "root")];
              OHosts "b@x" [("web", "root")]; OConfigs [("collect_interval", "5")];
              OConfigs [("collect_interval", "500")]; OAudit 0 "a@x" "login" "" []; ODelete "a@x"]%string in
  wf empty_db /\ wf (perform_all ops empty_db).
Proof. intros ops. split; [exact wf_empty | apply (accounts_wf ops empty_db wf_empty)]. Defined.

(** Registering an address never adopts host accounts left by an earlier
    holder of it, and never overwrites an existing user. *)
Theorem create_user_fresh now e h r must d b d' :
  wf d -> create_user now e h r must d = (Ok b, d') ->
  (b = true <-> users d !! e = None) /\
  (b = true -> users d' = <[e := User e h None 0 (Z.b2z must) now r 1 0]> (users d) /\
               forall a, user_host_accounts d' !! (e, a) = None) /\
  (b = false -> d' = d).
Proof.
  intros Hwf. unfold create_user, catch, mbind, M_bind, transaction, rolled_back, gets, raise. simpl.
  destruct (_require_admission (adm d)) as [[]|ex] eqn:Hadm.
  - destruct (users d !! e) as [u|] eqn:Hu; simpl.
    + intros [= <- <-]. naive_solver.
    + intros [= <- <-]. split; [naive_solver|]. split; [|done]. intros _. split; [done|].
      intros a. destruct (user_host_accounts d !! (e, a)) as [h'|] eqn:Ha; [|done].
      apply (wf_hosts _ Hwf) in Ha as [u Hu']. congruence.
  - unfold _require_admission in Hadm. by repeat case_match; simplify_eq.
Qed.

Lemma create_user_fresh_witness :
  let d := with_users empty_db {[ "b@x"%string := User "b@x" "h" None 0 0 0 "user" 1 0 ]} in
  wf d /\ exists b d', create_user 7 "a@x" "h2" "user" true d = (Ok b, d') /\ b = true /\
  forall a, user_host_accounts d' !! ("a@x"%string, a) = None.
Proof.
  intros d. assert (Hd : wf d) by (split; [by intros k v ?|by intros e a h ?|by repeat constructor]).
  split; [exact Hd|]. eexists _, _. split; [reflexivity|]. split; [reflexivity|].
  apply (create_user_fresh 7 "a@x" "h2" "user" true d true _ Hd eq_refl). reflexivity.
Defined.

(** ** Replacing the host accounts of a user *)

Lemma insert_hosts_spec e (mapping : list (string * string)) d :
  is_Some (users d !! e) -> NoDup mapping.*1 ->
  (forall a, a ∈ mapping.*1 -> user_host_accounts d !! (e, a) = None) ->
  exists d', for_each (fun '(agent, host) =>
      if str_nonempty host then insert_host_account e agent host else mret tt) mapping d
    = (Ok tt, d') /\ users d' = users d /\
    forall k, user_host_accounts d' !! k =
      match user_host_accounts d !! k with
      | Some h => Some h
      | None => if String.eqb k.1 e
                then h ← dict_get k.2 mapping; if str_nonempty h then Some h else None
                else None
      end.
Proof.
  revert d. induction mapping as [|[a h] mapping IH]; intros d [u Hu] Hnd Hfree.
  - exists d. split; [done|]. split; [done|]. intros k. simpl.
    by destruct (user_host_accounts d !! k), (String.eqb k.1 e).
  - apply NoDup_cons in Hnd as [Hnin Hnd]. simpl in *.
    set (d1 := if str_nonempty h then with_hosts d (<[(e, a) := h]> (user_host_accounts d)) else d).
    destruct (IH d1) as (d' & Hrun & Hus & Hlk).
    { exists u. unfold d1. by destruct (str_nonempty h). }
    { done. }
    { intros a' Ha'. unfold d1. destruct (str_nonempty h); [|set_solver]. simpl.
      rewrite lookup_insert_ne by (intros [= ->]; set_solver). apply Hfree. set_solver. }
    exists d'. split; [|split].
    + unfold mbind, M_bind. unfold insert_host_account, mbind, M_bind, gets. simpl.
      unfold d1 in Hrun. destruct (str_nonempty h); simpl; [|done].
      rewrite Hu, (Hfree a) by set_solver. done.
    + rewrite Hus. unfold d1. by destruct (str_nonempty h).
    + intros [e' a']. rewrite Hlk. unfold d1. simpl.
      destruct (str_nonempty h) eqn:Hh; simpl.
      * rewrite lookup_insert. case_decide as E.
        -- injection E as <- <-. rewrite (Hfree a) by set_solver.
           rewrite !String.eqb_refl. simpl. by rewrite Hh.
        -- destruct (user_host_accounts d !! (e', a')); [done|].
           destruct (String.eqb_spec e' e) as [->|]; [|done].
           by rewrite (proj2 (String.eqb_neq a' a)) by congruence.
      * destruct (user_host_accounts d !! (e', a')); [done|].
        destruct (String.eqb e' e); [|done].
        destruct (String.eqb_spec a' a) as [->|]; [|done]. simpl. rewrite Hh.
        replace (dict_get a mapping) with (@None string); [done|]. symmetry.
        clear -Hnin. induction mapping as [|[a2 h2] m IHm]; [done|]. simpl in *.
        rewrite (proj2 (String.eqb_neq a a2)) by set_solver. apply IHm. set_solver.
Qed.

(** The mapping of one user is replaced as a whole, empty host users are
    dropped, and no other user's accounts move; an unknown user changes nothing. *)
Theorem host_accounts_replaced e mapping d :
  _require_admission (adm d) = Ok tt -> NoDup mapping.*1 ->
  (is_Some (users d !! e) ->
   exists d', set_user_host_accounts e mapping d = (Ok tt, d') /\
     forall e' a, user_host_accounts d' !! (e', a) =
       if String.eqb e' e
       then h ← dict_get a mapping; if str_nonempty h then Some h else None
       else user_host_accounts d !! (e', a)) /\
  (forall ex d', set_user_host_accounts e mapping d = (Raise ex, d') -> d' = d).
Proof.
  intros Hadm Hnd. split; [|intros ex d'; apply transaction_raise].
  intros Hu. unfold set_user_host_accounts, transaction, rolled_back.
  rewrite Hadm. unfold mbind, M_bind, modify.
  set (d0 := with_hosts d _).
  destruct (insert_hosts_spec e mapping d0) as (d' & Hrun & _ & Hlk); [done|done| |].
  { intros a _. unfold d0. simpl. apply map_lookup_filter_None. right. naive_solver. }
  rewrite Hrun. exists d'. split; [done|]. intros e' a. rewrite Hlk. unfold d0. simpl.
  destruct (String.eqb_spec e' e) as [->|Hne].
  - destruct (filter _ _ !! _) as [h|] eqn:E; [|done].
    apply map_lookup_filter_Some in E as [_ E]. done.
  - rewrite map_lookup_filter. destruct (user_host_accounts d !! (e', a)) as [h|]; simpl; [|done].
    case_guard; simpl; [done|]. naive_solver.
Qed.

Lemma host_accounts_replaced_witness :
  let d := Db healthy {[ "a@x"%string := User "a@x" "h" None 0 0 0 "user" 1 0 ]}
             {[ ("a@x", "old")%string := "root"%string ]} ∅ ∅ None [] 1 None in
  let m := [("web", "deploy"); ("db", "")]%string in
  _require_admission (adm d) = Ok tt /\ NoDup m.*1 /\
  exists d', set_user_host_accounts "a@x" m d = (Ok tt, d') /\
             user_host_accounts d' !! ("a@x", "old")%string = None.
Proof.
  intros d m. assert (Hm : NoDup m.*1) by (vm_compute; repeat constructor; set_solver).
  split; [reflexivity|]. split; [exact Hm|].
  destruct (host_accounts_replaced "a@x" m d eq_refl Hm) as [H _].
  destruct H as (d' & Hrun & Hlk); [by eexists|].
  exists d'. split; [exact Hrun|]. rewrite Hlk. reflexivity.
Defined.

(** ** Pruning the audit log *)

(** Pruning keeps the newest entries that are young enough, at most
    [max_rows] of them, and reports how many rows it removed. *)
Theorem audit_log_pruned now days rows d :
  _require_admission (adm d) = Ok tt -> 0 <= rows ->
  exists removed d', cleanup_audit_log now days rows d = (Ok removed, d') /\
    (exists older,
       older ++ audit_log d' =
       List.filter (fun r => negb (q_ltb (au_time r) (now - inject_Z (days * 86400))%Q))
         (audit_log d) /\
       (older <> [] -> Z.of_nat (length (audit_log d')) = rows)) /\
    Z.of_nat (length (audit_log d')) <= rows /\
    removed = Z.of_nat (length (audit_log d)) - Z.of_nat (length (audit_log d')).
Proof.
  intros Hadm Hrows. unfold cleanup_audit_log, transaction, rolled_back. rewrite Hadm.
  unfold mbind, M_bind, gets. simpl.
  rewrite (proj2 (Z.ltb_ge rows 0)) by lia.
  set (young := List.filter _ (audit_log d)).
  set (n := (length young - Z.to_nat rows)%nat).
  eexists _, _. split; [done|]. simpl. split; [|split].
  - exists (take n young). split; [apply take_drop|].
    intros Hne. rewrite length_drop. destruct (decide (n = 0%nat)) as [E|]; [|lia].
    rewrite E in Hne. done.
  - rewrite length_drop. lia.
  - done.
Qed.

Lemma audit_log_pruned_witness :
  exists removed d',
    cleanup_audit_log 864000 5 1
      (with_audit empty_db [AuditRow 1 0 "a" "x" "" []; AuditRow 2 863000 "a" "y" "" [];
                            AuditRow 3 864000 "a" "z" "" []] 4) = (Ok removed, d') /\
    Z.of_nat (length (audit_log d')) <= 1.
Proof.
  destruct (audit_log_pruned 864000 5 1
    (with_audit empty_db [AuditRow 1 0 "a" "x" "" []; AuditRow 2 863000 "a" "y" "" [];
                          AuditRow 3 864000 "a" "z" "" []] 4) eq_refl ltac:(lia))
    as (n & d' & Hrun & _ & Hlen & _).
  exists n, d'. split; [exact Hrun | exact Hlen].
Defined.

(** The anchored patterns are matched with [re.match] and [$], which also
    accepts one trailing newline. *)
Theorem terminal_user_trailing_newline :
  validate_config_value "terminal_user" ("root" ++ newline) = Ok tt /\
  validate_config_value "terminal_user" ("root" ++ newline ++ newline) <> Ok tt.
Proof. by vm_compute. Qed.

(** ** Invariants of the blacklist alone *)

Section BlacklistInvariant.
Context (I : db -> Prop).
Context (I_ext : forall d d', token_blacklist d = token_blacklist d' -> I d -> I d').

Definition blacklist_safe (o : account_op) : Prop :=
  match o with
  | OBlacklist h expires =>
      forall d, I d -> token_blacklist d !! h = None ->
                I (with_blacklist d (<[h := expires]> (token_blacklist d)))
  | OCleanBlacklist now =>
      forall d, I d -> I (with_blacklist d
        (filter (fun kv => q_ltb kv.2 now = false) (token_blacklist d)))
  | _ => True
  end.

Ltac frame := eapply I_ext; [|eassumption]; done.

Lemma keeps_perform_blacklist o : blacklist_safe o -> keeps I (perform o).
Proof.
  intros Ho. destruct o; simpl in Ho |- *.
  - apply keeps_bind; [|eauto with keeps].
    apply keeps_catch; [|intros []; naive_solver eauto with keeps].
    apply keeps_bind; [|eauto with keeps]. apply keeps_transaction, keeps_bind; [eauto with keeps|].
    intros d0. destruct (users d0 !! e); [eauto with keeps|]. apply keeps_modify. intros d Hd. frame.
  - apply keeps_bind; [|eauto with keeps]. apply keeps_transaction, keeps_bind; [eauto with keeps|].
    intros d0. apply keeps_bind; [|eauto with keeps]. apply keeps_modify. intros d Hd. frame.
  - apply keeps_bind; [|eauto with keeps]. unfold update_user.
    destruct fields; [eauto with keeps|]. destruct (List.filter _ _); [eauto with keeps|].
    apply keeps_bind; [|eauto with keeps]. apply keeps_transaction, keeps_modify. intros d Hd. frame.
  - apply keeps_transaction, keeps_bind; [apply keeps_modify; intros d Hd; frame|].
    intros _. apply keeps_for_each. intros [a h]. apply keeps_if; [|eauto with keeps].
    apply keeps_bind; [eauto with keeps|]. intros d0.
    destruct (users d0 !! e); [|eauto with keeps].
    destruct (user_host_accounts d0 !! (e, a)); [eauto with keeps|].
    apply keeps_modify. intros d Hd. frame.
  - apply keeps_for_each. intros [k v]. unfold set_runtime_config. apply keeps_if; [eauto with keeps|].
    apply keeps_bind; [by intros d Hd|]. intros _. apply keeps_transaction, keeps_modify.
    intros d Hd. frame.
  - apply keeps_transaction, keeps_modify. intros d Hd.
    destruct (token_blacklist d !! h) eqn:E; [done|by apply Ho].
  - apply keeps_bind; [|eauto with keeps]. apply keeps_transaction. intros d Hd. by apply Ho.
  - apply keeps_catch; [|naive_solver eauto with keeps].
    apply keeps_transaction, keeps_modify. intros d Hd. frame.
  - apply keeps_bind; [|eauto with keeps]. apply keeps_transaction, keeps_bind; [eauto with keeps|].
    intros d0. apply keeps_bind; [|eauto with keeps]. apply keeps_modify. intros d Hd. frame.
Qed.

Lemma perform_all_blacklist ops d : Forall blacklist_safe ops -> I d -> I (perform_all ops d).
Proof.
  intros Hops. revert d. induction Hops as [|o ops Ho Hops IH]; intros d Hd; [done|]. simpl.
  apply IH. by apply (keeps_perform_blacklist o Ho).
Qed.
End BlacklistInvariant.

(** Every blacklist clean-up of the trace ran at [t] or before. *)
Definition cleaned_by (t : Q) (ops : list account_op) : Prop :=
  Forall (fun o => match o with OCleanBlacklist now => (now <= t)%Q | _ => True end) ops.

(** An entry that runs to [x] is still listed at [t], unless [x] is past. *)
Lemma listed_until h x t ops d x0 :
  token_blacklist d !! h = Some x0 -> (x <= x0)%Q -> cleaned_by t ops ->
  is_Some (token_blacklist (perform_all ops d) !! h) \/ (x < t)%Q.
Proof.
  intros Hl Hx Hops.
  set (I := fun d => (exists x1, token_blacklist d !! h = Some x1 /\ (x <= x1)%Q) \/ (x < t)%Q).
  assert (HI : I (perform_all ops d)).
  { apply perform_all_blacklist.
    - intros d1 d2 E. unfold I. by rewrite E.
    - eapply Forall_impl; [exact Hops|]. intros [] Ho; simpl; try done.
      + intros d1 [(x1 & H1 & H2)|?] Hn; [|by right]. left. exists x1. simpl.
        rewrite lookup_insert_ne by congruence. done.
      + intros d1 [(x1 & H1 & H2)|?]; [|by right]. unfold I. simpl.
        destruct (q_ltb x1 now) eqn:Hq.
        * right. apply q_ltb_true in Hq. lra.
        * left. exists x1. split; [|done]. by apply map_lookup_filter_Some.
    - left. by exists x0. }
  destruct HI as [(x1 & H1 & _)|?]; [left; by eexists|by right].
Qed.
