(* ===== verification/Urls.v ===== *)
(** * [urllib.parse.urlparse(url).hostname] (Python 3.12) *)
From S2P Require Import Prelude Py Effects IpAddress.
Open Scope Z_scope.

(** [s.partition(c)]: before, whether [c] occurs, after. *)
Fixpoint partition_at (c : ascii) (s : string) : string * bool * string :=
  match s with
  | EmptyString => (EmptyString, false, EmptyString)
  | String a s =>
      if Ascii.eqb a c then (EmptyString, true, s)
      else let '(b, found, r) := partition_at c s in (String a b, found, r)
  end.

(** [s.rpartition(c)[2]]: what follows the last [c], or the whole string. *)
Fixpoint after_last (c : ascii) (s : string) : string :=
  match s with
  | EmptyString => EmptyString
  | String a s' =>
      if char_in_str c s' then after_last c s'
      else if Ascii.eqb a c then s' else s
  end.

Fixpoint take_until (p : ascii -> bool) (s : string) : string :=
  match s with
  | EmptyString => EmptyString
  | String a s => if p a then EmptyString else String a (take_until p s)
  end.

Definition is_scheme_char (c : ascii) : bool :=
  is_alnum c || Ascii.eqb c "+"%char || Ascii.eqb c "-"%char || Ascii.eqb c "."%char.

(** Leading control characters and spaces go, and every tab and line break. *)
Definition clean_url (s : string) : string :=
  of_chars (List.filter (fun c => negb (chr_in 9 10 c || chr_in 13 13 c))
    (drop_while (chr_in 0 32) (chars s))).

Definition drop_scheme (s : string) : string :=
  let '(scheme, found, rest) := partition_at ":"%char s in
  match scheme with
  | String c _ => if found && is_alpha c && str_forall is_scheme_char scheme then rest else s
  | EmptyString => s
  end.

Definition netloc_of (s : string) : string :=
  let s := drop_scheme (clean_url s) in
  if startswith "//" s
  then take_until (fun c => Ascii.eqb c "/"%char || Ascii.eqb c "?"%char || Ascii.eqb c "#"%char)
         (str_drop 2 s)
  else "".

(** A bracketed host must be an IPv6 address or an IPvFuture literal. *)
Definition bracketed_ok (h : string) : bool :=
  if startswith "v" h then
    let '(digits, dot, rest) := partition_at "."%char (str_drop 1 h) in
    dot && str_forall is_hex digits && str_nonempty digits && str_nonempty rest
  else match ip_address h with Some (IPv6 _ _) => true | _ => false end.

Definition check_netloc (netloc : string) : res unit :=
  let o := char_in_str "[" netloc in
  let c := char_in_str "]" netloc in
  if negb (Bool.eqb o c) then Raise (ValueError "Invalid IPv6 URL")
  else if o then
    let '(h, _, _) := partition_at "]"%char (snd (partition_at "["%char netloc)) in
    if bracketed_ok h then Ok tt else Raise (ValueError "Invalid IPv6 URL")
  else Ok tt.

Definition lower_host (h : string) : string :=
  let '(name, found, zone) := partition_at "%"%char h in
  if found then (lower name ++ "%" ++ zone)%string else lower name.

(** [urlparse(url).hostname]; [None] when there is no host. *)
Definition urlparse_hostname (url : string) : res (option string) :=
  let netloc := netloc_of url in
  _ ← check_netloc netloc;
  let hostinfo := after_last "@"%char netloc in
  let '(_, bracket, inner) := partition_at "["%char hostinfo in
  let '(host, _, _) :=
    if bracket then partition_at "]"%char inner else partition_at ":"%char hostinfo in
  Ok (if str_nonempty host then Some (lower_host host) else None).

Example hostname_plain :
  urlparse_hostname "https://user@Ops.Example.com:8443/x?y" = Ok (Some "ops.example.com"%string).
Proof. reflexivity. Qed.
Example hostname_v6 : urlparse_hostname "//[FE80::1]:80" = Ok (Some "fe80::1"%string).
Proof. reflexivity. Qed.
Example hostname_none :
  urlparse_hostname <$> ["null"; "ops.lan"; "http:///x"] = [Ok None; Ok None; Ok None].
Proof. reflexivity. Qed.
Example hostname_bad : exists m, urlparse_hostname "http://[::1" = Raise (ValueError m).
Proof. by eexists. Qed.
