(* ===== verification/AuthService.v ===== *)
(** * Passwords, tokens and revocation (src/backend/app/services/auth_service.py)

    PyJWT, bcrypt, pyotp and SHA-256 are the [Crypto] interface.  Computations run
    over the account tables; [now] arguments are [time.time()] readings. *)
From S2P Require Import Prelude Py Effects DbCore Accounts.
Open Scope Z_scope.

Record claims := Claims {
  sub : option string;
  iat : option Q;
  exp : option Q;
  typ : option string
}.

(** The third-party calls.  [jwt_decode require verify now tok] is [jwt.decode]
    with [options={"require": ["exp"]}] when [require], and with the expiry check
    on when [verify]; [None] is a [PyJWTError]. *)
Class Crypto := {
  jwt_encode : claims -> string;
  jwt_decode : bool -> bool -> Q -> string -> option claims;
  sha256_hex : string -> string;
  checkpw : string -> string -> bool;
  hashpw : string -> string -> string;
  totp_verify : string -> Q -> string -> bool
}.

(** What the code relies on: a token accepted with the expiry check carries an
    [exp] that is still ahead, and the unchecked decoding reads the same claims. *)
Class CryptoLaws {C : Crypto} : Prop := {
  decode_checked now tok p :
    jwt_decode true true now tok = Some p ->
    exists e, exp p = Some e /\ (now < e)%Q;
  decode_unchecked now now' tok p :
    jwt_decode true true now tok = Some p -> jwt_decode false false now' tok = Some p
}.

Section AuthService.
Context `{C : Crypto}.

Definition ACCESS_TOKEN_EXPIRE : Q := 900.
Definition REFRESH_TOKEN_EXPIRE : Q := 604800.
Definition PW_MIN : Z := 8.
Definition PW_MAX : Z := 256.

Record pw_checks := PwChecks {
  ck_length : bool; ck_uppercase : bool; ck_lowercase : bool; ck_digit : bool; ck_special : bool
}.

Definition str_exists (p : ascii -> bool) (s : string) : bool := existsb p (chars s).

Definition validate_password (password : string) : bool * pw_checks :=
  let n := str_len password in
  let c := PwChecks ((PW_MIN <=? n) && (n <=? PW_MAX))
             (str_exists is_upper password) (str_exists is_lower password)
             (str_exists is_digit password) (str_exists (fun c => negb (is_alnum c)) password) in
  (ck_length c && ck_uppercase c && ck_lowercase c && ck_digit c && ck_special c, c).

Definition verify_password (e password : string) : M db bool :=
  u ← get_user e;
  mret (match u with
        | None => false
        | Some u => checkpw password (password_hash u)
        end).

Definition must_change_password_of (e : string) : M db bool :=
  u ← get_user e; mret (match u with Some u => must_change u | None => false end).

Definition is_totp_enabled (e : string) : M db bool :=
  u ← get_user e; mret (match u with Some u => totp_on u | None => false end).

Definition verify_totp (now : Q) (e code : string) : M db bool :=
  u ← get_user e;
  mret (match u with
        | None => false
        | Some u => match totp_secret u with
                    | None => false
                    | Some s => str_nonempty s && totp_verify s now code
                    end
        end).

(** [secret] is what [pyotp.random_base32] drew; the result is the new secret. *)
Definition setup_totp (secret e : string) : M db (option string) :=
  u ← get_user e;
  match u with
  | None => mret None
  | Some _ => _ ← update_user e [("totp_secret"%string, VStr secret)]; mret (Some secret)
  end.

Definition confirm_totp (now : Q) (e code : string) : M db bool :=
  ok ← verify_totp now e code;
  if (ok : bool) then _ ← update_user e [("totp_enabled"%string, VInt 1)]; mret true
  else mret false.

Definition create_access_token (now : Q) (e : string) : string :=
  jwt_encode (Claims (Some e) (Some now) (Some (now + ACCESS_TOKEN_EXPIRE)%Q) (Some "access"%string)).

Definition create_refresh_token (now : Q) (e : string) : string :=
  jwt_encode (Claims (Some e) (Some now) (Some (now + REFRESH_TOKEN_EXPIRE)%Q) (Some "refresh"%string)).

Definition _hash_token (tok : string) : string := sha256_hex tok.

Definition verify_token (now : Q) (tok kind : string) : option string :=
  match jwt_decode true true now tok with
  | Some p => if bool_decide (typ p = Some kind) then sub p else None
  | None => None
  end.

(** [if not email]: a missing or empty subject. *)
Definition some_nonempty (o : option string) : option string :=
  match o with Some s => if str_nonempty s then Some s else None | None => None end.

Definition verify_refresh_token (now : Q) (tok : string) : M db (option string) :=
  match some_nonempty (verify_token now tok "refresh") with
  | None => mret None
  | Some e =>
      b ← is_token_blacklisted (_hash_token tok);
      if (b : bool) then mret None
      else match jwt_decode false false now tok with
           | None => mret None
           | Some p =>
               u ← get_user e;
               mret (match u with
                     | None => None
                     | Some u =>
                         if q_ltb (default 0%Q (iat p)) (tokens_valid_after u)
                         then None else Some e
                     end)
           end
  end.

Definition access_revoked (now : Q) (tok : string) (u : option user) : M db bool :=
  b ← is_token_blacklisted (_hash_token tok);
  if (b : bool) then mret true
  else mret (match jwt_decode false false now tok with
             | None => true
             | Some p =>
                 q_ltb (default 0%Q (iat p))
                   (match u with Some u => tokens_valid_after u | None => 0%Q end)
             end).

Definition revoke_token (lifetime : Q) (now : Q) (tok : string) : M db unit :=
  match jwt_decode false false now tok with
  | None => mret tt
  | Some p => blacklist_token (_hash_token tok) (default (now + lifetime)%Q (exp p))
  end.

Definition revoke_refresh_token : Q -> string -> M db unit := revoke_token REFRESH_TOKEN_EXPIRE.
Definition revoke_access_token : Q -> string -> M db unit := revoke_token ACCESS_TOKEN_EXPIRE.

Inductive pw_result :=
| PwOk
| PwError (error : string) (checks : option pw_checks).

Definition clear_initial_admin_password_file : M db unit := modify (fun d => with_pw_file d None).

Definition change_password (now : Q) (salt e old_pw new_pw : string) : M db pw_result :=
  ok ← verify_password e old_pw;
  if negb ok then mret (PwError "Invalid current password" None)
  else
    let '(valid, checks) := validate_password new_pw in
    if negb valid then mret (PwError "Password does not meet requirements" (Some checks))
    else
      _ ← update_user e [("password_hash", VStr (hashpw new_pw salt));
                         ("must_change_password", VInt 0);
                         ("tokens_valid_after", VFloat (Fin now))]%string;
      _ ← clear_initial_admin_password_file;
      mret PwOk.

Definition force_change_password (salt e current_pw new_pw : string) : M db pw_result :=
  u ← get_user e;
  match u with
  | None => mret (PwError "User not found" None)
  | Some u =>
      if negb (must_change u) then mret (PwError "Password change not required" None)
      else
        ok ← verify_password e current_pw;
        if negb ok then mret (PwError "Invalid current password" None)
        else
          let '(valid, checks) := validate_password new_pw in
          if negb valid then mret (PwError "Password does not meet requirements" (Some checks))
          else
            _ ← update_user e [("password_hash", VStr (hashpw new_pw salt));
                               ("must_change_password", VInt 0)]%string;
            _ ← clear_initial_admin_password_file;
            mret PwOk
  end.

End AuthService.
