(* ===== verification/Net.v ===== *)
(** * Trusted-proxy aware client resolution (src/backend/app/net.py)

    [cache] is the module's [_cache] dict: the raw setting it was parsed from
    and the parsed networks.  Each function returns its result and the cache it
    leaves. *)
From S2P Require Import Prelude Py IpAddress.
Open Scope Z_scope.

(** The settings the sources read ([config.Settings]). *)
Record settings := Settings {
  trusted_proxies : string;
  force_secure_cookies : bool;
  allowed_origins : string;
  smtp_allowed_hosts : string
}.

(** An ASGI connection scope, as far as the middleware looks at it. *)
Record scope := Scope {
  sc_type : string;
  sc_path : string;
  sc_method : string;
  sc_scheme : string;
  sc_headers : list (string * string);
  sc_client : option string
}.

Module Net.

Record cache := Cache { raw : option string; nets : list ip_net }.

Definition empty_cache : cache := Cache None [].

(** The parse [_trusted_nets] runs on a cache miss. *)
Definition parse_nets (raw : string) : list ip_net :=
  omap (fun entry =>
    let entry := strip entry in
    if str_nonempty entry then ip_network entry else None) (split_on "," raw).

Definition _trusted_nets (st : settings) (c : cache) : list ip_net * cache :=
  let r := trusted_proxies st in
  let c := if bool_decide (raw c = Some r) then c else Cache (Some r) (parse_nets r) in
  (nets c, c).

#[global] Arguments _trusted_nets : simpl never.

Definition _peer_trusted (st : settings) (c : cache) (peer : string) : bool * cache :=
  match ip_address peer with
  | None => (false, c)
  | Some addr =>
      if is_loopback addr then (true, c)
      else let '(ns, c) := _trusted_nets st c in (existsb (ip_in_net addr) ns, c)
  end.

#[global] Arguments _peer_trusted : simpl never.

Fixpoint header_in (hs : list (string * string)) (name : string) : string :=
  match hs with
  | [] => ""
  | (k, v) :: hs => if String.eqb k name then v else header_in hs name
  end.

Definition _header (sc : scope) (name : string) : string := header_in (sc_headers sc) name.

Definition peer_of (sc : scope) : string := default "" (sc_client sc).

Definition resolve_client_ip (st : settings) (c : cache) (sc : scope) : string * cache :=
  let peer := peer_of sc in
  let fallback := if str_nonempty peer then peer else "unknown" in
  if str_nonempty peer then
    let '(trusted, c) := _peer_trusted st c peer in
    if trusted then
      let xri := strip (_header sc "x-real-ip") in
      if str_nonempty xri then (xri, c)
      else
        let xff := strip (_header sc "x-forwarded-for") in
        if str_nonempty xff then (strip (default "" (head (split_on "," xff))), c)
        else (fallback, c)
    else (fallback, c)
  else (fallback, c).

Definition request_is_secure (st : settings) (c : cache) (sc : scope) : bool * cache :=
  if force_secure_cookies st then (true, c)
  else if String.eqb (sc_scheme sc) "https" then (true, c)
  else
    let peer := peer_of sc in
    if str_nonempty peer then
      let '(trusted, c) := _peer_trusted st c peer in
      if trusted
      then (String.eqb (lower (strip (_header sc "x-forwarded-proto"))) "https", c)
      else (false, c)
    else (false, c).

(** ** The memo is never stale *)

Definition coherent (c : cache) : Prop :=
  forall r, raw c = Some r -> nets c = parse_nets r.

Lemma trusted_nets_coherent st c :
  coherent c ->
  fst (_trusted_nets st c) = parse_nets (trusted_proxies st) /\
  coherent (snd (_trusted_nets st c)).
Proof.
  intros Hc. unfold _trusted_nets. case_bool_decide as E; simpl.
  - split; [by apply Hc | done].
  - split; [done|]. by intros r [= <-].
Qed.

(** What trust means, with no memo in sight. *)
Definition peer_trusted_spec (st : settings) (peer : string) : bool :=
  match ip_address peer with
  | None => false
  | Some addr => is_loopback addr || existsb (ip_in_net addr) (parse_nets (trusted_proxies st))
  end.

Lemma peer_trusted_refines st c peer :
  coherent c ->
  fst (_peer_trusted st c peer) = peer_trusted_spec st peer /\
  coherent (snd (_peer_trusted st c peer)).
Proof.
  intros Hc. unfold _peer_trusted, peer_trusted_spec.
  destruct (ip_address peer) as [addr|]; [|done].
  destruct (is_loopback addr); [done|].
  pose proof (trusted_nets_coherent st c Hc) as [Hn Hc'].
  destruct (_trusted_nets st c) as [ns c']. simpl in *. by subst ns.
Qed.

Definition resolve_spec (st : settings) (sc : scope) : string :=
  let peer := peer_of sc in
  let fallback := if str_nonempty peer then peer else "unknown" in
  let xri := strip (_header sc "x-real-ip") in
  let xff := strip (_header sc "x-forwarded-for") in
  if str_nonempty peer && peer_trusted_spec st peer then
    if str_nonempty xri then xri
    else if str_nonempty xff then strip (default "" (head (split_on "," xff)))
    else fallback
  else fallback.

(** Resolve through the memo once, keeping the coherence of what it leaves. *)
Ltac through_memo st c peer Hc :=
  let Ht := fresh "Ht" in let Hc' := fresh "Hc'" in
  pose proof (peer_trusted_refines st c peer Hc) as [Ht Hc'];
  destruct (_peer_trusted st c peer) as [? ?]; simpl in Ht, Hc'; subst.

(** The memoised resolver computes the memo-free one and keeps the memo
    coherent. *)
Lemma resolve_refines st c sc :
  coherent c ->
  fst (resolve_client_ip st c sc) = resolve_spec st sc /\
  coherent (snd (resolve_client_ip st c sc)).
Proof.
  intros Hc. unfold resolve_client_ip, resolve_spec.
  destruct (str_nonempty (peer_of sc)) eqn:Hp; simpl; [|done].
  through_memo st c (peer_of sc) Hc.
  destruct (peer_trusted_spec st (peer_of sc)); [|done].
  destruct (str_nonempty (strip (_header sc "x-real-ip"))); [done|].
  by destruct (str_nonempty (strip (_header sc "x-forwarded-for"))).
Qed.

End Net.
