(* ===== verification/RateLimit.v ===== *)
(** * Rate limiting (src/backend/app/middleware/rate_limit.py)

    The four in-memory stores, the operations on them, and the middleware.
    Every [time.time()] call of the source is a reading passed in, in the order
    the source takes them.  The theorems compare the pruned stores with the
    complete history of events, which the program never keeps. *)
From S2P Require Import Prelude Py IpAddress Net.
Open Scope Z_scope.

Module RateLimit.

Definition LOGIN_MAX_FAILURES : nat := 5.
Definition LOGIN_LOCKOUT_SECONDS : Q := 300.
Definition API_RPM : nat := 100.
Definition API_WINDOW : Q := 60.
Definition AGENT_KEY_MAX_FAILURES : nat := 5.
Definition AGENT_KEY_LOCKOUT_SECONDS : Q := 300.
Definition AGENT_CONN_MAX : nat := 30.
Definition AGENT_CONN_WINDOW : Q := 60.

Abbreviation log := (gmap string (list Q)).

Record stores := Stores {
  _login_failures : log;
  _api_requests : log;
  _agent_key_failures : log;
  _agent_conns : log
}.

Definition empty_stores : stores := Stores ∅ ∅ ∅ ∅.

Definition set_login (s : stores) (m : log) : stores :=
  Stores m (_api_requests s) (_agent_key_failures s) (_agent_conns s).
Definition set_api (s : stores) (m : log) : stores :=
  Stores (_login_failures s) m (_agent_key_failures s) (_agent_conns s).
Definition set_keys (s : stores) (m : log) : stores :=
  Stores (_login_failures s) (_api_requests s) m (_agent_conns s).
Definition set_conns (s : stores) (m : log) : stores :=
  Stores (_login_failures s) (_api_requests s) (_agent_key_failures s) m.

(** [d.get(ip, [])]. *)
Definition entries_of (m : log) (ip : string) : list Q := default [] (m !! ip).

Definition newer (cutoff : Q) (t : Q) : bool := q_ltb cutoff t.

Definition _cleanup_old (now : Q) (entries : list Q) (window : Q) : list Q :=
  List.filter (newer (now - window)%Q) entries.

(** [len(l) >= maximum]. *)
Definition at_limit (maximum : nat) (l : list Q) : bool := (maximum <=? length l)%nat.
#[global] Arguments at_limit : simpl never.

Definition record_login_failure (now t : Q) (ip : string) (s : stores) : stores :=
  let m := _login_failures s in
  set_login s
    (<[ip := _cleanup_old t (entries_of m ip) LOGIN_LOCKOUT_SECONDS ++ [now]]> m).

Definition clear_login_failures (ip : string) (s : stores) : stores :=
  set_login s (delete ip (_login_failures s)).

Definition is_login_locked (t : Q) (ip : string) (s : stores) : bool * stores :=
  let m := _login_failures s in
  let failures := _cleanup_old t (entries_of m ip) LOGIN_LOCKOUT_SECONDS in
  (at_limit LOGIN_MAX_FAILURES failures, set_login s (<[ip := failures]> m)).

Definition get_lockout_remaining (t : Q) (ip : string) (s : stores) : Z :=
  let failures := entries_of (_login_failures s) ip in
  if (length failures <? LOGIN_MAX_FAILURES)%nat then 0
  else
    let oldest_relevant :=
      default 0%Q (failures !! (length failures - LOGIN_MAX_FAILURES)%nat) in
    Z.max 0 (q_trunc (LOGIN_LOCKOUT_SECONDS - (t - oldest_relevant))%Q).

Definition record_agent_key_failure (now t : Q) (ip : string) (s : stores) : stores :=
  let m := _agent_key_failures s in
  set_keys s
    (<[ip := _cleanup_old t (entries_of m ip) AGENT_KEY_LOCKOUT_SECONDS ++ [now]]> m).

Definition is_agent_key_locked (t : Q) (ip : string) (s : stores) : bool * stores :=
  let m := _agent_key_failures s in
  let failures := _cleanup_old t (entries_of m ip) AGENT_KEY_LOCKOUT_SECONDS in
  (at_limit AGENT_KEY_MAX_FAILURES failures, set_keys s (<[ip := failures]> m)).

(** [t1] is read by the pruning, [t2] stamps the admitted handshake. *)
Definition agent_conn_allowed (t1 t2 : Q) (ip : string) (s : stores) : bool * stores :=
  let m := _agent_conns s in
  let conns := _cleanup_old t1 (entries_of m ip) AGENT_CONN_WINDOW in
  if at_limit AGENT_CONN_MAX conns
  then (false, set_conns s (<[ip := conns]> m))
  else (true, set_conns s (<[ip := conns ++ [t2]]> m)).

(** The periodic sweep over every address. *)
Definition sweep (cutoff : Q) (m : log) : log :=
  omap (fun l => match List.filter (newer cutoff) l with
                 | [] => None
                 | l' => Some l'
                 end) m.

(** The "general API rate limit" part of [__call__]: [now] stamps the request,
    [t] is read by the pruning. *)
Definition api_admit (now t : Q) (ip : string) (s : stores) : bool * stores :=
  let m := _api_requests s in
  let reqs := _cleanup_old t (entries_of m ip) API_WINDOW in
  if at_limit API_RPM reqs then (false, s)
  else
    let m := <[ip := reqs ++ [now]]> m in
    let m := if (1000 <? size m)%nat then sweep (now - API_WINDOW)%Q m else m in
    (true, set_api s m).

Inductive verdict :=
| Forwarded
| LoginLocked (retry_after : Z)
| RateExceeded.

(** The clock readings of one middleware call, in the order they are taken. *)
Record readings := Readings { r_lock : Q; r_remaining : Q; r_now : Q; r_prune : Q }.

Definition middleware (st : settings) (nc : Net.cache) (ck : readings) (sc : scope)
    (s : stores) : verdict * stores * Net.cache :=
  if negb (String.eqb (sc_type sc) "http") then (Forwarded, s, nc)
  else if negb (startswith "/api/" (sc_path sc)) then (Forwarded, s, nc)
  else
    let '(ip, nc) := Net.resolve_client_ip st nc sc in
    let '(locked, s) :=
      if String.eqb (sc_path sc) "/api/auth/login"
      then is_login_locked (r_lock ck) ip s else (false, s) in
    if locked then (LoginLocked (get_lockout_remaining (r_remaining ck) ip s), s, nc)
    else
      let '(ok, s) := api_admit (r_now ck) (r_prune ck) ip s in
      ((if ok then Forwarded else RateExceeded), s, nc).

(** ** Pruned logs against full histories *)

(** [stored] answers every question about instants after [c] as [full] does. *)
Definition agrees (c : Q) (stored full : list Q) : Prop :=
  forall d, (c <= d)%Q -> List.filter (newer d) stored = List.filter (newer d) full.

Lemma newer_weaken c d t : (c <= d)%Q -> newer d t = true -> newer c t = true.
Proof. unfold newer. rewrite !q_ltb_true. lra. Qed.

Lemma agrees_refl c l : agrees c l l.
Proof. by intros d _. Qed.

Lemma agrees_later c c' l l' : (c <= c')%Q -> agrees c l l' -> agrees c' l l'.
Proof. intros Hc H d Hd. apply H. lra. Qed.

Lemma agrees_prune c c' l l' :
  (c <= c')%Q -> agrees c l l' -> agrees c' (List.filter (newer c') l) l'.
Proof.
  intros Hc H d Hd. rewrite filter_filter_weaken; [apply H; lra|].
  intros t. by apply newer_weaken.
Qed.

Lemma agrees_snoc c l l' t : agrees c l l' -> agrees c (l ++ [t]) (l' ++ [t]).
Proof. intros H d Hd. by rewrite !filter_snoc, (H d Hd). Qed.

Lemma agrees_exact c l l' :
  agrees c l l' -> List.filter (newer c) l = List.filter (newer c) l'.
Proof. intros H. apply H. lra. Qed.

Lemma agrees_cleanup now w c l l' :
  (c <= now - w)%Q -> agrees c l l' ->
  _cleanup_old now l w = List.filter (newer (now - w)%Q) l' /\
  agrees (now - w)%Q (_cleanup_old now l w) l'.
Proof.
  intros Hc H. split; [by apply H | by apply agrees_prune with c].
Qed.

#[export] Hint Resolve agrees_refl agrees_snoc agrees_later agrees_prune : glassops.

Lemma entries_insert (m : log) ip ip' l :
  entries_of (<[ip := l]> m) ip' = if decide (ip = ip') then l else entries_of m ip'.
Proof. unfold entries_of. rewrite lookup_insert. by case_decide. Qed.

Lemma entries_delete (m : log) ip ip' :
  entries_of (delete ip m) ip' = if decide (ip = ip') then [] else entries_of m ip'.
Proof. unfold entries_of. rewrite lookup_delete. by case_decide. Qed.

Lemma entries_sweep (m : log) c ip :
  entries_of (sweep c m) ip = List.filter (newer c) (entries_of m ip).
Proof.
  unfold entries_of, sweep. rewrite lookup_omap.
  destruct (m !! ip) as [l|]; [simpl|done].
  by destruct (List.filter (newer c) l).
Qed.

(** A whole log against a whole history. *)
Definition log_agrees (c : Q) (m h : log) : Prop :=
  forall ip, agrees c (entries_of m ip) (entries_of h ip).

Lemma log_agrees_later c c' m h : (c <= c')%Q -> log_agrees c m h -> log_agrees c' m h.
Proof. intros Hc H ip. eauto with glassops. Qed.

Lemma log_agrees_insert c m h ip l l' :
  log_agrees c m h -> agrees c l l' -> log_agrees c (<[ip := l]> m) (<[ip := l']> h).
Proof.
  intros H Hl ip'. rewrite !entries_insert. by case_decide.
Qed.

Lemma log_agrees_store c m h ip l :
  log_agrees c m h -> agrees c l (entries_of h ip) -> log_agrees c (<[ip := l]> m) h.
Proof. intros H Hl ip'. rewrite entries_insert. case_decide; by subst. Qed.

Lemma log_agrees_delete c m h ip :
  log_agrees c m h -> log_agrees c (delete ip m) (delete ip h).
Proof.
  intros H ip'. rewrite !entries_delete. by case_decide; [apply agrees_refl|].
Qed.

Lemma log_agrees_sweep c c' m h :
  (c <= c')%Q -> log_agrees c m h -> log_agrees c' (sweep c' m) h.
Proof. intros Hc H ip. rewrite entries_sweep. eauto with glassops. Qed.


(** ** Login lockout *)

Inductive login_op :=
| LFail (ip : string) (now t : Q)
| LClear (ip : string)
| LAsk (ip : string) (t : Q).

Definition login_impl (s : stores) (o : login_op) : stores * list bool :=
  match o with
  | LFail ip now t => (record_login_failure now t ip s, [])
  | LClear ip => (clear_login_failures ip s, [])
  | LAsk ip t => let '(b, s) := is_login_locked t ip s in (s, [b])
  end.

(** The promise: every failure since the last success is remembered, and an
    address is locked while five of them are less than 300 s old. *)
Definition login_spec (h : log) (o : login_op) : log * list bool :=
  match o with
  | LFail ip now _ => (<[ip := entries_of h ip ++ [now]]> h, [])
  | LClear ip => (delete ip h, [])
  | LAsk ip t =>
      (h, [at_limit LOGIN_MAX_FAILURES
             (List.filter (newer (t - LOGIN_LOCKOUT_SECONDS)%Q) (entries_of h ip))])
  end.

Fixpoint run {S O} (step : S -> O -> S * list bool) (s : S) (ops : list O) : list bool :=
  match ops with
  | [] => []
  | o :: ops => let '(s, out) := step s o in out ++ run step s ops
  end.

(** The readings of a trace never decrease, starting from [r]. *)
Fixpoint login_clocked (r : Q) (ops : list login_op) : Prop :=
  match ops with
  | [] => True
  | LFail _ now t :: ops => (r <= now)%Q /\ (now <= t)%Q /\ login_clocked t ops
  | LClear _ :: ops => login_clocked r ops
  | LAsk _ t :: ops => (r <= t)%Q /\ login_clocked t ops
  end.

Lemma login_sim r s h ops :
  log_agrees (r - LOGIN_LOCKOUT_SECONDS)%Q (_login_failures s) h ->
  login_clocked r ops ->
  run login_impl s ops = run login_spec h ops.
Proof.
  revert r s h. induction ops as [|o ops IH]; intros r s h Hag Hck; [done|].
  destruct o as [ip now t|ip|ip t]; simpl in *.
  - destruct Hck as (Hnow & Ht & Hck). apply (IH t); [|done].
    simpl. apply log_agrees_insert.
    + apply log_agrees_later with (r - LOGIN_LOCKOUT_SECONDS)%Q; [lra|done].
    + apply agrees_snoc. eapply agrees_cleanup; [|apply Hag]. lra.
  - apply (IH r); [|done]. by apply log_agrees_delete.
  - destruct Hck as (Ht & Hck). simpl.
    destruct (agrees_cleanup t LOGIN_LOCKOUT_SECONDS (r - LOGIN_LOCKOUT_SECONDS)%Q _ _
                ltac:(lra) (Hag ip)) as [Heq Hag'].
    rewrite Heq. f_equal. apply (IH t); [|done]. simpl. apply log_agrees_store.
    + apply log_agrees_later with (r - LOGIN_LOCKOUT_SECONDS)%Q; [lra|done].
    + rewrite <- Heq. done.
Qed.

(** C32: the lockout answers are those of the complete failure history. *)
Theorem login_lockout_refines r ops :
  login_clocked r ops ->
  run login_impl empty_stores ops = run login_spec ∅ ops.
Proof.
  intros Hck. apply login_sim with r; [|done].
  intros ip. apply agrees_refl.
Qed.

(** ** Agent connection rate *)

(** One handshake: its address, the pruning read and the stamp. *)
Record handshake := Handshake { hs_ip : string; hs_prune : Q; hs_stamp : Q }.

Fixpoint conns_clocked (r : Q) (l : list handshake) : Prop :=
  match l with
  | [] => True
  | h :: l => (r <= hs_prune h)%Q /\ (hs_prune h <= hs_stamp h)%Q /\
              conns_clocked (hs_stamp h) l
  end.

(** The stamps of the admitted handshakes of each address. *)
Fixpoint admitted (s : stores) (l : list handshake) (acc : log) : log :=
  match l with
  | [] => acc
  | h :: l =>
      let '(ok, s) := agent_conn_allowed (hs_prune h) (hs_stamp h) (hs_ip h) s in
      admitted s l
        (if ok then <[hs_ip h := entries_of acc (hs_ip h) ++ [hs_stamp h]]> acc else acc)
  end.

Definition in_window (a w t : Q) : bool := q_ltb a t && q_leb t (a + w)%Q.
Definition window_count (a w : Q) (l : list Q) : nat := length (List.filter (in_window a w) l).

Lemma window_count_snoc a w l t :
  window_count a w (l ++ [t]) = (window_count a w l + if in_window a w t then 1 else 0)%nat.
Proof.
  unfold window_count. rewrite filter_snoc, length_app. by destruct (in_window a w t).
Qed.

Lemma window_count_newer a w c l :
  (c <= a)%Q -> (window_count a w l <= length (List.filter (newer c) l))%nat.
Proof.
  intros Hc. apply length_filter_weaken. intros t. unfold in_window, newer.
  rewrite andb_true_iff, !q_ltb_true. lra.
Qed.

Lemma admitted_bounded r s l acc :
  log_agrees (r - AGENT_CONN_WINDOW)%Q (_agent_conns s) acc ->
  conns_clocked r l ->
  (forall ip a, window_count a AGENT_CONN_WINDOW (entries_of acc ip) <= AGENT_CONN_MAX)%nat ->
  forall ip a,
    (window_count a AGENT_CONN_WINDOW (entries_of (admitted s l acc) ip) <= AGENT_CONN_MAX)%nat.
Proof.
  revert r s acc. induction l as [|[ip t1 t2] l IH]; intros r s acc Hag Hck Hb; [done|].
  destruct Hck as (H1 & H2 & Hck). simpl in *. unfold agent_conn_allowed.
  destruct (agrees_cleanup t1 AGENT_CONN_WINDOW (r - AGENT_CONN_WINDOW)%Q _ _ ltac:(lra) (Hag ip)) as [Heq Hag'].
  assert (Hlater : log_agrees (t2 - AGENT_CONN_WINDOW)%Q (_agent_conns s) acc).
  { apply log_agrees_later with (r - AGENT_CONN_WINDOW)%Q; [lra|done]. }
  assert (Hl : agrees (t2 - AGENT_CONN_WINDOW)%Q
                 (_cleanup_old t1 (entries_of (_agent_conns s) ip) AGENT_CONN_WINDOW)
                 (entries_of acc ip)).
  { apply agrees_later with (t1 - AGENT_CONN_WINDOW)%Q; [lra|done]. }
  destruct (at_limit AGENT_CONN_MAX _) eqn:Hfull; apply (IH t2); try done; simpl.
  - by apply log_agrees_store.
  - apply log_agrees_insert; [done|]. by apply agrees_snoc.
  - unfold at_limit in Hfull. apply Nat.leb_gt in Hfull. rewrite Heq in Hfull. intros ip' a.
    rewrite entries_insert. case_decide; [subst ip'|apply Hb].
    rewrite window_count_snoc. specialize (Hb ip a).
    destruct (in_window a AGENT_CONN_WINDOW t2) eqn:Hw; [|lia].
    unfold in_window in Hw. rewrite andb_true_iff, q_ltb_true, q_leb_true in Hw.
    pose proof (window_count_newer a AGENT_CONN_WINDOW (t1 - AGENT_CONN_WINDOW)%Q
                  (entries_of acc ip) ltac:(lra)). lia.
Qed.

(** C37: no address opens more than 30 agent connections in any 60 s window. *)
Theorem agent_conn_rate_bounded r l ip a :
  conns_clocked r l ->
  (window_count a AGENT_CONN_WINDOW (entries_of (admitted empty_stores l ∅) ip)
     <= AGENT_CONN_MAX)%nat.
Proof.
  intros Hck. apply admitted_bounded with r; [|done|].
  - intros ip'. apply agrees_refl.
  - intros ip' a'. unfold entries_of, window_count. rewrite lookup_empty. simpl. lia.
Qed.


(** ** The general API limit and its periodic sweep *)

Record request := Request { rq_ip : string; rq_now : Q; rq_prune : Q }.

Definition api_impl (s : stores) (q : request) : stores * list bool :=
  let '(ok, s) := api_admit (rq_now q) (rq_prune q) (rq_ip q) s in (s, [ok]).

(** The promise, on the complete history of admitted requests, with no sweep. *)
Definition api_spec (h : log) (q : request) : log * list bool :=
  let recent := List.filter (newer (rq_prune q - API_WINDOW)%Q) (entries_of h (rq_ip q)) in
  if at_limit API_RPM recent then (h, [false])
  else (<[rq_ip q := entries_of h (rq_ip q) ++ [rq_now q]]> h, [true]).

Fixpoint api_clocked (r : Q) (l : list request) : Prop :=
  match l with
  | [] => True
  | q :: l => (r <= rq_now q)%Q /\ (rq_now q <= rq_prune q)%Q /\ api_clocked (rq_prune q) l
  end.

Lemma api_sim r s h l :
  log_agrees (r - API_WINDOW)%Q (_api_requests s) h ->
  api_clocked r l ->
  run api_impl s l = run api_spec h l.
Proof.
  revert r s h. induction l as [|[ip now t] l IH]; intros r s h Hag Hck; [done|].
  destruct Hck as (Hnow & Ht & Hck). simpl in *.
  unfold api_impl, api_admit, api_spec. simpl.
  destruct (agrees_cleanup t API_WINDOW (r - API_WINDOW)%Q _ _ ltac:(lra) (Hag ip))
    as [Heq Hag'].
  rewrite Heq. destruct (at_limit API_RPM _).
  - simpl. f_equal. apply (IH t); [|done].
    apply log_agrees_later with (r - API_WINDOW)%Q; [lra|done].
  - simpl. f_equal. apply (IH t); [|done]. simpl. rewrite <- Heq.
    assert (Hin : log_agrees (t - API_WINDOW)%Q
              (<[ip := _cleanup_old t (entries_of (_api_requests s) ip) API_WINDOW ++ [now]]>
                 (_api_requests s))
              (<[ip := entries_of h ip ++ [now]]> h)).
    { apply log_agrees_insert; [|by apply agrees_snoc].
      apply log_agrees_later with (r - API_WINDOW)%Q; [lra|done]. }
    destruct (1000 <? _)%nat; [|done].
    intros ip'. rewrite entries_sweep. intros d Hd.
    rewrite filter_filter_weaken; [by apply Hin|]. intros x. apply newer_weaken. lra.
Qed.

(** Sweeping idle addresses never changes an admission decision. *)
Theorem api_limit_refines r l :
  api_clocked r l -> run api_impl empty_stores l = run api_spec ∅ l.
Proof. intros Hck. apply api_sim with r; [|done]. intros ip. apply agrees_refl. Qed.

(** ** The advertised Retry-After *)

Lemma q_trunc_above x : (x < inject_Z (q_trunc x) + 1)%Q.
Proof.
  destruct x as [n d]. unfold q_trunc, Qlt. simpl.
  pose proof (Z.quot_rem' n (Z.pos d)).
  pose proof (Z.rem_bound_abs n (Z.pos d) ltac:(lia)). nia.
Qed.

Lemma filter_sorted_tail (l : list Q) k x c :
  StronglySorted Qle l -> l !! k = Some x -> (x <= c)%Q ->
  (length (List.filter (newer c) l) <= length l - S k)%nat.
Proof.
  revert k. induction l as [|y l IH]; intros k Hs Hk Hx; [done|].
  apply StronglySorted_inv in Hs as [Hs Hall].
  assert (Hy : newer c y = false).
  { unfold newer. apply q_ltb_false. destruct k as [|k]; simpl in Hk.
    - injection Hk as ->. done.
    - apply list_elem_of_lookup_2 in Hk. rewrite Forall_forall in Hall.
      specialize (Hall _ Hk). lra. }
  simpl. rewrite Hy. destruct k as [|k]; simpl in Hk.
  - pose proof (length_filter_le (newer c) l). simpl. lia.
  - specialize (IH k Hs Hk Hx). lia.
Qed.

(** An address that waits the advertised seconds plus one is let in. *)
Theorem retry_after_honest s ip t t' :
  StronglySorted Qle (entries_of (_login_failures s) ip) ->
  (t + inject_Z (get_lockout_remaining t ip s) + 1 <= t')%Q ->
  fst (is_login_locked t' ip s) = false.
Proof.
  intros Hs Ht. unfold is_login_locked, get_lockout_remaining, _cleanup_old in *.
  set (l := entries_of (_login_failures s) ip) in *. simpl. unfold at_limit.
  apply Nat.leb_gt. pose proof (length_filter_le (newer (t' - LOGIN_LOCKOUT_SECONDS)%Q) l).
  destruct (length l <? LOGIN_MAX_FAILURES)%nat eqn:Hlen; [apply Nat.ltb_lt in Hlen; lia|].
  apply Nat.ltb_ge in Hlen. unfold LOGIN_MAX_FAILURES in *.
  destruct (lookup_lt_is_Some_2 l (length l - 5)) as [x Hx]; [lia|].
  rewrite Hx in Ht. simpl in Ht.
  set (rem := (LOGIN_LOCKOUT_SECONDS - (t - x))%Q) in *.
  pose proof (q_trunc_above rem) as Hq.
  assert (Hmax : (inject_Z (q_trunc rem) <= inject_Z (Z.max 0 (q_trunc rem)))%Q)
    by (rewrite <- Zle_Qle; lia).
  assert (Hold : (x <= t' - LOGIN_LOCKOUT_SECONDS)%Q) by (subst rem; lra).
  pose proof (filter_sorted_tail l _ _ _ Hs Hx Hold). lia.
Qed.

(** ** The middleware *)

(** Only API requests are counted, and a locked login is refused without
    being counted. *)
Theorem middleware_scope st nc ck sc s :
  let ip := fst (Net.resolve_client_ip st nc sc) in
  let api := String.eqb (sc_type sc) "http" && startswith "/api/" (sc_path sc) in
  let login := String.eqb (sc_path sc) "/api/auth/login" in
  let out := middleware st nc ck sc s in
  (api = false -> out = (Forwarded, s, nc)) /\
  (api = true -> login && fst (is_login_locked (r_lock ck) ip s) = true ->
     (exists n, fst (fst out) = LoginLocked n /\ 0 <= n) /\
     _api_requests (snd (fst out)) = _api_requests s) /\
  (api = true -> login && fst (is_login_locked (r_lock ck) ip s) = false ->
     fst (fst out) = Forwarded <-> fst (api_admit (r_now ck) (r_prune ck) ip s) = true).
Proof.
  unfold middleware. destruct (String.eqb (sc_type sc) "http"); simpl;
    [|repeat split; done].
  destruct (startswith "/api/" (sc_path sc)); simpl; [|repeat split; done].
  split; [done|]. destruct (Net.resolve_client_ip st nc sc) as [ip nc']. simpl.
  destruct (String.eqb (sc_path sc) "/api/auth/login"); simpl.
  - split; intros _ Hl; rewrite Hl.
    + split; [|done]. eexists. split; [done|]. unfold get_lockout_remaining.
      case_match; lia.
    + unfold api_admit. cbn [_api_requests set_login]. by destruct (at_limit API_RPM _).
  - split; [done|]. intros _ _. destruct (api_admit _ _ ip s) as [ok s']. simpl.
    by destruct ok.
Qed.

(** ** Witnesses *)

Lemma login_lockout_refines_witness :
  let f := (fun i => LFail "10.0.0.1" i i) in
  let ops := [f 1%Q; f 2%Q; f 3%Q; f 4%Q; LAsk "10.0.0.1" 5%Q; f 6%Q; LAsk "10.0.0.1" 7%Q;
              LAsk "10.0.0.2" 8%Q; LAsk "10.0.0.1" 302%Q; LClear "10.0.0.1";
              LAsk "10.0.0.1" 303%Q] in
  login_clocked 0 ops /\ run login_impl empty_stores ops = run login_spec ∅ ops /\
  run login_spec ∅ ops = [false; true; false; false; false].
Proof.
  intros f ops. assert (H : login_clocked 0 ops) by q_closed.
  split; [exact H | split; [apply (login_lockout_refines 0 ops H) | vm_compute; reflexivity]].
Defined.

Lemma agent_conn_rate_bounded_witness :
  let l := (fun k => Handshake "10.0.0.1" (inject_Z k) (inject_Z k)) <$> [1; 2; 3] in
  conns_clocked 0 l /\
  (window_count 0 AGENT_CONN_WINDOW
     (entries_of (admitted empty_stores l ∅) "10.0.0.1") <= AGENT_CONN_MAX)%nat.
Proof.
  intros l. assert (H : conns_clocked 0 l) by q_closed.
  split; [exact H | apply (agent_conn_rate_bounded 0 l "10.0.0.1" 0 H)].
Defined.

Lemma api_limit_refines_witness :
  let l := [Request "10.0.0.1" 1%Q 1%Q; Request "10.0.0.2" 2%Q 3%Q] in
  api_clocked 0 l /\ run api_impl empty_stores l = run api_spec ∅ l.
Proof.
  intros l. assert (H : api_clocked 0 l) by q_closed.
  split; [exact H | apply (api_limit_refines 0 l H)].
Defined.

Lemma retry_after_honest_witness :
  let s := set_login empty_stores {[ "10.0.0.1" := [0; 10; 20; 30; 40]%Q ]} in
  get_lockout_remaining 100 "10.0.0.1" s = 200 /\
  fst (is_login_locked 301 "10.0.0.1" s) = false.
Proof.
  intros s. split; [reflexivity|].
  apply (retry_after_honest s "10.0.0.1" 100 301).
  - repeat constructor; q_closed.
  - vm_compute. discriminate.
Defined.

End RateLimit.
