(* ===== verification/AuthMiddleware.v ===== *)
(** * The request gate (src/backend/app/middleware/auth.py, websocket/ws_auth.py,
      dependencies.py)

    [web] is what a request touches: the tables and the memo of parsed origins.
    [decode_utf8] is [bytes.decode()] of a header value. *)
From S2P Require Import Prelude Py Effects DbCore Accounts Urls IpAddress Net AuthService.
Open Scope Z_scope.

(** ** Origins: ws_auth.py *)

Record origin_cache := OriginCache { oc_raw : option string; oc_hosts : list string }.

Record web := Web { w_db : db; w_origins : origin_cache }.

Definition on_db {A} : M db A -> M web A := zoom w_db (fun d w => Web d (w_origins w)).
Definition on_origins {A} : M origin_cache A -> M web A :=
  zoom w_origins (fun o w => Web (w_db w) o).

(** The parse [_allowed_hosts] runs when the setting changed; [urlparse] may raise. *)
Fixpoint parse_hosts (entries : list string) : res (list string) :=
  match entries with
  | [] => Ok []
  | entry :: entries =>
      let entry := strip entry in
      if str_nonempty entry then
        host ← urlparse_hostname (if contains "//" entry then entry else ("//" ++ entry)%string);
        rest ← parse_hosts entries;
        Ok (match some_nonempty host with Some h => lower h :: rest | None => rest end)
      else parse_hosts entries
  end.

Definition _allowed_hosts (st : settings) : M origin_cache (list string) :=
  let raw := allowed_origins st in
  c ← gets id;
  if bool_decide (oc_raw c = Some raw) then mret (oc_hosts c)
  else
    hosts ← lift_res (parse_hosts (split_on "," raw));
    _ ← modify (fun _ => OriginCache (Some raw) hosts);
    mret hosts.

Definition _origin_host_trusted (st : settings) (origin host : string) : M origin_cache bool :=
  o ← lift_res (if str_nonempty origin then urlparse_hostname origin else Ok None);
  match some_nonempty o with
  | None => mret false
  | Some o_host =>
      allowed ← _allowed_hosts st;
      match allowed with
      | _ :: _ => mret (str_mem (lower o_host) allowed)
      | [] =>
          if str_nonempty host then
            h ← lift_res (urlparse_hostname ("//" ++ host)%string);
            mret (bool_decide (Some o_host = h))
          else mret false
      end
  end.

Definition csrf_origin_ok (st : settings) (origin host : string) : M origin_cache bool :=
  if str_nonempty origin then _origin_host_trusted st origin host else mret true.

(** A WebSocket handshake. *)
Record handshake_req := HandshakeReq {
  ws_scope : scope;
  ws_cookies : list (string * string);
  ws_query : list (string * string)
}.

Definition ws_header (ws : handshake_req) (name : string) : string :=
  Net._header (ws_scope ws) name.

Definition origin_ok (st : settings) (ws : handshake_req) : M origin_cache bool :=
  _origin_host_trusted st (ws_header ws "origin") (ws_header ws "host").

Definition _BEARER : string := "bearer".

Definition _offered (ws : handshake_req) : list string :=
  List.filter str_nonempty (strip <$> split_on "," (ws_header ws "sec-websocket-protocol")).

Definition ws_token (ws : handshake_req) : string :=
  match find (fun p => negb (String.eqb p _BEARER)) (_offered ws) with
  | Some p => p
  | None => default "" (dict_get "access_token" (ws_cookies ws))
  end.

Definition accept_subprotocol (ws : handshake_req) : option string :=
  if str_mem _BEARER (_offered ws) then Some _BEARER else None.

(** ** The middleware: middleware/auth.py *)

Definition CSRF_METHODS : list string := ["POST"; "PUT"; "DELETE"; "PATCH"].
Definition PUBLIC_PATHS : list string :=
  ["/health"; "/api/auth/login"; "/api/auth/refresh"; "/api/auth/password-policy"; "/api/time"].
Definition PUBLIC_PREFIXES : list string :=
  ["/ws/"; "/api/auth/login"; "/api/auth/refresh"; "/api/auth/logout";
   "/api/auth/validate-password"].
Definition ADMIN_WRITE_METHODS : list string := ["POST"; "PUT"; "DELETE"; "PATCH"].
Definition ADMIN_WRITE_PREFIXES : list string :=
  ["/api/docker"; "/api/process"; "/api/settings"; "/api/alerts"; "/api/logs"; "/api/users"].
Definition PWCHANGE_ALLOWED : list string :=
  ["/api/auth/force-password"; "/api/auth/password"; "/api/auth/me"].

Inductive http_verdict :=
| Forward (user_email : option string)
| Respond (status : Z) (detail : string).

Definition header_last (name : string) (sc : scope) : string :=
  fold_left (fun acc kv => if String.eqb kv.1 name then kv.2 else acc) (sc_headers sc) "".

(** The first cookie part that carries the token. *)
Fixpoint cookie_token (parts : list string) : string :=
  match parts with
  | [] => ""
  | p :: parts =>
      let p := strip p in
      if startswith "access_token=" p then str_drop 13 p else cookie_token parts
  end.

Definition public_path (path : string) : bool :=
  str_mem path PUBLIC_PATHS || existsb (fun p => startswith p path) PUBLIC_PREFIXES.

Definition api_request (sc : scope) : bool :=
  String.eqb (sc_type sc) "http" && startswith "/api/" (sc_path sc).

Definition privileged_write (sc : scope) : bool :=
  str_mem (sc_method sc) ADMIN_WRITE_METHODS &&
  existsb (fun p => startswith p (sc_path sc)) ADMIN_WRITE_PREFIXES.

Section Middleware.
Context `{C : Crypto} (decode_utf8 : string -> option string) (st : settings).

(** The last authorization and cookie headers; each one is decoded as it is met. *)
Fixpoint auth_headers (hs : list (string * string)) (acc : string * string)
    : res (string * string) :=
  match hs with
  | [] => Ok acc
  | (name, value) :: hs =>
      if str_mem name ["authorization"; "cookie"] then
        match decode_utf8 value with
        | None => Raise (ValueError "invalid utf-8")
        | Some v => auth_headers hs (if String.eqb name "authorization"
                                     then (v, acc.2) else (acc.1, v))
        end
      else auth_headers hs acc
  end.

Definition request_token (sc : scope) : res string :=
  '(auth, cookie) ← auth_headers (sc_headers sc) ("", "");
  Ok (if startswith "Bearer " auth then str_drop 7 auth
      else if str_nonempty cookie then cookie_token (split_on ";" cookie) else "").

Definition csrf_check (sc : scope) : M web bool :=
  if str_mem (sc_method sc) CSRF_METHODS
  then on_origins (csrf_origin_ok st (header_last "origin" sc) (header_last "host" sc))
  else mret true.

(** [now] is read by [verify_token], [now'] by the revocation check. *)
Definition jwt_middleware (now now' : Q) (sc : scope) : M web http_verdict :=
  if negb (api_request sc) then mret (Forward None)
  else
    ok ← csrf_check sc;
    if negb ok then mret (Respond 403 "Cross-origin request blocked")
    else if public_path (sc_path sc) then mret (Forward None)
    else
      token ← lift_res (request_token sc);
      if negb (str_nonempty token) then mret (Respond 401 "Not authenticated")
      else match some_nonempty (verify_token now token "access") with
      | None => mret (Respond 401 "Invalid or expired token")
      | Some e =>
          looked_up ← catch (u ← on_db (get_user e); mret (Some u))
                            (fun _ => Some (mret None));
          match looked_up with
          | None => mret (Respond 503 "Authentication backend unavailable")
          | Some None => mret (Respond 401 "Invalid or expired token")
          | Some (Some u) =>
              if negb (active u) then mret (Respond 403 "Account disabled")
              else
                revoked ← on_db (access_revoked now' token (Some u));
                if (revoked : bool) then mret (Respond 401 "Token revoked")
                else if must_change u && negb (str_mem (sc_path sc) PWCHANGE_ALLOWED)
                then mret (Respond 403 "Password change required")
                else if privileged_write sc && negb (String.eqb (role u) "admin")
                then mret (Respond 403 "Admin access required")
                else mret (Forward (Some e))
          end
      end.

(** ** dependencies.py *)

(** [creds] is the bearer credential FastAPI parsed, [cookie] the access_token
    cookie. *)
Definition get_current_user (now : Q) (creds : option string) (cookie : option string)
    : res string :=
  let token := match creds with Some t => Some t | None => cookie end in
  match some_nonempty token with
  | None => Raise (HTTPException 401 "Not authenticated")
  | Some t =>
      match some_nonempty (verify_token now t "access") with
      | None => Raise (HTTPException 401 "Invalid or expired token")
      | Some e => Ok e
      end
  end.

Definition require_admin (e : string) : M db string :=
  u ← get_user e;
  match u with
  | Some u =>
      if String.eqb (role u) "admin" && active u then mret e
      else raise (HTTPException 403 "Admin access required")
  | None => raise (HTTPException 403 "Admin access required")
  end.

(** ** Who is let through *)

(** The conditions under which a protected request may act as [e]. *)
Record entitled (now now' : Q) (sc : scope) (d : db) (e token : string) (u : user)
    (p : claims) : Prop := Entitled {
  en_token : request_token sc = Ok token;
  en_present : str_nonempty token = true;
  en_verified : some_nonempty (verify_token now token "access") = Some e;
  en_user : users d !! e = Some u;
  en_active : active u = true;
  en_listed : token_blacklist d !! _hash_token token = None;
  en_claims : jwt_decode false false now' token = Some p;
  en_floor : (tokens_valid_after u <= default 0%Q (iat p))%Q;
  en_confined : must_change u = true -> str_mem (sc_path sc) PWCHANGE_ALLOWED = true;
  en_admin : privileged_write sc = true -> role u = "admin"%string
}.

Lemma csrf_keeps_db sc w r w1 : csrf_check sc w = (r, w1) -> w_db w1 = w_db w.
Proof.
  unfold csrf_check. destruct (str_mem _ _); [|by intros [= _ <-]].
  unfold on_origins, zoom. destruct (csrf_origin_ok _ _ _ _). by intros [= _ <-].
Qed.

Lemma get_user_ok e d r d' :
  get_user e d = (Ok r, d') <->
  _require_admission (adm d) = Ok tt /\ users d !! e = r /\ d = d'.
Proof. apply (reading_ok adm (fun d => users d !! e)). Qed.

Lemma on_db_ok {A} (m : M db A) w a w' :
  on_db m w = (Ok a, w') <-> exists d', m (w_db w) = (Ok a, d') /\ w' = Web d' (w_origins w).
Proof.
  unfold on_db, zoom. destruct (m (w_db w)) as [r d']. split.
  - intros [= -> <-]. by exists d'.
  - by intros (d2 & [= -> ->] & ->).
Qed.

Lemma access_revoked_false now tok u d d' :
  access_revoked now tok (Some u) d = (Ok false, d') <->
  _require_admission (adm d) = Ok tt /\ token_blacklist d !! _hash_token tok = None /\
  (exists p, jwt_decode false false now tok = Some p /\
             (tokens_valid_after u <= default 0%Q (iat p))%Q) /\ d = d'.
Proof.
  unfold access_revoked, is_token_blacklisted, mbind, M_bind, reading.
  destruct (_require_admission (adm d)) as [[]|ex]; [|by split; [|intros (? & _)]]. simpl.
  case_bool_decide as Hb; simpl.
  - split; [done|]. intros (_ & Hn & _). rewrite Hn in Hb. by destruct Hb.
  - rewrite <- eq_None_not_Some in Hb. unfold mret, M_ret.
    destruct (jwt_decode false false now tok) as [p|].
    + destruct (q_ltb _ _) eqn:Hq.
      * split; [done|]. intros (_ & _ & (p' & [= <-] & Hp) & _).
        apply q_ltb_true in Hq. lra.
      * apply q_ltb_false in Hq. split; [|by intros (_ & _ & _ & ->)].
        intros [= ->]. split; [done|]. split; [done|]. split; [by exists p|done].
    + split; [done|]. by intros (_ & _ & (p & ? & _) & _).
Qed.

(** The decision after CSRF and the public paths, on a healthy database. *)
Lemma protected_forward now now' sc w w1 e w2 :
  api_request sc = true -> public_path (sc_path sc) = false ->
  csrf_check sc w = (Ok true, w1) ->
  _require_admission (adm (w_db w)) = Ok tt ->
  jwt_middleware now now' sc w = (Ok (Forward (Some e)), w2) <->
  w2 = w1 /\ exists token u p, entitled now now' sc (w_db w) e token u p.
Proof.
  intros Hapi Hpub Hcsrf Hadm. pose proof (csrf_keeps_db _ _ _ _ Hcsrf) as Hdb.
  unfold jwt_middleware. rewrite Hapi. simpl. unfold mbind at 1, M_bind at 1.
  rewrite Hcsrf. simpl. rewrite Hpub. unfold mbind at 1, M_bind at 1, lift_res.
  destruct (request_token sc) as [token|ex] eqn:Htok;
    [|split; [done|intros (_ & ? & ? & ? & []); congruence]].
  destruct (str_nonempty token) eqn:Hne; simpl;
    [|split; [done|intros (_ & ? & ? & ? & []); congruence]].
  destruct (some_nonempty (verify_token now token "access")) as [e0|] eqn:Hv;
    [|split; [done|intros (_ & ? & ? & ? & []); congruence]].
  unfold mbind at 1, M_bind at 1, catch. unfold mbind at 1, M_bind at 1.
  assert (Hget : on_db (get_user e0) w1 = (Ok (users (w_db w) !! e0), w1)).
  { apply on_db_ok. exists (w_db w1). rewrite Hdb. split; [by apply get_user_ok|].
    by destruct w1; simpl in *; subst. }
  rewrite Hget. simpl. destruct (users (w_db w) !! e0) as [u|] eqn:Hu;
    [|split; [done|intros (_ & ? & ? & ? & []); congruence]].
  destruct (active u) eqn:Hact; simpl; [|split; [done|intros (_ & ? & ? & ? & []); congruence]].
  split.
  - intros (rv & w3 & Hrv & Hrest)%bind_ok. destruct rv; [done|].
    apply on_db_ok in Hrv as (d' & (_ & Hbl & (p & Hp & Hfl) & <-)%access_revoked_false & ->).
    rewrite Hdb in *. simpl in Hrest.
    destruct (must_change u && negb (str_mem (sc_path sc) PWCHANGE_ALLOWED)) eqn:Hmc; [done|].
    destruct (privileged_write sc && negb (String.eqb (role u) "admin")) eqn:Hpw; [done|].
    injection Hrest as <- <-. split; [by destruct w1; simpl in *; subst|].
    exists token, u, p. split; try done.
    + intros Hm. rewrite Hm in Hmc. by apply negb_false_iff in Hmc.
    + intros Hw. rewrite Hw in Hpw. apply negb_false_iff in Hpw. by apply String.eqb_eq.
  - intros (-> & token' & u' & p & [H1 H2 H3 H4 H5 H6 H7 H8 H9 H10]).
    assert (token' = token) as -> by congruence. assert (e0 = e) as -> by congruence.
    assert (u' = u) as -> by congruence.
    apply bind_ok. exists false, w1. split.
    + apply on_db_ok. exists (w_db w1). split; [|by destruct w1]. rewrite Hdb.
      apply access_revoked_false. split; [done|]. split; [done|]. split; [by exists p|done].
    + destruct (must_change u); simpl; [rewrite (H9 eq_refl); simpl|].
      all: destruct (privileged_write sc); simpl; [rewrite (H10 eq_refl)|]; done.
Qed.

(** C17: a request to a protected API path is passed on exactly when its origin is
    trusted and its token belongs to an active, unrevoked, unconfined account
    with the role the path asks for; the tables are not touched. *)
Theorem gate_exact now now' sc w w1 e w2 :
  api_request sc = true -> public_path (sc_path sc) = false ->
  csrf_check sc w = (Ok true, w1) ->
  _require_admission (adm (w_db w)) = Ok tt ->
  jwt_middleware now now' sc w = (Ok (Forward (Some e)), w2) <->
  w2 = w1 /\ exists token u p, entitled now now' sc (w_db w) e token u p.
Proof. apply protected_forward. Qed.

(** Whoever was let through was entitled, whatever the memo held. *)
Lemma gate_passed now now' sc w e w2 :
  api_request sc = true -> public_path (sc_path sc) = false ->
  jwt_middleware now now' sc w = (Ok (Forward (Some e)), w2) ->
  exists token u p, entitled now now' sc (w_db w) e token u p.
Proof.
  intros Hapi Hpub Hfwd.
  destruct (csrf_check sc w) as [[ok|ex] w1] eqn:Hcsrf.
  2:{ exfalso. revert Hfwd. unfold jwt_middleware. rewrite Hapi. simpl.
      unfold mbind, M_bind. by rewrite Hcsrf. }
  destruct ok.
  2:{ exfalso. revert Hfwd. unfold jwt_middleware. rewrite Hapi. simpl.
      unfold mbind, M_bind. by rewrite Hcsrf. }
  destruct (_require_admission (adm (w_db w))) as [[]|ex] eqn:Hadm.
  - pose proof (proj1 (protected_forward now now' sc w w1 e w2 Hapi Hpub Hcsrf Hadm) Hfwd).
    tauto.
  - exfalso. revert Hfwd. unfold jwt_middleware. rewrite Hapi. simpl.
    unfold mbind at 1, M_bind at 1. rewrite Hcsrf. simpl. rewrite Hpub.
    intros (token & w3 & Htok & Hrest)%bind_ok. injection Htok as Htok <-.
    destruct (str_nonempty token); [|done]. simpl in Hrest.
    destruct (some_nonempty (verify_token now token "access")) as [e0|]; [|done].
    revert Hrest. unfold mbind at 1, M_bind at 1, catch. unfold mbind at 1, M_bind at 1.
    unfold on_db at 1, zoom at 1, get_user, reading.
    rewrite (csrf_keeps_db _ _ _ _ Hcsrf), Hadm. done.
Qed.

(** Nothing under /api/ is passed on with a failed origin check or an
    unreachable account table, and outside the public paths nothing is passed on
    without an account. *)
Theorem gate_fails_closed now now' sc w v w2 :
  api_request sc = true ->
  jwt_middleware now now' sc w = (Ok (Forward v), w2) ->
  (exists w1, csrf_check sc w = (Ok true, w1)) /\
  (public_path (sc_path sc) = false ->
     exists e, v = Some e /\ _require_admission (adm (w_db w)) = Ok tt).
Proof.
  intros Hapi. unfold jwt_middleware. rewrite Hapi. simpl.
  intros (ok & w1 & Hcsrf & Hrest)%bind_ok.
  pose proof (csrf_keeps_db _ _ _ _ Hcsrf) as Hdb.
  destruct ok; [|done]. split; [by exists w1|]. intros Hpub. simpl in Hrest. rewrite Hpub in Hrest.
  apply bind_ok in Hrest as (token & w3 & Htok & Hrest). injection Htok as Htok <-.
  destruct (str_nonempty token); [|done]. simpl in Hrest.
  destruct (some_nonempty (verify_token now token "access")) as [e|]; [|done].
  exists e. apply bind_ok in Hrest as (l & w4 & Hl & Hrest).
  destruct l as [[u|]|]; [|done|done]. destruct (active u); [|done]. simpl in Hrest.
  apply bind_ok in Hrest as (rv & w5 & Hrv & Hrest). destruct rv; [done|].
  destruct (must_change u && _); [done|]. destruct (privileged_write sc && _); [done|].
  injection Hrest as <- <-. split; [done|].
  apply on_db_ok in Hrv as (d' & (Hadm & _)%access_revoked_false & _).
  unfold catch, mbind, M_bind in Hl. unfold on_db, zoom, get_user, reading in Hl.
  rewrite <- Hdb. destruct (_require_admission (adm (w_db w1))) as [[]|]; [done|].
  by injection Hl.
Qed.

End Middleware.
