(* ===== verification/AuthRoutes.v ===== *)
(** * Login, logout, refresh and password routes (src/backend/app/routers/auth.py)

    [session] is what these routes touch: the account tables, the rate limiter's
    stores and the trusted-proxy memo. *)
From S2P Require Import Prelude Py Effects DbCore Accounts IpAddress Net AuthService RateLimit AuthMiddleware.
Open Scope Z_scope.

Record session := Session {
  s_db : db;
  s_limits : RateLimit.stores;
  s_proxies : Net.cache
}.

Definition sdb {A} : M db A -> M session A :=
  zoom s_db (fun d s => Session d (s_limits s) (s_proxies s)).
Definition limits (f : RateLimit.stores -> RateLimit.stores) : M session unit :=
  modify (fun s => Session (s_db s) (f (s_limits s)) (s_proxies s)).
Definition proxies {A} (f : Net.cache -> A * Net.cache) : M session A := fun s =>
  let '(a, c) := f (s_proxies s) in (Ok a, Session (s_db s) (s_limits s) c).

Record cookie := Cookie { ck_name : string; ck_value : string; ck_secure : bool;
                          ck_max_age : Z; ck_path : string }.

Definition _set_auth_cookies (access refresh : string) (secure : bool) : list cookie :=
  [Cookie "access_token" access secure 900 "/";
   Cookie "refresh_token" refresh secure 604800 "/api/auth/refresh"].

Record login_request := LoginRequest {
  lr_email : string; lr_password : string; lr_totp : option string
}.

Inductive login_reply :=
| RequiresTotp
| LoggedIn (access refresh : string) (must : bool) (secure : bool) (rl : string)
    (hosts : gmap string string) (cookies : list cookie).

(** The clock readings of a login, in order: the failure record takes two. *)
Record login_clock := LoginClock {
  lc_fail : Q; lc_prune : Q; lc_audit : Q; lc_totp : Q; lc_access : Q; lc_refresh : Q
}.

Definition ip_detail (ip : string) (reason : option string) : dict :=
  ("ip"%string, VStr ip) :: match reason with Some r => [("reason"%string, VStr r)] | None => [] end.

Section Routes.
Context `{C : Crypto} (st : settings).

Definition refuse_login (ck : login_clock) (e ip reason detail : string) : M session login_reply :=
  _ ← limits (RateLimit.record_login_failure (lc_fail ck) (lc_prune ck) ip);
  _ ← sdb (audit (lc_audit ck) e "auth.login_failed" "" (ip_detail ip (Some reason)));
  raise (HTTPException 401 detail).

Definition grant_login (ck : login_clock) (sc : scope) (e ip : string) : M session login_reply :=
  _ ← limits (RateLimit.clear_login_failures ip);
  _ ← sdb (audit (lc_audit ck) e "auth.login" "" (ip_detail ip None));
  let access := create_access_token (lc_access ck) e in
  let refresh := create_refresh_token (lc_refresh ck) e in
  secure ← proxies (fun c => Net.request_is_secure st c sc);
  row ← sdb (get_user e);
  must ← sdb (must_change_password_of e);
  hosts ← sdb (get_user_host_accounts e);
  mret (LoggedIn access refresh must secure
          (match row with Some u => role u | None => "user"%string end)
          hosts (_set_auth_cookies access refresh secure)).

Definition login (ck : login_clock) (sc : scope) (body : login_request) : M session login_reply :=
  let e := lr_email body in
  ip ← proxies (fun c => Net.resolve_client_ip st c sc);
  ok ← sdb (verify_password e (lr_password body));
  if negb ok then refuse_login ck e ip "password" "Invalid credentials"
  else
    row ← sdb (get_user e);
    if match row with Some u => negb (active u) | None => false end
    then raise (HTTPException 403 "Account disabled")
    else
      totp ← sdb (is_totp_enabled e);
      if (totp : bool) then
        match some_nonempty (lr_totp body) with
        | None => mret RequiresTotp
        | Some code =>
            good ← sdb (verify_totp (lc_totp ck) e code);
            if (good : bool) then grant_login ck sc e ip
            else refuse_login ck e ip "totp" "Invalid TOTP code"
        end
      else grant_login ck sc e ip.

(** [refresh_body] is the request's refresh token, [cookie] and [auth] the
    access-token cookie and the Authorization header. *)
Definition logout (now1 now2 : Q) (refresh_body cookie auth : string) : M session unit :=
  _ ← (if str_nonempty refresh_body then sdb (revoke_refresh_token now1 refresh_body) else mret tt);
  let access :=
    if str_nonempty cookie then cookie
    else if startswith "Bearer " auth then str_drop 7 auth else "" in
  if str_nonempty access then sdb (revoke_access_token now2 access) else mret tt.

Definition force_password (now : Q) (salt e current new_pw : string) : M session unit :=
  r ← sdb (force_change_password salt e current new_pw);
  match r with
  | PwOk => sdb (audit now e "auth.force_change" "" [])
  | PwError m _ => raise (HTTPException 400 m)
  end.

Definition update_password (now : Q) (salt e old new_pw : string) : M session unit :=
  r ← sdb (change_password now salt e old new_pw);
  match r with
  | PwOk => mret tt
  | PwError m _ => raise (HTTPException 400 m)
  end.

(** [refresh] up to the point where it has decided for whom to issue tokens ... *)
Definition refresh_verify (now : Q) (tok : string) : M session string :=
  r ← sdb (verify_refresh_token now tok);
  match some_nonempty r with
  | None => raise (HTTPException 401 "Invalid refresh token")
  | Some e => mret e
  end.

(** ... and from there on. *)
Definition refresh_issue (now1 now2 now3 : Q) (sc : scope) (tok e : string)
    : M session (string * string * list cookie) :=
  _ ← sdb (revoke_refresh_token now1 tok);
  let access := create_access_token now2 e in
  let new_refresh := create_refresh_token now3 e in
  secure ← proxies (fun c => Net.request_is_secure st c sc);
  mret (access, new_refresh, _set_auth_cookies access new_refresh secure).

Definition refresh_token_of (body : string) (from_cookie : option string) : string :=
  if str_nonempty body then body else default "" from_cookie.

Definition refresh (now0 now1 now2 now3 : Q) (sc : scope) (body : string) (from_cookie : option string)
    : M session (string * string * list cookie) :=
  let tok := refresh_token_of body from_cookie in
  e ← refresh_verify now0 tok;
  refresh_issue now1 now2 now3 sc tok e.

Definition TOTP_ENROLMENT_UNAVAILABLE : string :=
  "Two-factor authentication cannot be enabled yet: the login screen does not prompt for a code.".

Definition _refuse_totp_enrolment : M session unit :=
  raise (HTTPException 501 TOTP_ENROLMENT_UNAVAILABLE).

Definition totp_setup (secret e : string) : M session string :=
  _ ← _refuse_totp_enrolment;
  r ← sdb (setup_totp secret e);
  match r with
  | Some s => mret s
  | None => raise (HTTPException 400 "User not found")
  end.

Definition totp_confirm (now : Q) (e code : string) : M session unit :=
  _ ← _refuse_totp_enrolment;
  ok ← sdb (confirm_totp now e code);
  if negb ok then raise (HTTPException 400 "Invalid TOTP code") else mret tt.

Record profile := Profile {
  pf_totp : bool; pf_must : bool; pf_role : string; pf_active : bool;
  pf_hosts : gmap string string
}.

Definition me (e : string) : M session profile :=
  row ← sdb (get_user e);
  totp ← sdb (is_totp_enabled e);
  must ← sdb (must_change_password_of e);
  hosts ← sdb (get_user_host_accounts e);
  mret (Profile totp must (match row with Some u => role u | None => "user"%string end)
          (match row with Some u => active u | None => true end) hosts).

(** ** Login, branch by branch *)

Inductive login_outcome := GoodLogin | NeedTotp | BadPassword | Disabled | BadTotp.

(** The decision the route takes, read off the tables. *)
Definition login_decide (now : Q) (d : db) (body : login_request) : login_outcome :=
  match users d !! lr_email body with
  | None => BadPassword
  | Some u =>
      if negb (checkpw (lr_password body) (password_hash u)) then BadPassword
      else if negb (active u) then Disabled
      else if totp_on u then
        match some_nonempty (lr_totp body), totp_secret u with
        | None, _ => NeedTotp
        | Some code, Some secret =>
            if str_nonempty secret && totp_verify secret now code then GoodLogin else BadTotp
        | Some _, None => BadTotp
        end
      else GoodLogin
  end.

Lemma sdb_reading {A} (f : db -> A) s :
  _require_admission (adm (s_db s)) = Ok tt -> sdb (reading adm f) s = (Ok (f (s_db s)), s).
Proof. intros H. unfold sdb, zoom, reading. rewrite H. by destruct s. Qed.

Lemma audit_spec now usr action agent detail d :
  exists d', audit now usr action agent detail d = (Ok tt, d') /\
    adm d' = adm d /\ users d' = users d /\ user_host_accounts d' = user_host_accounts d /\
    token_blacklist d' = token_blacklist d.
Proof.
  unfold audit, catch, transaction, rolled_back, modify.
  destruct (_require_admission (adm d)) as [[]|]; eexists; split; done.
Qed.

Lemma sdb_audit now usr action agent detail s :
  exists s', sdb (audit now usr action agent detail) s = (Ok tt, s') /\
    adm (s_db s') = adm (s_db s) /\ users (s_db s') = users (s_db s) /\
    s_limits s' = s_limits s /\ s_proxies s' = s_proxies s.
Proof.
  destruct (audit_spec now usr action agent detail (s_db s)) as (d' & Hrun & Ha & Hu & _).
  unfold sdb, zoom. rewrite Hrun. eexists. split; [done|]. done.
Qed.

Lemma bind_step {S A B} (m : M S A) (k : A -> M S B) s a s1 :
  m s = (Ok a, s1) -> (m ≫= k) s = k a s1.
Proof. intros H. unfold mbind, M_bind. by rewrite H. Qed.

Lemma refuse_login_spec ck e ip reason detail s :
  exists s', refuse_login ck e ip reason detail s = (Raise (HTTPException 401 detail), s') /\
    s_limits s' = RateLimit.record_login_failure (lc_fail ck) (lc_prune ck) ip (s_limits s) /\
    users (s_db s') = users (s_db s).
Proof.
  unfold refuse_login. set (s1 := Session (s_db s) (RateLimit.record_login_failure
    (lc_fail ck) (lc_prune ck) ip (s_limits s)) (s_proxies s)).
  rewrite (bind_step _ _ _ tt s1) by done.
  destruct (sdb_audit (lc_audit ck) e "auth.login_failed" "" (ip_detail ip (Some reason)) s1)
    as (s2 & Hrun & _ & Hu & Hl & _).
  rewrite (bind_step _ _ _ tt s2) by done. exists s2. by rewrite Hl, Hu.
Qed.

Lemma grant_login_spec ck sc e ip s :
  _require_admission (adm (s_db s)) = Ok tt ->
  exists must secure rl hosts cookies s',
    grant_login ck sc e ip s =
      (Ok (LoggedIn (create_access_token (lc_access ck) e) (create_refresh_token (lc_refresh ck) e)
             must secure rl hosts cookies), s') /\
    s_limits s' = RateLimit.clear_login_failures ip (s_limits s) /\
    users (s_db s') = users (s_db s).
Proof.
  intros Hadm. unfold grant_login.
  set (s1 := Session (s_db s) (RateLimit.clear_login_failures ip (s_limits s)) (s_proxies s)).
  rewrite (bind_step _ _ _ tt s1) by done.
  destruct (sdb_audit (lc_audit ck) e "auth.login" "" (ip_detail ip None) s1)
    as (s2 & Hrun & Ha & Hu & Hl & Hp).
  rewrite (bind_step _ _ _ tt s2) by done. unfold proxies.
  destruct (Net.request_is_secure st (s_proxies s2) sc) as [secure c] eqn:Hsec.
  set (s3 := Session (s_db s2) (s_limits s2) c).
  rewrite (bind_step _ _ s2 secure s3) by (by rewrite Hsec).
  assert (Hadm3 : _require_admission (adm (s_db s3)) = Ok tt) by (unfold s3; simpl; by rewrite Ha).
  unfold get_user. rewrite (bind_step _ _ _ _ _ (sdb_reading _ s3 Hadm3)).
  rewrite (bind_step _ _ s3 (match users (s_db s3) !! e with Some u => must_change u | None => false end) s3).
  2:{ unfold must_change_password_of, sdb, zoom, get_user, mbind, M_bind, reading.
      rewrite Hadm3. by destruct s3. }
  unfold get_user_host_accounts. rewrite (bind_step _ _ _ _ _ (sdb_reading _ s3 Hadm3)).
  do 5 eexists. exists s3. split; [done|]. unfold s3. simpl. by rewrite Hl, Hu.
Qed.

(** Every branch of the login route: tokens are issued exactly for a known,
    active account with the right password and, when enrolled, the right code;
    each refusal is counted against the address, a success clears its count. *)
Theorem login_branches ck sc body s :
  _require_admission (adm (s_db s)) = Ok tt ->
  let ip := fst (Net.resolve_client_ip st (s_proxies s) sc) in
  let counted := RateLimit.record_login_failure (lc_fail ck) (lc_prune ck) ip (s_limits s) in
  exists s', users (s_db s') = users (s_db s) /\
  match login_decide (lc_totp ck) (s_db s) body with
  | GoodLogin => exists must secure rl hosts cookies,
      login ck sc body s =
        (Ok (LoggedIn (create_access_token (lc_access ck) (lr_email body))
               (create_refresh_token (lc_refresh ck) (lr_email body))
               must secure rl hosts cookies), s') /\
      s_limits s' = RateLimit.clear_login_failures ip (s_limits s)
  | NeedTotp => login ck sc body s = (Ok RequiresTotp, s') /\ s_limits s' = s_limits s
  | Disabled => login ck sc body s = (Raise (HTTPException 403 "Account disabled"), s') /\
      s_limits s' = s_limits s
  | BadPassword => login ck sc body s = (Raise (HTTPException 401 "Invalid credentials"), s') /\
      s_limits s' = counted
  | BadTotp => login ck sc body s = (Raise (HTTPException 401 "Invalid TOTP code"), s') /\
      s_limits s' = counted
  end.
Proof.
  intros Hadm. cbn zeta. unfold login, login_decide, proxies.
  destruct (Net.resolve_client_ip st (s_proxies s) sc) as [ip c] eqn:Hip. simpl.
  set (s1 := Session (s_db s) (s_limits s) c).
  rewrite (bind_step _ _ s ip s1) by (by rewrite Hip).
  set (row := users (s_db s) !! lr_email body).
  assert (Hget : forall A (k : option user -> M db A),
            sdb (get_user (lr_email body) ≫= k) s1 =
            (let '(r, d) := k row (s_db s1) in (r, Session d (s_limits s1) (s_proxies s1)))).
  { intros A k. unfold sdb, zoom, get_user, mbind, M_bind, reading. simpl. by rewrite Hadm. }
  unfold verify_password. rewrite (bind_step _ _ s1 (match row with
    | None => false | Some u => checkpw (lr_password body) (password_hash u) end) s1)
    by (by rewrite Hget).
  destruct row as [u|] eqn:Hrow.
  2:{ destruct (refuse_login_spec ck (lr_email body) ip "password" "Invalid credentials" s1)
        as (s' & ? & ? & ?). by exists s'. }
  destruct (checkpw (lr_password body) (password_hash u)) eqn:Hpw; simpl.
  2:{ destruct (refuse_login_spec ck (lr_email body) ip "password" "Invalid credentials" s1)
        as (s' & ? & ? & ?). by exists s'. }
  rewrite (bind_step _ _ s1 (Some u) s1) by (unfold get_user; by rewrite sdb_reading, <- Hrow).
  destruct (active u); simpl; [|by exists s1].
  unfold is_totp_enabled. rewrite (bind_step _ _ s1 (totp_on u) s1) by (by rewrite Hget).
  assert (Hgrant : forall s2, users (s_db s2) = users (s_db s) -> s_limits s2 = s_limits s ->
            adm (s_db s2) = adm (s_db s) ->
            exists s', users (s_db s') = users (s_db s) /\
            exists must secure rl hosts cookies,
              grant_login ck sc (lr_email body) ip s2 =
                (Ok (LoggedIn (create_access_token (lc_access ck) (lr_email body))
                  (create_refresh_token (lc_refresh ck) (lr_email body))
                  must secure rl hosts cookies), s') /\
              s_limits s' = RateLimit.clear_login_failures ip (s_limits s)).
  { intros s2 Hu2 Hl2 Ha2. destruct (grant_login_spec ck sc (lr_email body) ip s2)
      as (? & ? & ? & ? & ? & s' & ? & Hl & Hu); [by rewrite Ha2|].
    exists s'. rewrite Hu. split; [done|]. do 5 eexists. by rewrite <- Hl2. }
  destruct (totp_on u); simpl; [|by apply Hgrant].
  destruct (some_nonempty (lr_totp body)) as [code|]; [|by exists s1].
  unfold verify_totp. rewrite (bind_step _ _ s1 (match totp_secret u with None => false
    | Some x => str_nonempty x && totp_verify x (lc_totp ck) code end) s1) by (by rewrite Hget).
  assert (Hbad := refuse_login_spec ck (lr_email body) ip "totp" "Invalid TOTP code" s1).
  destruct (totp_secret u) as [x|]; [destruct (_ && _)|].
  - by apply Hgrant.
  - destruct Hbad as (s' & ? & ? & ?). by exists s'.
  - destruct Hbad as (s' & ? & ? & ?). by exists s'.
Qed.

End Routes.
