(* ===== verification/Samples.v ===== *)
(** * A concrete token scheme and installation

    A [Crypto] instance that satisfies its laws, one administrator and the
    requests the witnesses run. *)
From S2P Require Import Prelude Py Effects DbCore Accounts IpAddress Net AuthService RateLimit AuthMiddleware AuthRoutes.
Open Scope Z_scope.

(** ** A concrete token scheme *)

Definition sample_claims (tok : string) : option claims :=
  if String.eqb tok "acc" then
    Some (Claims (Some "a@x"%string) (Some 0%Q) (Some 900%Q) (Some "access"%string))
  else if String.eqb tok "ref" then
    Some (Claims (Some "a@x"%string) (Some 0%Q) (Some 604800%Q) (Some "refresh"%string))
  else None.

#[export] Instance sample_crypto : Crypto := {|
  jwt_encode c := if bool_decide (typ c = Some "access"%string) then "acc" else "ref";
  jwt_decode _ verify now tok :=
    match sample_claims tok with
    | Some p => if verify && q_leb (default 0%Q (exp p)) now then None else Some p
    | None => None
    end;
  sha256_hex tok := tok;
  checkpw pw h := String.eqb pw h;
  hashpw pw _ := pw;
  totp_verify _ _ code := String.eqb code "123456"
|}.

#[export] Instance sample_laws : CryptoLaws.
Proof.
  split.
  - intros now tok p. simpl. destruct (sample_claims tok) as [q|] eqn:E; [|done].
    destruct (q_leb _ _) eqn:Hq; simpl; [done|]. intros [= <-].
    unfold sample_claims in E. repeat case_match; simplify_eq; simpl in *;
      (eexists; split; [done|]); apply Qnot_le_lt; rewrite <- q_leb_true; congruence.
  - intros now now' tok p. simpl. destruct (sample_claims tok); [|done]. by case_match.
Defined.

Definition sample_user : user := User "a@x" "Pa55word!" None 0 0 0 "admin" 1 0.
Definition sample_db : db :=
  Db healthy {[ "a@x"%string := sample_user ]} ∅ ∅ ∅ None [] 1 None.
Definition sample_settings : settings := Settings "127.0.0.1" false "" "".
Definition sample_request (path : string) : scope :=
  Scope "http" path "POST" "http" [("authorization", "Bearer acc")]%string None.
Definition sample_session : session :=
  Session sample_db RateLimit.empty_stores Net.empty_cache.
Definition sample_web (d : db) : web := Web d (OriginCache None []).
Definition ascii_utf8 (s : string) : option string :=
  if str_forall (chr_in 0 127) s then Some s else None.

Definition second_admin : user := User "b@x" "Pa55word!" None 0 0 0 "admin" 1 0.
Definition two_admins : db :=
  Db healthy {[ "a@x"%string := sample_user; "b@x"%string := second_admin ]} ∅ ∅ ∅ None [] 1 None.
