(* ===== verification/Revocation.v ===== *)
(** * What revocation achieves: logout, password change, refresh rotation

    Theorems across AuthService, AuthMiddleware and AuthRoutes, against the
    [CryptoLaws] interface. *)
From S2P Require Import Prelude Py Effects DbCore Accounts IpAddress Net AuthService RateLimit AuthMiddleware AuthRoutes Samples.
Open Scope Z_scope.

Section Revocation.
Context {C : Crypto} {CL : CryptoLaws} (decode_utf8 : string -> option string) (st : settings).

Lemma verify_token_claims now tok kind e :
  verify_token now tok kind = Some e ->
  exists p x, jwt_decode true true now tok = Some p /\ exp p = Some x /\ (now < x)%Q /\
              sub p = Some e /\ typ p = Some kind.
Proof.
  unfold verify_token. destruct (jwt_decode true true now tok) as [p|] eqn:Hd; [|done].
  case_bool_decide; [|done]. intros Hs. destruct (decode_checked _ _ _ Hd) as (x & ? & ?).
  by exists p, x.
Qed.

Lemma some_nonempty_some o s : some_nonempty o = Some s -> o = Some s.
Proof. destruct o as [t|]; simpl; [|done]. by destruct (str_nonempty t); intros [= ->]. Qed.

(** A token blacklisted for as long as it lives is dead for good: listed while it
    could still verify, and expired once the clean-up may drop it. *)
Lemma dead_token t0 t now tok p x x0 d ops kind e :
  jwt_decode false false t0 tok = Some p -> exp p = Some x ->
  token_blacklist d !! _hash_token tok = Some x0 -> (x <= x0)%Q ->
  cleaned_by t ops -> (t <= now)%Q ->
  verify_token now tok kind = Some e ->
  is_Some (token_blacklist (perform_all ops d) !! _hash_token tok).
Proof.
  intros Hp Hx Hl Hle Hops Ht (p' & x' & Hd & Hx' & Hlt & _ & _)%verify_token_claims.
  destruct (listed_until _ x t ops d x0 Hl Hle Hops) as [?|Hpast]; [done|].
  rewrite (decode_unchecked now t0 tok p' Hd) in Hp. simplify_eq. lra.
Qed.

Lemma revoke_token_lists lifetime now tok p x d d' :
  jwt_decode false false now tok = Some p -> exp p = Some x ->
  (forall x0, token_blacklist d !! _hash_token tok = Some x0 -> (x <= x0)%Q) ->
  revoke_token lifetime now tok d = (Ok tt, d') ->
  (exists x0, token_blacklist d' !! _hash_token tok = Some x0 /\ (x <= x0)%Q).
Proof.
  intros Hp Hx Hold. unfold revoke_token. rewrite Hp, Hx. simpl.
  unfold blacklist_token. rewrite (transaction_ok adm). intros [_ Hrun].
  injection Hrun as <-. destruct (token_blacklist d !! _hash_token tok) as [x0|] eqn:E.
  - exists x0. auto.
  - exists x. split; [apply lookup_insert_eq|lra].
Qed.

(** C20: a logged-out access token never passes the gate again, across later
    account operations and blacklist clean-ups. *)
Theorem logout_is_final t0 t now now' tok p x d d1 ops sc w e w2 :
  jwt_decode false false t0 tok = Some p -> exp p = Some x ->
  (forall x0, token_blacklist d !! _hash_token tok = Some x0 -> (x <= x0)%Q) ->
  revoke_access_token t0 tok d = (Ok tt, d1) ->
  cleaned_by t ops -> (t <= now)%Q ->
  w_db w = perform_all ops d1 ->
  api_request sc = true -> public_path (sc_path sc) = false ->
  request_token decode_utf8 sc = Ok tok ->
  jwt_middleware decode_utf8 st now now' sc w <> (Ok (Forward (Some e)), w2).
Proof.
  intros Hp Hx Hold Hrev Hops Ht Hw Hapi Hpub Htok Hfwd.
  destruct (gate_passed decode_utf8 st now now' sc w e w2 Hapi Hpub Hfwd)
    as (token & u & q & [H1 _ H3 _ _ H6 _ _ _ _]).
  assert (token = tok) as -> by congruence.
  destruct (revoke_token_lists _ _ _ _ _ _ _ Hp Hx Hold Hrev) as (x0 & Hl & Hle).
  apply some_nonempty_some in H3.
  destruct (dead_token t0 t now tok p x x0 d1 ops _ _ Hp Hx Hl Hle Hops Ht H3) as [y Hy].
  rewrite Hw in H6. congruence.
Qed.

(** C36: after a password change every access token issued before it is refused. *)
Theorem password_change_evicts t salt e old_pw new_pw d d' now now' sc w w2 token p :
  change_password t salt e old_pw new_pw d = (Ok PwOk, d') ->
  w_db w = d' ->
  api_request sc = true -> public_path (sc_path sc) = false ->
  request_token decode_utf8 sc = Ok token ->
  jwt_decode false false now' token = Some p -> (default 0%Q (iat p) < t)%Q ->
  jwt_middleware decode_utf8 st now now' sc w <> (Ok (Forward (Some e)), w2).
Proof.
  intros Hchg Hw Hapi Hpub Htok Hp Hiat Hfwd.
  destruct (gate_passed decode_utf8 st now now' sc w e w2 Hapi Hpub Hfwd)
    as (tok' & u & q & [H1 _ _ H4 _ _ H7 H8 _ _]).
  assert (tok' = token) as -> by congruence. assert (q = p) as -> by congruence.
  unfold change_password in Hchg. apply bind_ok in Hchg as (ok & d1 & Hver & Hchg).
  destruct ok; cbn [negb] in Hchg; [|done]. destruct (validate_password new_pw) as [valid checks].
  destruct valid; cbn [negb] in Hchg; [|done].
  apply bind_ok in Hver as (u0 & d0 & (_ & _ & <-)%get_user_ok & Hver).
  apply mret_ok in Hver as [_ <-].
  apply bind_ok in Hchg as (b & d2 & Hupd & Hchg). unfold update_user in Hupd. simpl in Hupd.
  apply bind_ok in Hupd as ([] & d3 & Htx & Hupd). apply (transaction_ok adm) in Htx as [_ Htx].
  apply mret_ok in Hupd as [_ ->]. injection Htx as <-. injection Hchg as <-.
  rewrite Hw in H4. simpl in H4. rewrite lookup_alter_eq in H4.
  destruct (users d !! e) as [[]|]; [|done]. simpl in H4. injection H4 as <-. simpl in H8. lra.
Qed.

(** ** Refresh tokens *)

Lemma refresh_verify_ok now tok s e s' :
  refresh_verify now tok s = (Ok e, s') ->
  verify_token now tok "refresh" = Some e /\
  token_blacklist (s_db s) !! _hash_token tok = None /\ s' = s.
Proof.
  unfold refresh_verify. intros (r & s1 & Hv & Hr)%bind_ok.
  destruct (some_nonempty r) as [e'|] eqn:Hne; [|done]. apply mret_ok in Hr as [-> <-].
  apply some_nonempty_some in Hne as ->.
  unfold sdb, zoom in Hv. destruct (verify_refresh_token now tok (s_db s)) as [r' d'] eqn:Hrun.
  injection Hv as -> <-. unfold verify_refresh_token in Hrun.
  destruct (some_nonempty _) as [e1|] eqn:Hn1; [|done]. apply some_nonempty_some in Hn1.
  apply bind_ok in Hrun as (b & d1 & Hb & Hrun). apply (reading_ok adm) in Hb as (_ & Hb & <-).
  destruct b; [done|]. apply bool_decide_eq_false, eq_None_not_Some in Hb.
  destruct (jwt_decode false false now tok) as [p|]; [|done].
  apply bind_ok in Hrun as (u & d2 & (_ & _ & <-)%get_user_ok & Hrun).
  apply mret_ok in Hrun as [Hu <-]. destruct u as [u|]; [|done]. destruct (q_ltb _ _); [done|].
  injection Hu as ->. by destruct s.
Qed.

(** A refresh token is spent by its first use: run one after the other, a
    second refresh is refused however the tables change in between. *)
Theorem refresh_once t now0 now1 now2 now3 m0 m1 m2 m3 sc sc' tok r s s1 s2 ops :
  (forall x0 x p, token_blacklist (s_db s) !! _hash_token tok = Some x0 ->
     jwt_decode false false now1 tok = Some p -> exp p = Some x -> (x <= x0)%Q) ->
  str_nonempty tok = true ->
  refresh st now0 now1 now2 now3 sc tok None s = (Ok r, s1) ->
  cleaned_by t ops -> (t <= m0)%Q -> s_db s2 = perform_all ops (s_db s1) ->
  _require_admission (adm (s_db s2)) = Ok tt ->
  fst (refresh st m0 m1 m2 m3 sc' tok None s2) =
    Raise (HTTPException 401 "Invalid refresh token").
Proof.
  intros Hold Hne Hrun Hops Ht Hs2 Hadm. unfold refresh, refresh_token_of in *. rewrite Hne in *.
  apply bind_ok in Hrun as (e & s0 & (Hv & Hfree & ->)%refresh_verify_ok & Hiss).
  unfold refresh_issue in Hiss. apply bind_ok in Hiss as ([] & s3 & Hrev & Hiss).
  destruct (verify_token_claims _ _ _ _ Hv) as (p & x & Hd & Hx & _).
  unfold sdb, zoom in Hrev. destruct (revoke_refresh_token now1 tok (s_db s)) as [rr d'] eqn:Hrr.
  injection Hrev as -> <-.
  assert (Hdec : jwt_decode false false now1 tok = Some p) by (by apply (decode_unchecked now0)).
  destruct (revoke_token_lists _ _ _ _ _ _ _ Hdec Hx ltac:(intros x0 ?; by eapply Hold) Hrr)
    as (x0 & Hl & Hle).
  assert (Hs1 : s_db s1 = d').
  { apply bind_ok in Hiss as (b & s4 & Hp & Hiss). unfold proxies in Hp. simpl in Hp.
    destruct (Net.request_is_secure _ _ _). injection Hp as _ <-. by injection Hiss as _ <-. }
  rewrite Hs1 in Hs2. unfold mbind, M_bind at 1.
  destruct (refresh_verify m0 tok s2) as [[e2|ex] s4] eqn:Hv2.
  - exfalso. apply refresh_verify_ok in Hv2 as (Hv2 & Hfree2 & _).
    destruct (dead_token now1 t m0 tok p x x0 d' ops _ _ Hdec Hx Hl Hle Hops Ht Hv2) as [y Hy].
    rewrite Hs2 in Hfree2. congruence.
  - simpl. f_equal. clear -Hv2 Hadm. unfold refresh_verify, mbind, M_bind, sdb, zoom in Hv2.
    unfold verify_refresh_token in Hv2.
    destruct (some_nonempty (verify_token m0 tok "refresh")) as [e'|]; [|by injection Hv2].
    unfold is_token_blacklisted, mbind, M_bind, reading in Hv2. rewrite Hadm in Hv2.
    case_bool_decide; [by injection Hv2|].
    destruct (jwt_decode false false m0 tok) as [p|]; [|by injection Hv2].
    unfold get_user, reading in Hv2. rewrite Hadm in Hv2.
    destruct (users (s_db s2) !! e'); [|by injection Hv2].
    destruct (q_ltb _ _); simpl in Hv2; [by injection Hv2|].
    destruct (str_nonempty e'); by injection Hv2.
Qed.

Lemma refresh_issue_ok now1 now2 now3 sc tok e s :
  _require_admission (adm (s_db s)) = Ok tt ->
  exists r s', refresh_issue st now1 now2 now3 sc tok e s = (Ok r, s') /\
    adm (s_db s') = adm (s_db s).
Proof.
  intros Hadm.
  assert (Hrev : exists d', revoke_refresh_token now1 tok (s_db s) = (Ok tt, d') /\
                            adm d' = adm (s_db s)).
  { unfold revoke_refresh_token, revoke_token.
    destruct (jwt_decode false false now1 tok) as [p|]; [|by exists (s_db s)].
    unfold blacklist_token, transaction, rolled_back, modify. rewrite Hadm.
    eexists. split; [done|]. by case_match. }
  destruct Hrev as (d' & Hrev & Ha). unfold refresh_issue.
  rewrite (bind_step _ _ s tt (Session d' (s_limits s) (s_proxies s)))
    by (unfold sdb, zoom; by rewrite Hrev).
  unfold proxies. simpl. unfold mbind, M_bind. simpl.
  destruct (Net.request_is_secure st (s_proxies s) sc) as [b c]. by do 2 eexists.
Qed.

(** Two refreshes with one token that both verify before either revokes it
    are both granted: verification and revocation are separate steps. *)
Theorem refresh_race now0 now1 now2 now3 m0 m1 m2 m3 sc sc' tok e1 e2 s s1 s2 :
  refresh_verify now0 tok s = (Ok e1, s1) ->
  refresh_verify m0 tok s1 = (Ok e2, s2) ->
  exists r1 s3 r2 s4,
    refresh_issue st now1 now2 now3 sc tok e1 s2 = (Ok r1, s3) /\
    refresh_issue st m1 m2 m3 sc' tok e2 s3 = (Ok r2, s4).
Proof.
  intros H1 H2.
  assert (Hadm : _require_admission (adm (s_db s)) = Ok tt).
  { unfold refresh_verify, mbind, M_bind, sdb, zoom, verify_refresh_token in H1.
    destruct (some_nonempty _) as [e|]; [|done].
    unfold is_token_blacklisted, mbind, M_bind, reading in H1.
    by destruct (_require_admission (adm (s_db s))) as [[]|]. }
  apply refresh_verify_ok in H1 as (_ & _ & ->). apply refresh_verify_ok in H2 as (_ & _ & ->).
  destruct (refresh_issue_ok now1 now2 now3 sc tok e1 s Hadm) as (r1 & s3 & Hr1 & Ha).
  destruct (refresh_issue_ok m1 m2 m3 sc' tok e2 s3) as (r2 & s4 & Hr2 & _); [by rewrite Ha|].
  by exists r1, s3, r2, s4.
Qed.

End Revocation.

(** ** Concrete runs *)

Lemma gate_exact_witness :
  let sc := sample_request "/api/docker/containers" in
  api_request sc = true /\ public_path (sc_path sc) = false /\
  csrf_check sample_settings sc (sample_web sample_db) = (Ok true, sample_web sample_db) /\
  exists token u p, entitled ascii_utf8 10 11 sc sample_db "a@x" token u p.
Proof.
  intros sc. split; [reflexivity|]. split; [reflexivity|]. split; [reflexivity|].
  apply (gate_exact ascii_utf8 sample_settings 10 11 sc (sample_web sample_db)
           (sample_web sample_db) "a@x" (sample_web sample_db)); vm_compute; reflexivity.
Defined.

Lemma gate_fails_closed_witness :
  let sc := sample_request "/api/docker/containers" in
  exists v w2, jwt_middleware ascii_utf8 sample_settings 10 11 sc (sample_web sample_db) =
    (Ok (Forward v), w2) /\ exists e, v = Some e.
Proof.
  intros sc. eexists _, _. split; [vm_compute; reflexivity|].
  destruct (gate_fails_closed ascii_utf8 sample_settings 10 11 sc (sample_web sample_db)
              (Some "a@x"%string) (sample_web sample_db) eq_refl) as [_ H];
    [vm_compute; reflexivity|].
  destruct (H eq_refl) as (e & He & _). exists e. exact He.
Defined.

Lemma logout_is_final_witness :
  let sc := sample_request "/api/docker/containers" in
  let d1 := with_blacklist sample_db {[ "acc"%string := 900%Q ]} in
  let ops := [OCleanBlacklist 500; OAudit 1 "x" "y" "" []] in
  revoke_access_token 10 "acc" sample_db = (Ok tt, d1) /\
  forall w2, jwt_middleware ascii_utf8 sample_settings 600 601 sc
               (sample_web (perform_all ops d1)) <> (Ok (Forward (Some "a@x"%string)), w2).
Proof.
  intros sc d1 ops. split; [vm_compute; reflexivity|]. intros w2.
  apply (logout_is_final ascii_utf8 sample_settings 10 500 600 601 "acc"
           (Claims (Some "a@x"%string) (Some 0%Q) (Some 900%Q) (Some "access"%string)) 900
           sample_db d1 ops); try (vm_compute; reflexivity).
  - intros x0 H. vm_compute in H. discriminate.
  - repeat constructor. vm_compute. discriminate.
  - vm_compute. discriminate.
Defined.

Lemma password_change_evicts_witness :
  let sc := sample_request "/api/docker/containers" in
  exists d', change_password 100 "" "a@x" "Pa55word!" "N3wpass-word" sample_db = (Ok PwOk, d') /\
  forall w2, jwt_middleware ascii_utf8 sample_settings 200 201 sc (sample_web d') <>
             (Ok (Forward (Some "a@x"%string)), w2).
Proof.
  intros sc. eexists. split; [vm_compute; reflexivity|]. intros w2.
  eapply (password_change_evicts ascii_utf8 sample_settings 100 "" "a@x" "Pa55word!"
           "N3wpass-word" sample_db _ 200 201 sc _ w2 "acc"
           (Claims (Some "a@x"%string) (Some 0%Q) (Some 900%Q) (Some "access"%string)));
    vm_compute; reflexivity.
Defined.

Lemma refresh_once_witness :
  let sc := sample_request "/api/auth/refresh" in
  exists r s1, refresh sample_settings 10 11 12 13 sc "ref" None sample_session = (Ok r, s1) /\
  fst (refresh sample_settings 20 21 22 23 sc "ref" None s1) =
    Raise (HTTPException 401 "Invalid refresh token").
Proof.
  intros sc. eexists _, _. split; [vm_compute; reflexivity|].
  eapply (refresh_once sample_settings 15 10 11 12 13 20 21 22 23 sc sc "ref" _ sample_session
            _ _ []); try (vm_compute; reflexivity).
  - intros x0 x p H. vm_compute in H. discriminate.
  - constructor.
  - vm_compute. discriminate.
Defined.

Lemma refresh_race_witness :
  let sc := sample_request "/api/auth/refresh" in
  refresh_verify 10 "ref" sample_session = (Ok "a@x"%string, sample_session) /\
  exists r1 s3 r2 s4,
    refresh_issue sample_settings 11 12 13 sc "ref" "a@x" sample_session = (Ok r1, s3) /\
    refresh_issue sample_settings 11 12 13 sc "ref" "a@x" s3 = (Ok r2, s4).
Proof.
  intros sc. split; [vm_compute; reflexivity|].
  apply (refresh_race sample_settings 10 11 12 13 10 11 12 13 sc sc "ref" "a@x" "a@x"
           sample_session sample_session sample_session); vm_compute; reflexivity.
Defined.

Lemma login_branches_witness :
  let body := LoginRequest "a@x" "wrong" None in
  let sc := sample_request "/api/auth/login" in
  let ck := LoginClock 1 1 1 1 1 1 in
  _require_admission (adm (s_db sample_session)) = Ok tt /\
  exists s', login sample_settings ck sc body sample_session =
    (Raise (HTTPException 401 "Invalid credentials"), s').
Proof.
  intros body sc ck. split; [reflexivity|].
  destruct (login_branches sample_settings ck sc body sample_session eq_refl) as (s' & _ & H & _).
  exists s'. exact H.
Defined.
