(* ===== verification/UserRoutes.v ===== *)
(** * User administration and runtime settings routes

    src/backend/app/routers/users.py and src/backend/app/routers/settings.py.  A
    route is the sequence of awaits its body makes; the checks of a route and the
    write they guard are named apart, because other requests run between them. *)
From S2P Require Import Prelude Py Effects DbCore IpAddress Accounts Net AuthService AuthRoutes Samples.
Open Scope Z_scope.

Definition HOST_USER_PATTERN : string -> bool :=
  re_dollar (re_head_class (fun c => is_alnum c || Ascii.eqb c "_"%char)
    (fun c => is_alnum c || Ascii.eqb c "_"%char || Ascii.eqb c "-"%char) 0 31).

Definition AGENT_ID_PATTERN : string -> bool :=
  re_dollar (re_class (fun c => is_alnum c || Ascii.eqb c "_"%char || Ascii.eqb c "-"%char) 1 64).

Record create_request := CreateUserRequest {
  cr_email : string; cr_password : string; cr_role : string
}.

Record update_request := UpdateUserRequest {
  ur_role : option string; ur_is_active : option bool; ur_new_password : option string
}.

Definition has_key (k : string) (d : dict) : bool := str_mem k (fst <$> d).

Definition bad_password : exn := HTTPException 400 "Password does not meet requirements".

Section Users.
Context `{C : Crypto}.

Definition post_user (now now' : Q) (salt : string) (body : create_request) (actor : string)
    : M db unit :=
  known ← get_user (cr_email body);
  match known with
  | Some _ => raise (HTTPException 409 "User already exists")
  | None =>
      if negb (fst (validate_password (cr_password body))) then raise bad_password
      else
        ok ← create_user now (cr_email body) (hashpw (cr_password body) salt) (cr_role body) true;
        if negb ok then raise (HTTPException 500 "Failed to create user")
        else audit now' actor "user.create" ""
               [("target", VStr (cr_email body)); ("role", VStr (cr_role body))]%string
  end.

(** The last-admin guard as all three routes spell it. *)
Definition refuse_last_admin (guarded : bool) (detail : string) : M db unit :=
  if guarded then
    n ← count_active_admins;
    if n <=? 1 then raise (HTTPException 400 detail) else mret tt
  else mret tt.

Definition patch_role (target : user) (body : update_request) (fields : dict) : M db dict :=
  match ur_role body with
  | Some r =>
      if negb (String.eqb r (role target)) then
        _ ← refuse_last_admin (String.eqb (role target) "admin" && negb (String.eqb r "admin"))
              "Cannot demote the last active admin";
        mret (dict_set "role" (VStr r) fields)
      else mret fields
  | None => mret fields
  end.

Definition patch_active (target : user) (target_email actor : string) (body : update_request)
    (fields : dict) : M db dict :=
  match ur_is_active body with
  | Some a =>
      if negb (eqb a (active target)) then
        _ ← (if negb a then
               _ ← refuse_last_admin (String.eqb (role target) "admin")
                     "Cannot deactivate the last active admin";
               if String.eqb target_email actor
               then raise (HTTPException 400 "Cannot deactivate yourself") else mret tt
             else mret tt);
        mret (dict_set "is_active" (VInt (Z.b2z a)) fields)
      else mret fields
  | None => mret fields
  end.

Definition patch_password (salt : string) (body : update_request) (fields : dict) : M db dict :=
  match ur_new_password body with
  | Some pw =>
      if negb (fst (validate_password pw)) then raise bad_password
      else mret (dict_set "must_change_password" (VInt 1)
                   (dict_set "password_hash" (VStr (hashpw pw salt)) fields))
  | None => mret fields
  end.

Definition invalidate_tokens (now : Q) (fields : dict) : dict :=
  if has_key "role" fields || has_key "password_hash" fields
     || match get "is_active" fields with VInt 0 => true | _ => false end
  then dict_set "tokens_valid_after" (VFloat (Fin now)) fields else fields.

(** Everything [patch_user] does before its write: the columns to set. *)
Definition patch_check (now : Q) (salt target_email : string) (body : update_request)
    (actor : string) : M db dict :=
  target ← get_user target_email;
  match target with
  | None => raise (HTTPException 404 "User not found")
  | Some target =>
      fields ← patch_role target body [];
      fields ← patch_active target target_email actor body fields;
      fields ← patch_password salt body fields;
      mret (match fields with [] => [] | _ => invalidate_tokens now fields end)
  end.

Definition patch_apply (now : Q) (target_email actor : string) (fields : dict) : M db unit :=
  match fields with
  | [] => mret tt
  | _ =>
      _ ← update_user target_email fields;
      audit now actor "user.update" ""
        [("target", VStr target_email);
         ("fields", VList (VStr <$> List.filter (fun k => negb (String.eqb k "password_hash"))
                                      (fst <$> fields)));
         ("password_reset", VBool (has_key "password_hash" fields))]%string
  end.

Definition patch_user (now now' : Q) (salt target_email : string) (body : update_request)
    (actor : string) : M db unit :=
  fields ← patch_check now salt target_email body actor;
  patch_apply now' target_email actor fields.

Definition delete_check (target_email actor : string) : M db unit :=
  target ← get_user target_email;
  match target with
  | None => raise (HTTPException 404 "User not found")
  | Some target =>
      if String.eqb target_email actor then raise (HTTPException 400 "Cannot delete yourself")
      else refuse_last_admin (String.eqb (role target) "admin")
             "Cannot delete the last active admin"
  end.

Definition delete_apply (now : Q) (target_email actor : string) : M db unit :=
  _ ← delete_user target_email;
  audit now actor "user.delete" "" [("target", VStr target_email)]%string.

Definition delete_user_route (now : Q) (target_email actor : string) : M db unit :=
  _ ← delete_check target_email actor;
  delete_apply now target_email actor.

Definition get_hosts (target_email : string) : M db (gmap string string) :=
  target ← get_user target_email;
  match target with
  | None => raise (HTTPException 404 "User not found")
  | Some _ => get_user_host_accounts target_email
  end.

(** The cleaned mapping, or the refusal of its first bad entry. *)
Fixpoint clean_hosts (accounts : list (string * string)) : res (list (string * string)) :=
  match accounts with
  | [] => Ok []
  | (agent_id, host_user) :: rest =>
      if negb (AGENT_ID_PATTERN agent_id)
      then Raise (HTTPException 400 ("Invalid agent_id: " ++ agent_id)%string)
      else if str_nonempty host_user && negb (HOST_USER_PATTERN host_user)
      then Raise (HTTPException 400 ("Invalid host_user for " ++ agent_id)%string)
      else cleaned ← clean_hosts rest; mret ((agent_id, host_user) :: cleaned)
  end.

Definition put_hosts (now : Q) (target_email : string) (accounts : list (string * string))
    (actor : string) : M db unit :=
  target ← get_user target_email;
  match target with
  | None => raise (HTTPException 404 "User not found")
  | Some _ =>
      cleaned ← lift_res (clean_hosts accounts);
      _ ← set_user_host_accounts target_email cleaned;
      audit now actor "user.hosts" ""
        [("target", VStr target_email);
         ("mapping", VDict ((fun kv => (kv.1, VStr kv.2)) <$>
                              List.filter (fun kv => str_nonempty kv.2) cleaned))]%string
  end.

End Users.

(** ** Settings *)

Section Settings.
Context (st : settings) (DEFAULTS : list (string * string)).

(** [{**DEFAULTS, **db_config}]. *)
Definition get_config : M session (gmap string string) :=
  db_config ← sdb get_runtime_config;
  mret (db_config ∪ list_to_map DEFAULTS).

(** The entries the submitter's address is tested against; the format check has
    already parsed each of them. *)
Definition allow_entries (value : string) : list string :=
  List.filter str_nonempty (strip <$> split_on "," value).

Definition lockout_guard (sc : scope) (key value : string) : M session unit :=
  if String.eqb key "allowed_ips" && str_nonempty value then
    client_ip ← proxies (fun c => Net.resolve_client_ip st c sc);
    let entries := allow_entries value in
    if str_nonempty client_ip && match entries with [] => false | _ => true end then
      match ip_address client_ip with
      | None => raise (ValueError "not an IP address")
      | Some client_addr =>
          if existsb (fun e => match ip_network e with
                               | Some n => ip_in_net client_addr n
                               | None => false end) entries
          then mret tt
          else raise (HTTPException 400 ("Your IP (" ++ client_ip
                 ++ ") would be blocked. Add it to the whitelist.")%string)
      end
    else mret tt
  else mret tt.

Fixpoint check_updates (sc : scope) (body : list (string * string)) : M session unit :=
  match body with
  | [] => mret tt
  | (key, value) :: rest =>
      _ ← (match validate_config_value key value with
           | Ok _ => mret tt
           | Raise (ValueError m) => raise (HTTPException 400 m)
           | Raise e => raise e
           end);
      _ ← lockout_guard sc key value;
      check_updates sc rest
  end.

(** [body] is the submitted fields in declaration order, the absent ones left out. *)
Definition update_config (now : Q) (sc : scope) (body : list (string * string)) (actor : string)
    : M session (list string) :=
  _ ← check_updates sc body;
  _ ← (match body with
       | [] => mret tt
       | _ =>
           _ ← sdb (set_runtime_configs body);
           sdb (audit now actor "settings.update" ""
                  [("updated", VDict ((fun kv => (kv.1, VStr kv.2)) <$> body))]%string)
       end);
  mret (fst <$> body).

End Settings.

(** ** An active admin always remains *)

Definition has_admin (d : db) : Prop := (1 <= size (active_admins d))%nat.

Lemma active_admins_delete d e m h :
  users d = m -> active_admins (with_hosts (with_users d (delete e m)) h) =
  delete e (active_admins d).
Proof. intros <-. unfold active_admins. simpl. by rewrite map_filter_delete. Qed.

Lemma has_admin_delete d e :
  has_admin d ->
  (forall u, users d !! e = Some u -> is_active_admin u = true -> (2 <= size (active_admins d))%nat) ->
  (1 <= size (delete e (active_admins d)))%nat.
Proof.
  unfold has_admin. intros H1 H2. destruct (active_admins d !! e) as [u|] eqn:E.
  - rewrite map_size_delete, E. apply map_lookup_filter_Some in E as [Hu Hadm].
    specialize (H2 u Hu Hadm). simpl. lia.
  - by rewrite delete_id.
Qed.

Lemma has_admin_alter d e f :
  (1 <= size (delete e (active_admins d)))%nat ->
  has_admin (with_users d (alter f e (users d))).
Proof.
  intros H. unfold has_admin. etrans; [exact H|]. apply map_subseteq_size.
  apply map_subseteq_spec. intros i u. rewrite lookup_delete_Some.
  unfold active_admins. simpl. rewrite !map_lookup_filter_Some. intros (Hne & Hi & Ha).
  by rewrite lookup_alter_ne.
Qed.

Lemma has_admin_alter_same d e f u :
  has_admin d -> users d !! e = Some u ->
  (is_active_admin u = true -> is_active_admin (f u) = true) ->
  has_admin (with_users d (alter f e (users d))).
Proof.
  intros H Hu Hf. destruct (is_active_admin u) eqn:Ha.
  - unfold has_admin. etrans; [exact H|]. unfold active_admins. simpl.
    rewrite <- (size_dom (D := gset string)).
    rewrite <- (size_dom (D := gset string) (filter _ (alter f e (users d)))).
    apply subseteq_size. intros i. rewrite !elem_of_dom.
    intros [v [Hv Hav]%map_lookup_filter_Some]. destruct (decide (i = e)) as [->|Hne].
    + exists (f u). apply map_lookup_filter_Some. rewrite lookup_alter_eq, Hu. split; [done|].
      simpl. by apply Hf.
    + exists v. apply map_lookup_filter_Some. by rewrite lookup_alter_ne.
  - apply has_admin_alter. apply has_admin_delete; [done|]. intros u' Hu' Ha'.
    rewrite Hu in Hu'. injection Hu' as <-. congruence.
Qed.

Lemma set_column_keeps_admin u kv :
  kv.1 <> "role"%string -> kv.1 <> "is_active"%string ->
  is_active_admin (set_column u kv) = is_active_admin u.
Proof.
  destruct u as [ue up ut ute um uc ur ua uv]. destruct kv as [k v]. simpl. intros H1 H2.
  apply String.eqb_neq in H1, H2.
  unfold set_column. cbn [fst snd]. rewrite H1, H2. by repeat case_match.
Qed.

Lemma set_columns_keep_admin fs u :
  has_key "role" fs = false -> has_key "is_active" fs = false ->
  is_active_admin (fold_left set_column fs u) = is_active_admin u.
Proof.
  revert u. induction fs as [|kv fs IH]; intros u Hr Ha; [done|].
  unfold has_key, str_mem in *. cbn -[String.eqb] in *.
  apply orb_false_iff in Hr as [Hr Hr']. apply orb_false_iff in Ha as [Ha Ha'].
  rewrite IH by done. apply set_column_keeps_admin; intros E; rewrite E in *;
    by rewrite String.eqb_refl in *.
Qed.

Lemma has_key_filter k p fs : has_key k fs = false -> has_key k (List.filter p fs) = false.
Proof.
  unfold has_key, str_mem. induction fs as [|kv fs IH]; [done|]. cbn -[String.eqb].
  intros [H1 H2]%orb_false_iff. destruct (p kv); cbn -[String.eqb]; [|by apply IH].
  rewrite H1. by apply IH.
Qed.

Lemma has_key_set k k' v fs :
  has_key k (dict_set k' v fs) = has_key k fs || String.eqb k k'.
Proof.
  unfold has_key, str_mem. induction fs as [|[k1 v1] fs IH]; cbn -[String.eqb].
  - by rewrite orb_false_r.
  - destruct (String.eqb_spec k' k1) as [->|Hne]; cbn -[String.eqb].
    + destruct (String.eqb k k1); [done|]. by rewrite orb_false_r.
    + rewrite IH. by rewrite orb_assoc.
Qed.

(** A guard that let the request through: more than one active admin. *)
Lemma refuse_last_admin_ok guarded detail d x d' :
  refuse_last_admin guarded detail d = (Ok x, d') ->
  d' = d /\ (guarded = true -> (2 <= size (active_admins d))%nat).
Proof.
  unfold refuse_last_admin. destruct guarded; [|by intros [= _ <-]].
  intros (n & d1 & Hq & Hk)%bind_ok.
  apply (reading_ok adm) in Hq as (_ & <- & <-).
  destruct (Z.leb_spec (Z.of_nat (size (active_admins d))) 1); [done|].
  injection Hk as _ <-. split; [done|]. intros _. lia.
Qed.

Lemma keeps_refuse_last_admin (I : db -> Prop) guarded detail :
  keeps I (refuse_last_admin guarded detail).
Proof.
  unfold refuse_last_admin, count_active_admins. destruct guarded; [|apply keeps_ret].
  apply keeps_bind; [apply keeps_reading|]. intros n. apply keeps_if; auto with keeps.
Qed.

Lemma keeps_audit_users (P : gmap string user -> Prop) now usr action agent detail :
  keeps (fun d => P (users d)) (audit now usr action agent detail).
Proof.
  intros d Hd. destruct (audit_spec now usr action agent detail d) as (d' & -> & _ & Hu & _).
  simpl. by rewrite Hu.
Qed.

Section AdminRemains.
Context `{C : Crypto}.

Lemma patch_role_ok target body fields d fields' d' :
  patch_role target body fields d = (Ok fields', d') ->
  d' = d /\ has_key "is_active" fields' = has_key "is_active" fields /\
  (has_key "role" fields = false -> is_active_admin target = true ->
   has_key "role" fields' = false \/ (2 <= size (active_admins d))%nat).
Proof.
  unfold patch_role. destruct (ur_role body) as [r|]; [|intros [= <- <-]; auto].
  destruct (String.eqb r (role target)) eqn:Er; simpl; [intros [= <- <-]; auto|].
  intros ([] & d1 & [-> Hg]%refuse_last_admin_ok & [= <- <-])%bind_ok.
  split; [done|]. rewrite has_key_set. split; [by rewrite orb_false_r|].
  intros _ [Hr _]%andb_true_iff. right. apply Hg. rewrite Hr. simpl.
  apply String.eqb_eq in Hr. by rewrite <- Hr, Er.
Qed.

Lemma patch_active_ok target e actor body fields d fields' d' :
  patch_active target e actor body fields d = (Ok fields', d') ->
  d' = d /\ has_key "role" fields' = has_key "role" fields /\
  (has_key "is_active" fields = false -> is_active_admin target = true ->
   has_key "is_active" fields' = false \/ (2 <= size (active_admins d))%nat).
Proof.
  unfold patch_active. destruct (ur_is_active body) as [a|]; [|intros [= <- <-]; auto].
  destruct (eqb a (active target)) eqn:Ea; simpl; [intros [= <- <-]; auto|].
  intros ([] & d1 & Hg & [= <- <-])%bind_ok. rewrite has_key_set, orb_false_r.
  destruct a; simpl in Hg.
  - injection Hg as <-. repeat split; auto. intros _ [_ Hact]%andb_true_iff.
    exfalso. unfold active in Ea. apply Z.eqb_eq in Hact. by rewrite Hact in Ea.
  - apply bind_ok in Hg as ([] & d2 & [-> Hn]%refuse_last_admin_ok & Hg).
    destruct (String.eqb e actor); [done|]. injection Hg as <-.
    repeat split; auto. intros _ [Hr _]%andb_true_iff. auto.
Qed.

Lemma patch_password_ok salt body fields d fields' d' :
  patch_password salt body fields d = (Ok fields', d') ->
  d' = d /\ has_key "role" fields' = has_key "role" fields /\
  has_key "is_active" fields' = has_key "is_active" fields.
Proof.
  unfold patch_password. destruct (ur_new_password body) as [pw|]; [|by intros [= <- <-]].
  destruct (negb _); [done|]. intros [= <- <-]. rewrite !has_key_set.
  cbn -[has_key]. by rewrite !orb_false_r.
Qed.

Lemma patch_check_ok now salt e body actor d fields d' :
  patch_check now salt e body actor d = (Ok fields, d') ->
  d' = d /\ exists u, users d !! e = Some u /\
  (is_active_admin u = true ->
   (has_key "role" fields = false /\ has_key "is_active" fields = false) \/
   (2 <= size (active_admins d))%nat).
Proof.
  unfold patch_check. intros (t & d1 & (_ & <- & <-)%(reading_ok adm) & H)%bind_ok.
  destruct (users d !! e) as [u|]; [|done].
  apply bind_ok in H as (f1 & d1 & (-> & Ha1 & Hr1)%patch_role_ok & H).
  apply bind_ok in H as (f2 & d1 & (-> & Hr2 & Ha2)%patch_active_ok & H).
  apply bind_ok in H as (f3 & d1 & (-> & Hr3 & Ha3)%patch_password_ok & [= <- <-]).
  split; [done|]. exists u. split; [done|]. intros Hadm.
  rewrite Ha1 in Ha2. destruct (Ha2 eq_refl Hadm) as [Hf2|]; [|auto].
  destruct (Hr1 eq_refl Hadm) as [Hf1|]; [|auto].
  left. rewrite <- Hr2, <- Hr3 in Hf1. rewrite <- Ha3 in Hf2. clear -Hf1 Hf2.
  destruct f3 as [|kv f3]; [done|]. set (fs := kv :: f3) in *. clearbody fs.
  unfold invalidate_tokens. destruct (_ || _); rewrite ?has_key_set; by rewrite ?Hf1, ?Hf2.
Qed.

Lemma keeps_patch_check (I : db -> Prop) now salt e body actor :
  keeps I (patch_check now salt e body actor).
Proof.
  unfold patch_check, get_user. apply keeps_bind; [apply keeps_reading|].
  intros [t|]; [|apply keeps_raise]. apply keeps_bind.
  { unfold patch_role. destruct (ur_role body); [|apply keeps_ret]. apply keeps_if; [|apply keeps_ret].
    apply keeps_bind; [apply keeps_refuse_last_admin|]. auto with keeps. }
  intros f1. apply keeps_bind.
  { unfold patch_active. destruct (ur_is_active body) as [a|]; [|apply keeps_ret].
    apply keeps_if; [|apply keeps_ret].
    apply keeps_bind; [|auto with keeps]. apply keeps_if; [|apply keeps_ret].
    apply keeps_bind; [apply keeps_refuse_last_admin|]. intros _. apply keeps_if; auto with keeps. }
  intros f2. apply keeps_bind; [|auto with keeps].
  unfold patch_password. destruct (ur_new_password body); [|apply keeps_ret].
  apply keeps_if; auto with keeps.
Qed.

(** Run a check that writes nothing, then a write it justifies. *)
Lemma keeps_check_then {A B} (I : db -> Prop) (m : M db A) (k : A -> M db B) :
  (forall J, keeps J m) ->
  (forall d a d', I d -> m d = (Ok a, d') -> I (snd (k a d))) ->
  keeps I (m ≫= k).
Proof.
  intros Hm Hk d Hd. pose proof (Hm (eq d) d eq_refl) as Heq.
  unfold mbind, M_bind. destruct (m d) as [[a|ex] d1] eqn:E; simpl in Heq; subst d1; [|done].
  by apply (Hk d a d).
Qed.

Lemma update_user_after e fields d :
  let safe := List.filter (fun kv => str_mem kv.1 _ALLOWED_USER_FIELDS) fields in
  snd (update_user e fields d) = d \/
  snd (update_user e fields d) =
    with_users d (alter (fun u => fold_left set_column safe u) e (users d)).
Proof.
  cbn zeta. unfold update_user. destruct fields as [|kv fs]; [by left|].
  destruct (List.filter _ _) as [|g gs]; [by left|].
  unfold mbind, M_bind, transaction, rolled_back, modify.
  destruct (_require_admission (adm d)); [by right|by left].
Qed.

Lemma keeps_audit_admin now usr action agent detail :
  keeps has_admin (audit now usr action agent detail).
Proof.
  apply (keeps_audit_users
    (fun m => (1 <= size (filter (fun kv => is_active_admin kv.2 = true) m))%nat)).
Qed.

Lemma keeps_patch_user now now' salt e body actor :
  keeps has_admin (patch_user now now' salt e body actor).
Proof.
  apply keeps_check_then; [intros J; apply keeps_patch_check|].
  intros d fields d' Hd (_ & u & Hu & Hsafe)%patch_check_ok.
  unfold patch_apply. destruct fields as [|kv fs]; [done|]. set (fields := kv :: fs) in *.
  assert (Hw : has_admin (snd (update_user e fields d))).
  { destruct (update_user_after e fields d) as [-> | ->]; [done|].
    destruct (is_active_admin u) eqn:Ha; [destruct (Hsafe eq_refl) as [[Hr Hi]|Hn]|].
    - apply has_admin_alter_same with u; [done..|]. intros _.
      by rewrite set_columns_keep_admin by (by apply has_key_filter).
    - apply has_admin_alter, has_admin_delete; auto.
    - apply has_admin_alter, has_admin_delete; [done|]. intros u' Hu' ?. congruence. }
  unfold mbind, M_bind. destruct (update_user e fields d) as [[b|ex] d1]; [|done].
  by apply keeps_audit_admin.
Qed.

Lemma delete_check_ok e actor d x d' :
  delete_check e actor d = (Ok x, d') ->
  d' = d /\ e <> actor /\ exists u, users d !! e = Some u /\
  (role u = "admin"%string -> (2 <= size (active_admins d))%nat).
Proof.
  unfold delete_check. intros (t & d1 & (_ & <- & <-)%(reading_ok adm) & H)%bind_ok.
  destruct (users d !! e) as [u|]; [|done].
  destruct (String.eqb_spec e actor); [done|].
  apply refuse_last_admin_ok in H as [-> Hn]. split; [done|]. split; [done|].
  exists u. split; [done|]. intros Hr. apply Hn. by rewrite Hr.
Qed.

Lemma keeps_delete_check (I : db -> Prop) e actor : keeps I (delete_check e actor).
Proof.
  unfold delete_check, get_user. apply keeps_bind; [apply keeps_reading|].
  intros [t|]; [|apply keeps_raise]. apply keeps_if; [apply keeps_raise|].
  apply keeps_refuse_last_admin.
Qed.

Lemma keeps_delete_route now e actor : keeps has_admin (delete_user_route now e actor).
Proof.
  apply keeps_check_then; [intros J; apply keeps_delete_check|].
  intros d x d' Hd (_ & _ & u & Hu & Hn)%delete_check_ok.
  unfold delete_apply, delete_user, transaction, rolled_back, mbind, M_bind.
  destruct (_require_admission (adm d)); [|done]. simpl. apply keeps_audit_admin.
  unfold has_admin. rewrite active_admins_delete by done. apply has_admin_delete; [done|].
  intros u' Hu' [Hr _]%andb_true_iff. apply Hn. rewrite Hu in Hu'. injection Hu' as <-.
  by apply String.eqb_eq.
Qed.

Lemma keeps_post_user now now' salt body actor :
  keeps has_admin (post_user now now' salt body actor).
Proof.
  unfold post_user, get_user. apply keeps_bind; [apply keeps_reading|].
  intros [t|]; [apply keeps_raise|]. apply keeps_if; [apply keeps_raise|].
  apply keeps_bind.
  - apply keeps_catch; [|intros []; naive_solver eauto with keeps].
    apply keeps_bind; [|auto with keeps]. apply keeps_transaction. intros d Hd.
    unfold mbind, M_bind, gets. simpl. destruct (users d !! cr_email body) eqn:E; [done|].
    unfold has_admin, modify. simpl. etrans; [exact Hd|]. apply map_subseteq_size.
    unfold active_admins. simpl. by apply map_filter_subseteq_mono, insert_subseteq.
  - intros b. apply keeps_if; [apply keeps_raise|apply keeps_audit_admin].
Qed.

Lemma keeps_put_hosts now e accounts actor : keeps has_admin (put_hosts now e accounts actor).
Proof.
  unfold put_hosts, get_user. apply keeps_bind; [apply keeps_reading|].
  intros [t|]; [|apply keeps_raise]. apply keeps_bind.
  { intros d Hd. unfold lift_res. done. }
  intros cleaned. apply keeps_bind; [|intros []; apply keeps_audit_admin].
  apply keeps_transaction, keeps_bind; [by apply keeps_modify|].
  intros _. apply keeps_for_each. intros [a h]. apply keeps_if; [|apply keeps_ret].
  intros d Hd. unfold insert_host_account, mbind, M_bind, gets. simpl.
  repeat case_match; done.
Qed.

Inductive admin_request :=
| RPost (now now' : Q) (salt : string) (body : create_request) (actor : string)
| RPatch (now now' : Q) (salt target : string) (body : update_request) (actor : string)
| RDelete (now : Q) (target actor : string)
| RHosts (now : Q) (target : string) (accounts : list (string * string)) (actor : string).

Definition serve (r : admin_request) : M db unit :=
  match r with
  | RPost now now' salt body actor => post_user now now' salt body actor
  | RPatch now now' salt target body actor => patch_user now now' salt target body actor
  | RDelete now target actor => delete_user_route now target actor
  | RHosts now target accounts actor => put_hosts now target accounts actor
  end.

(** C21: requests served one after another, whatever they ask and whichever fail,
    never leave the installation without an active administrator. *)
Theorem active_admin_remains (rs : list admin_request) d :
  has_admin d -> has_admin (fold_left (fun d r => snd (serve r d)) rs d).
Proof.
  revert d. induction rs as [|r rs IH]; intros d Hd; [done|]. apply IH.
  destruct r; [by apply keeps_post_user|by apply keeps_patch_user|
               by apply keeps_delete_route|by apply keeps_put_hosts].
Qed.

Lemma count_active_admins_run d :
  _require_admission (adm d) = Ok tt ->
  count_active_admins d = (Ok (Z.of_nat (size (active_admins d))), d).
Proof. intros H. unfold count_active_admins, reading. by rewrite H. Qed.

Lemma delete_check_run e actor d u :
  _require_admission (adm d) = Ok tt -> users d !! e = Some u -> e <> actor ->
  delete_check e actor d =
    ((if String.eqb (role u) "admin" && (Z.of_nat (size (active_admins d)) <=? 1)
      then Raise (HTTPException 400 "Cannot delete the last active admin") else Ok tt), d).
Proof.
  intros Hadm Hu Hne. unfold delete_check, get_user, mbind, M_bind, reading. rewrite Hadm, Hu.
  rewrite (proj2 (String.eqb_neq e actor) Hne). unfold refuse_last_admin.
  destruct (String.eqb (role u) "admin"); [|done]. unfold mbind, M_bind.
  rewrite count_active_admins_run by done. simpl. by destruct (_ <=? _).
Qed.

Lemma delete_apply_run now e actor d :
  _require_admission (adm d) = Ok tt ->
  exists d', delete_apply now e actor d = (Ok tt, d') /\ adm d' = adm d /\
    users d' = delete e (users d) /\ active_admins d' = delete e (active_admins d) /\
    user_host_accounts d' = filter (fun kv => kv.1.1 <> e) (user_host_accounts d).
Proof.
  intros Hadm. unfold delete_apply, delete_user, transaction, rolled_back, mbind, M_bind.
  rewrite Hadm. simpl.
  match goal with |- context [audit _ _ _ _ _ ?s] =>
    destruct (audit_spec now actor "user.delete" "" [("target"%string, VStr e)] s)
      as (d' & -> & Ha & Hu & Hh & _) end.
  exists d'. split; [done|]. split; [done|]. split; [done|]. split; [|done].
  unfold active_admins. rewrite Hu. simpl. by rewrite map_filter_delete.
Qed.

(** Every branch of the delete route, in the order the code takes them. *)
Theorem delete_user_branches now e actor d :
  _require_admission (adm d) = Ok tt ->
  let refused status detail := delete_user_route now e actor d =
        (Raise (HTTPException status detail), d) in
  match users d !! e with
  | None => refused 404 "User not found"%string
  | Some u =>
      if String.eqb e actor then refused 400 "Cannot delete yourself"%string
      else if String.eqb (role u) "admin" && (Z.of_nat (size (active_admins d)) <=? 1)
      then refused 400 "Cannot delete the last active admin"%string
      else exists d', delete_user_route now e actor d = (Ok tt, d') /\
             users d' = delete e (users d) /\
             (forall a, user_host_accounts d' !! (e, a) = None)
  end.
Proof.
  intros Hadm refused. unfold refused, delete_user_route. destruct (users d !! e) as [u|] eqn:Hu.
  2:{ unfold delete_check, get_user, mbind, M_bind, reading. by rewrite Hadm, Hu. }
  destruct (String.eqb_spec e actor) as [->|Hne].
  { unfold delete_check, get_user, mbind, M_bind, reading.
    by rewrite Hadm, Hu, String.eqb_refl. }
  pose proof (delete_check_run e actor d u Hadm Hu Hne) as Hc.
  destruct (_ && _).
  { unfold mbind, M_bind. by rewrite Hc. }
  rewrite (bind_step _ _ _ _ _ Hc).
  destruct (delete_apply_run now e actor d Hadm) as (d' & Hrun & _ & Hus & _ & Hh).
  exists d'. split; [done|]. split; [done|]. intros a. rewrite Hh.
  apply map_lookup_filter_None. right. intros v _. simpl. by intros [].
Qed.

(** The count and the delete it guards are separate awaits: two administrators
    deleting each other both pass the check, and no administrator is left. *)
Theorem last_admin_race now now' a b ua ub d :
  _require_admission (adm d) = Ok tt -> a <> b ->
  users d !! a = Some ua -> users d !! b = Some ub ->
  active_admins d = {[a := ua; b := ub]} ->
  delete_check a b d = (Ok tt, d) /\ delete_check b a d = (Ok tt, d) /\
  exists d1 d2, delete_apply now a b d = (Ok tt, d1) /\ delete_apply now' b a d1 = (Ok tt, d2) /\
    ~ has_admin d2.
Proof.
  intros Hadm Hne Ha Hb Hset.
  assert (Hsize : size (active_admins d) = 2%nat).
  { rewrite Hset, map_size_insert_None, map_size_singleton; [done|].
    by rewrite lookup_singleton_ne. }
  rewrite (delete_check_run a b d ua), (delete_check_run b a d ub) by done.
  rewrite Hsize. simpl. rewrite !andb_false_r. split; [done|]. split; [done|].
  destruct (delete_apply_run now a b d Hadm) as (d1 & H1 & Hadm1 & _ & Hs1 & _).
  destruct (delete_apply_run now' b a d1) as (d2 & H2 & _ & _ & Hs2 & _); [by rewrite Hadm1|].
  exists d1, d2. split; [done|]. split; [done|]. unfold has_admin.
  rewrite Hs2, Hs1, Hset, delete_insert_id, delete_singleton_eq, map_size_empty by
    (by rewrite lookup_singleton_ne). lia.
Qed.
End AdminRemains.

(** ** What a successful patch writes *)

Section PatchRow.
Context `{C : Crypto}.

(** The row after the patch, field by field. *)
Definition patched (now : Q) (salt : string) (body : update_request) (u : user) : user :=
  let rl := default (role u) (ur_role body) in
  let act := default (active u) (ur_is_active body) in
  let role_set := negb (String.eqb rl (role u)) in
  let turned := negb (eqb act (active u)) in
  let reset := match ur_new_password body with Some _ => true | None => false end in
  User (email u)
    (match ur_new_password body with Some pw => hashpw pw salt | None => password_hash u end)
    (totp_secret u) (totp_enabled u)
    (if reset then 1 else must_change_password u) (created_at u) rl
    (if turned then Z.b2z act else is_active u)
    (if role_set || reset || (turned && negb act) then now else tokens_valid_after u).

(** The columns the three optional parts contribute, in the order they are set. *)
Definition patch_fields (now : Q) (salt : string) (body : update_request) (u : user) : dict :=
  let rl := default (role u) (ur_role body) in
  let act := default (active u) (ur_is_active body) in
  let fields :=
    (if negb (String.eqb rl (role u)) then [("role"%string, VStr rl)] else []) ++
    (if negb (eqb act (active u)) then [("is_active"%string, VInt (Z.b2z act))] else []) ++
    (match ur_new_password body with
     | Some pw => [("password_hash", VStr (hashpw pw salt)); ("must_change_password", VInt 1)]%string
     | None => [] end) in
  match fields with [] => [] | _ => invalidate_tokens now fields end.

Lemma refuse_last_admin_run_ok guarded detail d (k : M db dict) fields d' :
  (refuse_last_admin guarded detail ≫= fun _ => k) d = (Ok fields, d') -> k d = (Ok fields, d').
Proof. by intros ([] & d1 & [-> _]%refuse_last_admin_ok & ?)%bind_ok. Qed.

Lemma patch_check_fields now salt e body actor d fields d' :
  patch_check now salt e body actor d = (Ok fields, d') ->
  exists u, users d !! e = Some u /\ fields = patch_fields now salt body u.
Proof.
  unfold patch_check. intros (t & d1 & (_ & <- & <-)%(reading_ok adm) & H)%bind_ok.
  destruct (users d !! e) as [u|]; [|done]. exists u. split; [done|].
  apply bind_ok in H as (f1 & d1 & H1 & H). apply bind_ok in H as (f2 & d2 & H2 & H).
  apply bind_ok in H as (f3 & d3 & H3 & [= <- <-]).
  assert (E1 : f1 = if negb (String.eqb (default (role u) (ur_role body)) (role u))
                    then [("role"%string, VStr (default (role u) (ur_role body)))] else []).
  { revert H1. unfold patch_role. destruct (ur_role body) as [r|]; simpl.
    - destruct (String.eqb r (role u)); simpl; [by intros [= <- _]|].
      by intros [= <- _]%refuse_last_admin_run_ok.
    - rewrite String.eqb_refl. by intros [= <- _]. }
  assert (E2 : f2 = f1 ++ if negb (eqb (default (active u) (ur_is_active body)) (active u))
                    then [("is_active"%string, VInt (Z.b2z (default (active u) (ur_is_active body))))]
                    else []).
  { revert H2. unfold patch_active. destruct (ur_is_active body) as [a|]; simpl.
    - destruct (eqb a (active u)); simpl; [intros [= <- _]; by rewrite app_nil_r|].
      intros (? & ? & _ & [= <- _])%bind_ok. rewrite E1. by destruct (negb _).
    - rewrite eqb_reflx. intros [= <- _]. by rewrite app_nil_r. }
  assert (E3 : f3 = f2 ++ match ur_new_password body with
      | Some pw => [("password_hash", VStr (hashpw pw salt)); ("must_change_password", VInt 1)]%string
      | None => [] end).
  { revert H3. unfold patch_password. destruct (ur_new_password body) as [pw|].
    - destruct (negb (fst _)); [done|]. intros [= <- _]. rewrite E2, E1.
      by destruct (negb _), (negb _).
    - intros [= <- _]. by rewrite app_nil_r. }
  unfold patch_fields. cbn zeta. rewrite app_assoc, <- E1, <- E2, <- E3. done.
Qed.

Lemma patch_fields_row now salt body u :
  fold_left set_column
    (List.filter (fun kv => str_mem kv.1 _ALLOWED_USER_FIELDS) (patch_fields now salt body u)) u =
  patched now salt body u.
Proof.
  unfold patch_fields, patched.
  set (rl := default (role u) (ur_role body)). set (act := default (active u) (ur_is_active body)).
  destruct (String.eqb_spec rl (role u)) as [->|Hr];
    destruct act, (active u), (ur_new_password body);
    destruct u; reflexivity.
Qed.

Lemma update_user_ok e fields d b d' :
  update_user e fields d = (Ok b, d') ->
  users d' = alter (fun u => fold_left set_column
    (List.filter (fun kv => str_mem kv.1 _ALLOWED_USER_FIELDS) fields) u) e (users d).
Proof.
  unfold update_user.
  assert (Hid : alter (fun u : user => u) e (users d) = users d).
  { apply map_eq. intros i. rewrite lookup_alter. case_decide; [|done]. subst; by destruct (_ !! i). }
  destruct fields as [|kv fs]; [by intros [= _ <-]|].
  destruct (List.filter _ _) as [|g gs]; [by intros [= _ <-]|].
  by intros ([] & d1 & (_ & [= <-])%(transaction_ok adm) & [= _ <-])%bind_ok.
Qed.

(** A patch that succeeds rewrites exactly the target's row, each field as
    asked, and stamps [tokens_valid_after] on a role change, a password reset or
    a deactivation, and on nothing else. *)
Theorem patch_user_row now now' salt e body actor d d' :
  patch_user now now' salt e body actor d = (Ok tt, d') ->
  exists u, users d !! e = Some u /\ users d' = <[e := patched now salt body u]> (users d).
Proof.
  unfold patch_user. intros (fields & d1 & Hc & Ha)%bind_ok.
  pose proof Hc as (-> & _)%patch_check_ok.
  apply patch_check_fields in Hc as (u & Hu & Ef). exists u. split; [done|].
  rewrite <- patch_fields_row, <- Ef.
  assert (Hus : users d' = alter (fun u => fold_left set_column
    (List.filter (fun kv => str_mem kv.1 _ALLOWED_USER_FIELDS) fields) u) e (users d)).
  { unfold patch_apply in Ha. destruct fields as [|kv fs].
    - injection Ha as <-. apply (update_user_ok e [] d false). done.
    - apply bind_ok in Ha as (b & d2 & Hup%update_user_ok & Ha). rewrite <- Hup.
      revert Ha. match goal with |- audit ?a ?b ?c ?f ?g d2 = _ -> _ =>
        destruct (audit_spec a b c f g d2) as (d3 & -> & _ & Hus & _) end.
      by intros [= <-]. }
  rewrite Hus. apply map_eq. intros i. rewrite lookup_alter, lookup_insert.
  case_decide; [subst; by rewrite Hu|done].
Qed.
End PatchRow.

Lemma active_admin_remains_witness :
  has_admin sample_db /\
  has_admin (fold_left (fun d r => snd (serve r d))
    [RDelete 1 "a@x" "b@x"; RPatch 1 1 "" "a@x" (UpdateUserRequest (Some "user") (Some false) None) "b@x"]%string
    sample_db).
Proof.
  split; [vm_compute; lia|]. apply active_admin_remains. vm_compute. lia.
Defined.

Lemma delete_user_branches_witness :
  _require_admission (adm sample_db) = Ok tt /\
  delete_user_route 1 "a@x" "b@x" sample_db =
    (Raise (HTTPException 400 "Cannot delete the last active admin"), sample_db).
Proof. split; [reflexivity|]. exact (delete_user_branches 1 "a@x" "b@x" sample_db eq_refl). Defined.

Lemma last_admin_race_witness :
  delete_check "a@x" "b@x" two_admins = (Ok tt, two_admins) /\
  delete_check "b@x" "a@x" two_admins = (Ok tt, two_admins) /\
  exists d1 d2, delete_apply 1 "a@x" "b@x" two_admins = (Ok tt, d1) /\
    delete_apply 2 "b@x" "a@x" d1 = (Ok tt, d2) /\ ~ has_admin d2.
Proof.
  apply (last_admin_race 1 2 "a@x" "b@x" sample_user second_admin two_admins);
    try (vm_compute; reflexivity). discriminate.
Defined.

Lemma patch_user_row_witness :
  let body := UpdateUserRequest (Some "user"%string) None None in
  exists d', patch_user 5 6 "" "b@x" body "a@x" two_admins = (Ok tt, d') /\
  exists u, users two_admins !! "b@x"%string = Some u /\
    users d' = <["b@x"%string := patched 5 "" body u]> (users two_admins).
Proof.
  intros body. eexists. split; [vm_compute; reflexivity|].
  eapply (patch_user_row 5 6 "" "b@x" body "a@x" two_admins). vm_compute. reflexivity.
Defined.

(** An administrator row that is disabled still counts as guarded, so it can
    not be deleted while a single other administrator is active. *)
Definition disabled_admin_db : db :=
  Db healthy {[ "a@x"%string := sample_user;
                "b@x"%string := User "b@x" "Pa55word!" None 0 0 0 "admin" 0 0 ]}
     ∅ ∅ ∅ None [] 1 None.

Lemma disabled_admin_undeletable :
  delete_user_route 1 "b@x" "a@x" disabled_admin_db =
    (Raise (HTTPException 400 "Cannot delete the last active admin"), disabled_admin_db).
Proof. vm_compute. reflexivity. Qed.

(** ** Settings: what an accepted update stores *)

Section SettingsFacts.
Context (st : settings).

(** The submitter's address is inside one of the submitted networks. *)
Definition still_allowed (client_ip value : string) : Prop :=
  exists a e n, ip_address client_ip = Some a /\ In e (allow_entries value) /\
    ip_network e = Some n /\ ip_in_net a n = true.

Definition guarded_value (sc : scope) (kv : string * string) : Prop :=
  validate_config_value kv.1 kv.2 = Ok tt /\
  (kv.1 = "allowed_ips"%string -> allow_entries kv.2 <> [] ->
   Net.resolve_spec st sc <> ""%string -> still_allowed (Net.resolve_spec st sc) kv.2).

Lemma lockout_guard_ok sc key value s x s' :
  Net.coherent (s_proxies s) -> lockout_guard st sc key value s = (Ok x, s') ->
  s_db s' = s_db s /\ Net.coherent (s_proxies s') /\
  (key = "allowed_ips"%string -> allow_entries value <> [] ->
   Net.resolve_spec st sc <> ""%string -> still_allowed (Net.resolve_spec st sc) value).
Proof.
  intros Hc. unfold lockout_guard. destruct (String.eqb_spec key "allowed_ips") as [->|Hk]; simpl.
  2:{ intros [= _ <-]. by repeat split. }
  destruct (str_nonempty value) eqn:Hv; simpl.
  2:{ intros [= _ <-]. repeat split; [done|]. intros _ Hne. exfalso. apply Hne.
      unfold str_nonempty in Hv. apply negb_false_iff, String.eqb_eq in Hv. by subst value. }
  pose proof (Net.resolve_refines st (s_proxies s) sc Hc) as [Hip Hc'].
  unfold proxies, mbind, M_bind.
  destruct (Net.resolve_client_ip st (s_proxies s) sc) as [ip c]. simpl in *. subst ip.
  destruct (str_nonempty (Net.resolve_spec st sc) && _) eqn:Hg.
  2:{ intros [= _ <-]. repeat split; [done|]. intros _ Hne Hip. exfalso.
      apply andb_false_iff in Hg as [Hg|Hg].
      - by apply negb_false_iff, String.eqb_eq in Hg.
      - by destruct (allow_entries value). }
  destruct (ip_address (Net.resolve_spec st sc)) as [a|] eqn:Ha; [|done].
  destruct (existsb _ _) eqn:He; [|done]. intros [= _ <-]. repeat split; [done|].
  intros _ _ _. apply existsb_exists in He as (e & Hin & Hn).
  destruct (ip_network e) as [n|] eqn:En; [|done]. by exists a, e, n.
Qed.

Lemma check_updates_ok sc body s x s' :
  Net.coherent (s_proxies s) -> check_updates st sc body s = (Ok x, s') ->
  s_db s' = s_db s /\ Forall (guarded_value sc) body.
Proof.
  revert s. induction body as [|[k v] body IH]; intros s Hc; simpl.
  { intros [= _ <-]. by split; [|constructor]. }
  intros (? & s1 & Hv & H)%bind_ok. apply bind_ok in H as (? & s2 & Hg & H).
  assert (Hval : validate_config_value k v = Ok tt /\ s1 = s).
  { destruct (validate_config_value k v) as [[]|[]]; try done. by injection Hv as _ <-. }
  destruct Hval as [Hval ->]. apply lockout_guard_ok in Hg as (Hd2 & Hc2 & Hall); [|done].
  apply IH in H as [Hd' Hf]; [|done]. split; [congruence|]. by constructor.
Qed.

Lemma set_runtime_config_ok k v d x d' :
  str_mem k ALLOWED_KEYS = true -> set_runtime_config k v d = (Ok x, d') ->
  runtime_config d' = <[k := v]> (runtime_config d).
Proof.
  intros Hk. unfold set_runtime_config. rewrite Hk. simpl.
  by intros (? & d1 & [= _ <-] & (_ & [= _ <-])%(transaction_ok adm))%bind_ok.
Qed.

Lemma set_runtime_configs_ok body d x d' :
  Forall (fun kv => str_mem kv.1 ALLOWED_KEYS = true) body ->
  set_runtime_configs body d = (Ok x, d') ->
  runtime_config d' = fold_left (fun m kv => <[kv.1 := kv.2]> m) body (runtime_config d).
Proof.
  intros Hf. revert d. induction Hf as [|[k v] body Hk Hf IH]; intros d; simpl.
  { by intros [= _ <-]. }
  intros (? & d1 & H1%set_runtime_config_ok & H2)%bind_ok; [|done].
  rewrite (IH d1 H2). by rewrite H1.
Qed.

Lemma fold_insert_lookup_ne (body : list (string * string)) k (m : gmap string string) :
  k ∉ body.*1 -> fold_left (fun m kv => <[kv.1 := kv.2]> m) body m !! k = m !! k.
Proof.
  revert m. induction body as [|[k' v'] body IH]; intros m; simpl; [done|].
  rewrite not_elem_of_cons. intros [Hne Hn]. rewrite IH by done. by rewrite lookup_insert_ne.
Qed.

Lemma fold_insert_lookup (body : list (string * string)) k v (m : gmap string string) :
  NoDup body.*1 -> (k, v) ∈ body ->
  fold_left (fun m kv => <[kv.1 := kv.2]> m) body m !! k = Some v.
Proof.
  revert m. induction body as [|[k' v'] body IH]; intros m Hnd Hin; [by apply not_elem_of_nil in Hin|].
  simpl in *. apply NoDup_cons in Hnd as [Hn Hnd]. apply elem_of_cons in Hin as [[= <- <-]|Hin].
  - rewrite fold_insert_lookup_ne by done. by rewrite lookup_insert_eq.
  - by apply IH.
Qed.

(** A settings update that is accepted stores every submitted value, each one
    valid, and does not shut its own submitter out of the address whitelist. *)
Theorem settings_update_safe now sc body actor s keys s' :
  Net.coherent (s_proxies s) ->
  NoDup body.*1 -> Forall (fun kv => str_mem kv.1 ALLOWED_KEYS = true) body ->
  update_config st now sc body actor s = (Ok keys, s') ->
  keys = body.*1 /\
  forall k v, (k, v) ∈ body ->
    runtime_config (s_db s') !! k = Some v /\ guarded_value sc (k, v).
Proof.
  intros Hc Hnd Hkeys. unfold update_config.
  intros (? & s1 & [Hd1 Hf]%check_updates_ok & H)%bind_ok; [|done].
  apply bind_ok in H as (? & s2 & Hset & [= <- <-]). split; [done|]. intros k v Hin.
  split; [|rewrite Forall_forall in Hf; by apply Hf].
  destruct body as [|kv body]; [by apply not_elem_of_nil in Hin|].
  set (all := kv :: body) in *. apply bind_ok in Hset as (? & s3 & Hs3 & Haud).
  assert (Hr3 : runtime_config (s_db s3) !! k = Some v).
  { unfold sdb, zoom in Hs3. destruct (set_runtime_configs all (s_db s1)) as [[[]|e] d3] eqn:E; [|done].
    injection Hs3 as _ <-. simpl. apply set_runtime_configs_ok in E; [|done].
    rewrite E. by apply fold_insert_lookup. }
  rewrite <- Hr3. f_equal. unfold sdb, zoom, audit, catch, transaction, rolled_back, modify in Haud.
  destruct (_require_admission (adm (s_db s3))); simpl in Haud; by injection Haud as _ <-.
Qed.
End SettingsFacts.

Definition whitelist_scope : scope :=
  Scope "http" "/api/settings/runtime" "POST" "http" [] (Some "10.1.2.3"%string).

Lemma settings_update_safe_witness :
  let body := [("collect_interval", "5"); ("allowed_ips", "192.168.0.0/16, 10.0.0.0/8")]%string in
  exists s', update_config sample_settings 1 whitelist_scope body "a@x" sample_session =
    (Ok ["collect_interval"; "allowed_ips"]%string, s') /\
  runtime_config (s_db s') !! "collect_interval"%string = Some "5"%string.
Proof.
  intros body. eexists. split; [vm_compute; reflexivity|].
  eapply (settings_update_safe sample_settings 1 whitelist_scope body "a@x" sample_session);
    [by intros r| | |vm_compute; reflexivity|].
  - apply (bool_decide_unpack _). vm_compute. exact I.
  - repeat constructor.
  - apply list_elem_of_here.
Defined.

(** A proxy header that is not an address makes the guard raise, not refuse. *)
Lemma lockout_guard_raises :
  fst (update_config sample_settings 1
    (Scope "http" "/api/settings/runtime" "POST" "http" [("x-real-ip", "unknown")]%string
       (Some "127.0.0.1"%string))
    [("allowed_ips", "10.0.0.0/8")]%string "a@x" sample_session) =
  Raise (ValueError "not an IP address").
Proof. vm_compute. reflexivity. Qed.
