(* ===== verification/AgentRpc.v ===== *)
(** * RPC over the agent WebSocket

    src/backend/app/services/agent_rpc.py and agent_dispatch.py.  A call or a
    stream suspends while its request is being sent and while it waits, and any
    other task runs in between: [step] is one such uninterrupted stretch, and a
    run is a list of them in any order.  The future of a call and the state
    object of a stream outlive their entries in [_pending] and [_streams] (the
    waiting task holds a reference), so they live in stores of their own, at the
    address of the id they were created for. *)
From S2P Require Import Prelude Py Effects.
Open Scope Z_scope.

(** An [asyncio.Future] and a [_StreamState]. *)
Inductive future := FPending | FResult (payload : dict) | FError (e : exn) | FCancelled.

#[export] Instance future_pending_dec (f : future) : Decision (f = FPending).
Proof. destruct f; [left|right..]; done. Defined.

#[export] Instance some_pending_dec (o : option future) : Decision (o = Some FPending).
Proof. destruct o as [[]|]; [left|right..]; done. Defined.

Record stream_state := StreamState {
  st_agent : string;
  st_done : bool;
  st_error : option string
}.

(** Where the coroutine that made a call is suspended. *)
Inductive call_pc := CSending | CWaiting | CReturned (r : res pyval).
Record call_task := CallTask { ct_agent : string; ct_method : string; ct_pc : call_pc }.

(** The coroutine that opened a stream, and the one in [await_stream_end]. *)
Inductive open_pc := OSending | OOpened | OFailed (e : exn).
Inductive wait_pc := WWaiting | WEnded (r : res unit).

Inductive wire :=
| WireReq (ws : nat) (id method : string)
| WireCancel (ws : nat) (id : string)
| WireControl (ws : nat) (id : string).

Record rpc := Rpc {
  connected_agents : gmap string nat;
  _pending : gmap string string;
  futures : gmap string future;
  calls : gmap string call_task;
  _streams : gmap string unit;
  states : gmap string stream_state;
  opens : gmap string open_pc;
  waits : gmap string wait_pc;
  outbox : list wire
}.

Definition idle : rpc := Rpc ∅ ∅ ∅ ∅ ∅ ∅ ∅ ∅ [].

Definition with_connected w m := Rpc m (_pending w) (futures w) (calls w) (_streams w)
  (states w) (opens w) (waits w) (outbox w).
Definition with_pending w m := Rpc (connected_agents w) m (futures w) (calls w) (_streams w)
  (states w) (opens w) (waits w) (outbox w).
Definition with_futures w m := Rpc (connected_agents w) (_pending w) m (calls w) (_streams w)
  (states w) (opens w) (waits w) (outbox w).
Definition with_calls w m := Rpc (connected_agents w) (_pending w) (futures w) m (_streams w)
  (states w) (opens w) (waits w) (outbox w).
Definition with_streams w m := Rpc (connected_agents w) (_pending w) (futures w) (calls w) m
  (states w) (opens w) (waits w) (outbox w).
Definition with_states w m := Rpc (connected_agents w) (_pending w) (futures w) (calls w)
  (_streams w) m (opens w) (waits w) (outbox w).
Definition with_opens w m := Rpc (connected_agents w) (_pending w) (futures w) (calls w)
  (_streams w) (states w) m (waits w) (outbox w).
Definition with_waits w m := Rpc (connected_agents w) (_pending w) (futures w) (calls w)
  (_streams w) (states w) (opens w) m (outbox w).
Definition with_outbox w l := Rpc (connected_agents w) (_pending w) (futures w) (calls w)
  (_streams w) (states w) (opens w) (waits w) l.

Definition not_connected (agent_id : string) : exn :=
  AgentNotConnected ("Agent '" ++ agent_id ++ "' is not connected")%string.
Definition disconnected_text (agent_id : string) : string :=
  ("Agent '" ++ agent_id ++ "' disconnected")%string.

(** [_send] up to its suspension in [ws.send_text]. *)
Definition _send (agent_id : string) (msg : nat -> wire) (w : rpc) : option rpc :=
  match connected_agents w !! agent_id with
  | None => None
  | Some ws => Some (with_outbox w (outbox w ++ [msg ws]))
  end.

(** ** Unary calls *)

Definition set_pc (id : string) (pc : call_pc) (w : rpc) : rpc :=
  with_calls w (alter (fun t => CallTask (ct_agent t) (ct_method t) pc) id (calls w)).
Definition pop_pending (id : string) (w : rpc) : rpc := with_pending w (delete id (_pending w)).

(** [call] from its start to its first suspension. *)
Definition call_start (id agent_id method : string) (w : rpc) : rpc :=
  let w := with_futures w (<[id := FPending]> (futures w)) in
  let w := with_pending w (<[id := agent_id]> (_pending w)) in
  let w := with_calls w (<[id := CallTask agent_id method CSending]> (calls w)) in
  match _send agent_id (fun ws => WireReq ws id method) w with
  | Some w => w
  | None => set_pc id (CReturned (Raise (not_connected agent_id))) (pop_pending id w)
  end.

(** How [ws.send_text] came back. *)
Inductive sent := SentOk | SentError (text : string) | SentCancelled.

(** A cancellation is no [Exception]: neither handler around the send runs. *)
Definition call_sent (id : string) (t : call_task) (r : sent) (w : rpc) : rpc :=
  match r with
  | SentOk => set_pc id CWaiting w
  | SentError text =>
      set_pc id (CReturned (Raise (AgentNotConnected
        ("Failed to send to agent '" ++ ct_agent t ++ "': " ++ text)%string)))
        (pop_pending id w)
  | SentCancelled => set_pc id (CReturned (Raise CancelledError)) w
  end.

(** What [call] makes of the response. *)
Definition call_result (payload : dict) : res pyval :=
  if negb (truthy (get "ok" payload))
  then Raise (RpcError (let e := get "error" payload in
                        if truthy e then e else VStr "Unknown error"))
  else let r := get "result" payload in Ok (if truthy r then r else VDict []).

Definition timed_out (t : call_task) : exn :=
  RpcTimeout ("RPC '" ++ ct_method t ++ "' to agent '" ++ ct_agent t ++ "' timed out")%string.

(** The waiting call resumes: with its future done, on the timeout, or
    cancelled.  [asyncio.wait_for] implements the timeout by cancelling the task,
    which cancels the future it waits for unless that is done already. *)
Inductive wakeup := Woken | TimedOut | Cancelled.

Definition call_wake (id : string) (t : call_task) (f : future) (c : wakeup) (w : rpc) : option rpc :=
  let return_ r w := set_pc id (CReturned r) (pop_pending id w) in
  let unwind e := return_ (Raise e)
    (with_futures w (if decide (f = FPending) then <[id := FCancelled]> (futures w)
                     else futures w)) in
  match c with
  | Woken =>
      match f with
      | FResult p => Some (return_ (call_result p) w)
      | FError e => Some (return_ (Raise e) w)
      | FPending | FCancelled => None
      end
  | TimedOut => Some (unwind (timed_out t))
  | Cancelled => Some (unwind CancelledError)
  end.

(** [if not fut.done(): ...] *)
Definition settle (id : string) (f : future) (w : rpc) : rpc :=
  match futures w !! id with
  | Some FPending => with_futures w (<[id := f]> (futures w))
  | _ => w
  end.

Definition resolve (id : string) (payload : dict) (w : rpc) : rpc :=
  match _pending w !! id with
  | None => w
  | Some _ => settle id (FResult payload) w
  end.

(** ** Streams *)

Definition pop_stream (id : string) (w : rpc) : rpc := with_streams w (delete id (_streams w)).

Definition stream_start (id agent_id method : string) (w : rpc) : rpc :=
  let w := with_states w (<[id := StreamState agent_id false None]> (states w)) in
  let w := with_streams w (<[id := tt]> (_streams w)) in
  match _send agent_id (fun ws => WireReq ws id method) w with
  | Some w => with_opens w (<[id := OSending]> (opens w))
  | None => with_opens (pop_stream id w) (<[id := OFailed (not_connected agent_id)]> (opens w))
  end.

Definition stream_sent (id : string) (r : sent) (w : rpc) : rpc :=
  match r with
  | SentOk => with_opens w (<[id := OOpened]> (opens w))
  | SentError text =>
      with_opens (pop_stream id w) (<[id := OFailed (OtherError text)]> (opens w))
  | SentCancelled => with_opens w (<[id := OFailed CancelledError]> (opens w))
  end.

(** [await_stream_end] up to [state.done.wait()]. *)
Definition await_start (id : string) (w : rpc) : rpc :=
  match _streams w !! id with
  | None => with_waits w (<[id := WEnded (Ok tt)]> (waits w))
  | Some _ => with_waits w (<[id := WWaiting]> (waits w))
  end.

(** ... and from there. *)
Definition await_wake (id : string) (st : stream_state) (w : rpc) : rpc :=
  with_waits (pop_stream id w)
    (<[id := WEnded (match st_error st with
                     | Some e => if str_nonempty e then Raise (RpcError (VStr e)) else Ok tt
                     | None => Ok tt
                     end)]> (waits w)).

Definition finish (id : string) (error : option (option string)) (w : rpc) : rpc :=
  with_states w (alter (fun st => StreamState (st_agent st) true
                          (match error with Some e => e | None => st_error st end))
                   id (states w)).

Definition cancel_stream (id : string) (w : rpc) : rpc :=
  match _streams w !! id, states w !! id with
  | Some _, Some st =>
      let w := finish id None (pop_stream id w) in
      default w (_send (st_agent st) (fun ws => WireCancel ws id) w)
  | _, _ => w
  end.

Definition send_control (id : string) (w : rpc) : res unit * rpc :=
  match _streams w !! id, states w !! id with
  | Some _, Some st =>
      match _send (st_agent st) (fun ws => WireControl ws id) w with
      | Some w => (Ok tt, w)
      | None => (Raise (not_connected (st_agent st)), w)
      end
  | _, _ => (Raise (RpcError (VStr ("Stream '" ++ id ++ "' is not active")%string)), w)
  end.

(** The callback a chunk reaches, if its stream is still registered. *)
Definition on_chunk (id : string) (w : rpc) : bool :=
  match _streams w !! id with Some _ => true | None => false end.

Definition on_end (id : string) (error : option string) (w : rpc) : rpc :=
  match _streams w !! id with
  | None => w
  | Some _ => finish id (Some error) w
  end.

(** ** Disconnection *)

Definition drop_call (agent_id : string) (w : rpc) (id : string) : rpc :=
  settle id (FError (AgentNotConnected (disconnected_text agent_id))) (pop_pending id w).

Definition drop_stream (agent_id : string) (w : rpc) (id : string) : rpc :=
  let w := pop_stream id w in
  match states w !! id with
  | Some st => if st_done st then w else finish id (Some (Some (disconnected_text agent_id))) w
  | None => w
  end.

Definition calls_of (agent_id : string) (w : rpc) : list string :=
  fst <$> List.filter (fun kv => String.eqb kv.2 agent_id) (map_to_list (_pending w)).

Definition streams_of (agent_id : string) (w : rpc) : list string :=
  List.filter (fun id => match states w !! id with
                         | Some st => String.eqb (st_agent st) agent_id
                         | None => false end)
    (fst <$> map_to_list (_streams w)).

Definition cancel_for_agent (agent_id : string) (w : rpc) : rpc :=
  let w := fold_left (drop_call agent_id) (calls_of agent_id w) w in
  fold_left (drop_stream agent_id) (streams_of agent_id w) w.

(** ** One uninterrupted stretch of the event loop *)

Inductive event :=
| ECall (id agent_id method : string)
| ESent (id : string) (r : sent)
| EWake (id : string) (c : wakeup)
| EStream (id agent_id method : string)
| EStreamSent (id : string) (r : sent)
| EAwait (id : string)
| EAwaitWake (id : string)
| ECancelStream (id : string)
| EControl (id : string)
| EResponse (id : string) (payload : dict)
| EEnd (id : string) (error : option string)
| EConnect (agent_id : string) (ws : nat)
| EDisconnect (agent_id : string).

(** [uuid4] hands out an id nobody holds. *)
Definition fresh (id : string) (w : rpc) : bool :=
  bool_decide (calls w !! id = None /\ futures w !! id = None /\ _pending w !! id = None /\
               states w !! id = None /\ _streams w !! id = None /\
               opens w !! id = None /\ waits w !! id = None).

(** [None]: the event cannot happen now. *)
Definition step (e : event) (w : rpc) : option rpc :=
  match e with
  | ECall id agent_id method =>
      if fresh id w then Some (call_start id agent_id method w) else None
  | ESent id r =>
      match calls w !! id with
      | Some (CallTask a m CSending as t) => Some (call_sent id t r w)
      | _ => None
      end
  | EWake id c =>
      match calls w !! id, futures w !! id with
      | Some (CallTask a m CWaiting as t), Some f => call_wake id t f c w
      | _, _ => None
      end
  | EStream id agent_id method =>
      if fresh id w then Some (stream_start id agent_id method w) else None
  | EStreamSent id r =>
      match opens w !! id with Some OSending => Some (stream_sent id r w) | _ => None end
  | EAwait id =>
      match opens w !! id, waits w !! id with
      | Some OOpened, None => Some (await_start id w)
      | _, _ => None
      end
  | EAwaitWake id =>
      match waits w !! id, states w !! id with
      | Some WWaiting, Some st => if st_done st then Some (await_wake id st w) else None
      | _, _ => None
      end
  | ECancelStream id => Some (cancel_stream id w)
  | EControl id => Some (snd (send_control id w))
  | EResponse id payload => Some (resolve id payload w)
  | EEnd id error => Some (on_end id error w)
  | EConnect agent_id ws => Some (with_connected w (<[agent_id := ws]> (connected_agents w)))
  | EDisconnect agent_id =>
      Some (cancel_for_agent agent_id (with_connected w (delete agent_id (connected_agents w))))
  end.

Fixpoint run (es : list event) (w : rpc) : option rpc :=
  match es with
  | [] => Some w
  | e :: es => match step e w with Some w' => run es w' | None => None end
  end.

(** ** agent_dispatch.py *)

Section Dispatch.
Context (local_agent_id : string) (py_str : pyval -> string).

Definition is_local (agent_id : string) : bool := String.eqb agent_id local_agent_id.

Definition error_text (v : pyval) : string := match v with VStr s => s | _ => py_str v end.

(** [call_remote] on the outcome of its call. *)
Definition call_remote (outcome : res pyval) : res pyval :=
  match outcome with
  | Raise (AgentNotConnected m) => Raise (HTTPException 503 m)
  | Raise (RpcTimeout m) => Raise (HTTPException 504 m)
  | Raise (RpcError e) => Raise (HTTPException 400 (error_text e))
  | r => r
  end.
End Dispatch.

(** ** What each operation changes *)

Lemma settle_lookup id f w i :
  futures (settle id f w) !! i =
  if decide (i = id /\ futures w !! id = Some FPending) then Some f else futures w !! i.
Proof.
  unfold settle. destruct (futures w !! id) as [[]|] eqn:E; simpl;
    try (by rewrite decide_False by naive_solver).
  rewrite lookup_insert. repeat case_decide; naive_solver.
Qed.

Lemma settle_frame id f w :
  connected_agents (settle id f w) = connected_agents w /\
  _pending (settle id f w) = _pending w /\ calls (settle id f w) = calls w /\
  _streams (settle id f w) = _streams w /\ states (settle id f w) = states w /\
  opens (settle id f w) = opens w /\ waits (settle id f w) = waits w.
Proof. unfold settle. by destruct (futures w !! id) as [[]|]. Qed.

(** The calls a disconnect drops, all at once. *)
Lemma drop_calls_spec agent_id l w :
  let w' := fold_left (drop_call agent_id) l w in
  connected_agents w' = connected_agents w /\ calls w' = calls w /\
  _streams w' = _streams w /\ states w' = states w /\ opens w' = opens w /\ waits w' = waits w /\
  (forall i, _pending w' !! i = if decide (i ∈ l) then None else _pending w !! i) /\
  (forall i, futures w' !! i =
    if decide (i ∈ l /\ futures w !! i = Some FPending)
    then Some (FError (AgentNotConnected (disconnected_text agent_id))) else futures w !! i).
Proof.
  revert w. induction l as [|id l IH]; intros w; simpl.
  - repeat split; intros i; rewrite decide_False; set_solver.
  - destruct (IH (drop_call agent_id w id)) as (H1 & H2 & H3 & H4 & H5 & H6 & Hp & Hf).
    unfold drop_call in *.
    destruct (settle_frame id (FError (AgentNotConnected (disconnected_text agent_id)))
      (pop_pending id w)) as (F1 & F2 & F3 & F4 & F5 & F6 & F7).
    rewrite H1, H2, H3, H4, H5, H6, F1, F3, F4, F5, F6, F7. repeat split; [intros i..].
    + rewrite Hp, F2. simpl. rewrite lookup_delete. repeat case_decide; set_solver.
    + rewrite Hf, settle_lookup. simpl. repeat case_decide; set_solver.
Qed.

Definition dropped (agent_id : string) (st : stream_state) : stream_state :=
  if st_done st then st else StreamState (st_agent st) true (Some (disconnected_text agent_id)).

Lemma drop_stream_spec agent_id id w :
  let w' := drop_stream agent_id w id in
  connected_agents w' = connected_agents w /\ calls w' = calls w /\
  _pending w' = _pending w /\ futures w' = futures w /\ opens w' = opens w /\ waits w' = waits w /\
  _streams w' = delete id (_streams w) /\ states w' = alter (dropped agent_id) id (states w).
Proof.
  cbn zeta. unfold drop_stream. simpl. destruct (states w !! id) as [st|] eqn:Est.
  - destruct (st_done st) eqn:Ed; repeat split; simpl; apply map_eq; intros i;
      rewrite !lookup_alter; case_decide; try done; subst; rewrite Est; simpl;
      unfold dropped; by rewrite Ed.
  - repeat split. simpl. apply map_eq. intros i. rewrite lookup_alter. case_decide; [|done].
    subst. by rewrite Est.
Qed.

Lemma drop_streams_spec agent_id l w :
  let w' := fold_left (drop_stream agent_id) l w in
  connected_agents w' = connected_agents w /\ calls w' = calls w /\
  _pending w' = _pending w /\ futures w' = futures w /\ opens w' = opens w /\ waits w' = waits w /\
  (forall i, _streams w' !! i = if decide (i ∈ l) then None else _streams w !! i) /\
  (forall i, states w' !! i =
     if decide (i ∈ l) then dropped agent_id <$> states w !! i else states w !! i).
Proof.
  revert w. induction l as [|id l IH]; intros w; cbn -[drop_stream].
  - repeat split; intros i; by rewrite decide_False by apply not_elem_of_nil.
  - destruct (IH (drop_stream agent_id w id)) as (H1 & H2 & H3 & H4 & H5 & H6 & Hs & Ht).
    destruct (drop_stream_spec agent_id id w) as (F1 & F2 & F3 & F4 & F5 & F6 & Fs & Ft).
    rewrite H1, H2, H3, H4, H5, H6, F1, F2, F3, F4, F5, F6. repeat split; intros i.
    + rewrite Hs, Fs, lookup_delete. repeat case_decide; set_solver.
    + rewrite Ht, Ft, lookup_alter. destruct (decide (id = i)) as [->|Hne].
      * rewrite (decide_True (P := i ∈ i :: l)) by apply list_elem_of_here.
        destruct (states w !! i) as [st|]; simpl; case_decide; try done.
        f_equal. unfold dropped. by destruct (st_done st) eqn:Ed; rewrite ?Ed.
      * repeat case_decide; set_solver.
Qed.

Lemma calls_of_spec agent_id w i :
  i ∈ calls_of agent_id w <-> _pending w !! i = Some agent_id.
Proof.
  unfold calls_of. rewrite list_elem_of_In, in_map_iff. split.
  - intros ([j a] & <- & [Hin Ha]%List.filter_In). simpl in *. apply String.eqb_eq in Ha as ->.
    by apply elem_of_map_to_list, list_elem_of_In.
  - intros Hi. exists (i, agent_id). split; [done|]. apply List.filter_In. simpl.
    rewrite String.eqb_refl. split; [|done]. by apply list_elem_of_In, elem_of_map_to_list.
Qed.

Lemma streams_of_spec agent_id w i :
  i ∈ streams_of agent_id w <->
  is_Some (_streams w !! i) /\ exists st, states w !! i = Some st /\ st_agent st = agent_id.
Proof.
  unfold streams_of. rewrite list_elem_of_In, List.filter_In, in_map_iff. split.
  - intros [([j []] & <- & Hin) Ha]. simpl in *.
    apply list_elem_of_In, elem_of_map_to_list in Hin. rewrite Hin.
    destruct (states w !! j) as [st|]; [|done]. apply String.eqb_eq in Ha. eauto.
  - intros [[[] Hi] (st & Hst & Ha)]. rewrite Hst, Ha, String.eqb_refl. split; [|done].
    exists (i, ()). split; [done|]. by apply list_elem_of_In, elem_of_map_to_list.
Qed.

Definition dropped_future (agent_id : string) (f : future) : future :=
  match f with
  | FPending => FError (AgentNotConnected (disconnected_text agent_id))
  | f => f
  end.

Lemma cancel_for_agent_spec a w :
  let w' := cancel_for_agent a w in
  connected_agents w' = connected_agents w /\ calls w' = calls w /\
  opens w' = opens w /\ waits w' = waits w /\
  (forall i, _pending w' !! i = if decide (_pending w !! i = Some a) then None else _pending w !! i) /\
  (forall i, futures w' !! i = if decide (_pending w !! i = Some a)
     then dropped_future a <$> futures w !! i else futures w !! i) /\
  (forall i, _streams w' !! i =
     if decide (st_agent <$> states w !! i = Some a) then None else _streams w !! i) /\
  (forall i, states w' !! i =
     if decide (is_Some (_streams w !! i) /\ st_agent <$> states w !! i = Some a)
     then dropped a <$> states w !! i else states w !! i).
Proof.
  cbn zeta. unfold cancel_for_agent. set (w1 := fold_left _ _ w).
  destruct (drop_calls_spec a (calls_of a w) w) as (C1 & C2 & C3 & C4 & C5 & C6 & Cp & Cf).
  fold w1 in C1, C2, C3, C4, C5, C6, Cp, Cf.
  destruct (drop_streams_spec a (streams_of a w1) w1) as (D1 & D2 & D3 & D4 & D5 & D6 & Ds & Dt).
  assert (Hs : forall i, i ∈ streams_of a w1 <->
    is_Some (_streams w !! i) /\ st_agent <$> states w !! i = Some a).
  { intros i. rewrite streams_of_spec, C3, C4. destruct (states w !! i); simpl; naive_solver. }
  rewrite D1, D2, D3, D4, D5, D6, C1, C2, C5, C6. repeat split; intros i.
  - rewrite Cp. pose proof (calls_of_spec a w i). repeat case_decide; tauto.
  - rewrite Cf. pose proof (calls_of_spec a w i) as Hi.
    destruct (decide (_pending w !! i = Some a)) as [E|E].
    + rewrite (decide_ext _ (futures w !! i = Some FPending)) by tauto.
      case_decide as Ef; [by rewrite Ef|]. by destruct (futures w !! i) as [[]|].
    + rewrite decide_False by tauto. done.
  - rewrite Ds, C3. destruct (decide (i ∈ streams_of a w1)) as [E|E]; rewrite Hs in E.
    + destruct E as [_ E]. by rewrite decide_True.
    + case_decide as E2; [|done]. destruct (_streams w !! i) eqn:Es; [|done].
      exfalso. apply E. eauto.
  - rewrite Dt, C4. destruct (decide (i ∈ streams_of a w1)) as [E|E]; rewrite Hs in E.
    + by rewrite decide_True.
    + by rewrite decide_False.
Qed.

(** ** The invariant of every run *)

Definition suspended (pc : call_pc) : bool :=
  match pc with CReturned _ => false | _ => true end.

Record coherent (w : rpc) : Prop := {
  (* an entry belongs to a call that is suspended, or was cancelled while sending *)
  pending_owned : forall id a, _pending w !! id = Some a ->
    exists t, calls w !! id = Some t /\ ct_agent t = a /\
      forall r, ct_pc t = CReturned r -> r = Raise CancelledError;
  (* a suspended call has its entry, unless its future is settled already *)
  future_live : forall id t, calls w !! id = Some t -> suspended (ct_pc t) = true ->
    exists f, futures w !! id = Some f /\ f <> FCancelled /\
      (f = FPending -> _pending w !! id = Some (ct_agent t));
  (* whoever waits for a stream is registered, or the stream is over *)
  wait_live : forall id, waits w !! id = Some WWaiting ->
    exists st, states w !! id = Some st /\ (st_done st = false -> is_Some (_streams w !! id));
  stream_owned : forall id, is_Some (_streams w !! id) -> is_Some (states w !! id);
  (* nobody waits for a stream whose request is still being sent *)
  wait_opened : forall id, is_Some (waits w !! id) -> opens w !! id = Some OOpened
}.

Lemma coherent_idle : coherent idle.
Proof. split; intros ? **; simpl in *; simplify_map_eq; by destruct H. Qed.

Lemma fresh_spec id w :
  fresh id w = true -> calls w !! id = None /\ futures w !! id = None /\ _pending w !! id = None /\
    states w !! id = None /\ _streams w !! id = None /\ opens w !! id = None /\ waits w !! id = None.
Proof. unfold fresh. by intros ?%bool_decide_eq_true. Qed.

Lemma coherent_call_start id a m w :
  fresh id w = true -> coherent w -> coherent (call_start id a m w).
Proof.
  intros (Hc & Hf & Hp & _)%fresh_spec [H1 H2 H3 H4 H5]. unfold call_start, _send, set_pc, pop_pending.
  simpl. destruct (connected_agents w !! a); split; simpl; try done.
  - intros i a'. rewrite !lookup_insert. case_decide as E; [|apply H1].
    intros [= <-]. eexists. split; [done|]. by split.
  - intros i t. rewrite !lookup_insert. case_decide as E; [|apply H2].
    intros [= <-] _. eexists. split; [done|]. by split.
  - intros i a'. rewrite lookup_delete, lookup_alter, !lookup_insert.
    repeat case_decide; try done. apply H1.
  - intros i t. rewrite lookup_delete, lookup_alter, !lookup_insert.
    repeat case_decide; try done; simpl; [by intros [= <-]|apply H2].
Qed.

(** A call that returns and gives up its entry. *)
Lemma coherent_return id r w :
  coherent w -> coherent (set_pc id (CReturned r) (pop_pending id w)).
Proof.
  intros [H1 H2 H3 H4 H5]. split; simpl; try done.
  - intros i a. rewrite lookup_delete, lookup_alter. case_decide; [done|apply H1].
  - intros i t. rewrite lookup_delete, lookup_alter. case_decide; [|apply H2].
    subst. destruct (calls w !! i); simpl; [by intros [= <-]|done].
Qed.

Lemma coherent_futures m w :
  coherent w ->
  (forall i f, m !! i = Some f -> f = FCancelled \/ f = FPending -> futures w !! i = Some f) ->
  (forall i, is_Some (futures w !! i) -> is_Some (m !! i)) ->
  coherent (with_futures w m).
Proof.
  intros [H1 H2 H3 H4 H5] Hm Hd. split; simpl; try done.
  intros i t Ht Hs. destruct (H2 i t Ht Hs) as (f & Hf & Hc & Hp).
  destruct (Hd i) as [f' Hf']; [by eexists|]. exists f'. split; [done|]. split.
  - intros ->. apply Hc. specialize (Hm i _ Hf' (or_introl eq_refl)). congruence.
  - intros ->. apply Hp. specialize (Hm i _ Hf' (or_intror eq_refl)). congruence.
Qed.

Lemma coherent_settle id f w :
  f <> FPending -> f <> FCancelled -> coherent w -> coherent (settle id f w).
Proof.
  intros Hp Hc Hw. unfold settle. destruct (futures w !! id) as [[]|] eqn:E; try done.
  apply coherent_futures; [done|..].
  - intros i f'. rewrite lookup_insert. case_decide; [|done]. intros [= <-]. naive_solver.
  - intros i Hi. rewrite lookup_insert. by case_decide.
Qed.

Lemma coherent_set_pc id t pc w :
  calls w !! id = Some t -> suspended (ct_pc t) = true ->
  (forall r, pc = CReturned r -> r = Raise CancelledError) ->
  coherent w -> coherent (set_pc id pc w).
Proof.
  intros Ht Hs Hpc [H1 H2 H3 H4 H5]. split; simpl; try done.
  - intros i a Hi. destruct (H1 i a Hi) as (t' & Ht' & Ha & Hr). rewrite lookup_alter.
    case_decide as E; [|by exists t']. subst. rewrite Ht'. eexists. by split.
  - intros i t'. rewrite lookup_alter. case_decide as E; [|apply H2]. subst. rewrite Ht.
    intros [= <-] _. by apply (H2 i t Ht).
Qed.

Lemma coherent_call_sent id t r w :
  calls w !! id = Some t -> suspended (ct_pc t) = true -> coherent w ->
  coherent (call_sent id t r w).
Proof.
  intros Ht Hs Hw. destruct r as [|text|]; simpl; [|by apply coherent_return|];
    apply (coherent_set_pc id t); naive_solver.
Qed.

Lemma coherent_call_wake id t f c w w' :
  futures w !! id = Some f -> call_wake id t f c w = Some w' -> coherent w -> coherent w'.
Proof.
  intros Hf Hw Hco.
  assert (Hun : forall r, coherent (set_pc id (CReturned r) (pop_pending id
    (with_futures w (if decide (f = FPending) then <[id := FCancelled]> (futures w)
                     else futures w))))).
  { intros r. destruct (decide (f = FPending)).
    - (* the cancelled future is the returning call's own *)
      destruct Hco as [H1 H2 H3 H4 H5]. split; simpl; try done.
      + intros i a. rewrite lookup_delete, lookup_alter. case_decide; [done|apply H1].
      + intros i t'. rewrite lookup_delete, lookup_alter, lookup_insert.
        case_decide; [|apply H2]. destruct (calls w !! i) eqn:E; subst; [|by rewrite E].
        rewrite E. by intros [= <-].
    - apply coherent_return. by destruct w. }
  unfold call_wake in Hw.
  destruct c; [destruct f|..]; simplify_eq; auto using coherent_return.
Qed.

Lemma finish_lookup id e w i :
  states (finish id e w) !! i =
  if decide (id = i)
  then (fun st => StreamState (st_agent st) true (match e with Some x => x | None => st_error st end))
       <$> states w !! i
  else states w !! i.
Proof. unfold finish. simpl. rewrite lookup_alter. by case_decide; subst. Qed.

Lemma coherent_finish id e w : coherent w -> coherent (finish id e w).
Proof.
  intros [H1 H2 H3 H4 H5]. split; try done.
  - intros i Hi. destruct (H3 i Hi) as (st & Hst & Hd). rewrite finish_lookup, Hst.
    case_decide; eexists; by split.
  - intros i Hi. rewrite finish_lookup. destruct (H4 i Hi) as [st ->]. case_decide; by eexists.
Qed.

(** A registration may go once the stream is over or nobody waits for it. *)
Lemma coherent_pop_stream id w :
  (waits w !! id = Some WWaiting -> forall st, states w !! id = Some st -> st_done st = true) ->
  coherent w -> coherent (pop_stream id w).
Proof.
  intros Hid [H1 H2 H3 H4 H5]. split; simpl; try done.
  - intros i Hi. destruct (H3 i Hi) as (st & Hst & Hd). exists st. split; [done|].
    intros Hf. rewrite lookup_delete. case_decide; [|by apply Hd].
    subst. specialize (Hid Hi st Hst). congruence.
  - intros i. rewrite lookup_delete. case_decide; [by intros []|apply H4].
Qed.

Lemma coherent_outbox l w : coherent w -> coherent (with_outbox w l).
Proof. by intros [H1 H2 H3 H4 H5]. Qed.

Lemma coherent_opens id o w :
  waits w !! id = None -> coherent w -> coherent (with_opens w (<[id := o]> (opens w))).
Proof.
  intros Hid [H1 H2 H3 H4 H5]. split; simpl; try done. intros i Hi. rewrite lookup_insert.
  case_decide; [subst; rewrite Hid in Hi; by destruct Hi|by apply H5].
Qed.

Lemma coherent_send a f w w' : _send a f w = Some w' -> coherent w -> coherent w'.
Proof. unfold _send. destruct (_ !! a); [|done]. intros [= <-]. apply coherent_outbox. Qed.

Lemma coherent_stream_start id a m w :
  fresh id w = true -> coherent w -> coherent (stream_start id a m w).
Proof.
  intros (_ & _ & _ & Hs & Hg & Ho & Hw)%fresh_spec Hco.
  unfold stream_start. cbv zeta.
  match goal with |- context [_send _ _ ?x] => set (w1 := x) end.
  assert (H : coherent w1).
  { destruct Hco as [H1 H2 H3 H4 H5]. split; simpl; try done.
    - intros i Hi. rewrite !lookup_insert. case_decide; [subst; congruence|by apply H3].
    - intros i. rewrite !lookup_insert. case_decide; [by eexists|apply H4]. }
  assert (Hw1 : waits w1 !! id = None) by done. clearbody w1.
  destruct (_send a _ w1) as [w2|] eqn:E.
  - unfold _send in E. destruct (connected_agents w1 !! a); [|done]. injection E as <-.
    apply (coherent_opens id _ (with_outbox w1 _)); [done|by apply coherent_outbox].
  - apply (coherent_opens id _ (pop_stream id w1)); [done|].
    apply coherent_pop_stream; [|done]. by rewrite Hw1.
Qed.

Lemma coherent_cancel_stream id w : coherent w -> coherent (cancel_stream id w).
Proof.
  intros Hw. unfold cancel_stream. destruct (_streams w !! id); [|done].
  destruct (states w !! id) as [st|] eqn:Hst; [|done].
  assert (H : coherent (finish id None (pop_stream id w))).
  { assert (finish id None (pop_stream id w) = pop_stream id (finish id None w)) as -> by done.
    apply coherent_pop_stream; [|by apply coherent_finish].
    intros _ st'. rewrite finish_lookup, decide_True, Hst by done. by intros [= <-]. }
  destruct (_send _ _ _) as [w1|] eqn:E; simpl; [eapply coherent_send; [exact E|exact H]|done].
Qed.

Lemma coherent_cancel_for_agent a w : coherent w -> coherent (cancel_for_agent a w).
Proof.
  destruct (cancel_for_agent_spec a w) as (C1 & C2 & C3 & C4 & Hp & Hf & Hs & Ht).
  intros [H1 H2 H3 H4 H5]. split.
  - intros i a'. rewrite Hp, C2. case_decide; [done|apply H1].
  - intros i t. rewrite C2, Hf, Hp. intros Hc Hsus. destruct (H2 i t Hc Hsus) as (f & -> & Hne & Hpend).
    case_decide; simpl; [|by exists f].
    exists (dropped_future a f). split; [done|]. by destruct f.
  - intros i. rewrite C4, Ht, Hs. intros Hi. destruct (H3 i Hi) as (st & -> & Hd). simpl.
    destruct (st_done st) eqn:Ed.
    + exists st. unfold dropped. case_decide; rewrite ?Ed; by split.
    + destruct (Hd eq_refl) as [[] Hin]. rewrite Hin.
      destruct (decide (Some (st_agent st) = Some a)) as [E|E].
      * rewrite decide_True by (split; [by eexists|done]). eexists. split; [done|].
        unfold dropped. by rewrite Ed.
      * rewrite decide_False by (by intros []). exists st. split; [done|]. by eexists.
  - intros i. rewrite Hs, Ht. case_decide; [by intros []|]. intros Hi.
    rewrite decide_False by (by intros []). by apply H4.
  - intros i. rewrite C3, C4. apply H5.
Qed.

Lemma coherent_stream_sent id r w :
  opens w !! id = Some OSending -> coherent w -> coherent (stream_sent id r w).
Proof.
  intros Ho Hw.
  assert (Hn : waits w !! id = None).
  { destruct (waits w !! id) eqn:E; [|done]. pose proof (wait_opened w Hw id) as H.
    rewrite E, Ho in H. by specialize (H (ex_intro _ _ eq_refl)). }
  destruct r; simpl; [by apply coherent_opens| |by apply coherent_opens].
  apply (coherent_opens id _ (pop_stream id w)); [done|]. apply coherent_pop_stream; [|done].
  by rewrite Hn.
Qed.

Lemma coherent_waits id o w :
  opens w !! id = Some OOpened ->
  (o = WWaiting -> exists st, states w !! id = Some st /\
     (st_done st = false -> is_Some (_streams w !! id))) ->
  coherent w -> coherent (with_waits w (<[id := o]> (waits w))).
Proof.
  intros Ho Hs [H1 H2 H3 H4 H5]. split; simpl; try done.
  - intros i. rewrite lookup_insert. case_decide; [subst; intros [= ->]; auto|apply H3].
  - intros i. rewrite lookup_insert. case_decide; [by subst|apply H5].
Qed.

Lemma coherent_await_start id w :
  opens w !! id = Some OOpened -> coherent w -> coherent (await_start id w).
Proof.
  intros Ho Hw. unfold await_start.
  destruct (_streams w !! id) eqn:E; apply coherent_waits; try done.
  intros _. destruct (stream_owned w Hw id) as [st Hst]; [by eexists|]. by exists st.
Qed.

Lemma coherent_await_wake id st w :
  waits w !! id = Some WWaiting -> states w !! id = Some st -> st_done st = true ->
  coherent w -> coherent (await_wake id st w).
Proof.
  intros Hw Hst Hd Hco. unfold await_wake. apply (coherent_waits id _ (pop_stream id w)).
  - apply (wait_opened w Hco). by eexists.
  - by repeat case_match.
  - apply coherent_pop_stream; [|done]. intros _ st'. rewrite Hst. by intros [= <-].
Qed.

Lemma coherent_step e w w' : step e w = Some w' -> coherent w -> coherent w'.
Proof.
  intros Hstep Hw. destruct e; simpl in Hstep.
  - destruct (fresh id w) eqn:Hf; [|done]. injection Hstep as <-. by apply coherent_call_start.
  - destruct (calls w !! id) as [[a m []]|] eqn:Hc; try done. injection Hstep as <-.
    by apply (coherent_call_sent id (CallTask a m CSending)).
  - destruct (calls w !! id) as [[a m []]|] eqn:Hc; try done.
    destruct (futures w !! id) as [f|] eqn:Hf; [|done].
    by eapply coherent_call_wake.
  - destruct (fresh id w) eqn:Hf; [|done]. injection Hstep as <-. by apply coherent_stream_start.
  - destruct (opens w !! id) as [[]|] eqn:Ho; try done. injection Hstep as <-.
    by apply coherent_stream_sent.
  - destruct (opens w !! id) as [[]|] eqn:Ho; try done.
    destruct (waits w !! id); [done|]. injection Hstep as <-. by apply coherent_await_start.
  - destruct (waits w !! id) as [[]|] eqn:Hwt; try done.
    destruct (states w !! id) as [st|] eqn:Hst; [|done].
    destruct (st_done st) eqn:Hd; [|done]. injection Hstep as <-. by apply coherent_await_wake.
  - injection Hstep as <-. by apply coherent_cancel_stream.
  - injection Hstep as <-. unfold send_control.
    destruct (_streams w !! id), (states w !! id); try done.
    destruct (_send _ _ _) as [w1|] eqn:E; [by eapply coherent_send|done].
  - injection Hstep as <-. unfold resolve. destruct (_pending w !! id); [|done].
    by apply coherent_settle.
  - injection Hstep as <-. unfold on_end. destruct (_streams w !! id); [|done].
    by apply coherent_finish.
  - injection Hstep as <-. by destruct Hw.
  - injection Hstep as <-. apply coherent_cancel_for_agent. by destruct Hw.
Qed.

Lemma run_app es es' w :
  run (es ++ es') w = match run es w with Some w' => run es' w' | None => None end.
Proof.
  revert w. induction es as [|e es IH]; intros w; simpl; [done|].
  destruct (step e w); [apply IH|done].
Qed.

(** Induction on the last event of a run. *)
Lemma run_ind (P : list event -> rpc -> Prop) :
  P [] idle ->
  (forall es e w w', run es idle = Some w -> P es w -> step e w = Some w' -> P (es ++ [e]) w') ->
  forall es w, run es idle = Some w -> P es w.
Proof.
  intros H0 Hs es. induction es as [|e es IH] using rev_ind; intros w.
  - by intros [= <-].
  - rewrite run_app. destruct (run es idle) as [w1|] eqn:E; [|done]. simpl.
    destruct (step e w1) as [w2|] eqn:E2; [|done]. intros [= <-].
    apply (Hs es e w1); [done|by apply IH|done].
Qed.

Lemma run_coherent es w : run es idle = Some w -> coherent w.
Proof.
  revert es w. apply (run_ind (fun _ w => coherent w)); [apply coherent_idle|].
  intros es e w w' _ Hw Hstep. by eapply coherent_step.
Qed.

(** ** Responses reach the call they answer *)

(** What a returned call can carry, given the events so far. *)
Definition call_outcome (es : list event) (id : string) (t : call_task) (r : res pyval) : Prop :=
  (exists p, EResponse id p ∈ es /\ r = call_result p) \/
  (exists text, r = Raise (AgentNotConnected text)) \/
  r = Raise (timed_out t) \/ r = Raise CancelledError.

Record sound (es : list event) (w : rpc) : Prop := {
  future_sound : forall id f, futures w !! id = Some f ->
    match f with
    | FResult p => EResponse id p ∈ es
    | FError e => exists text, e = AgentNotConnected text
    | _ => True
    end;
  call_sound : forall id t r, calls w !! id = Some t -> ct_pc t = CReturned r ->
    call_outcome es id t r
}.

Lemma call_outcome_mono es e id t r : call_outcome es id t r -> call_outcome (es ++ [e]) id t r.
Proof. intros [(p & Hp & ->)|H]; [left; exists p; set_solver|by right]. Qed.

Lemma sound_mono es e w : sound es w -> sound (es ++ [e]) w.
Proof.
  intros [H1 H2]. split.
  - intros id f Hf. specialize (H1 id f Hf). destruct f; set_solver.
  - intros id t r Ht Hr. by apply call_outcome_mono, H2.
Qed.

(** Steps that touch neither futures nor calls. *)
Lemma sound_frame es w w' :
  futures w' = futures w -> calls w' = calls w -> sound es w -> sound es w'.
Proof. intros Hf Hc [H1 H2]. split; by rewrite ?Hf, ?Hc. Qed.

Lemma sound_set_pc es id t pc w :
  calls w !! id = Some t -> (forall r, pc = CReturned r -> call_outcome es id t r) ->
  sound es w -> sound es (set_pc id pc w).
Proof.
  intros Ht Hpc [H1 H2]. split; [done|]. intros i t' r. simpl. rewrite lookup_alter.
  case_decide; [|apply H2]. subst. rewrite Ht. intros [= <-]. simpl. intros ->.
  by destruct (Hpc r eq_refl) as [?|[?|[?|?]]]; [left|right;left|right;right;left|right;right;right].
Qed.

Lemma sound_futures es id f w :
  match f with
  | FResult p => EResponse id p ∈ es
  | FError e => exists text, e = AgentNotConnected text
  | _ => True
  end -> sound es w -> sound es (with_futures w (<[id := f]> (futures w))).
Proof.
  intros Hf [H1 H2]. split; [|done]. intros i f'. simpl. rewrite lookup_insert.
  case_decide; [|apply H1]. subst. by intros [= <-].
Qed.

Lemma sound_call_start es id a m w : sound es w -> sound es (call_start id a m w).
Proof.
  intros Hs. unfold call_start. cbv zeta.
  match goal with |- context [_send _ _ ?x] => set (w1 := x) end.
  assert (H : sound es w1).
  { destruct (sound_futures es id FPending w I Hs) as [H1 H2]. split; [done|].
    intros i t r. simpl. rewrite lookup_insert. case_decide; [|apply H2]. by intros [= <-]. }
  unfold _send. destruct (connected_agents w1 !! a).
  - by apply (sound_frame es w1).
  - apply (sound_set_pc es id (CallTask a m CSending)); [by simpl; rewrite lookup_insert_eq| |].
    + intros r [= <-]. right. left. by eexists.
    + by apply (sound_frame es w1).
Qed.

Lemma sound_step es e w w' : step e w = Some w' -> sound es w -> sound (es ++ [e]) w'.
Proof.
  intros Hstep Hs%(sound_mono es e). destruct e; simpl in Hstep.
  - destruct (fresh id w); [|done]. injection Hstep as <-. by apply sound_call_start.
  - destruct (calls w !! id) as [[a m []]|] eqn:Hc; try done. injection Hstep as <-.
    destruct r as [|text|]; simpl;
      (apply (sound_set_pc _ id (CallTask a m CSending)); [done| |by apply (sound_frame _ w)]);
      intros r [= <-]; right; [left; by eexists|by right; right].
  - destruct (calls w !! id) as [[a m []]|] eqn:Hc; try done.
    destruct (futures w !! id) as [f|] eqn:Hf; [|done].
    assert (Hret : forall r m', (exists f', m' = <[id := f']> (futures w) /\ f' = FCancelled) \/
        m' = futures w -> call_outcome (es ++ [EWake id c]) id (CallTask a m CWaiting) r ->
        sound (es ++ [EWake id c]) (set_pc id (CReturned r) (pop_pending id (with_futures w m')))).
    { intros r m' Hm Hr. apply (sound_set_pc _ id (CallTask a m CWaiting)); [done| |].
      - by intros r' [= <-].
      - destruct Hm as [(f' & -> & ->)| ->].
        + by apply (sound_frame _ (with_futures w (<[id := FCancelled]> (futures w))));
            [..|apply sound_futures].
        + by apply (sound_frame _ w). }
    pose proof (future_sound _ _ Hs id f Hf) as Hfs. unfold call_wake in Hstep.
    replace w with (with_futures w (futures w)) in Hstep at 1 by (by destruct w).
    destruct c; [destruct f; try done|..]; injection Hstep as <-.
    + apply Hret; [by right|]. left. by eexists.
    + apply Hret; [by right|]. right. left. destruct Hfs as [text ->]. by eexists.
    + apply Hret; [case_decide; [left; by eexists|by right]|]. by right; right; left.
    + apply Hret; [case_decide; [left; by eexists|by right]|]. by right; right; right.
  - destruct (fresh id w); [|done]. injection Hstep as <-. unfold stream_start, _send.
    by destruct (connected_agents _ !! agent_id); apply (sound_frame _ w).
  - destruct (opens w !! id) as [[]|]; try done. injection Hstep as <-.
    by destruct r; apply (sound_frame _ w).
  - destruct (opens w !! id) as [[]|]; try done. destruct (waits w !! id); [done|].
    injection Hstep as <-. unfold await_start.
    by destruct (_streams w !! id); apply (sound_frame _ w).
  - destruct (waits w !! id) as [[]|]; try done.
    destruct (states w !! id) as [st|]; [|done]. destruct (st_done st); [|done].
    injection Hstep as <-. by apply (sound_frame _ w).
  - injection Hstep as <-. unfold cancel_stream, _send.
    destruct (_streams w !! id), (states w !! id); try done.
    by destruct (connected_agents _ !! _); apply (sound_frame _ w).
  - injection Hstep as <-. unfold send_control, _send.
    destruct (_streams w !! id), (states w !! id); try done.
    by destruct (connected_agents _ !! _); apply (sound_frame _ w).
  - injection Hstep as <-. unfold resolve, settle. destruct (_pending w !! id); [|done].
    destruct (futures w !! id) as [[]|]; try done. apply sound_futures; [set_solver|done].
  - injection Hstep as <-. unfold on_end. destruct (_streams w !! id); [|done].
    by apply (sound_frame _ w).
  - injection Hstep as <-. by apply (sound_frame _ w).
  - injection Hstep as <-.
    destruct (cancel_for_agent_spec agent_id (with_connected w (delete agent_id (connected_agents w))))
      as (_ & C2 & _ & _ & _ & Hf & _). destruct Hs as [H1 H2]. split.
    + intros i f. rewrite Hf. simpl. case_decide; [|apply H1].
      destruct (futures w !! i) as [f'|] eqn:E; [|done]. intros [= <-].
      specialize (H1 i f' E). destruct f'; simpl; eauto.
    + intros i t r. rewrite C2. apply H2.
Qed.

Lemma run_sound es w : run es idle = Some w -> sound es w.
Proof.
  revert es w. apply (run_ind sound).
  - split; intros ? **; simpl in *; simplify_map_eq.
  - intros es e w w' _ Hs Hstep. by eapply sound_step.
Qed.

(** C18: whatever the interleaving, a call that returns a value returns the content
    of a response that arrived under its own id; otherwise it raises, and only for
    a lost agent, its timeout, its cancellation or an error that such a response
    reports. *)
Theorem call_returns_its_response es w id t r :
  run es idle = Some w -> calls w !! id = Some t -> ct_pc t = CReturned r ->
  call_outcome es id t r.
Proof. intros Hrun. by apply (call_sound _ _ (run_sound _ _ Hrun)). Qed.

(** A disconnect leaves no call hanging: every call waiting for that agent can
    resume at once, with the response if it had arrived, and with a
    disconnection error if not. *)
Theorem disconnect_wakes_calls es w id a m :
  run es idle = Some w -> calls w !! id = Some (CallTask a m CWaiting) ->
  exists w1 w2 r, step (EDisconnect a) w = Some w1 /\ step (EWake id Woken) w1 = Some w2 /\
    calls w2 !! id = Some (CallTask a m (CReturned r)) /\ _pending w2 !! id = None /\
    match futures w !! id with
    | Some (FResult p) => r = call_result p
    | Some (FError e) => r = Raise e
    | _ => r = Raise (AgentNotConnected (disconnected_text a))
    end.
Proof.
  intros Hrun%run_coherent Hc. destruct (future_live w Hrun id _ Hc eq_refl) as (f & Hf & Hne & Hp).
  set (w0 := with_connected w (delete a (connected_agents w))).
  destruct (cancel_for_agent_spec a w0) as (_ & C2 & _ & _ & _ & Cf & _).
  exists (cancel_for_agent a w0). rewrite Hf.
  assert (Hf1 : futures (cancel_for_agent a w0) !! id = Some (dropped_future a f)).
  { rewrite Cf. simpl. destruct (decide (_pending w !! id = Some a)) as [E|E]; [by rewrite Hf|].
    rewrite Hf. f_equal. destruct f; try done. by specialize (Hp eq_refl). }
  simpl. rewrite C2. simpl. rewrite Hc, Hf1.
  destruct f as [|p|e|]; simpl; try done; do 2 eexists; (split; [done|]); (split; [done|]);
    simpl; rewrite lookup_alter_eq, lookup_delete_eq, C2; simpl; by rewrite Hc.
Qed.

(** A disconnect ends every stream somebody waits for: the waiter can resume at
    once, with the stream's own end if it had come and an error if not. *)
Theorem disconnect_ends_streams es w id st :
  run es idle = Some w -> waits w !! id = Some WWaiting -> states w !! id = Some st ->
  exists w1 w2, step (EDisconnect (st_agent st)) w = Some w1 /\
    step (EAwaitWake id) w1 = Some w2 /\ _streams w2 !! id = None /\
    waits w2 !! id = Some (WEnded
      (if st_done st
       then match st_error st with
            | Some e => if str_nonempty e then Raise (RpcError (VStr e)) else Ok tt
            | None => Ok tt
            end
       else Raise (RpcError (VStr (disconnected_text (st_agent st)))))).
Proof.
  intros Hrun%run_coherent Hw Hst.
  destruct (wait_live w Hrun id Hw) as (st' & Hst' & Hlive).
  rewrite Hst in Hst'. injection Hst' as <-.
  set (a := st_agent st). set (w0 := with_connected w (delete a (connected_agents w))).
  destruct (cancel_for_agent_spec a w0) as (_ & _ & _ & C4 & _ & _ & Cs & Ct).
  assert (Hst1 : states (cancel_for_agent a w0) !! id = Some (dropped a st)).
  { rewrite Ct. simpl. rewrite Hst. destruct (st_done st) eqn:Ed.
    - case_decide; simpl; unfold dropped; by rewrite Ed.
    - rewrite decide_True; [done|]. split; [by apply Hlive|done]. }
  exists (cancel_for_agent a w0).
  assert (Hd : st_done (dropped a st) = true) by (unfold dropped; by destruct (st_done st) eqn:Ed).
  exists (await_wake id (dropped a st) (cancel_for_agent a w0)).
  split; [done|]. simpl. rewrite C4, Hst1, Hd. simpl. rewrite Hw. split; [done|].
  rewrite lookup_delete_eq, lookup_insert_eq. split; [done|].
  unfold dropped. by destruct (st_done st).
Qed.

(** A call that is over holds no entry in [_pending], unless it was cancelled. *)
Theorem returned_call_unregistered es w id t r :
  run es idle = Some w -> calls w !! id = Some t -> ct_pc t = CReturned r ->
  r <> Raise CancelledError -> _pending w !! id = None.
Proof.
  intros Hrun%run_coherent Hc Hr Hne. destruct (_pending w !! id) as [a|] eqn:Hp; [|done].
  destruct (pending_owned w Hrun id a Hp) as (t' & Hc' & _ & Hcan). rewrite Hc in Hc'.
  injection Hc' as <-. by destruct (Hne (Hcan r Hr)).
Qed.

(** A cancellation while the request is being sent is caught by neither handler:
    the entry of the finished call stays behind. *)
Lemma cancelled_send_leaks :
  exists w, run [EConnect "a" 1; ECall "id" "a" "m"; ESent "id" SentCancelled] idle = Some w /\
    calls w !! "id"%string = Some (CallTask "a" "m" (CReturned (Raise CancelledError))) /\
    _pending w !! "id"%string = Some "a"%string.
Proof. eexists. split; [vm_compute; reflexivity|]. split; reflexivity. Qed.

(** An agent that disconnects while a stream's request is still being sent
    unregisters the stream, and the opener, which then waits for the end, is told
    that the stream ended normally. *)
Theorem opening_disconnect_reads_as_end w id a m ws :
  fresh id w = true -> connected_agents w !! a = Some ws ->
  exists w', run [EStream id a m; EDisconnect a; EStreamSent id SentOk; EAwait id] w = Some w' /\
    states w' !! id = Some (StreamState a true (Some (disconnected_text a))) /\
    waits w' !! id = Some (WEnded (Ok tt)).
Proof.
  intros Hf Hc. cbn [run step]. rewrite Hf. unfold stream_start, _send. simpl. rewrite Hc.
  match goal with |- context [cancel_for_agent a ?x] => set (w1 := x) end.
  destruct (cancel_for_agent_spec a w1) as (_ & _ & C3 & C4 & _ & _ & Cs & Ct).
  apply fresh_spec in Hf as (_ & _ & _ & Hst & Hsm & Ho & Hw).
  rewrite C3. unfold w1 at 1. simpl. rewrite lookup_insert_eq. simpl. rewrite lookup_insert_eq, C4.
  unfold w1 at 1. simpl. rewrite Hw. unfold await_start. simpl. rewrite Cs.
  unfold w1 at 1. simpl. rewrite lookup_insert_eq. simpl. rewrite decide_True by done.
  eexists. split; [done|]. simpl. rewrite lookup_insert_eq. split; [|done].
  rewrite Ct. unfold w1. simpl. rewrite !lookup_insert_eq. simpl.
  rewrite decide_True by (split; [by eexists|done]). done.
Qed.

Section DispatchFacts.
Context (py_str : pyval -> string).

(** The routes see a remote call's value, or one of three HTTP errors; no RPC
    exception reaches them. *)
Theorem call_remote_maps es w id t r :
  run es idle = Some w -> calls w !! id = Some t -> ct_pc t = CReturned r ->
  (exists v, call_remote py_str r = Ok v /\ exists p, EResponse id p ∈ es /\ truthy (get "ok" p) = true) \/
  (exists status detail, call_remote py_str r = Raise (HTTPException status detail) /\
     status ∈ [400; 503; 504]) \/
  call_remote py_str r = Raise CancelledError.
Proof.
  intros Hrun Hc Hr. destruct (call_sound _ _ (run_sound _ _ Hrun) _ _ _ Hc Hr)
    as [(p & Hp & ->)|[[text ->]|[->| ->]]].
  - unfold call_result. destruct (truthy (get "ok" p)) eqn:E; simpl.
    + left. eexists. split; [done|]. by exists p.
    + right. left. do 2 eexists. split; [done|set_solver].
  - right. left. do 2 eexists. split; [done|set_solver].
  - right. left. do 2 eexists. split; [done|set_solver].
  - by right; right.
Qed.
End DispatchFacts.

(** ** Concrete runs *)

Definition ok_payload : dict := [("ok", VBool true); ("result", VInt 7)]%string.
Definition answered : list event :=
  [EConnect "a" 1; ECall "i" "a" "m"; ECall "j" "a" "m"; ESent "j" SentOk; ESent "i" SentOk;
   EResponse "i" ok_payload; EWake "i" Woken]%string.
Definition answered_world : rpc := default idle (run answered idle).

Lemma call_returns_its_response_witness :
  run answered idle = Some answered_world /\
  calls answered_world !! "i"%string = Some (CallTask "a" "m" (CReturned (Ok (VInt 7)))) /\
  call_outcome answered "i" (CallTask "a" "m" (CReturned (Ok (VInt 7)))) (Ok (VInt 7)).
Proof.
  split; [vm_compute; reflexivity|]. split; [vm_compute; reflexivity|].
  apply (call_returns_its_response answered answered_world); vm_compute; reflexivity.
Defined.

Lemma disconnect_wakes_calls_witness :
  exists w1 w2 r, step (EDisconnect "a") answered_world = Some w1 /\
    step (EWake "j" Woken) w1 = Some w2 /\
    calls w2 !! "j"%string = Some (CallTask "a" "m" (CReturned r)) /\
    _pending w2 !! "j"%string = None /\
    r = Raise (AgentNotConnected (disconnected_text "a")).
Proof.
  apply (disconnect_wakes_calls answered answered_world "j" "a" "m"); vm_compute; reflexivity.
Defined.

Definition streaming : list event :=
  [EConnect "a" 1; EStream "s" "a" "terminal.open"; EStreamSent "s" SentOk; EAwait "s"]%string.

Lemma disconnect_ends_streams_witness :
  exists w, run streaming idle = Some w /\
  exists w1 w2, step (EDisconnect "a") w = Some w1 /\ step (EAwaitWake "s") w1 = Some w2 /\
    _streams w2 !! "s"%string = None /\
    waits w2 !! "s"%string =
      Some (WEnded (Raise (RpcError (VStr (disconnected_text "a"))))).
Proof.
  eexists. split; [vm_compute; reflexivity|].
  eapply (disconnect_ends_streams streaming _ "s" (StreamState "a" false None));
    vm_compute; reflexivity.
Defined.

Lemma returned_call_unregistered_witness :
  _pending answered_world !! "i"%string = None.
Proof.
  apply (returned_call_unregistered answered answered_world "i"
           (CallTask "a" "m" (CReturned (Ok (VInt 7)))) (Ok (VInt 7)));
    [vm_compute; reflexivity..|discriminate].
Defined.

Lemma opening_disconnect_reads_as_end_witness :
  let w := with_connected idle {[ "a"%string := 1%nat ]} in
  exists w', run [EStream "s" "a" "docker.logs.follow"; EDisconnect "a"; EStreamSent "s" SentOk;
                  EAwait "s"]%string w = Some w' /\
    states w' !! "s"%string = Some (StreamState "a" true (Some (disconnected_text "a"))) /\
    waits w' !! "s"%string = Some (WEnded (Ok tt)).
Proof.
  intros w. apply (opening_disconnect_reads_as_end w "s" "a" "docker.logs.follow" 1);
    vm_compute; reflexivity.
Defined.

Lemma call_remote_maps_witness :
  (exists v, call_remote (fun _ => ""%string) (Ok (VInt 7)) = Ok v /\
     exists p, EResponse "i" p ∈ answered /\ truthy (get "ok" p) = true) \/
  (exists status detail, call_remote (fun _ => ""%string) (Ok (VInt 7)) =
     Raise (HTTPException status detail) /\ status ∈ [400; 503; 504]) \/
  call_remote (fun _ => ""%string) (Ok (VInt 7)) = Raise CancelledError.
Proof.
  apply (call_remote_maps (fun _ => ""%string) answered answered_world "i"
           (CallTask "a" "m" (CReturned (Ok (VInt 7))))); vm_compute; reflexivity.
Defined.
