(* ===== verification/MetricFold.v ===== *)
(** * Averaging metric snapshots (src/backend/app/database.py, _agg_new to _average_metrics)

    A bucket's summary is a fold over its snapshots, kept as a state that can be
    saved and resumed.  Snapshots come from outside, so every access may meet the
    wrong shape; [M agg] runs keep what was added before an exception, as the code
    does. *)
From S2P Require Import Prelude Py Effects PyOps.
Open Scope Z_scope.

Record device := Device { dev_n : Z; dev_sum : list pyfloat }.

Record container := Container {
  c_name : pyval; c_id : pyval; c_image : pyval; c_status : pyval; c_state : pyval;
  c_ports : pyval; cpu_sum : pyfloat; mem_sum : pyfloat; samples : Z; mem_limit : pyval;
  gpu_vram_sum : pyfloat; gpu_util_sum : pyfloat; gpu_vram_samples : Z; gpu_util_samples : Z;
  gpu_seen : bool
}.

Record agg := Agg {
  a_n : Z;
  template : option dict;
  a_cpu : pyfloat; a_mem : pyfloat; a_disk : pyfloat;
  cores : list pyfloat;
  gpu : list device;
  containers : list (pyval * container);
  scalar_failed : bool;
  container_failed : bool
}.

Definition zero : pyfloat := Fin 0.

Definition _GPU_AVG_FIELDS : list string :=
  ["gpu_util"; "mem_util"; "temperature"; "power_watts"; "clock_sm_mhz"].

Definition _agg_new : agg := Agg 0 None zero zero zero [] [] [] false false.

Definition with_template a t := Agg (a_n a) t (a_cpu a) (a_mem a) (a_disk a) (cores a) (gpu a)
  (containers a) (scalar_failed a) (container_failed a).
Definition with_n a n := Agg n (template a) (a_cpu a) (a_mem a) (a_disk a) (cores a) (gpu a)
  (containers a) (scalar_failed a) (container_failed a).
Definition with_cpu a x := Agg (a_n a) (template a) x (a_mem a) (a_disk a) (cores a) (gpu a)
  (containers a) (scalar_failed a) (container_failed a).
Definition with_mem a x := Agg (a_n a) (template a) (a_cpu a) x (a_disk a) (cores a) (gpu a)
  (containers a) (scalar_failed a) (container_failed a).
Definition with_disk a x := Agg (a_n a) (template a) (a_cpu a) (a_mem a) x (cores a) (gpu a)
  (containers a) (scalar_failed a) (container_failed a).
Definition with_cores a x := Agg (a_n a) (template a) (a_cpu a) (a_mem a) (a_disk a) x (gpu a)
  (containers a) (scalar_failed a) (container_failed a).
Definition with_gpu a x := Agg (a_n a) (template a) (a_cpu a) (a_mem a) (a_disk a) (cores a) x
  (containers a) (scalar_failed a) (container_failed a).
Definition with_containers a x := Agg (a_n a) (template a) (a_cpu a) (a_mem a) (a_disk a)
  (cores a) (gpu a) x (scalar_failed a) (container_failed a).
Definition with_scalar_failed a b := Agg (a_n a) (template a) (a_cpu a) (a_mem a) (a_disk a)
  (cores a) (gpu a) (containers a) b (container_failed a).
Definition with_container_failed a b := Agg (a_n a) (template a) (a_cpu a) (a_mem a) (a_disk a)
  (cores a) (gpu a) (containers a) (scalar_failed a) b.

(** The exceptions both [try] blocks catch. *)
Definition shape_error (e : exn) : bool :=
  match e with AttributeError | KeyError | IndexError | TypeError => true | _ => false end.

(** ** Scalars, cores and devices *)

(** [x += v] on a float accumulator. *)
Definition add_to (x : pyfloat) (v : pyval) : res pyfloat :=
  y ← num_operand v; mret (float_add x y).

(** [entry.get(k, {}).get(f, d)]. *)
Definition get2 (entry : dict) (k f : string) (d : pyval) : res pyval :=
  py_get (get_or k (VDict []) entry) f d.

Definition init_shapes (tmpl : dict) : M agg unit :=
  per_core ← lift_res (get2 tmpl "cpu" "percent_per_core" (VList []));
  n ← lift_res (py_len per_core);
  _ ← modify (fun a => with_cores a (replicate (Z.to_nat n) zero));
  gpus ← lift_res (py_iter (get_or "gpu" (VList []) tmpl));
  modify (fun a => with_gpu a ((fun _ => Device 0 (replicate 5 zero)) <$> gpus)).

Definition add_scalar (entry : dict) (k f : string) (read : agg -> pyfloat)
    (write : agg -> pyfloat -> agg) : M agg unit :=
  v ← lift_res (get2 entry k f (VInt 0));
  x ← gets read;
  x' ← lift_res (add_to x v);
  modify (fun a => write a x').

Definition add_core (per_core : pyval) (ci : nat) : M agg unit :=
  v ← lift_res (py_index per_core ci);
  cs ← gets cores;
  x' ← lift_res (add_to (nth ci cs zero) v);
  modify (fun a => with_cores a (<[ci := x']> (cores a))).

Definition add_cores (entry : dict) : M agg unit :=
  cs ← gets cores;
  match cs with
  | [] => mret tt
  | _ =>
      per_core ← lift_res (get2 entry "cpu" "percent_per_core"
                             (VList (replicate (length cs) (VInt 0))));
      for_each (add_core per_core) (seq 0 (length cs))
  end.

Definition set_device (gi : nat) (f : device -> device) : M agg unit :=
  modify (fun a => with_gpu a (alter f gi (gpu a))).

Definition add_field (entry_gpus : pyval) (gi : nat) (fi : nat * string) : M agg unit :=
  g ← lift_res (py_index entry_gpus gi);
  v ← lift_res (py_get g fi.2 (VInt 0));
  devs ← gets gpu;
  x' ← lift_res (add_to (nth fi.1 (dev_sum (nth gi devs (Device 0 []))) zero) v);
  set_device gi (fun d => Device (dev_n d) (<[fi.1 := x']> (dev_sum d))).

(** A device counts for the snapshots that reported it. *)
Definition add_device (entry_gpus : pyval) (gi : nat) : M agg unit :=
  n ← lift_res (py_len entry_gpus);
  if Z.of_nat gi <? n then
    _ ← set_device gi (fun d => Device (dev_n d + 1) (dev_sum d));
    for_each (add_field entry_gpus gi) (zip (seq 0 5) _GPU_AVG_FIELDS)
  else mret tt.

Definition add_scalars (entry : dict) : M agg unit :=
  a ← gets id;
  _ ← when (a_n a =? 1) (init_shapes (default [] (template a)));
  _ ← add_scalar entry "cpu" "percent_total" a_cpu with_cpu;
  _ ← add_scalar entry "memory" "percent" a_mem with_mem;
  _ ← add_scalar entry "disk" "percent" a_disk with_disk;
  _ ← add_cores entry;
  devs ← gets gpu;
  for_each (add_device (get_or "gpu" (VList []) entry)) (seq 0 (length devs)).

(** ** Containers *)

Fixpoint has_container (name : pyval) (l : list (pyval * container)) : bool :=
  match l with
  | [] => false
  | (k, _) :: l => py_key_eq name k || has_container name l
  end.

(** [agg[name] = s] for the entry a name reaches. *)
Fixpoint store_container (name : pyval) (s : container) (l : list (pyval * container))
    : list (pyval * container) :=
  match l with
  | [] => [(name, s)]
  | (k, s') :: l => if py_key_eq name k then (k, s) :: l else (k, s') :: store_container name s l
  end.

(** The in-place updates of [s = agg[name]]. *)
Fixpoint alter_container (name : pyval) (f : container -> container)
    (l : list (pyval * container)) : list (pyval * container) :=
  match l with
  | [] => []
  | (k, s) :: l => if py_key_eq name k then (k, f s) :: l else (k, s) :: alter_container name f l
  end.

Definition new_container (name : pyval) (c : dict) : container :=
  let g k d := get_or k d c in
  Container name (g "id" (VStr "")) (g "image" (VStr "")) (g "status" (VStr ""))
    (g "state" (VStr "")) (g "ports" (VList [])) zero zero 0 (g "mem_limit" (VInt 0))
    zero zero 0 0 false.

Definition update (name : pyval) (f : container -> container) : M agg unit :=
  modify (fun a => with_containers a (alter_container name f (containers a))).

Definition add_cpu (cpu : pyfloat) (s : container) : container :=
  Container (c_name s) (c_id s) (c_image s) (c_status s) (c_state s) (c_ports s)
    (float_add (cpu_sum s) cpu) (mem_sum s) (samples s) (mem_limit s) (gpu_vram_sum s)
    (gpu_util_sum s) (gpu_vram_samples s) (gpu_util_samples s) (gpu_seen s).

(** ... and the sample count and the latest metadata. *)
Definition add_mem (c : dict) (mem : pyfloat) (s : container) : container :=
  let g k d := get_or k d c in
  Container (c_name s) (g "id" (c_id s)) (g "image" (c_image s))
    (g "status" (c_status s)) (g "state" (c_state s)) (g "ports" (c_ports s))
    (cpu_sum s) (float_add (mem_sum s) mem) (samples s + 1) (mem_limit s) (gpu_vram_sum s)
    (gpu_util_sum s) (gpu_vram_samples s) (gpu_util_samples s) (gpu_seen s).

Definition set_limit (ml : pyval) (s : container) : container :=
  Container (c_name s) (c_id s) (c_image s) (c_status s) (c_state s) (c_ports s)
    (cpu_sum s) (mem_sum s) (samples s) ml (gpu_vram_sum s)
    (gpu_util_sum s) (gpu_vram_samples s) (gpu_util_samples s) (gpu_seen s).

Definition add_gpu (vram util : pyfloat) (s : container) : container :=
  let v := float_pos vram in
  let u := float_pos util in
  Container (c_name s) (c_id s) (c_image s) (c_status s) (c_state s) (c_ports s)
    (cpu_sum s) (mem_sum s) (samples s) (mem_limit s)
    (if v then float_add (gpu_vram_sum s) vram else gpu_vram_sum s)
    (if u then float_add (gpu_util_sum s) util else gpu_util_sum s)
    (if v then gpu_vram_samples s + 1 else gpu_vram_samples s)
    (if u then gpu_util_samples s + 1 else gpu_util_samples s) true.

Definition amount (c : dict) (k : string) : res pyfloat :=
  py_float (py_or (get_or k (VInt 0) c) (VInt 0)).

(** The body of the loop for one container, each update in place before the next. *)
Definition add_container (cv : pyval) : M agg unit :=
  name ← lift_res (py_get cv "name" VNone);
  if negb (truthy name) then mret tt
  else if negb (py_hashable name) then raise TypeError
  else
    let c := match cv with VDict d => d | _ => [] end in
    _ ← modify (fun a =>
           if has_container name (containers a) then a
           else with_containers a (store_container name (new_container name c) (containers a)));
    cpu ← lift_res (amount c "cpu_percent");
    _ ← update name (add_cpu cpu);
    mem ← lift_res (amount c "mem_usage");
    _ ← update name (add_mem c mem);
    let ml := py_or (get_or "mem_limit" (VInt 0) c) (VInt 0) in
    limited ← lift_res (py_positive ml);
    _ ← when limited (update name (set_limit ml));
    match get "gpu" c with
    | VDict g =>
        vram ← lift_res (amount g "vram_bytes");
        util ← lift_res (amount g "gpu_util");
        update name (add_gpu vram util)
    | _ => mret tt
    end.

Definition _agg_add_containers (entry : dict) : M agg unit :=
  items ← lift_res (py_iter (py_or (get_or "containers" VNone entry) (VList [])));
  for_each add_container items.

Definition guarded (m : M agg unit) (failed : agg -> bool) (mark : agg -> agg) : M agg unit :=
  a ← gets id;
  if failed a then mret tt
  else catch m (fun e => if shape_error e then Some (modify mark) else None).

Definition _agg_add (entry : dict) : M agg unit :=
  _ ← modify (fun a => match template a with
                       | None => with_template a (Some entry)
                       | Some _ => a end);
  _ ← modify (fun a => with_n a (a_n a + 1));
  _ ← guarded (add_scalars entry) scalar_failed (fun a => with_scalar_failed a true);
  guarded (_agg_add_containers entry) container_failed (fun a => with_container_failed a true).

(** ** The summary *)

Definition set_path (k f : string) (x : pyval) : M dict unit :=
  d ← gets id;
  inner ← lift_res (py_key (VDict d) k);
  inner' ← lift_res (py_set_key inner f x);
  modify (dict_set k inner').

Definition set_core (a : agg) (ci : nat) : M dict unit :=
  d ← gets id;
  cpu ← lift_res (py_key (VDict d) "cpu");
  per_core ← lift_res (py_key cpu "percent_per_core");
  per_core' ← lift_res (py_set_index per_core ci
                          (VFloat (float_div (nth ci (cores a) zero) (a_n a))));
  set_path "cpu" "percent_per_core" per_core'.

Definition gpu_field (dev : device) (i : nat) : pyval :=
  if dev_n dev =? 0 then VInt 0
  else VFloat (float_div (nth i (dev_sum dev) zero) (dev_n dev)).

(** One device of the template, its five averages in place of its readings. *)
Definition average_device (dev : device) (g : pyval) : res pyval :=
  match g with
  | VDict d => Ok (VDict (dict_del "processes"
      (fold_left (fun d fi => dict_set fi.2 (gpu_field dev fi.1) d)
         (zip (seq 0 5) _GPU_AVG_FIELDS) d)))
  | _ => Raise TypeError
  end.

Definition set_gpu (a : agg) (gi : nat) : M dict unit :=
  dev ← lift_res (match gpu a !! gi with Some dev => Ok dev | None => Raise IndexError end);
  d ← gets id;
  g ← lift_res (py_index (get_or "gpu" (VList []) d) gi);
  g' ← lift_res (average_device dev g);
  v' ← lift_res (py_set_index (get_or "gpu" (VList []) d) gi g');
  modify (dict_set "gpu" v').

Definition container_entry (s : container) : pyval :=
  let avg x n := if n =? 0 then VInt 0 else VFloat (float_div x n) in
  VDict ([("id", c_id s); ("name", c_name s); ("image", c_image s); ("status", c_status s);
          ("state", c_state s); ("ports", c_ports s);
          ("cpu_percent", avg (cpu_sum s) (samples s));
          ("mem_usage", avg (mem_sum s) (samples s)); ("mem_limit", mem_limit s)]%string ++
         (if gpu_seen s
          then [("gpu"%string, VDict
            [("vram_bytes", avg (gpu_vram_sum s) (gpu_vram_samples s));
             ("gpu_util", avg (gpu_util_sum s) (gpu_util_samples s))]%string)]
          else [])).

Definition write_averages (a : agg) : M dict unit :=
  if scalar_failed a then mret tt
  else
    let avg x := VFloat (float_div x (a_n a)) in
    _ ← set_path "cpu" "percent_total" (avg (a_cpu a));
    _ ← set_path "memory" "percent" (avg (a_mem a));
    _ ← set_path "disk" "percent" (avg (a_disk a));
    d ← gets id;
    per_core ← lift_res (get2 d "cpu" "percent_per_core" (VList []));
    n ← lift_res (py_len per_core);
    _ ← for_each (set_core a) (seq 0 (Z.to_nat n));
    d ← gets id;
    gpus ← lift_res (py_iter (get_or "gpu" (VList []) d));
    _ ← for_each (set_gpu a) (seq 0 (length gpus));
    when (negb (container_failed a))
      (modify (dict_set "containers" (VList (container_entry ∘ snd <$> containers a)))).

(** [None] is the [None] of an empty state; the two heavy fields always go. *)
Definition _agg_finalize (a : agg) : option dict :=
  if a_n a =? 0 then None
  else
    match template a with
    | None => None
    | Some t =>
        let '(_, d) := catch (write_averages a)
          (fun e => if shape_error e then Some (mret tt) else None) t in
        Some (dict_del "network" (dict_del "processes" d))
    end.

Fixpoint fold_entries (entries : list dict) : M agg unit :=
  match entries with
  | [] => mret tt
  | e :: es => _ ← _agg_add e; fold_entries es
  end.

Definition _average_metrics (entries : list dict) : res (option dict) :=
  match fold_entries entries _agg_new with
  | (Ok _, a) => Ok (_agg_finalize a)
  | (Raise e, _) => Raise e
  end.
