(* ===== verification/MetricsDb.v ===== *)
(** * Metric history: raw rows, summaries and retention

    src/backend/app/database.py from "Metrics" to [cleanup_old_metrics].  The
    tables are [mdb]; rows of [metrics] are kept in id order, the other tables by
    their primary key.  A bucket starts on an integral number of seconds, so its
    [bucket_ts] is a [Z]; JSON texts are the values they encode. *)
From S2P Require Import Prelude Sorting Py Effects PyOps DbCore MetricFold.
Open Scope Z_scope.

(** ** The tables *)

Record mrow := MRow { m_id : Z; m_agent : string; m_ts : Q; m_data : dict }.

(** agent, resolution, bucket_ts *)
Abbreviation key := (string * string * Z)%type.

Record coverage := Coverage { cov_agent : string; cov_bucket : Z; cov_folded : bool }.
Record bucket := Bucket { b_open : bool; published_gen : Z }.
Record partial := Partial {
  p_n : Z; last_ts : Q; last_raw_id : Z; through_raw_id : Z; acc : agg
}.

Record mdb := Mdb {
  madm : admission;
  metrics : list mrow;
  metrics_seq : Z;
  metrics_downsampled : list (key * dict);
  metric_agg_coverage : gmap (Z * string) coverage;
  metric_agg_bucket : gmap key bucket;
  metric_agg_partial : gmap key partial;
  metric_agg_progress : gmap (string * string) Z;
  cutover_value : option string
}.

Definition with_metrics d l n := Mdb (madm d) l n (metrics_downsampled d) (metric_agg_coverage d)
  (metric_agg_bucket d) (metric_agg_partial d) (metric_agg_progress d) (cutover_value d).
Definition with_downsampled d l := Mdb (madm d) (metrics d) (metrics_seq d) l
  (metric_agg_coverage d) (metric_agg_bucket d) (metric_agg_partial d) (metric_agg_progress d)
  (cutover_value d).
Definition with_coverage d m := Mdb (madm d) (metrics d) (metrics_seq d) (metrics_downsampled d)
  m (metric_agg_bucket d) (metric_agg_partial d) (metric_agg_progress d) (cutover_value d).
Definition with_buckets d m := Mdb (madm d) (metrics d) (metrics_seq d) (metrics_downsampled d)
  (metric_agg_coverage d) m (metric_agg_partial d) (metric_agg_progress d) (cutover_value d).
Definition with_partials d m := Mdb (madm d) (metrics d) (metrics_seq d) (metrics_downsampled d)
  (metric_agg_coverage d) (metric_agg_bucket d) m (metric_agg_progress d) (cutover_value d).
Definition with_progress d m := Mdb (madm d) (metrics d) (metrics_seq d) (metrics_downsampled d)
  (metric_agg_coverage d) (metric_agg_bucket d) (metric_agg_partial d) m (cutover_value d).

Abbreviation mtx := (@transaction mdb madm _).
Abbreviation mquery := (@reading mdb madm _).

(** ** Raw rows *)

Definition RESERVED_SAMPLE_KEYS : list string :=
  ["sample_id"; "arrival_seq"; "persisted"; "after_seq"].

Definition strip_reserved (d : dict) : dict :=
  fold_left (fun d k => dict_del k d) RESERVED_SAMPLE_KEYS d.

(** AUTOINCREMENT: the id after the last one ever issued. *)
Definition store_metric (agent_id : string) (timestamp : Q) (data : dict) : M mdb Z :=
  mtx (d ← gets id;
       let i := metrics_seq d + 1 in
       _ ← modify (fun d => with_metrics d (metrics d ++ [MRow i agent_id timestamp data]) i);
       mret i).

Definition get_max_metric_id : M mdb Z := mquery metrics_seq.

Definition identified (r : mrow) : dict :=
  let e := dict_set "timestamp" (VFloat (Fin (m_ts r))) (strip_reserved (m_data r)) in
  let e := dict_set "sample_id" (VStr ("raw:" ++ str_of_int (m_id r))%string) e in
  dict_set "arrival_seq" (VInt (m_id r)) e.

Definition rows_of_agent (agent_id : string) (d : mdb) : list mrow :=
  List.filter (fun r => String.eqb (m_agent r) agent_id) (metrics d).

(** The last rows in id order, oldest first. *)
Definition get_recent_metrics (agent_id : string) (limit : Z) : M mdb (list dict) :=
  mquery (fun d =>
    let n := Z.to_nat (Z.max 1 (Z.min limit 300)) in
    rev (identified <$> take n (rev (rows_of_agent agent_id d)))).

(** ** Orders *)

Definition row_leb (x y : mrow) : bool :=
  q_ltb (m_ts x) (m_ts y) || (Qeq_bool (m_ts x) (m_ts y) && (m_id x <=? m_id y)).

(** ** Ranges *)

Definition between (start stop : Q) (ts : Q) : bool := q_leb start ts && q_leb ts stop.

Definition ts_of_bucket (k : key) : Q := inject_Z k.2.

Definition downsampled_range (agent_id label : string) (start stop : Q) (d : mdb) : list (key * dict) :=
  sort_by (fun x y => q_leb (ts_of_bucket x.1) (ts_of_bucket y.1))
    (List.filter (fun kd => String.eqb kd.1.1.1 agent_id && String.eqb kd.1.1.2 label
                            && between start stop (ts_of_bucket kd.1))
       (metrics_downsampled d)).

(** [rows[i] for i % step == 0]. *)
Definition every_nth {A} (step : nat) (l : list A) : list A :=
  snd <$> List.filter (fun ix => Nat.eqb (fst ix mod step) 0) (zip (seq 0 (length l)) l).

Definition thin_step (n : nat) (max_points : Z) : nat :=
  Z.to_nat (Z.max 1 (Z.of_nat n / max_points)).

Definition get_metrics_range (agent_id : string) (start stop : Q) (max_points : Z)
    : M mdb (list dict) :=
  mquery (fun d =>
    let duration := (stop - start)%Q in
    if q_leb duration 3600 then
      let rows := sort_by row_leb (List.filter (fun r => between start stop (m_ts r))
                                     (rows_of_agent agent_id d)) in
      identified <$> every_nth (thin_step (length rows) max_points) rows
    else
      let label := if q_leb duration 86400 then "1m"%string else "5m"%string in
      let rows := downsampled_range agent_id label start stop d in
      (fun kd => dict_set "timestamp" (VFloat (Fin (ts_of_bucket kd.1))) (strip_reserved kd.2))
        <$> every_nth (thin_step (length rows) max_points) rows).

(** ** One container over time *)

(** [float(c.get(k, 0) or 0)]. *)
Definition float_field (c : dict) (k : string) : res pyval :=
  f ← py_float (py_or (get_or k (VInt 0) c) (VInt 0)); mret (VFloat f).

Definition container_point (snap c : dict) : res dict :=
  let gpu := match get "gpu" c with VDict g => if truthy (VDict g) then Some g else None | _ => None end in
  cpu ← float_field c "cpu_percent";
  mem ← float_field c "mem_usage";
  mem_limit ← float_field c "mem_limit";
  vram ← match gpu with Some g => float_field g "vram_bytes" | None => mret (VFloat (Fin 0)) end;
  util ← match gpu with Some g => float_field g "gpu_util" | None => mret (VFloat (Fin 0)) end;
  let present := match gpu with Some _ => true | None => truthy (get "gpu_reserved" c) end in
  let point :=
    [("t", get "timestamp" snap); ("cpu", cpu); ("mem", mem); ("mem_limit", mem_limit);
     ("vram", vram); ("gpu_util", util); ("gpu_present", VBool present)]%string in
  match dict_get "sample_id" snap with
  | None => mret point
  | Some i =>
      seq ← py_key (VDict snap) "arrival_seq";
      mret (point ++ [("sample_id"%string, i); ("arrival_seq"%string, seq)])
  end.

(** The first container of that name in a snapshot. *)
Fixpoint point_in (container_name : string) (snap : dict) (cs : list pyval) : res (option dict) :=
  match cs with
  | [] => mret None
  | c :: cs =>
      name ← py_get c "name" VNone;
      if py_key_eq name (VStr container_name) then
        match c with
        | VDict c => p ← container_point snap c; mret (Some p)
        | _ => Raise AttributeError
        end
      else point_in container_name snap cs
  end.

Fixpoint points_of (container_name : string) (snaps : list dict) : res (list dict) :=
  match snaps with
  | [] => mret []
  | snap :: snaps =>
      cs ← py_iter (py_or (get "containers" snap) (VList []));
      p ← point_in container_name snap cs;
      ps ← points_of container_name snaps;
      mret (match p with Some p => p :: ps | None => ps end)
  end.

Definition get_container_history (agent_id container_name : string) (start stop : Q)
    (max_points : Z) : M mdb (list dict) :=
  snaps ← get_metrics_range agent_id start stop (max_points * 4);
  result ← lift_res (points_of container_name snaps);
  mret (if max_points <? Z.of_nat (length result)
        then every_nth (thin_step (length result) max_points) result else result).

(** ** Aggregation *)

Definition _AGG_SPECS : list (string * Z) := [("1m"%string, 60); ("5m"%string, 300)].
Definition _AGG_RESOLUTIONS : list string := fst <$> _AGG_SPECS.
Definition _AGG_BATCH_LIMIT : Z := 2000.
Definition _CLEANUP_BATCH_LIMIT : Z := 2000.

Definition _require_resolution (resolution_seconds : Z) (resolution_label : string) : res Z :=
  match dict_get resolution_label _AGG_SPECS with
  | Some expected =>
      if expected =? resolution_seconds then Ok expected
      else Raise (OtherError "unsupported downsample resolution")
  | None => Raise (OtherError "unsupported downsample resolution")
  end.

Definition _agg_cutover (d : mdb) : option Z :=
  match cutover_value d with Some s => parse_int 10 s | None => None end.

Definition in_bucket (agent_id : string) (bucket_ts secs : Z) (r : mrow) : bool :=
  String.eqb (m_agent r) agent_id && q_leb (inject_Z bucket_ts) (m_ts r)
  && q_ltb (m_ts r) (inject_Z (bucket_ts + secs)).

Definition bucket_rows (agent_id : string) (bucket_ts secs : Z) (d : mdb) : list mrow :=
  List.filter (in_bucket agent_id bucket_ts secs) (metrics d).

Definition set_coverage (raw_id : Z) (label : string) (c : coverage) (d : mdb) : mdb :=
  with_coverage d (<[(raw_id, label) := c]> (metric_agg_coverage d)).

Definition _mark_pending (agent_id : string) (bucket_ts secs : Z) (label : string)
    (cutover budget : Z) (d : mdb) : Z * mdb :=
  let rows := take (Z.to_nat budget)
    (List.filter (fun r => (cutover <? m_id r) &&
                           bool_decide (metric_agg_coverage d !! (m_id r, label) = None))
       (bucket_rows agent_id bucket_ts secs d)) in
  (Z.of_nat (length rows),
   fold_left (fun d r => set_coverage (m_id r) label (Coverage agent_id bucket_ts false) d) rows d).

(** A row a published generation has not settled. *)
Definition unsettled (label : string) (gen : Z) (d : mdb) (r : mrow) : bool :=
  match metric_agg_coverage d !! (m_id r, label) with
  | None => true
  | Some c => cov_folded c && (gen <? m_id r)
  end.

Definition max_id (l : list mrow) : Z := fold_right (fun r m => Z.max (m_id r) m) 0 l.

Definition summary_at (k : key) (d : mdb) : option dict :=
  snd <$> List.find (fun kd => bool_decide (kd.1 = k)) (metrics_downsampled d).

(** Where an accumulation stands: its state, its frozen high-water, its cursor. *)
Record generation := Generation { g_acc : agg; g_through : Z; g_ts : Q; g_id : Z }.

Inductive start_result :=
| NothingToDo
| NotProvable
| Started (g : generation).

Definition start_generation (k : key) (secs cutover : Z) (d : mdb) : start_result :=
  let '(agent_id, label, bucket_ts) := k in
  let rows := bucket_rows agent_id bucket_ts secs d in
  let b := metric_agg_bucket d !! k in
  let gen := match b with Some b => published_gen b | None => 0 end in
  if negb (existsb (fun r => (cutover <? m_id r) && unsettled label gen d r) rows) then NothingToDo
  else
    let legacy := existsb (fun r => m_id r <=? cutover) rows in
    let provable := negb legacy
      && match b with None => true | Some b => b_open b end
      && match b, summary_at k d with None, Some _ => false | _, _ => true end in
    if negb provable then NotProvable
    else
      let through := max_id (List.filter (fun r => cutover <? m_id r) rows) in
      if through =? 0 then NothingToDo
      else Started (Generation _agg_new through (inject_Z bucket_ts - 1) 0).

Definition after_cursor (ts : Q) (id : Z) (r : mrow) : bool :=
  q_ltb ts (m_ts r) || (Qeq_bool (m_ts r) ts && (id <? m_id r)).

Definition generation_rows (agent_id : string) (bucket_ts secs cutover through : Z) (d : mdb)
    : list mrow :=
  sort_by row_leb (List.filter (fun r => (cutover <? m_id r) && (m_id r <=? through))
                     (bucket_rows agent_id bucket_ts secs d)).

(** Fold the rows in, recording each. *)
Fixpoint fold_rows (agent_id label : string) (bucket_ts : Z) (rows : list mrow)
    (g : generation) (d : mdb) : res generation * mdb :=
  match rows with
  | [] => (Ok g, d)
  | r :: rows =>
      match _agg_add (m_data r) (g_acc g) with
      | (Raise e, _) => (Raise e, d)
      | (Ok _, a) =>
          fold_rows agent_id label bucket_ts rows (Generation a (g_through g) (m_ts r) (m_id r))
            (set_coverage (m_id r) label (Coverage agent_id bucket_ts true) d)
      end
  end.

(** [json.loads(json.dumps(state))]: object keys come back as strings. *)
Section Json.
Context (float_repr : pyfloat -> string).

Definition json_key (v : pyval) : pyval :=
  match v with
  | VInt z => VStr (str_of_int z)
  | VBool b => VStr (if b then "true" else "false")
  | VFloat f => VStr (float_repr f)
  | VNone => VStr "null"
  | _ => v
  end.

Definition reload (a : agg) : agg :=
  with_containers a (fold_left (fun l kc => store_container (json_key kc.1) kc.2 l)
                       (containers a) []).

Definition put_summary (k : key) (v : dict) (l : list (key * dict)) : list (key * dict) :=
  List.filter (fun kd => bool_decide (kd.1 <> k)) l ++ [(k, v)].

Definition publish (k : key) (through : Z) (avg : dict) (d : mdb) : mdb :=
  let d := with_downsampled d (put_summary k avg (metrics_downsampled d)) in
  let gen := match metric_agg_bucket d !! k with
             | Some b => Z.max (published_gen b) through
             | None => through end in
  with_buckets d (<[k := Bucket true gen]> (metric_agg_bucket d)).

Definition _advance_bucket (k : key) (secs cutover budget : Z) : M mdb (Z * bool) := fun d =>
  let '(agent_id, label, bucket_ts) := k in
  let go g :=
    let all := generation_rows agent_id bucket_ts secs cutover (g_through g) d in
    let rows := take (Z.to_nat budget)
                  (List.filter (after_cursor (g_ts g) (g_id g)) all) in
    match fold_rows agent_id label bucket_ts rows g d with
    | (Raise e, d) => (Raise e, d)
    | (Ok g, d) =>
        let n := Z.of_nat (length rows) in
        if existsb (after_cursor (g_ts g) (g_id g)) all then
          (Ok (n, false),
           with_partials d (<[k := Partial (a_n (g_acc g)) (g_ts g) (g_id g) (g_through g)
                                     (reload (g_acc g))]> (metric_agg_partial d)))
        else
          let d := with_partials d (delete k (metric_agg_partial d)) in
          match _agg_finalize (g_acc g) with
          | None => (Ok (n, false), d)
          | Some avg => (Ok (n, true), publish k (g_through g) avg d)
          end
    end in
  match metric_agg_partial d !! k with
  | Some p => go (Generation (acc p) (through_raw_id p) (last_ts p) (last_raw_id p))
  | None =>
      match start_generation k secs cutover d with
      | NothingToDo => (Ok (0, false), d)
      | NotProvable =>
          let '(n, d) := _mark_pending agent_id bucket_ts secs label cutover budget d in
          (Ok (n, false), d)
      | Started g => go g
      end
  end.

(** One pass over [keys]: stop when the budget is spent, skip what was visited. *)
Fixpoint advance_all (secs cutover : Z) (label : string) (skip keys : list (string * Z))
    (budget count : Z) : M mdb (Z * Z) :=
  match keys with
  | [] => mret (budget, count)
  | k :: keys =>
      if budget <=? 0 then mret (budget, count)
      else if bool_decide (k ∈ skip) then advance_all secs cutover label skip keys budget count
      else
        r ← _advance_bucket (k.1, label, k.2) secs cutover budget;
        advance_all secs cutover label skip keys (budget - r.1)
          (if (r.2 : bool) then count + 1 else count)
  end.

(** The keys [advance_all] works on before its budget runs out are the visited
    ones; a pass that stops early has no budget left for the next one either. *)
Definition partial_keys (label : string) (budget : Z) (d : mdb) : list (string * Z) :=
  let leb x y := (snd x <? snd y) ||
                 ((snd x =? snd y) && String.leb (fst x) (fst y)) in
  take (Z.to_nat budget)
    (sort_by leb ((fun k : key => (k.1.1, k.2)) <$>
       List.filter (fun k : key => String.eqb k.1.2 label) (fst <$> map_to_list (metric_agg_partial d)))).

Definition candidates (label : string) (cutover : Z) (due_cutoff : Q) (budget : Z) (d : mdb)
    : list mrow :=
  take (Z.to_nat budget)
    (List.filter (fun r =>
       (cutover <? m_id r) &&
       (default cutover (metric_agg_progress d !! (m_agent r, label)) <? m_id r) &&
       q_ltb (m_ts r) due_cutoff &&
       bool_decide (metric_agg_coverage d !! (m_id r, label) = None)) (metrics d)).

Definition bucket_of (secs : Z) (ts : Q) : Z := Qfloor (ts / inject_Z secs) * secs.

(** The candidates' buckets, each once, in the order of their least id. *)
Definition candidate_keys (secs : Z) (rows : list mrow) : list (string * Z) :=
  fold_left (fun ks r => let k := (m_agent r, bucket_of secs (m_ts r)) in
                         if bool_decide (k ∈ ks) then ks else ks ++ [k]) rows [].

Definition _settled_ids (label : string) (ids : list Z) (d : mdb) : list Z :=
  List.filter (fun i => bool_decide (is_Some (metric_agg_coverage d !! (i, label)))) ids.

Definition min_of (l : list Z) : Z :=
  match l with [] => 0 | x :: l => fold_right Z.min x l end.
Definition max_of (l : list Z) : Z :=
  match l with [] => 0 | x :: l => fold_right Z.max x l end.

(** The scan floor of one agent after this pass. *)
Definition advanced_floor (label : string) (cutover : Z) (due_cutoff : Q) (cands : list mrow)
    (agent_id : string) (d : mdb) : Z :=
  let ids := m_id <$> List.filter (fun r => String.eqb (m_agent r) agent_id) cands in
  let settled := _settled_ids label (m_id <$> cands) d in
  let undecided := List.filter (fun i => bool_decide (i ∉ settled)) ids in
  let held := m_id <$> List.filter (fun r => String.eqb (m_agent r) agent_id &&
                (cutover <? m_id r) && q_leb due_cutoff (m_ts r)) (metrics d) in
  let floors := undecided ++ match held with [] => [] | _ => [min_of held] end in
  match floors with [] => max_of ids | _ => min_of floors - 1 end.

Definition raise_progress (agent_id label : string) (v : Z) (d : mdb) : mdb :=
  with_progress d (<[(agent_id, label) :=
    match metric_agg_progress d !! (agent_id, label) with Some p => Z.max p v | None => v end]>
    (metric_agg_progress d)).

Definition advance_progress (label : string) (cutover : Z) (due_cutoff : Q) (cands : list mrow)
    (d : mdb) : mdb :=
  fold_left (fun d a =>
      let v := advanced_floor label cutover due_cutoff cands a d in
      if v <=? cutover then d else raise_progress a label v d)
    (remove_dups (m_agent <$> cands)) d.

Definition downsample_metrics (now : Q) (resolution_seconds : Z) (resolution_label : string)
    (batch_limit : Z) : M mdb Z :=
  secs ← lift_res (_require_resolution resolution_seconds resolution_label);
  let budget := Z.max 1 batch_limit in
  let due_cutoff := inject_Z (bucket_of secs now) in
  mtx (d ← gets id;
       match _agg_cutover d with
       | None => mret 0
       | Some cutover =>
           let visited := partial_keys resolution_label budget d in
           r ← advance_all secs cutover resolution_label [] visited budget 0;
           d ← gets id;
           let cands := candidates resolution_label cutover due_cutoff r.1 d in
           r ← advance_all secs cutover resolution_label visited (candidate_keys secs cands) r.1 r.2;
           _ ← modify (advance_progress resolution_label cutover due_cutoff cands);
           mret r.2
       end).

End Json.

(** ** Retention *)

Definition _covered (label : string) (d : mdb) (r : mrow) : bool :=
  match metric_agg_coverage d !! (m_id r, label) with
  | None => false
  | Some c =>
      let k := (cov_agent c, label, cov_bucket c) in
      cov_folded c && String.eqb (cov_agent c) (m_agent r) &&
      match metric_agg_bucket d !! k with
      | Some b => m_id r <=? published_gen b
      | None => false
      end &&
      match summary_at k d with Some _ => true | None => false end &&
      match metric_agg_partial d !! k with Some _ => false | None => true end
  end.

Definition deletable (raw_cutoff : Q) (cutover limit : Z) (d : mdb) : list Z :=
  m_id <$> take (Z.to_nat limit)
    (List.filter (fun r => q_ltb (m_ts r) raw_cutoff && (cutover <? m_id r) &&
       forallb (fun label => _covered label d r) _AGG_RESOLUTIONS) (metrics d)).

(** [doomed[start:start + 400]] for each [start]. *)
Fixpoint chunks {A} (fuel n : nat) (l : list A) : list (list A) :=
  match fuel, l with
  | S fuel, _ :: _ => take n l :: chunks fuel n (drop n l)
  | _, _ => []
  end.

(** The buckets the rows of a chunk are folded into or pending for. *)
Definition seals_of (ids : list Z) (d : mdb) : list key :=
  (fun kc => (cov_agent kc.2, kc.1.2, cov_bucket kc.2)) <$>
    List.filter (fun kc => bool_decide (kc.1.1 ∈ ids)) (map_to_list (metric_agg_coverage d)).

Definition seal (d : mdb) (k : key) : mdb :=
  match metric_agg_bucket d !! k with
  | Some (Bucket true g) => with_buckets d (<[k := Bucket false g]> (metric_agg_bucket d))
  | _ => d
  end.

Definition delete_chunk (ids : list Z) (d : mdb) : mdb :=
  let d := fold_left seal (seals_of ids d) d in
  let d := with_coverage d (filter (fun kc => kc.1.1 ∉ ids) (metric_agg_coverage d)) in
  with_metrics d (List.filter (fun r => bool_decide (m_id r ∉ ids)) (metrics d)) (metrics_seq d).

Definition folded_into (k : key) (d : mdb) : bool :=
  existsb (fun kc => cov_folded kc.2 && bool_decide ((cov_agent kc.2, kc.1.2, cov_bucket kc.2) = k))
    (map_to_list (metric_agg_coverage d)).

Definition any_coverage (k : key) (d : mdb) : bool :=
  existsb (fun kc => bool_decide ((cov_agent kc.2, kc.1.2, cov_bucket kc.2) = k))
    (map_to_list (metric_agg_coverage d)).

Definition has_partial (k : key) (d : mdb) : bool :=
  bool_decide (is_Some (metric_agg_partial d !! k)).

Definition prune_summaries (ds_cutoff : Q) (limit : Z) (d : mdb) : mdb :=
  let gone := fst <$> take (Z.to_nat limit)
    (List.filter (fun kd => q_ltb (ts_of_bucket kd.1) ds_cutoff && negb (folded_into kd.1 d)
                            && negb (has_partial kd.1 d)) (metrics_downsampled d)) in
  with_downsampled d (List.filter (fun kd => bool_decide (kd.1 ∉ gone)) (metrics_downsampled d)).

Definition prune_buckets (ds_cutoff : Q) (limit : Z) (d : mdb) : mdb :=
  let gone := take (Z.to_nat limit)
    (List.filter (fun k => q_ltb (ts_of_bucket k) ds_cutoff
        && match summary_at k d with Some _ => false | None => true end
        && negb (any_coverage k d) && negb (has_partial k d))
      (fst <$> map_to_list (metric_agg_bucket d))) in
  with_buckets d (filter (fun kb => kb.1 ∉ gone) (metric_agg_bucket d)).

Definition cleanup_old_metrics (now : Q) (max_age_hours batch_limit : Z) : M mdb Z :=
  let raw_cutoff := (now - inject_Z (max_age_hours * 3600))%Q in
  let ds_cutoff := (now - inject_Z (7 * 86400))%Q in
  let limit := Z.max 1 batch_limit in
  mtx (d ← gets id;
       let doomed := match _agg_cutover d with
                     | Some cutover => deletable raw_cutoff cutover limit d
                     | None => [] end in
       _ ← modify (fun d => fold_left (fun d ids => delete_chunk ids d)
                              (chunks (length doomed) 400 doomed) d);
       _ ← modify (prune_summaries ds_cutoff limit);
       _ ← modify (prune_buckets ds_cutoff limit);
       mret (Z.of_nat (length doomed))).
