(* ===== verification/FoldFacts.v ===== *)
(** * The averaging fold can be interrupted

    What a fold over snapshots keeps, and that one saved as JSON and resumed ends
    where an uninterrupted one does. *)
From S2P Require Import Prelude Py Effects PyOps DbCore MetricFold MetricsDb.
Open Scope Z_scope.

(** ** The fold in several sittings *)

Lemma fold_entries_app es1 es2 a :
  fold_entries (es1 ++ es2) a =
  match fold_entries es1 a with
  | (Ok _, a1) => fold_entries es2 a1
  | (Raise e, a1) => (Raise e, a1)
  end.
Proof.
  revert a. induction es1 as [|e es1 IH]; intros a; simpl; [done|].
  unfold mbind at 1 2, M_bind at 1 2. destruct (_agg_add e a) as [[[]|ex] a1]; [|done]. apply IH.
Qed.

(** Container names are strings (or absent). *)
Definition string_name (v : pyval) : bool :=
  match v with
  | VDict c => match get_or "name" VNone c with VStr _ => true | n => negb (truthy n) end
  | _ => true
  end.

Definition string_named (entry : dict) : bool :=
  match get_or "containers" VNone entry with VList l => forallb string_name l | _ => true end.

Definition string_keys (a : agg) : Prop :=
  exists ks : list string, fst <$> containers a = VStr <$> ks /\ NoDup ks.

Lemma json_key_str float_repr s : json_key float_repr (VStr s) = VStr s.
Proof. done. Qed.

Lemma store_container_fresh name s l :
  (forall kc, kc ∈ l -> py_key_eq name kc.1 = false) -> store_container name s l = l ++ [(name, s)].
Proof.
  induction l as [|[k s'] l IH]; intros H; simpl; [done|].
  pose proof (H (k, s') ltac:(apply list_elem_of_here)) as Hk. simpl in Hk. rewrite Hk. f_equal. apply IH. intros kc Hkc. apply H.
  by apply list_elem_of_further.
Qed.

Lemma reload_string_keys float_repr a : string_keys a -> reload float_repr a = a.
Proof.
  intros (ks & Hks & Hnd). unfold reload.
  enough (H : fold_left (fun l kc => store_container (json_key float_repr kc.1) kc.2 l)
                (containers a) [] = containers a) by (rewrite H; by destruct a).
  assert (Hgen : forall l acc ks ks', fst <$> l = VStr <$> ks -> fst <$> acc = VStr <$> ks' ->
            NoDup (ks' ++ ks) ->
            fold_left (fun l kc => store_container (json_key float_repr kc.1) kc.2 l) l acc = acc ++ l).
  { clear. induction l as [|[k s] l IH]; intros acc ks ks' Hl Hacc Hnd; simpl.
    - by rewrite app_nil_r.
    - destruct ks as [|k' ks]; [done|]. simpl in Hl. injection Hl as -> Hl. simpl.
      rewrite store_container_fresh.
      + rewrite (IH _ ks (ks' ++ [k'])); [by rewrite <- app_assoc|done| |by rewrite <- app_assoc].
        rewrite !fmap_app. simpl. by rewrite Hacc.
      + intros [k2 s2] Hin. simpl.
        assert (Hk2 : k2 ∈ VStr <$> ks') by (rewrite <- Hacc; by apply list_elem_of_fmap_2 with (f := fst) in Hin).
        apply list_elem_of_fmap in Hk2 as (k3 & -> & Hk3). simpl.
        apply String.eqb_neq. intros ->. apply NoDup_app in Hnd as (_ & Hd & _).
        apply (Hd k3 Hk3). apply list_elem_of_here. }
  by apply (Hgen _ [] ks []).
Qed.

(** What a fold keeps, whatever it meets. *)
Lemma store_container_keys name s l ks :
  fst <$> l = VStr <$> ks -> NoDup ks ->
  exists ks', fst <$> store_container (VStr name) s l = VStr <$> ks' /\ NoDup ks' /\
    (forall k, k ∈ ks' <-> k ∈ ks \/ k = name).
Proof.
  revert ks. induction l as [|[k s'] l IH]; intros ks Hl Hnd.
  - destruct ks; [|done]. exists [name]. split; [done|]. split; [apply NoDup_singleton|]. set_solver.
  - destruct ks as [|k0 ks]; [done|]. simpl in Hl. injection Hl as -> Hl.
    apply NoDup_cons in Hnd as [Hn Hnd]. simpl.
    destruct (String.eqb_spec name k0) as [->|Hne].
    + exists (k0 :: ks). split; [by simpl; f_equal|]. split; [by constructor|]. set_solver.
    + destruct (IH ks Hl Hnd) as (ks' & Hk & Hnd' & Hmem). exists (k0 :: ks').
      split; [by simpl; f_equal|]. split; [|set_solver]. constructor; [|done].
      rewrite Hmem. intros [?| ->]; done.
Qed.

Lemma alter_container_keys name f l : fst <$> alter_container name f l = fst <$> l.
Proof.
  induction l as [|[k s] l IH]; [done|]. simpl. destruct (py_key_eq name k); simpl; by f_equal.
Qed.

Lemma keeps_string_keys_update name f : keeps string_keys (update name f).
Proof.
  intros a (ks & Hks & Hnd). exists ks. simpl. by rewrite alter_container_keys.
Qed.

Lemma keeps_string_keys_create name s :
  keeps string_keys (modify (fun a =>
    if has_container (VStr name) (containers a) then a
    else with_containers a (store_container (VStr name) s (containers a)))).
Proof.
  intros a (ks & Hks & Hnd). simpl. destruct (has_container _ _); [by exists ks|].
  destruct (store_container_keys name s _ ks Hks Hnd) as (ks' & ? & ? & _). by exists ks'.
Qed.

Lemma keeps_lift {S A} (I : S -> Prop) (r : res A) : keeps I (lift_res r).
Proof. by intros s Hs. Qed.

#[export] Hint Resolve keeps_lift keeps_string_keys_update keeps_string_keys_create : keeps.

(** A step that leaves the containers alone. *)
Lemma keeps_same_containers (f : agg -> agg) :
  (forall a, containers (f a) = containers a) -> keeps string_keys (modify f).
Proof. intros Hf a (ks & Hks & Hnd). exists ks. simpl. by rewrite Hf. Qed.

Ltac keeps_step :=
  repeat first
    [ apply keeps_bind; [|intros ?]
    | apply keeps_lift | apply keeps_gets | apply keeps_ret | apply keeps_raise
    | apply keeps_string_keys_update | apply keeps_string_keys_create | apply keeps_if
    | (apply keeps_for_each; intros ?)
    | (apply keeps_same_containers; intros; reflexivity)
    | match goal with |- keeps _ (match ?x with _ => _ end) => destruct x end ].

Lemma keeps_add_scalars entry : keeps string_keys (add_scalars entry).
Proof.
  unfold add_scalars, when, init_shapes, add_scalar, add_cores, add_core, add_device,
    set_device, add_field, set_device. keeps_step.
Qed.

Lemma keeps_lift_bind {S A B} (I : S -> Prop) (r : res A) (k : A -> M S B) :
  (forall a, r = Ok a -> keeps I (k a)) -> keeps I (lift_res r ≫= k).
Proof.
  intros Hk s Hs. unfold mbind, M_bind, lift_res. destruct r as [a|]; [|done]. by apply Hk.
Qed.

Lemma keeps_add_container v : string_name v = true -> keeps string_keys (add_container v).
Proof.
  intros Hv. unfold add_container. apply keeps_lift_bind. intros name Hname.
  destruct v as [| | | | | |c]; try done. injection Hname as <-. simpl in Hv.
  destruct (truthy _) eqn:Ht; simpl; [|apply keeps_ret].
  destruct (get_or "name" VNone c) as [| | | |s| |];
    try (simpl in *; rewrite Ht in Hv; discriminate); [done|].
    cbn [py_hashable negb]. unfold when. keeps_step.
Qed.

Lemma keeps_for_each_in {S X} (I : S -> Prop) (f : X -> M S unit) l :
  (forall x, x ∈ l -> keeps I (f x)) -> keeps I (for_each f l).
Proof.
  induction l as [|x l IH]; intros Hf; [apply keeps_ret|]. simpl. apply keeps_bind.
  - apply Hf, list_elem_of_here.
  - intros _. apply IH. intros y Hy. apply Hf. by apply list_elem_of_further.
Qed.

Lemma string_named_items entry items :
  string_named entry = true ->
  py_iter (py_or (get_or "containers" VNone entry) (VList [])) = Ok items ->
  forall v, v ∈ items -> string_name v = true.
Proof.
  unfold string_named, py_or. intros Hn Hi v Hv.
  destruct (get_or "containers" VNone entry) as [|[]|z|f|s|l|d]; simpl in Hi.
  all: repeat match goal with
    | H : context [if ?b then _ else _] |- _ => destruct b; simpl in H
    end; simplify_eq; try by apply not_elem_of_nil in Hv.
  - by apply list_elem_of_fmap in Hv as (? & -> & _).
  - rewrite forallb_forall in Hn. by apply Hn, list_elem_of_In.
  - by apply list_elem_of_fmap in Hv as (? & -> & _).
Qed.

Lemma keeps_agg_add entry : string_named entry = true -> keeps string_keys (_agg_add entry).
Proof.
  intros Hn. unfold _agg_add. apply keeps_bind.
  { apply keeps_same_containers. intros a. by destruct (template a). }
  intros _. apply keeps_bind; [by apply keeps_same_containers|]. intros _.
  assert (Hg : forall m f mark, keeps string_keys m -> (forall a, containers (mark a) = containers a) ->
            keeps string_keys (guarded m f mark)).
  { intros m f mark Hm Hmark. unfold guarded. apply keeps_bind; [apply keeps_gets|]. intros a.
    apply keeps_if; [apply keeps_ret|]. apply keeps_catch; [done|]. intros e k.
    destruct (shape_error e); [|done]. intros [= <-]. by apply keeps_same_containers. }
  apply keeps_bind; [by apply Hg; [apply keeps_add_scalars|]|]. intros _. apply Hg; [|done].
  unfold _agg_add_containers. intros a Ha. unfold mbind, M_bind, lift_res.
  destruct (py_iter _) as [items|] eqn:E; [|done].
  apply keeps_for_each_in; [|done]. intros v Hv. apply keeps_add_container.
  by eapply string_named_items.
Qed.

Lemma keeps_fold_entries es :
  forallb string_named es = true -> keeps string_keys (fold_entries es).
Proof.
  induction es as [|e es IH]; simpl; [intros _; apply keeps_ret|].
  intros [He Hes]%andb_true_iff. apply keeps_bind; [by apply keeps_agg_add|]. auto.
Qed.

Lemma string_keys_new : string_keys _agg_new.
Proof. exists []. split; [done|constructor]. Qed.


