(* ===== verification/History.v ===== *)
(** * Metric history: the invariant of aggregation

    The invariant of the aggregation tables of [MetricsDb] and its preservation by
    ingest and by bounded aggregation passes: a published, open bucket stores
    exactly the average of the raw rows it accounts for. *)
From S2P Require Import Prelude Sorting Py Effects PyOps DbCore MetricFold MetricsDb FoldFacts.
Open Scope Z_scope.

(** ** Rows in consumption order *)

Lemma row_leb_total x y : row_leb x y = true \/ row_leb y x = true.
Proof.
  unfold row_leb. destruct (q_ltb_spec (m_ts x) (m_ts y)); [by left|].
  destruct (q_ltb_spec (m_ts y) (m_ts x)); [by right|]. simpl.
  assert (E : (m_ts x == m_ts y)%Q) by lra.
  rewrite (proj2 (Qeq_bool_iff _ _) E), (proj2 (Qeq_bool_iff _ _) (Qeq_sym _ _ E)). simpl.
  destruct (Z.leb_spec (m_id x) (m_id y)); [by left|]. right. apply Z.leb_le. lia.
Qed.

Lemma row_leb_iff x y :
  row_leb x y = true <-> (m_ts x < m_ts y)%Q \/ ((m_ts x == m_ts y)%Q /\ m_id x <= m_id y).
Proof.
  unfold row_leb. rewrite orb_true_iff, andb_true_iff, q_ltb_true, Qeq_bool_iff, Z.leb_le. done.
Qed.

Lemma row_leb_trans x y z : row_leb x y = true -> row_leb y z = true -> row_leb x z = true.
Proof.
  rewrite !row_leb_iff. intros [H1|[H1 H1']] [H2|[H2 H2']]; (left; lra) || (right; split; [lra|lia]).
Qed.

Lemma row_leb_antisym x y : row_leb x y = true -> row_leb y x = true -> m_id x = m_id y.
Proof.
  rewrite !row_leb_iff. intros [H1|[H1 H1']] [H2|[H2 H2']]; try (exfalso; lra). lia.
Qed.

(** The cursor test is "not yet consumed". *)
Lemma after_cursor_row x y : after_cursor (m_ts x) (m_id x) y = negb (row_leb y x).
Proof.
  apply eq_true_iff_eq. rewrite negb_true_iff, <- not_true_iff_false, row_leb_iff.
  unfold after_cursor. rewrite orb_true_iff, andb_true_iff, q_ltb_true, Qeq_bool_iff, Z.ltb_lt.
  split.
  - intros [H|[H1 H2]] [H'|[H1' H2']]; lra || lia.
  - intros H. destruct (Qlt_le_dec (m_ts x) (m_ts y)) as [Hlt|Hle]; [by left|]. right.
    destruct (Qlt_le_dec (m_ts y) (m_ts x)) as [Hlt'|Hle']; [exfalso; apply H; by left|].
    assert (m_ts y == m_ts x)%Q by lra. split; [done|].
    destruct (Z.le_gt_cases (m_id y) (m_id x)); [exfalso; apply H; by right|lia].
Qed.

Abbreviation row_le := (fun x y => row_leb x y = true).

(** Splitting a sorted list at a row: nothing before it is still to come, and
    everything behind it is. *)
Lemma consumed_split l1 x l2 :
  StronglySorted row_le (l1 ++ x :: l2) -> NoDup (m_id <$> l1 ++ x :: l2) ->
  List.filter (fun r => negb (after_cursor (m_ts x) (m_id x) r)) (l1 ++ x :: l2) = l1 ++ [x] /\
  List.filter (after_cursor (m_ts x) (m_id x)) (l1 ++ x :: l2) = l2.
Proof.
  intros Hs Hnd.
  assert (H1 : forall y, List.In y (l1 ++ [x]) -> after_cursor (m_ts x) (m_id x) y = false).
  { intros y Hy. rewrite after_cursor_row, negb_false_iff.
    apply in_app_or in Hy as [Hy|[->|[]]].
    - clear Hnd. induction l1 as [|z l1 IH]; [done|]. simpl in Hs.
      apply StronglySorted_inv in Hs as [Hs Hz]. destruct Hy as [->|Hy]; [|by apply IH].
      rewrite Forall_forall in Hz. apply Hz. set_solver.
    - rewrite row_leb_iff. right. split; [reflexivity|lia]. }
  assert (H2 : forall y, List.In y l2 -> after_cursor (m_ts x) (m_id x) y = true).
  { intros y Hy. rewrite after_cursor_row, negb_true_iff, <- not_true_iff_false. intros Hle.
    assert (Hxy : row_leb x y = true).
    { clear Hnd H1. induction l1 as [|z l1 IH]; simpl in Hs;
        apply StronglySorted_inv in Hs as [Hs Hz]; [|by apply IH].
      rewrite Forall_forall in Hz. apply Hz. by apply list_elem_of_In. }
    pose proof (row_leb_antisym x y Hxy Hle) as Hid.
    rewrite fmap_app in Hnd. apply NoDup_app in Hnd as (_ & _ & Hnd). simpl in Hnd.
    apply NoDup_cons in Hnd as [Hn _]. apply Hn. rewrite Hid.
    apply list_elem_of_fmap_2. by apply list_elem_of_In. }
  replace (l1 ++ x :: l2) with ((l1 ++ [x]) ++ l2) by (by rewrite <- app_assoc).
  rewrite !(List.filter_app _ (l1 ++ [x]) l2). split.
  - rewrite (filter_all _ (l1 ++ [x])), (filter_none _ l2); [by rewrite app_nil_r| |].
    + intros y Hy. by rewrite H2.
    + intros y Hy. by rewrite H1.
  - rewrite (filter_none _ (l1 ++ [x])), (filter_all _ l2); [done| |]; auto.
Qed.

(** ** Buckets *)

Definition secs_of (label : string) : Z := default 0 (dict_get label _AGG_SPECS).

(** A served resolution and an aligned start. *)
Definition valid_key (k : key) : Prop :=
  is_Some (dict_get k.1.2 _AGG_SPECS) /\ k.2 mod secs_of k.1.2 = 0.

Lemma secs_pos label : is_Some (dict_get label _AGG_SPECS) -> 0 < secs_of label.
Proof.
  intros [secs H]. unfold secs_of. rewrite H. simpl in *.
  repeat case_match; simplify_eq; lia.
Qed.

Definition krows (k : key) (d : mdb) : list mrow := bucket_rows k.1.1 k.2 (secs_of k.1.2) d.
Definition kgen (cut : Z) (k : key) (g : Z) (d : mdb) : list mrow :=
  generation_rows k.1.1 k.2 (secs_of k.1.2) cut g d.
Definition in_key (k : key) : mrow -> bool := in_bucket k.1.1 k.2 (secs_of k.1.2).

Lemma in_key_iff k r :
  in_key k r = true <->
  m_agent r = k.1.1 /\ (inject_Z k.2 <= m_ts r)%Q /\ (m_ts r < inject_Z (k.2 + secs_of k.1.2))%Q.
Proof.
  unfold in_key, in_bucket. rewrite !andb_true_iff, String.eqb_eq, q_leb_true, q_ltb_true. tauto.
Qed.

(** A row lies in one bucket per resolution. *)
Lemma in_key_unique k k' r :
  valid_key k -> valid_key k' -> k.1.2 = k'.1.2 ->
  in_key k r = true -> in_key k' r = true -> k = k'.
Proof.
  intros [Hs Ha] [_ Ha'] Hl (Hag & H1 & H2)%in_key_iff (Hag' & H1' & H2')%in_key_iff.
  rewrite <- Hl in *. pose proof (secs_pos _ Hs) as Hpos. set (s := secs_of k.1.2) in *.
  assert (Hlt : k.2 < k'.2 + s /\ k'.2 < k.2 + s).
  { rewrite !Zlt_Qlt. split; [apply (Qle_lt_trans _ (m_ts r))|apply (Qle_lt_trans _ (m_ts r))]; done. }
  assert (k.2 = k'.2).
  { apply Z.mod_divide in Ha as [q Hq]; [|lia]. apply Z.mod_divide in Ha' as [q' Hq']; [|lia].
    rewrite Hq, Hq' in *. assert (q < q' + 1) by (apply (Zmult_lt_reg_r _ _ s); lia).
    assert (q' < q + 1) by (apply (Zmult_lt_reg_r _ _ s); lia). f_equal. lia. }
  destruct k as [[a l] b], k' as [[a' l'] b']. simpl in *. congruence.
Qed.

Lemma kgen_elem cut k g d r :
  r ∈ kgen cut k g d <-> r ∈ metrics d /\ in_key k r = true /\ cut < m_id r /\ m_id r <= g.
Proof.
  unfold kgen, generation_rows, bucket_rows. rewrite sort_by_perm.
  rewrite !list_elem_of_In, !List.filter_In, andb_true_iff, Z.ltb_lt, Z.leb_le. tauto.
Qed.

Lemma krows_elem k d r : r ∈ krows k d <-> r ∈ metrics d /\ in_key k r = true.
Proof. unfold krows, bucket_rows. rewrite !list_elem_of_In, List.filter_In. done. Qed.

Lemma kgen_sorted cut k g d : StronglySorted row_le (kgen cut k g d).
Proof. apply sort_by_sorted; [apply row_leb_total|apply row_leb_trans]. Qed.

Lemma filter_sublist_ids (p : mrow -> bool) l : NoDup (m_id <$> l) -> NoDup (m_id <$> List.filter p l).
Proof.
  induction l as [|x l IH]; [done|]. simpl. rewrite NoDup_cons. intros [Hn Hnd].
  destruct (p x); simpl; [|by apply IH]. apply NoDup_cons. split; [|by apply IH].
  intros Hin. apply Hn. apply list_elem_of_fmap in Hin as (y & -> & Hy).
  apply list_elem_of_fmap_2. rewrite list_elem_of_In in *. by apply List.filter_In in Hy as [].
Qed.

Lemma kgen_nodup cut k g d : NoDup (m_id <$> metrics d) -> NoDup (m_id <$> kgen cut k g d).
Proof.
  intros H. unfold kgen, generation_rows, bucket_rows. rewrite sort_by_perm.
  by apply filter_sublist_ids, filter_sublist_ids.
Qed.

(** Buckets read only the raw rows. *)
Lemma kgen_ext cut k g d d' : metrics d' = metrics d -> kgen cut k g d' = kgen cut k g d.
Proof. intros H. unfold kgen, generation_rows, bucket_rows. by rewrite H. Qed.

(** ... and a row that is too new for the generation does not show. *)
Lemma kgen_store cut k g d r n :
  g < m_id r -> kgen cut k g (with_metrics d (metrics d ++ [r]) n) = kgen cut k g d.
Proof.
  intros Hg. unfold kgen, generation_rows, bucket_rows. simpl. rewrite filter_snoc.
  destruct (in_bucket _ _ _ r); rewrite ?filter_snoc; [|by rewrite app_nil_r].
  rewrite (proj2 (Z.leb_gt (m_id r) g)) by lia. rewrite andb_false_r. by rewrite app_nil_r.
Qed.

(** ** Summaries by key *)

Lemma find_filter_ne {A} (p q : A -> bool) l :
  (forall x, p x = true -> q x = true) -> List.find p (List.filter q l) = List.find p l.
Proof.
  intros H. induction l as [|x l IH]; [done|]. simpl. destruct (q x) eqn:Eq; simpl.
  - destruct (p x); [done|apply IH].
  - destruct (p x) eqn:Ep; [rewrite (H x Ep) in Eq; done|apply IH].
Qed.

Lemma find_filter_none {A} (p q : A -> bool) l :
  (forall x, p x = true -> q x = false) -> List.find p (List.filter q l) = None.
Proof.
  intros H. induction l as [|x l IH]; [done|]. simpl. destruct (q x) eqn:Eq; simpl; [|apply IH].
  destruct (p x) eqn:Ep; [rewrite (H x Ep) in Eq; done|apply IH].
Qed.

Lemma find_app {A} (p : A -> bool) l1 l2 :
  List.find p (l1 ++ l2) = match List.find p l1 with Some x => Some x | None => List.find p l2 end.
Proof. induction l1 as [|x l1 IH]; [done|]. simpl. by destruct (p x). Qed.

Lemma summary_put k k' v d :
  summary_at k' (with_downsampled d (put_summary k v (metrics_downsampled d))) =
  if decide (k = k') then Some v else summary_at k' d.
Proof.
  unfold summary_at, put_summary. simpl. rewrite find_app. case_decide as E.
  - subst. rewrite find_filter_none.
    + simpl. by rewrite bool_decide_true.
    + intros x Hx%bool_decide_eq_true. apply bool_decide_eq_false. by intros [].
  - rewrite find_filter_ne.
    + destruct (List.find _ _); [done|]. simpl. by rewrite bool_decide_false.
    + intros x Hx%bool_decide_eq_true. apply bool_decide_eq_true. congruence.
Qed.

Lemma summary_filter k (q : key * dict -> bool) d :
  (forall x, x.1 = k -> q x = true) ->
  summary_at k (with_downsampled d (List.filter q (metrics_downsampled d))) = summary_at k d.
Proof.
  intros H. unfold summary_at. simpl. rewrite find_filter_ne; [done|].
  intros x Hx%bool_decide_eq_true. by apply H.
Qed.

(** ** The invariant *)

Definition folded (k : key) (d : mdb) (r : mrow) : Prop :=
  metric_agg_coverage d !! (m_id r, k.1.2) = Some (Coverage k.1.1 k.2 true).

Definition average_of (rows : list mrow) : res (option dict) := _average_metrics (m_data <$> rows).

(** The part of a generation its accumulation has consumed. *)
Definition consumed (cut : Z) (k : key) (p : partial) (d : mdb) : list mrow :=
  List.filter (fun r => negb (after_cursor (last_ts p) (last_raw_id p) r))
    (kgen cut k (through_raw_id p) d).

Record exact (cut : Z) (d : mdb) : Prop := {
  ex_cut : _agg_cutover d = Some cut /\ 0 <= cut <= metrics_seq d;
  ex_ids : NoDup (m_id <$> metrics d) /\ Forall (fun r => 0 < m_id r <= metrics_seq d) (metrics d);
  ex_named : Forall (fun r => string_named (m_data r) = true) (metrics d);
  (* coverage lives exactly as long as its raw row, and names its bucket *)
  ex_cov : forall i l c, metric_agg_coverage d !! (i, l) = Some c ->
    valid_key (cov_agent c, l, cov_bucket c) /\
    exists r, r ∈ metrics d /\ m_id r = i /\ cut < i /\
      in_key (cov_agent c, l, cov_bucket c) r = true;
  (* an open bucket's summary is the average of every row up to its generation *)
  ex_open : forall k g, metric_agg_bucket d !! k = Some (Bucket true g) ->
    valid_key k /\ g <= metrics_seq d /\
    (forall r, r ∈ krows k d -> cut < m_id r) /\
    (exists r, r ∈ kgen cut k g d /\ m_id r = g) /\
    (forall r, r ∈ kgen cut k g d -> folded k d r) /\
    exists avg, summary_at k d = Some avg /\ average_of (kgen cut k g d) = Ok (Some avg);
  (* an accumulation in flight is the fold of what it consumed *)
  ex_partial : forall k p, metric_agg_partial d !! k = Some p ->
    valid_key k /\ through_raw_id p <= metrics_seq d /\
    (forall r, r ∈ krows k d -> cut < m_id r) /\
    (exists r, r ∈ kgen cut k (through_raw_id p) d /\ m_id r = through_raw_id p) /\
    (forall b, metric_agg_bucket d !! k = Some b ->
       b_open b = true /\ published_gen b <= through_raw_id p) /\
    (metric_agg_bucket d !! k = None -> summary_at k d = None) /\
    (forall r, r ∈ consumed cut k p d -> folded k d r) /\
    fold_entries (m_data <$> consumed cut k p d) _agg_new = (Ok tt, acc p);
  (* a bucket row is there for every key that has one, served and aligned *)
  ex_bucket : forall k b, metric_agg_bucket d !! k = Some b -> valid_key k
}.

(** ** Ingest *)

Lemma krows_store k d r n x :
  x ∈ krows k (with_metrics d (metrics d ++ [r]) n) ->
  x ∈ krows k d \/ x = r.
Proof. rewrite !krows_elem. simpl. set_solver. Qed.

Lemma exact_store cut d agent_id ts data :
  string_named data = true -> exact cut d ->
  exact cut (with_metrics d (metrics d ++ [MRow (metrics_seq d + 1) agent_id ts data])
               (metrics_seq d + 1)).
Proof.
  intros Hn [[Hc1 Hc2] [Hi1 Hi2] Hnm Hcov Hopen Hpart Hb]. set (r := MRow _ _ _ _).
  set (d' := with_metrics _ _ _).
  assert (Hgen : forall k g, g <= metrics_seq d -> kgen cut k g d' = kgen cut k g d).
  { intros k g Hg. apply kgen_store. simpl. lia. }
  assert (Hrows : forall k, (forall x, x ∈ krows k d -> cut < m_id x) ->
            forall x, x ∈ krows k d' -> cut < m_id x).
  { intros k H x [Hx| ->]%krows_store; [by apply H|simpl; lia]. }
  split; simpl.
  - split; [done|lia].
  - rewrite fmap_app. split.
    + apply NoDup_app. split; [done|]. split; [|apply NoDup_singleton].
      intros i (x & -> & Hx)%list_elem_of_fmap. rewrite Forall_forall in Hi2.
      specialize (Hi2 x Hx). simpl. rewrite list_elem_of_singleton. lia.
    + apply Forall_app. split; [|constructor; [simpl; lia|constructor]].
      eapply Forall_impl; [exact Hi2|]. simpl. lia.
  - apply Forall_app. split; [done|]. by constructor.
  - intros i l c Hc. destruct (Hcov i l c Hc) as (Hv & x & Hx & Hrest).
    split; [done|]. exists x. split; [set_solver|done].
  - intros k g Hk. destruct (Hopen k g Hk) as (Hv & Hg & Hl & Hmax & Hf & avg & Hs & Ha).
    rewrite !Hgen by done. split; [done|]. split; [lia|]. split; [by apply Hrows|].
    split; [done|]. split; [done|]. by exists avg.
  - intros k p Hk. destruct (Hpart k p Hk) as (Hv & Hg & Hl & Hmax & Hbk & Hnone & Hf & Ha).
    unfold consumed in *. rewrite !Hgen by done. split; [done|]. split; [lia|].
    split; [by apply Hrows|].
    do 4 (split; [done|]). done.
  - done.
Qed.

(** ** One bucket's advance *)

Lemma fold_rows_spec label a b rows g d :
  match fold_rows a label b rows g d with
  | (Ok g', d') =>
      fold_entries (m_data <$> rows) (g_acc g) = (Ok tt, g_acc g') /\
      g_through g' = g_through g /\
      (g_ts g', g_id g') = match last rows with Some r => (m_ts r, m_id r) | None => (g_ts g, g_id g) end /\
      exists m, d' = with_coverage d m /\
        forall i l, m !! (i, l) =
          if decide (l = label /\ i ∈ m_id <$> rows) then Some (Coverage a b true)
          else metric_agg_coverage d !! (i, l)
  | (Raise e, _) => exists a', fold_entries (m_data <$> rows) (g_acc g) = (Raise e, a')
  end.
Proof.
  revert g d. induction rows as [|r rows IH]; intros g d.
  - cbn. split; [done|]. split; [done|]. split; [done|].
    exists (metric_agg_coverage d). split; [by destruct d|]. intros i l.
    rewrite decide_False; [done|]. intros [_ H]. by apply not_elem_of_nil in H.
  - cbn [fold_rows fmap list_fmap fold_entries]. unfold mbind, M_bind.
    destruct (_agg_add (m_data r) (g_acc g)) as [[[]|e] a1] eqn:E; [|by eexists].
    specialize (IH (Generation a1 (g_through g) (m_ts r) (m_id r))
                   (set_coverage (m_id r) label (Coverage a b true) d)).
    destruct (fold_rows _ _ _ _ _ _) as [[g'|e] d'].
    + destruct IH as (Hf & Ht & Hcur & m & -> & Hm). simpl in Hf, Ht, Hcur.
      split; [done|]. split; [done|]. split.
      { rewrite Hcur, last_cons. by destruct (last rows). }
      exists m. split; [done|]. intros i l. rewrite Hm. unfold set_coverage. simpl.
      rewrite lookup_insert. repeat case_decide; set_solver.
    + exact IH.
Qed.

Lemma sorted_partition (p : mrow -> bool) l :
  StronglySorted row_le l ->
  (forall x y, row_leb x y = true -> p y = true -> p x = true) ->
  l = List.filter p l ++ List.filter (fun r => negb (p r)) l.
Proof.
  intros Hs Hp. induction Hs as [|x l Hs IH Hx]; [done|]. simpl. destruct (p x) eqn:E; simpl.
  - by f_equal.
  - rewrite (filter_none p l), (filter_all _ l); [done| |].
    + intros y Hy. rewrite Forall_forall in Hx. destruct (p y) eqn:Ey; [|done].
      by rewrite (Hp x y (Hx y ltac:(by apply list_elem_of_In)) Ey) in E.
    + intros y Hy. rewrite Forall_forall in Hx. destruct (p y) eqn:Ey; [|done].
      by rewrite (Hp x y (Hx y ltac:(by apply list_elem_of_In)) Ey) in E.
Qed.

Lemma cursor_partition ts id l :
  StronglySorted row_le l ->
  l = List.filter (fun r => negb (after_cursor ts id r)) l ++ List.filter (after_cursor ts id) l.
Proof.
  intros Hs.
  rewrite (sorted_partition (fun r => negb (after_cursor ts id r)) l Hs) at 1.
  - f_equal. apply List.filter_ext. intros r. apply negb_involutive.
  - intros x y Hxy. change ts with (m_ts (MRow id "" ts [])). change id with (m_id (MRow id "" ts [])).
    rewrite !after_cursor_row, !negb_involutive. by apply row_leb_trans.
Qed.

(** Consuming the next rows moves the cursor past exactly those. *)
Lemma consume_step ts id n l :
  StronglySorted row_le l -> NoDup (m_id <$> l) ->
  let rows := take n (List.filter (after_cursor ts id) l) in
  forall ts' id', (ts', id') = match last rows with Some r => (m_ts r, m_id r) | None => (ts, id) end ->
  List.filter (fun r => negb (after_cursor ts' id' r)) l =
    List.filter (fun r => negb (after_cursor ts id r)) l ++ rows /\
  List.filter (after_cursor ts' id') l = drop n (List.filter (after_cursor ts id) l).
Proof.
  intros Hs Hnd. cbn zeta. pose proof (cursor_partition ts id l Hs) as Hl.
  set (pre := List.filter (fun r => negb (after_cursor ts id r)) l) in *.
  set (suf := List.filter (after_cursor ts id) l) in *. intros ts' id'.
  destruct (last (take n suf)) as [r|] eqn:E.
  - apply last_Some in E as [rows' E]. intros [= -> ->].
    assert (Hl2 : l = (pre ++ rows') ++ r :: drop n suf).
    { rewrite Hl at 1. rewrite <- (take_drop n suf) at 1. rewrite E. by rewrite <- !app_assoc. }
    rewrite Hl2 in Hs, Hnd. destruct (consumed_split _ _ _ Hs Hnd) as [H1 H2].
    rewrite <- Hl2 in H1, H2. rewrite H1, H2, E. split; [by rewrite <- app_assoc|done].
  - apply last_None in E. intros [= -> ->]. rewrite E, app_nil_r. split; [done|].
    fold suf. rewrite <- (take_drop n suf) at 1. by rewrite E.
Qed.

Lemma ids_inj d x y : NoDup (m_id <$> metrics d) -> x ∈ metrics d -> y ∈ metrics d ->
  m_id x = m_id y -> x = y.
Proof.
  intros Hnd Hx Hy E. apply list_elem_of_lookup in Hx as [i Hi]. apply list_elem_of_lookup in Hy as [j Hj].
  assert (i = j).
  { eapply (NoDup_lookup (m_id <$> metrics d)); [done|..]; rewrite list_lookup_fmap, ?Hi, ?Hj; simpl; by rewrite ?E. }
  subst. congruence.
Qed.

(** Recording rows of one bucket keeps everything recorded about the others. *)
Lemma exact_coverage cut k d m :
  valid_key k -> exact cut d ->
  (forall i l, m !! (i, l) = metric_agg_coverage d !! (i, l) \/
     exists x f, x ∈ krows k d /\ m_id x = i /\ cut < i /\ l = k.1.2 /\
       m !! (i, l) = Some (Coverage k.1.1 k.2 f) /\
       (f = true \/ metric_agg_coverage d !! (i, l) = None)) ->
  exact cut (with_coverage d m).
Proof.
  intros Hvk [[Hc1 Hc2] [Hi1 Hi2] Hnm Hcov Hopen Hpart Hb] Hm.
  assert (Hfold : forall k' r, valid_key k' -> r ∈ krows k' d -> folded k' d r ->
            folded k' (with_coverage d m) r).
  { intros k' r Hv' [Hr Hrk]%krows_elem Hf. unfold folded in *. simpl.
    destruct (Hm (m_id r) k'.1.2) as [->|(x & f & Hx & Hid & Hlt & Hl & Hval & Hor)]; [done|].
    apply krows_elem in Hx as [Hx Hxk]. assert (x = r) as -> by (by eapply ids_inj).
    assert (k = k') as <- by (by eapply in_key_unique). rewrite Hval.
    destruct Hor as [->|Hnone]; [done|]. by rewrite Hf in Hnone. }
  assert (Hsub : forall k' g r, r ∈ kgen cut k' g d -> r ∈ krows k' d).
  { intros k' g r (? & ? & _)%kgen_elem. by apply krows_elem. }
  split; simpl; try done.
  - intros i l c Hc. destruct (Hm i l) as [E|(x & f & Hx & Hid & Hlt & -> & Hval & _)].
    + rewrite E in Hc. by apply Hcov.
    + rewrite Hval in Hc. injection Hc as <-. simpl.
      assert ((k.1.1, k.1.2, k.2) = k) as -> by (by destruct k as [[]]). split; [done|].
      apply krows_elem in Hx as [Hx Hxk]. by exists x.
  - intros k' g Hk'. destruct (Hopen k' g Hk') as (Hv & Hg & Hl & Hmax & Hf & Hrest).
    do 4 (split; [done|]). split; [|done]. intros r Hr. apply Hfold; [done|by eapply Hsub|].
    by apply Hf.
  - intros k' p Hk'. destruct (Hpart k' p Hk') as (Hv & Hg & Hl & Hmax & Hbk & Hnone & Hf & Ha).
    do 6 (split; [done|]). split; [|done]. intros r Hr. apply Hfold; [done| |by apply Hf].
    unfold consumed in Hr. apply list_elem_of_In, List.filter_In in Hr as [Hr _].
    eapply Hsub. by apply list_elem_of_In.
Qed.

(** An accumulation that may go on: [consumed] is its past, the rest its future. *)
Record running (cut : Z) (k : key) (g : generation) (d : mdb) : Prop := {
  run_through : g_through g <= metrics_seq d;
  run_fresh : forall r, r ∈ krows k d -> cut < m_id r;
  run_max : exists r, r ∈ kgen cut k (g_through g) d /\ m_id r = g_through g;
  run_bucket : forall b, metric_agg_bucket d !! k = Some b ->
    b_open b = true /\ published_gen b <= g_through g;
  run_summary : metric_agg_bucket d !! k = None -> summary_at k d = None;
  run_folded : forall r, r ∈ List.filter (fun r => negb (after_cursor (g_ts g) (g_id g) r))
                            (kgen cut k (g_through g) d) -> folded k d r;
  run_acc : fold_entries (m_data <$> List.filter (fun r => negb (after_cursor (g_ts g) (g_id g) r))
                            (kgen cut k (g_through g) d)) _agg_new = (Ok tt, g_acc g)
}.

Lemma running_partial cut k p d :
  exact cut d -> metric_agg_partial d !! k = Some p ->
  running cut k (Generation (acc p) (through_raw_id p) (last_ts p) (last_raw_id p)) d.
Proof.
  intros Hd Hp. destruct (ex_partial _ _ Hd k p Hp) as (Hv & Hg & Hl & Hmax & Hbk & Hnone & Hf & Ha).
  by split.
Qed.

Lemma max_id_spec l : l <> [] -> Forall (fun r => 0 < m_id r) l ->
  (exists r, r ∈ l /\ m_id r = max_id l) /\ Forall (fun r => m_id r <= max_id l) l.
Proof.
  intros Hne Hpos. induction Hpos as [|x l Hx Hpos IH]; [done|]. simpl.
  destruct l as [|y l].
  - simpl. split; [exists x; split; [apply list_elem_of_here|lia]|]. constructor; [lia|constructor].
  - destruct IH as [(r & Hr & Hm) Hle]; [done|]. set (m := max_id (y :: l)) in *. split.
    + destruct (Z.le_gt_cases (m_id x) m).
      * exists r. split; [by apply list_elem_of_further|]. lia.
      * exists x. split; [apply list_elem_of_here|]. lia.
    + constructor; [lia|]. eapply Forall_impl; [exact Hle|]. simpl. lia.
Qed.

(** Nothing is consumed at the start: the cursor sits before the bucket. *)
Lemma start_unconsumed cut k g d :
  List.filter (fun r => negb (after_cursor (inject_Z k.2 - 1) 0 r)) (kgen cut k g d) = [].
Proof.
  apply filter_none. intros r Hr. apply list_elem_of_In, kgen_elem in Hr as (_ & Hk & _).
  apply in_key_iff in Hk as (_ & Hlo & _). apply negb_false_iff. unfold after_cursor.
  apply orb_true_iff. left. apply q_ltb_true. lra.
Qed.

Lemma running_start cut k d g :
  exact cut d -> start_generation k (secs_of k.1.2) cut d = Started g -> running cut k g d.
Proof.
  intros Hd. destruct k as [[a l] b]. unfold start_generation.
  set (k := (a, l, b)). change (bucket_rows a b (secs_of k.1.2) d) with (krows k d).
  destruct (negb (existsb _ _)) eqn:Hex; [done|].
  destruct (negb (_ && _ && _)) eqn:Hpr; [done|].
  apply negb_false_iff in Hpr as [[Hlegacy Hst]%andb_true_iff Hsum]%andb_true_iff.
  set (fresh := List.filter (fun r => cut <? m_id r) (krows k d)).
  destruct (Z.eqb_spec (max_id fresh) 0) as [|Hmax]; [done|]. intros [= <-].
  assert (Hfresh : forall r, r ∈ krows k d -> cut < m_id r).
  { intros r Hr. apply negb_true_iff in Hlegacy.
    destruct (Z.leb_spec (m_id r) cut) as [Hle|]; [|done]. exfalso.
    apply not_true_iff_false in Hlegacy. apply Hlegacy. apply existsb_exists.
    exists r. split; [by apply list_elem_of_In|]. by apply Z.leb_le. }
  assert (Hne : fresh <> []) by (intros E; rewrite E in Hmax; done).
  assert (Hpos : Forall (fun r => 0 < m_id r) fresh).
  { apply Forall_forall. intros r Hr%list_elem_of_In. unfold fresh in Hr.
    apply List.filter_In in Hr as [Hr%list_elem_of_In _]. apply krows_elem in Hr as [Hr _].
    destruct (ex_ids _ _ Hd) as [_ Hids]. rewrite Forall_forall in Hids.
    specialize (Hids r Hr). lia. }
  destruct (max_id_spec fresh Hne Hpos) as [(r & Hr & Hrm) Hle].
  unfold fresh in Hr. apply list_elem_of_In, List.filter_In in Hr as [Hr%list_elem_of_In Hcut%Z.ltb_lt].
  fold fresh in Hrm. apply krows_elem in Hr as [Hrin Hrk].
  destruct (ex_ids _ _ Hd) as [_ Hids]. rewrite Forall_forall in Hids.
  split; simpl.
  - rewrite <- Hrm. by apply Hids.
  - done.
  - exists r. split; [|done]. apply kgen_elem. rewrite Hrm. repeat split; [done|done|lia|lia].
  - intros bk Hbk. rewrite Hbk in Hst. split; [done|].
    destruct bk as [[] g]; [|done]. simpl.
    destruct (ex_open _ _ Hd k g Hbk) as (_ & _ & _ & (x & Hx & Hxg) & _).
    apply kgen_elem in Hx as (Hxin & Hxk & Hxc & _). rewrite <- Hxg.
    rewrite Forall_forall in Hle. apply Hle. apply list_elem_of_In, List.filter_In.
    split; [by apply list_elem_of_In, krows_elem|by apply Z.ltb_lt].
  - intros Hbk. rewrite Hbk in Hsum. by destruct (summary_at k d).
  - intros x. pose proof (start_unconsumed cut k (max_id fresh) d) as E. simpl in E. rewrite E.
    intros Hx. by apply not_elem_of_nil in Hx.
  - pose proof (start_unconsumed cut k (max_id fresh) d) as E. simpl in E. by rewrite E.
Qed.

(** Saving an accumulation. *)
Lemma exact_save cut k g d :
  valid_key k -> exact cut d -> running cut k g d ->
  exact cut (with_partials d (<[k := Partial (a_n (g_acc g)) (g_ts g) (g_id g) (g_through g) (g_acc g)]>
                                (metric_agg_partial d))).
Proof.
  intros Hv [Hc Hi Hnm Hcov Hopen Hpart Hb] [H1 H2 H3 H4 H5 H6 H7].
  split; simpl; try done. intros k' p. rewrite lookup_insert. case_decide as E; [|apply Hpart].
  subst k'. intros [= <-]. simpl. do 7 (split; [done|]). exact H7.
Qed.

Lemma exact_unsave cut k d :
  exact cut d -> exact cut (with_partials d (delete k (metric_agg_partial d))).
Proof.
  intros [Hc Hi Hnm Hcov Hopen Hpart Hb]. split; simpl; try done.
  intros k' p. rewrite lookup_delete. case_decide; [done|apply Hpart].
Qed.

Lemma kgen_subseteq cut k g g' d r : g <= g' -> r ∈ kgen cut k g d -> r ∈ kgen cut k g' d.
Proof. rewrite !kgen_elem. intros ? (? & ? & ? & ?). repeat split; try done. lia. Qed.

(** Publishing an accumulation that has consumed its whole generation. *)
Lemma exact_publish cut k g avg d :
  valid_key k -> exact cut d -> running cut k g d -> metric_agg_partial d !! k = None ->
  List.filter (after_cursor (g_ts g) (g_id g)) (kgen cut k (g_through g) d) = [] ->
  _agg_finalize (g_acc g) = Some avg ->
  exact cut (publish k (g_through g) avg d).
Proof.
  intros Hv [Hc Hi Hnm Hcov Hopen Hpart Hb] [H1 H2 H3 H4 H5 H6 H7] Hnp Hdone Hfin.
  assert (Hall : List.filter (fun r => negb (after_cursor (g_ts g) (g_id g) r))
                   (kgen cut k (g_through g) d) = kgen cut k (g_through g) d).
  { rewrite (cursor_partition (g_ts g) (g_id g) (kgen cut k (g_through g) d)) at 2
      by apply kgen_sorted. by rewrite Hdone, app_nil_r. }
  rewrite Hall in H6, H7. unfold publish. cbv zeta.
  set (d1 := with_downsampled d _).
  assert (Hgen : match metric_agg_bucket d1 !! k with
                 | Some b => Z.max (published_gen b) (g_through g) | None => g_through g end
                 = g_through g).
  { simpl. destruct (metric_agg_bucket d !! k) as [b|] eqn:E; [|done].
    destruct (H4 b eq_refl). lia. }
  rewrite Hgen. split; simpl; try done.
  - intros k' g'. rewrite lookup_insert. case_decide as E.
    + subst k'. intros [= <-]. do 5 (split; [done|]). exists avg.
      rewrite (kgen_ext cut k (g_through g) d) by done.
      split; [|unfold average_of, _average_metrics; rewrite H7; by rewrite Hfin].
      unfold d1. change (summary_at k (with_buckets ?x ?m)) with (summary_at k x).
      rewrite summary_put. by rewrite decide_True.
    + intros Hk'. destruct (Hopen k' g' Hk') as (Hv' & Hg & Hl & Hmax & Hf & avg' & Hs & Ha).
      do 5 (split; [done|]). exists avg'. split; [|done].
      change (summary_at k' (with_buckets ?x ?m)) with (summary_at k' x). unfold d1.
      by rewrite summary_put, decide_False.
  - intros k' p Hk'. assert (k <> k') by congruence.
    destruct (Hpart k' p Hk') as (Hv' & Hg & Hl & Hmax & Hbk & Hnone & Hf & Ha).
    do 4 (split; [done|]). rewrite lookup_insert_ne by done.
    split; [done|]. split; [|by split]. intros Hn. specialize (Hnone Hn).
    change (summary_at k' (with_buckets ?x ?m)) with (summary_at k' x). unfold d1.
    by rewrite summary_put, decide_False.
  - intros k' b. rewrite lookup_insert. case_decide; [by subst|apply Hb].
Qed.

Lemma consumed_named cut k g d (p : mrow -> bool) :
  exact cut d -> forallb string_named (m_data <$> List.filter p (kgen cut k g d)) = true.
Proof.
  intros Hd. apply forallb_forall. intros e He%list_elem_of_In.
  apply list_elem_of_fmap in He as (r & -> & Hr%list_elem_of_In%List.filter_In).
  destruct Hr as [Hr%list_elem_of_In _]. apply kgen_elem in Hr as [Hr _].
  pose proof (ex_named _ _ Hd) as Hn. rewrite Forall_forall in Hn. by apply Hn.
Qed.

(** The next rows of a generation, folded and recorded. *)
Lemma running_advance cut k n g d g' d' :
  valid_key k -> exact cut d -> running cut k g d ->
  let all := kgen cut k (g_through g) d in
  let rows := take n (List.filter (after_cursor (g_ts g) (g_id g)) all) in
  fold_rows k.1.1 k.1.2 k.2 rows g d = (Ok g', d') ->
  exact cut d' /\ running cut k g' d' /\ g_through g' = g_through g /\
  metric_agg_partial d' = metric_agg_partial d /\ metrics d' = metrics d /\
  List.filter (after_cursor (g_ts g') (g_id g')) (kgen cut k (g_through g') d') =
    drop n (List.filter (after_cursor (g_ts g) (g_id g)) all) /\
  forall f, reload f (g_acc g') = g_acc g'.
Proof.
  intros Hv Hd Hrun all rows Hfold.
  pose proof (fold_rows_spec k.1.2 k.1.1 k.2 rows g d) as Hspec. rewrite Hfold in Hspec.
  destruct Hspec as (Hacc & Hthr & Hcur & m & -> & Hm).
  destruct (consume_step (g_ts g) (g_id g) n all (kgen_sorted _ _ _ _)
    (kgen_nodup _ _ _ _ (proj1 (ex_ids _ _ Hd))) (g_ts g') (g_id g') Hcur) as [Hpast Hnext].
  fold rows in Hpast.
  assert (Hrows : forall r, r ∈ rows -> r ∈ krows k d /\ cut < m_id r).
  { intros r Hr. unfold rows in Hr. apply elem_of_take in Hr as (i & Hi & _).
    apply list_elem_of_lookup_2 in Hi. apply list_elem_of_In, List.filter_In in Hi as [Hi _].
    apply list_elem_of_In, kgen_elem in Hi as (? & ? & ? & _). by rewrite krows_elem. }
  assert (Hex : exact cut (with_coverage d m)).
  { apply (exact_coverage cut k); [done|done|]. intros i l. rewrite Hm.
    case_decide as E; [|by left]. right. destruct E as [-> (r & -> & Hr)%list_elem_of_fmap].
    destruct (Hrows r Hr). exists r, true. repeat split; try done. by left. }
  assert (Hgen : forall gg, kgen cut k gg (with_coverage d m) = kgen cut k gg d) by done.
  assert (Hpast_acc : fold_entries (m_data <$> List.filter (fun r =>
      negb (after_cursor (g_ts g') (g_id g') r)) all) _agg_new = (Ok tt, g_acc g')).
  { pose proof (run_acc _ _ _ _ Hrun) as Hra. fold all in Hra.
    by rewrite Hpast, fmap_app, fold_entries_app, Hra. }
  split; [done|]. split; [|split; [done|split; [done|split; [done|split]]]].
  - destruct Hrun as [H1 H2 H3 H4 H5 H6 H7]. split; rewrite ?Hthr, ?Hgen; try done.
    fold all. rewrite Hpast. intros r [Hr|Hr]%elem_of_app.
    + unfold folded. simpl. rewrite Hm. case_decide; [done|]. by apply H6.
    + unfold folded. simpl. rewrite Hm, decide_True; [done|]. split; [done|].
      by apply list_elem_of_fmap_2.
  - by rewrite Hthr, Hgen.
  - intros f. apply reload_string_keys.
    pose proof (keeps_fold_entries _ (consumed_named cut k (g_through g) d
      (fun r => negb (after_cursor (g_ts g') (g_id g') r)) Hd) _agg_new string_keys_new) as Hk.
    fold all in Hk. by rewrite Hpast_acc in Hk.
Qed.

Lemma existsb_filter_nil {A} (p : A -> bool) l : existsb p l = false -> List.filter p l = [].
Proof.
  intros H. apply filter_none. intros x Hx. apply not_true_iff_false. intros Hp.
  apply not_true_iff_false in H. apply H, existsb_exists. by exists x.
Qed.

Lemma exact_go float_repr cut k n g d r d' :
  valid_key k -> exact cut d -> running cut k g d ->
  (let all := kgen cut k (g_through g) d in
   let rows := take n (List.filter (after_cursor (g_ts g) (g_id g)) all) in
   match fold_rows k.1.1 k.1.2 k.2 rows g d with
   | (Raise e, d) => (Raise e, d)
   | (Ok g, d) =>
       let n := Z.of_nat (length rows) in
       if existsb (after_cursor (g_ts g) (g_id g)) all then
         (Ok (n, false),
          with_partials d (<[k := Partial (a_n (g_acc g)) (g_ts g) (g_id g) (g_through g)
                                    (reload float_repr (g_acc g))]> (metric_agg_partial d)))
       else
         let d := with_partials d (delete k (metric_agg_partial d)) in
         match _agg_finalize (g_acc g) with
         | None => (Ok (n, false), d)
         | Some avg => (Ok (n, true), publish k (g_through g) avg d)
         end
   end) = (Ok r, d') -> exact cut d'.
Proof.
  intros Hv Hd Hrun. cbv zeta.
  set (all := kgen cut k (g_through g) d).
  set (rows := take n (List.filter (after_cursor (g_ts g) (g_id g)) all)).
  destruct (fold_rows _ _ _ rows g d) as [[g'|e] d1] eqn:Hfold; [|done].
  destruct (running_advance cut k n g d g' d1 Hv Hd Hrun Hfold)
    as (Hex & Hrun' & Hthr & Hp & Hmx & Hnext & Hrel).
  destruct (existsb _ all) eqn:Hany.
  - intros [= _ <-]. rewrite Hrel. by apply exact_save.
  - assert (Hdone : List.filter (after_cursor (g_ts g') (g_id g'))
              (kgen cut k (g_through g') d1) = []).
    { rewrite Hthr, (kgen_ext cut k _ d d1 Hmx). by apply existsb_filter_nil. }
    set (d2 := with_partials d1 _).
    assert (Hex2 : exact cut d2) by (by apply exact_unsave).
    assert (Hrun2 : running cut k g' d2) by (by destruct Hrun').
    destruct (_agg_finalize (g_acc g')) as [avg|] eqn:Hfin; intros [= _ <-]; [|done].
    apply exact_publish; try done. unfold d2. simpl. by rewrite lookup_delete_eq.
Qed.

Lemma exact_mark_pending cut k budget d :
  valid_key k -> exact cut d ->
  exact cut (snd (_mark_pending k.1.1 k.2 (secs_of k.1.2) k.1.2 cut budget d)).
Proof.
  intros Hv Hd. unfold _mark_pending. simpl. fold (krows k d).
  set (rows := take _ _).
  assert (Hrows : forall r, r ∈ rows -> r ∈ krows k d /\ cut < m_id r /\
            metric_agg_coverage d !! (m_id r, k.1.2) = None).
  { intros r Hr. unfold rows in Hr. apply elem_of_take in Hr as (i & Hi & _).
    apply list_elem_of_lookup_2 in Hi. apply list_elem_of_In, List.filter_In in Hi as [Hi Hc].
    apply andb_true_iff in Hc as [Hc%Z.ltb_lt Hn%bool_decide_eq_true].
    apply list_elem_of_In in Hi. done. }
  clearbody rows.
  assert (H : forall rows d0, fold_left (fun d r => set_coverage (m_id r) k.1.2 (Coverage k.1.1 k.2 false) d)
     rows d0 = with_coverage d0 (metric_agg_coverage (fold_left (fun d r =>
       set_coverage (m_id r) k.1.2 (Coverage k.1.1 k.2 false) d) rows d0)) /\
     forall i l, metric_agg_coverage (fold_left (fun d r =>
       set_coverage (m_id r) k.1.2 (Coverage k.1.1 k.2 false) d) rows d0) !! (i, l) =
       if decide (l = k.1.2 /\ i ∈ m_id <$> rows) then Some (Coverage k.1.1 k.2 false)
       else metric_agg_coverage d0 !! (i, l)).
  { clear. induction rows as [|r rows IH]; intros d0.
    - split; [by destruct d0|]. intros i l. simpl. rewrite decide_False; [done|].
      intros [_ H]. by apply not_elem_of_nil in H.
    - cbn [fold_left]. destruct (IH (set_coverage (m_id r) k.1.2 (Coverage k.1.1 k.2 false) d0)) as [E Hl].
      split; [by rewrite E|]. intros i l. rewrite Hl. unfold set_coverage. simpl.
      rewrite lookup_insert. repeat case_decide; set_solver. }
  destruct (H rows d) as [-> Hl]. apply (exact_coverage cut k); [done|done|].
  intros i l. rewrite Hl. case_decide as E; [|by left]. right.
  destruct E as [-> (r & -> & Hr)%list_elem_of_fmap]. destruct (Hrows r Hr) as (? & ? & ?).
  exists r, false. repeat split; try done. by right.
Qed.

Lemma exact_advance float_repr cut k budget d r d' :
  valid_key k -> exact cut d ->
  _advance_bucket float_repr k (secs_of k.1.2) cut budget d = (Ok r, d') -> exact cut d'.
Proof.
  intros Hv Hd. unfold _advance_bucket. destruct k as [[a l] b] eqn:Ek. rewrite <- Ek in *.
  destruct (metric_agg_partial d !! k) as [p|] eqn:Hp.
  - pose proof (running_partial cut k p d Hd Hp) as Hrun. subst k.
    by apply (exact_go float_repr cut (a, l, b) (Z.to_nat budget)
                (Generation (acc p) (through_raw_id p) (last_ts p) (last_raw_id p)) d r d').
  - destruct (start_generation k (secs_of k.1.2) cut d) as [| |g] eqn:Hst.
    + by intros [= _ <-].
    + pose proof (exact_mark_pending cut k budget d Hv Hd) as Hm. subst k. simpl in *.
      destruct (_mark_pending a b (secs_of l) l cut budget d) as [n d1]. by intros [= _ <-].
    + pose proof (running_start cut k d g Hd Hst) as Hrun. subst k.
      by apply (exact_go float_repr cut (a, l, b) (Z.to_nat budget) g d r d').
Qed.

(** ** A whole pass *)

Lemma exact_advance_all float_repr cut label skip keys budget count d r d' :
  Forall (fun k : string * Z => valid_key (k.1, label, k.2)) keys -> exact cut d ->
  advance_all float_repr (secs_of label) cut label skip keys budget count d = (Ok r, d') ->
  exact cut d'.
Proof.
  intros Hk. revert budget count d. induction Hk as [|k keys Hk Hks IH]; intros budget count d Hd;
    cbn [advance_all].
  - by intros [= _ <-].
  - destruct (budget <=? 0); [by intros [= _ <-]|].
    case_bool_decide; [by apply IH|].
    intros (r1 & d1 & H1 & H2)%bind_ok. apply (IH _ _ d1) in H2; [done|].
    by apply (exact_advance float_repr cut (k.1, label, k.2) budget d r1 d1).
Qed.

Lemma bucket_of_aligned label ts :
  is_Some (dict_get label _AGG_SPECS) -> bucket_of (secs_of label) ts mod secs_of label = 0.
Proof. intros H. pose proof (secs_pos _ H). unfold bucket_of. apply Z_mod_mult. Qed.

Lemma candidate_keys_aligned label rows :
  is_Some (dict_get label _AGG_SPECS) ->
  Forall (fun k : string * Z => valid_key (k.1, label, k.2)) (candidate_keys (secs_of label) rows).
Proof.
  intros H. unfold candidate_keys.
  assert (Hg : forall acc, Forall (fun k : string * Z => valid_key (k.1, label, k.2)) acc ->
    Forall (fun k : string * Z => valid_key (k.1, label, k.2))
      (fold_left (fun ks r => let k := (m_agent r, bucket_of (secs_of label) (m_ts r)) in
                              if bool_decide (k ∈ ks) then ks else ks ++ [k]) rows acc)).
  { induction rows as [|r rows IH]; intros acc Hacc; [done|]. simpl. apply IH.
    case_bool_decide; [done|]. apply Forall_app. split; [done|]. constructor; [|constructor].
    split; [done|]. by apply bucket_of_aligned. }
  by apply Hg.
Qed.

Lemma partial_keys_valid cut label budget d :
  exact cut d -> Forall (fun k : string * Z => valid_key (k.1, label, k.2)) (partial_keys label budget d).
Proof.
  intros Hd. unfold partial_keys. apply Forall_take. rewrite sort_by_perm.
  apply Forall_forall. intros k (k' & -> & Hk')%list_elem_of_fmap. simpl.
  apply list_elem_of_In, List.filter_In in Hk' as [Hin Hl%String.eqb_eq].
  apply list_elem_of_In, list_elem_of_fmap in Hin as ([k2 p] & -> & Hkp). simpl in *.
  apply elem_of_map_to_list in Hkp. destruct (ex_partial _ _ Hd k2 p Hkp) as [Hv _].
  destruct k2 as [[a l] b]. simpl in *. by subst.
Qed.

Lemma exact_progress cut m d : exact cut d -> exact cut (with_progress d m).
Proof. by intros [Hc Hi Hnm Hcov Hopen Hpart Hb]. Qed.

Lemma exact_advance_progress cut cut' label due cands d :
  exact cut d -> exact cut (advance_progress label cut' due cands d).
Proof.
  intros Hd. unfold advance_progress. generalize (remove_dups (m_agent <$> cands)). intros l.
  revert d Hd. induction l as [|a l IH]; intros d Hd; [done|]. simpl. apply IH.
  destruct (_ <=? cut'); [done|]. by apply exact_progress.
Qed.

Lemma require_resolution_ok secs label s :
  _require_resolution secs label = Ok s -> dict_get label _AGG_SPECS = Some s /\ s = secs_of label.
Proof.
  unfold _require_resolution, secs_of. destruct (dict_get label _AGG_SPECS) as [x|]; [|done].
  destruct (x =? secs); [|done]. by intros [= <-].
Qed.

(** Only a body that returns changes anything. *)
Lemma keeps_mtx {A} (I : mdb -> Prop) (body : M mdb A) :
  (forall d a d', I d -> body d = (Ok a, d') -> I d') -> keeps I (mtx body).
Proof.
  intros H d Hd. unfold transaction, rolled_back. destruct (_require_admission (madm d)); [|done].
  destruct (body d) as [[x|e] d'] eqn:E; [|done]. by apply (H d x d').
Qed.

Lemma keeps_downsample float_repr cut now secs label limit :
  keeps (exact cut) (downsample_metrics float_repr now secs label limit).
Proof.
  unfold downsample_metrics. apply keeps_lift_bind. intros s [Hl ->]%require_resolution_ok.
  apply keeps_mtx. intros dd rr dd' Hd (d0 & d1 & [= <- <-] & E)%bind_ok. rewrite (proj1 (ex_cut _ _ Hd)) in E.
  assert (Hsome : is_Some (dict_get label _AGG_SPECS)) by (by eexists).
  apply bind_ok in E as (r1 & d1 & H1 & E).
  apply exact_advance_all in H1; [|by apply (partial_keys_valid cut)|done].
  apply bind_ok in E as (d2 & d3 & [= <- <-] & E).
  apply bind_ok in E as (r2 & d2 & H2 & E).
  apply exact_advance_all in H2; [|by apply candidate_keys_aligned|done].
  apply bind_ok in E as (? & d3 & [= _ <-] & [= _ <-]). by apply exact_advance_progress.
Qed.
