(* ===== verification/Retention.v ===== *)
(** * Metric history: retention and whole runs

    Cleanup keeps the invariant of [History], takes only rows both summaries
    account for, and never lets a summary that cannot be recomputed change. *)
From S2P Require Import Prelude Sorting Py Effects PyOps DbCore MetricFold MetricsDb FoldFacts History.
Open Scope Z_scope.

(** ** Retention *)

Lemma filter_kept {A} (p q : A -> bool) l :
  (forall x, x ∈ l -> q x = true -> p x = true) ->
  List.filter q (List.filter p l) = List.filter q l.
Proof.
  induction l as [|x l IH]; intros H; [done|]. simpl.
  assert (IH' : List.filter q (List.filter p l) = List.filter q l) by (apply IH; set_solver).
  destruct (p x) eqn:Hp; simpl; rewrite IH'; [done|]. destruct (q x) eqn:Hq; [|done].
  rewrite (H x ltac:(apply list_elem_of_here) Hq) in Hp. done.
Qed.

Lemma seal_lookup ks d k :
  metric_agg_bucket (fold_left seal ks d) !! k =
  if decide (k ∈ ks) then (fun b => Bucket false (published_gen b)) <$> metric_agg_bucket d !! k
  else metric_agg_bucket d !! k.
Proof.
  revert d. induction ks as [|k0 ks IH]; intros d.
  - cbn. by rewrite decide_False by apply not_elem_of_nil.
  - cbn [fold_left]. rewrite IH.
    assert (Hs : metric_agg_bucket (seal d k0) !! k =
      if decide (k = k0) then (fun b => Bucket false (published_gen b)) <$> metric_agg_bucket d !! k
      else metric_agg_bucket d !! k).
    { unfold seal. destruct (metric_agg_bucket d !! k0) as [[[] g]|] eqn:E; simpl;
        rewrite ?lookup_insert; repeat case_decide; subst; try done; by rewrite E. }
    rewrite Hs. destruct (metric_agg_bucket d !! k) as [[]|]; repeat case_decide; set_solver.
Qed.

Lemma seal_frame ks d :
  fold_left seal ks d = with_buckets d (metric_agg_bucket (fold_left seal ks d)).
Proof.
  revert d. induction ks as [|k ks IH]; intros d; [by destruct d|]. cbn [fold_left]. rewrite IH at 1.
  assert (E : forall m, with_buckets (seal d k) m = with_buckets d m).
  { intros m. unfold seal. by destruct (metric_agg_bucket d !! k) as [[[] g]|]. }
  by rewrite E.
Qed.

(** The rows a cleanup may take. *)
Definition reclaimable (cut : Z) (ids : list Z) (d : mdb) : Prop :=
  forall i, i ∈ ids -> exists r, r ∈ metrics d /\ m_id r = i /\ cut < i /\
    forall label, label ∈ _AGG_RESOLUTIONS -> _covered label d r = true.

Lemma covered_spec label d r :
  _covered label d r = true <->
  exists c b, metric_agg_coverage d !! (m_id r, label) = Some c /\ cov_folded c = true /\
    cov_agent c = m_agent r /\
    metric_agg_bucket d !! (cov_agent c, label, cov_bucket c) = Some b /\ m_id r <= published_gen b /\
    is_Some (summary_at (cov_agent c, label, cov_bucket c) d) /\
    metric_agg_partial d !! (cov_agent c, label, cov_bucket c) = None.
Proof.
  unfold _covered. destruct (metric_agg_coverage d !! (m_id r, label)) as [c|].
  2:{ split; [done|]. by intros (c & b & ? & _). }
  rewrite !andb_true_iff, String.eqb_eq. split.
  - intros [[[[Hf Ha] Hg] Hs] Hp]. destruct (metric_agg_bucket d !! _) as [b|] eqn:Hb; [|done].
    exists c, b. apply Z.leb_le in Hg. destruct (summary_at _ d) eqn:Hs'; [|done].
    destruct (metric_agg_partial d !! _) eqn:Hp'; [done|]. by split_and!.
  - intros (c' & b & [= <-] & Hf & Ha & Hb & Hg & [x Hx] & Hp).
    rewrite Hb, Hx, Hp. apply Z.leb_le in Hg. by split_and!.
Qed.

Lemma resolution_served label : is_Some (dict_get label _AGG_SPECS) -> label ∈ _AGG_RESOLUTIONS.
Proof.
  intros [s H]. cbn -[String.eqb] in H.
  apply list_elem_of_In. cbn -[String.eqb].
  destruct (String.eqb_spec label "1m"); [auto|].
  destruct (String.eqb_spec label "5m"); [auto|done].
Qed.

(** A reclaimable row of a bucket is one its coverage places there. *)
Lemma reclaimable_in_key cut ids d k r :
  exact cut d -> reclaimable cut ids d -> valid_key k -> r ∈ krows k d -> m_id r ∈ ids ->
  exists c, metric_agg_coverage d !! (m_id r, k.1.2) = Some c /\
    (cov_agent c, k.1.2, cov_bucket c) = k /\ metric_agg_partial d !! k = None.
Proof.
  intros Hd Hrec Hv [Hr Hk]%krows_elem Hin. destruct (Hrec _ Hin) as (r0 & Hr0 & Hid & _ & Hcov).
  assert (r0 = r) as -> by (apply (ids_inj d); try done; apply (ex_ids _ _ Hd)).
  destruct Hv as [Hs Hal]. specialize (Hcov k.1.2 (resolution_served _ Hs)).
  apply covered_spec in Hcov as (c & b & Hc & _ & _ & _ & _ & _ & Hp).
  destruct (ex_cov _ _ Hd _ _ _ Hc) as (Hvc & r1 & Hr1 & Hid1 & _ & Hk1).
  assert (r1 = r) as -> by (apply (ids_inj d); try done; apply (ex_ids _ _ Hd)).
  assert (E : (cov_agent c, k.1.2, cov_bucket c) = k).
  { by apply (in_key_unique _ _ r). }
  exists c. rewrite E in Hp. done.
Qed.

Lemma seals_of_elem ids d i l c :
  metric_agg_coverage d !! (i, l) = Some c -> i ∈ ids ->
  (cov_agent c, l, cov_bucket c) ∈ seals_of ids d.
Proof.
  intros Hc Hi. unfold seals_of. apply list_elem_of_fmap. exists ((i, l), c). split; [done|].
  apply list_elem_of_In, List.filter_In. split; [|by apply bool_decide_eq_true].
  by apply list_elem_of_In, elem_of_map_to_list.
Qed.

Lemma delete_chunk_tables ids d :
  let d' := delete_chunk ids d in
  metrics d' = List.filter (fun r => bool_decide (m_id r ∉ ids)) (metrics d) /\
  metrics_seq d' = metrics_seq d /\ metrics_downsampled d' = metrics_downsampled d /\
  metric_agg_partial d' = metric_agg_partial d /\ cutover_value d' = cutover_value d /\
  metric_agg_coverage d' = filter (fun kc => kc.1.1 ∉ ids) (metric_agg_coverage d) /\
  (forall k, metric_agg_bucket d' !! k =
     if decide (k ∈ seals_of ids d)
     then (fun b => Bucket false (published_gen b)) <$> metric_agg_bucket d !! k
     else metric_agg_bucket d !! k).
Proof.
  cbn zeta. unfold delete_chunk. rewrite seal_frame. simpl. do 6 (split; [done|]).
  intros k. apply seal_lookup.
Qed.

Lemma exact_delete_chunk cut ids d :
  reclaimable cut ids d -> exact cut d -> exact cut (delete_chunk ids d).
Proof.
  intros Hrec Hd. pose proof Hd as [[Hc1 Hc2] [Hi1 Hi2] Hnm Hcov Hopen Hpart Hb].
  destruct (delete_chunk_tables ids d) as (Tm & Ts & Td & Tp & Tc & Tcov & Tb).
  set (d' := delete_chunk ids d) in *.
  assert (Hsum : forall k, summary_at k d' = summary_at k d) by (intros k; unfold summary_at; by rewrite Td).
  assert (Hkeep : forall k, (forall r, r ∈ krows k d -> m_id r ∉ ids) ->
            (forall g, kgen cut k g d' = kgen cut k g d) /\ (forall r, r ∈ krows k d' -> r ∈ krows k d) /\
            forall r, r ∈ krows k d -> folded k d r -> folded k d' r).
  { intros k Hno.
    assert (E : krows k d' = krows k d).
    { unfold krows, bucket_rows. rewrite Tm. apply filter_kept. intros r Hr Hk.
      apply bool_decide_eq_true, Hno. by apply krows_elem. }
    split; [|split].
    - intros g. unfold kgen, generation_rows. fold (krows k d') (krows k d). by rewrite E.
    - intros r. by rewrite E.
    - intros r Hr Hf. unfold folded. rewrite Tcov. apply map_lookup_filter_Some. split; [done|].
      simpl. by apply Hno. }
  split.
  - split; [|by rewrite Ts]. unfold _agg_cutover. by rewrite Tc.
  - rewrite Tm, Ts. split; [by apply filter_sublist_ids|]. apply Forall_forall.
    intros r Hr%list_elem_of_In%List.filter_In. rewrite Forall_forall in Hi2. apply Hi2.
    by apply list_elem_of_In, Hr.
  - rewrite Tm. apply Forall_forall. intros r Hr%list_elem_of_In%List.filter_In.
    rewrite Forall_forall in Hnm. apply Hnm. by apply list_elem_of_In, Hr.
  - intros i l c. rewrite Tcov. intros [Hc Hni]%map_lookup_filter_Some. simpl in Hni.
    destruct (Hcov i l c Hc) as (Hv & r & Hr & Hid & Hlt & Hk). split; [done|]. exists r.
    rewrite Tm. split; [|done]. apply list_elem_of_In, List.filter_In.
    split; [by apply list_elem_of_In|]. apply bool_decide_eq_true. by rewrite Hid.
  - intros k g. rewrite Tb. case_decide as E.
    { intros Hbk. by destruct (metric_agg_bucket d !! k). }
    intros Hbk. destruct (Hopen k g Hbk) as (Hv & Hg & Hl & Hmax & Hf & Hrest).
    destruct (Hkeep k) as (Kg & Kr & Kf).
    { intros r Hr Hin. destruct (reclaimable_in_key cut ids d k r Hd Hrec Hv Hr Hin) as (c & Hc & Ek & _).
      apply E. rewrite <- Ek. by apply (seals_of_elem ids d (m_id r)). }
    rewrite !Kg, Ts, Hsum. do 2 (split; [done|]). split; [by auto|]. split; [done|].
    split; [|done]. intros r Hr. apply Kf; [|by apply Hf]. apply kgen_elem in Hr.
    by apply krows_elem; destruct Hr as (? & ? & _).
  - intros k p. rewrite Tp. intros Hp.
    destruct (Hpart k p Hp) as (Hv & Hg & Hl & Hmax & Hbk & Hnone & Hf & Ha).
    destruct (Hkeep k) as (Kg & Kr & Kf).
    { intros r Hr Hin.
      destruct (reclaimable_in_key cut ids d k r Hd Hrec Hv Hr Hin) as (c & _ & _ & Hnp). congruence. }
    unfold consumed in *. rewrite !Kg, Ts, Hsum. do 2 (split; [done|]). split; [by auto|].
    split; [done|]. split; [|split; [|split; [|done]]].
    + intros b Hb'. rewrite Tb in Hb'. case_decide as E; [|by apply Hbk]. exfalso.
      unfold seals_of in E. apply list_elem_of_fmap in E as ([[i l] c] & -> & Hin).
      apply list_elem_of_In, List.filter_In in Hin as [Hin Hids%bool_decide_eq_true].
      apply list_elem_of_In, elem_of_map_to_list in Hin. simpl in *.
      destruct (Hcov i l c Hin) as (_ & r & Hr & <- & _ & Hk).
      destruct (reclaimable_in_key cut ids d _ r Hd Hrec Hv) as (_ & _ & _ & Hnp); [by apply krows_elem|done|].
      congruence.
    + rewrite Tb. intros Hn. apply Hnone. case_decide; [|done]. by destruct (metric_agg_bucket d !! k).
    + intros r Hr. apply Kf; [|by apply Hf]. apply list_elem_of_In, List.filter_In in Hr as [Hr _].
      apply list_elem_of_In, kgen_elem in Hr as (? & ? & _). by apply krows_elem.
  - intros k b. rewrite Tb. case_decide; [|by apply Hb].
    destruct (metric_agg_bucket d !! k) eqn:E; [|done]. intros _. by eapply Hb.
Qed.

Lemma folded_into_spec k d r : folded k d r -> folded_into k d = true.
Proof.
  intros Hf. unfold folded_into. apply existsb_exists.
  exists ((m_id r, k.1.2), Coverage k.1.1 k.2 true). split.
  - by apply list_elem_of_In, elem_of_map_to_list.
  - simpl. apply bool_decide_eq_true. by destruct k as [[]].
Qed.

(** Pruning spares every summary an open bucket or a fold in flight depends on. *)
Lemma exact_prune_summaries cut cutoff limit d :
  exact cut d -> exact cut (prune_summaries cutoff limit d).
Proof.
  intros Hd. pose proof Hd as [Hc Hi Hnm Hcov Hopen Hpart Hb]. unfold prune_summaries.
  set (gone := fst <$> _).
  assert (Hgone : forall k, k ∈ gone -> folded_into k d = false /\ has_partial k d = false).
  { intros k (kd & -> & Hkd)%list_elem_of_fmap. apply elem_of_take in Hkd as (i & Hx & _).
    apply list_elem_of_lookup_2, list_elem_of_In, List.filter_In in Hx as [_ Hx].
    apply andb_true_iff in Hx as [[_ H1%negb_true_iff]%andb_true_iff H2%negb_true_iff]. done. }
  assert (Hkeep : forall k, k ∉ gone -> summary_at k (with_downsampled d
     (List.filter (fun kd => bool_decide (kd.1 ∉ gone)) (metrics_downsampled d))) = summary_at k d).
  { intros k Hk. apply summary_filter. intros x ->. by apply bool_decide_eq_true. }
  split; simpl; try done.
  - intros k g Hk. destruct (Hopen k g Hk) as (Hv & Hg & Hl & Hmax & Hf & avg & Hs & Ha).
    do 5 (split; [done|]). exists avg. split; [|done]. rewrite Hkeep; [done|].
    intros [Hno _]%Hgone. destruct Hmax as (r & Hr & _). by rewrite (folded_into_spec k d r (Hf r Hr)) in Hno.
  - intros k p Hk. destruct (Hpart k p Hk) as (Hv & Hg & Hl & Hmax & Hbk & Hnone & Hf & Ha).
    do 5 (split; [done|]). split; [|done]. intros Hn. rewrite Hkeep; [by apply Hnone|].
    intros [_ Hno]%Hgone. unfold has_partial in Hno. by rewrite Hk in Hno.
Qed.

Lemma exact_prune_buckets cut cutoff limit d :
  exact cut d -> exact cut (prune_buckets cutoff limit d).
Proof.
  intros Hd. pose proof Hd as [Hc Hi Hnm Hcov Hopen Hpart Hb]. unfold prune_buckets.
  set (gone := take _ _).
  assert (Hgone : forall k, k ∈ gone -> has_partial k d = false).
  { intros k Hk. apply elem_of_take in Hk as (i & Hx & _).
    apply list_elem_of_lookup_2, list_elem_of_In, List.filter_In in Hx as [_ Hx].
    apply andb_true_iff in Hx as [_ H2%negb_true_iff]. done. }
  split; simpl; try done.
  - intros k g [Hk _]%map_lookup_filter_Some. by apply Hopen.
  - intros k p Hk. destruct (Hpart k p Hk) as (Hv & Hg & Hl & Hmax & Hbk & Hnone & Hf & Ha).
    do 4 (split; [done|]). split; [|split; [|done]].
    + intros b [Hb' _]%map_lookup_filter_Some. by apply Hbk.
    + intros [Hn|Hn]%map_lookup_filter_None; [by apply Hnone|].
      destruct (metric_agg_bucket d !! k) as [b|] eqn:E; [|by apply Hnone].
      exfalso. apply (Hn b eq_refl). simpl. intros Hno%Hgone. unfold has_partial in Hno. by rewrite Hk in Hno.
  - intros k b [Hk _]%map_lookup_filter_Some. by eapply Hb.
Qed.

Lemma in_take {A} n (l : list A) x : x ∈ take n l -> x ∈ l.
Proof. intros H. rewrite <- (take_drop n l). apply elem_of_app. by left. Qed.

Lemma in_drop {A} n (l : list A) x : x ∈ drop n l -> x ∈ l.
Proof. intros H. rewrite <- (take_drop n l). apply elem_of_app. by right. Qed.

(** Deleting some rows leaves the others reclaimable. *)
Lemma reclaimable_chunk cut ids ids' d :
  (forall i, i ∈ ids' -> i ∉ ids) -> reclaimable cut ids' d ->
  reclaimable cut ids' (delete_chunk ids d).
Proof.
  intros Hdis Hrec i Hi. destruct (Hrec i Hi) as (r & Hr & Hid & Hlt & Hcov).
  destruct (delete_chunk_tables ids d) as (Tm & Ts & Td & Tp & Tc & Tcov & Tb).
  assert (Hni : m_id r ∉ ids) by (rewrite Hid; by apply Hdis).
  exists r. split; [|split; [done|split; [done|]]].
  - rewrite Tm. apply list_elem_of_In, List.filter_In. split; [by apply list_elem_of_In|].
    by apply bool_decide_eq_true.
  - intros label Hl. specialize (Hcov label Hl). rewrite covered_spec in *.
    destruct Hcov as (c & b & Hc & Hf & Ha & Hb & Hg & Hs & Hp).
    set (k := (cov_agent c, label, cov_bucket c)) in *.
    exists c. exists (if decide (k ∈ seals_of ids d) then Bucket false (published_gen b) else b).
    rewrite Tcov, Tp, Tb. fold k. rewrite Hb. split_and!; try done.
    + by apply map_lookup_filter_Some.
    + by case_decide.
    + by case_decide.
    + unfold summary_at in *. by rewrite Td.
Qed.

Lemma chunks_elem {A} fuel n (l : list A) x c : c ∈ chunks fuel n l -> x ∈ c -> x ∈ l.
Proof.
  revert l. induction fuel as [|fuel IH]; intros l; simpl; [by intros ?%not_elem_of_nil|].
  destruct l as [|y l]; [by intros ?%not_elem_of_nil|]. intros [->|Hc]%elem_of_cons Hx.
  - by eapply in_take.
  - eapply in_drop. by apply (IH _ Hc Hx).
Qed.

Lemma exact_delete_chunks cut fuel n ids d :
  NoDup ids -> reclaimable cut ids d -> exact cut d ->
  exact cut (fold_left (fun d ids => delete_chunk ids d) (chunks fuel n ids) d).
Proof.
  revert ids d. induction fuel as [|fuel IH]; intros ids d Hnd Hrec Hd; [done|].
  destruct ids as [|i ids]; [done|]. cbn [chunks fold_left].
  set (l := i :: ids) in *.
  assert (Hsplit : NoDup (take n l ++ drop n l)) by (by rewrite take_drop).
  apply NoDup_app in Hsplit as (_ & Hdis & Hnd2). apply IH; [done| |].
  - apply reclaimable_chunk; [by intros j Hj Hj'; apply (Hdis j)|].
    intros j Hj. apply Hrec. by eapply in_drop.
  - apply exact_delete_chunk; [|done]. intros j Hj. apply Hrec. by eapply in_take.
Qed.

Lemma deletable_spec cutoff cut limit d i :
  i ∈ deletable cutoff cut limit d ->
  exists r, r ∈ metrics d /\ m_id r = i /\ (m_ts r < cutoff)%Q /\ cut < i /\
    forall label, label ∈ _AGG_RESOLUTIONS -> _covered label d r = true.
Proof.
  unfold deletable. intros (r & -> & Hr)%list_elem_of_fmap.
  apply elem_of_take in Hr as (j & Hr & _).
  apply list_elem_of_lookup_2, list_elem_of_In, List.filter_In in Hr as [Hr Hc].
  apply andb_true_iff in Hc as [[Ho Hc]%andb_true_iff Hcov]. exists r.
  split; [by apply list_elem_of_In|]. split; [done|]. split; [by apply q_ltb_true|].
  split; [by apply Z.ltb_lt|]. intros label Hl. rewrite forallb_forall in Hcov.
  by apply Hcov, list_elem_of_In.
Qed.

Lemma deletable_nodup cutoff cut limit d :
  NoDup (m_id <$> metrics d) -> NoDup (deletable cutoff cut limit d).
Proof.
  intros H. unfold deletable. rewrite fmap_take. set (n := Z.to_nat limit).
  set (p := fun r => _ && _ && _). pose proof (filter_sublist_ids p _ H) as Hf.
  rewrite <- (take_drop n (m_id <$> _)) in Hf. by apply NoDup_app in Hf as (? & _ & _).
Qed.

Lemma keeps_cleanup cut now hours limit :
  keeps (exact cut) (cleanup_old_metrics now hours limit).
Proof.
  unfold cleanup_old_metrics. apply keeps_mtx.
  intros d r d' Hd (d0 & d1 & [= <- <-] & E)%bind_ok. rewrite (proj1 (ex_cut _ _ Hd)) in E.
  apply bind_ok in E as (? & d1 & [= _ <-] & E). apply bind_ok in E as (? & d2 & [= _ <-] & E).
  apply bind_ok in E as (? & d3 & [= _ <-] & [= _ <-]).
  apply exact_prune_buckets, exact_prune_summaries, exact_delete_chunks; [| |done].
  - apply deletable_nodup, (ex_ids _ _ Hd).
  - intros i Hi. apply deletable_spec in Hi as (row & ? & ? & _ & ? & ?). by exists row.
Qed.

(** ** Any run of the service *)

Inductive metric_op :=
| MStore (agent_id : string) (ts : Q) (data : dict)
| MDownsample (now : Q) (secs : Z) (label : string) (limit : Z)
| MCleanup (now : Q) (hours limit : Z).

Section Runs.
Context (float_repr : pyfloat -> string).

Definition perform_metric (o : metric_op) : M mdb Z :=
  match o with
  | MStore a ts data => store_metric a ts data
  | MDownsample now secs label limit => downsample_metrics float_repr now secs label limit
  | MCleanup now hours limit => cleanup_old_metrics now hours limit
  end.

Definition metric_run (ops : list metric_op) (d : mdb) : mdb :=
  fold_left (fun d o => snd (perform_metric o d)) ops d.

Definition well_named (o : metric_op) : Prop :=
  match o with MStore _ _ data => string_named data = true | _ => True end.

Lemma keeps_perform_metric cut o : well_named o -> keeps (exact cut) (perform_metric o).
Proof.
  intros Hn. destruct o; simpl; [|apply keeps_downsample|apply keeps_cleanup].
  apply keeps_mtx. intros d r d' Hd (d0 & d1 & [= <- <-] & E)%bind_ok.
  apply bind_ok in E as (? & d1 & [= _ <-] & [= _ <-]). by apply exact_store.
Qed.

Lemma metric_run_exact cut ops d :
  Forall well_named ops -> exact cut d -> exact cut (metric_run ops d).
Proof.
  intros Hf. revert d. induction Hf as [|o ops Ho Hf IH]; intros d Hd; [done|].
  apply IH. by apply keeps_perform_metric.
Qed.

End Runs.

(** ** What a cleanup may delete *)

Lemma delete_chunks_tables fuel n ids d :
  let d' := fold_left (fun d ids => delete_chunk ids d) (chunks fuel n ids) d in
  metrics d' = List.filter (fun r => bool_decide (Forall (fun c => m_id r ∉ c) (chunks fuel n ids)))
                 (metrics d) /\
  metrics_downsampled d' = metrics_downsampled d /\
  metric_agg_partial d' = metric_agg_partial d /\
  (forall k, metric_agg_bucket d' !! k = metric_agg_bucket d !! k \/
     metric_agg_bucket d' !! k = (fun b => Bucket false (published_gen b)) <$> metric_agg_bucket d !! k).
Proof.
  cbn zeta. generalize (chunks fuel n ids). intros cs. revert d.
  induction cs as [|c cs IH]; intros d.
  - cbn. split; [|by repeat split; auto]. by rewrite filter_all.
  - cbn [fold_left]. destruct (IH (delete_chunk c d)) as (H1 & H2 & H3 & H4).
    destruct (delete_chunk_tables c d) as (Tm & Ts & Td & Tp & Tc & Tcov & Tb).
    rewrite H1, H2, H3, Tm, Td, Tp. split; [|split; [done|split; [done|]]].
    + rewrite filter_and. apply List.filter_ext. intros r. apply eq_true_iff_eq.
      rewrite andb_true_iff, !bool_decide_eq_true, Forall_cons. done.
    + intros k. specialize (Tb k). destruct (H4 k) as [-> | ->]; rewrite Tb; case_decide; auto.
      right. by destruct (metric_agg_bucket d !! k).
Qed.

Lemma cleanup_runs cut now hours limit d r d' :
  _agg_cutover d = Some cut -> cleanup_old_metrics now hours limit d = (Ok r, d') ->
  let doomed := deletable (now - inject_Z (hours * 3600))%Q cut (Z.max 1 limit) d in
  r = Z.of_nat (length doomed) /\
  d' = prune_buckets (now - inject_Z (7 * 86400))%Q (Z.max 1 limit)
         (prune_summaries (now - inject_Z (7 * 86400))%Q (Z.max 1 limit)
            (fold_left (fun d ids => delete_chunk ids d) (chunks (length doomed) 400 doomed) d)).
Proof.
  intros Hc. unfold cleanup_old_metrics. rewrite (transaction_ok madm).
  intros [_ (d0 & d1 & [= <- <-] & E)%bind_ok]. rewrite Hc in E.
  apply bind_ok in E as (? & d1 & [= _ <-] & E). apply bind_ok in E as (? & d2 & [= _ <-] & E).
  by apply bind_ok in E as (? & d3 & [= _ <-] & [= <- <-]).
Qed.

(** C3: a cleanup takes a raw row only if it is old, newer than the upgrade mark and
    accounted for at both resolutions: it lies in a bucket whose published
    generation covers it and whose summary is stored; and if that bucket was still
    open, the summary is the average of a set of rows the deleted one belongs to. *)
Theorem cleanup_keeps_history cut now hours limit d n d' r label :
  exact cut d -> cleanup_old_metrics now hours limit d = (Ok n, d') ->
  r ∈ metrics d -> r ∉ metrics d' -> label ∈ _AGG_RESOLUTIONS ->
  (m_ts r < now - inject_Z (hours * 3600))%Q /\ cut < m_id r /\
  exists k b avg, k.1.1 = m_agent r /\ k.1.2 = label /\ in_key k r = true /\
    metric_agg_bucket d !! k = Some b /\ m_id r <= published_gen b /\
    summary_at k d = Some avg /\
    (b_open b = true -> r ∈ kgen cut k (published_gen b) d /\
       average_of (kgen cut k (published_gen b) d) = Ok (Some avg)).
Proof.
  intros Hd Hrun Hr Hr' Hl.
  destruct (cleanup_runs cut _ _ _ _ _ _ (proj1 (ex_cut _ _ Hd)) Hrun) as [_ ->].
  unfold prune_buckets, prune_summaries in Hr'. simpl in Hr'.
  set (doomed := deletable _ _ _ _) in Hr'.
  destruct (delete_chunks_tables (length doomed) 400 doomed d) as (Tm & _).
  rewrite Tm in Hr'.
  assert (Hin : m_id r ∈ doomed).
  { destruct (decide (m_id r ∈ doomed)) as [|Hni]; [done|]. exfalso. apply Hr'.
    apply list_elem_of_In, List.filter_In. split; [by apply list_elem_of_In|].
    apply bool_decide_eq_true, Forall_forall. intros c Hc Hrc. apply Hni. by eapply chunks_elem. }
  apply deletable_spec in Hin as (r0 & Hr0 & Hid & Hold & Hcut & Hcov).
  assert (r0 = r) as -> by (apply (ids_inj d); try done; apply (ex_ids _ _ Hd)).
  split; [done|]. split; [done|]. specialize (Hcov label Hl).
  apply covered_spec in Hcov as (c & b & Hc & Hf & Ha & Hb & Hg & [avg Hs] & Hp).
  destruct (ex_cov _ _ Hd _ _ _ Hc) as (Hv & r1 & Hr1 & Hid1 & _ & Hk).
  assert (r1 = r) as -> by (apply (ids_inj d); try done; apply (ex_ids _ _ Hd)).
  set (k := (cov_agent c, label, cov_bucket c)) in *.
  exists k, b, avg. do 6 (split; [done|]). intros Ho.
  destruct b as [[] g]; [|done]. destruct (ex_open _ _ Hd k g Hb) as (_ & _ & _ & _ & _ & avg' & Hs' & Hav).
  split; [by apply kgen_elem|]. rewrite Hs in Hs'. injection Hs' as <-. exact Hav.
Qed.

(** One cleanup deletes a bounded number of rows. *)
Theorem cleanup_bounded cut now hours limit d n d' :
  _agg_cutover d = Some cut -> cleanup_old_metrics now hours limit d = (Ok n, d') ->
  0 <= n <= Z.max 1 limit.
Proof.
  intros Hc Hrun. destruct (cleanup_runs cut _ _ _ _ _ _ Hc Hrun) as [-> _].
  unfold deletable. rewrite length_fmap, length_take. lia.
Qed.

(** ** A sealed bucket is never rewritten *)

Definition sealed_as (cut : Z) (k : key) (g : Z) (s : option dict) (d : mdb) : Prop :=
  exact cut d /\ metric_agg_bucket d !! k = Some (Bucket false g) /\ summary_at k d = s.

Lemma fold_rows_frame label a b rows g d :
  let d' := snd (fold_rows a label b rows g d) in
  metric_agg_bucket d' = metric_agg_bucket d /\ metrics_downsampled d' = metrics_downsampled d.
Proof.
  revert g d. induction rows as [|r rows IH]; intros g d; [done|]. cbn [fold_rows].
  destruct (_agg_add (m_data r) (g_acc g)) as [[[]|e] a1]; [|done].
  by apply (IH _ (set_coverage (m_id r) label (Coverage a b true) d)).
Qed.

Lemma mark_pending_frame a b secs label cut budget d :
  let d' := snd (_mark_pending a b secs label cut budget d) in
  metric_agg_bucket d' = metric_agg_bucket d /\ metrics_downsampled d' = metrics_downsampled d.
Proof.
  cbn zeta. unfold _mark_pending. simpl. generalize (take (Z.to_nat budget) (List.filter
    (fun r => (cut <? m_id r) && bool_decide (metric_agg_coverage d !! (m_id r, label) = None))
    (bucket_rows a b secs d))). intros rows.
  assert (H : forall d0, metric_agg_bucket (fold_left (fun d r => set_coverage (m_id r) label
      (Coverage a b false) d) rows d0) = metric_agg_bucket d0 /\
    metrics_downsampled (fold_left (fun d r => set_coverage (m_id r) label
      (Coverage a b false) d) rows d0) = metrics_downsampled d0).
  { induction rows as [|r rows IH]; intros d0; [done|]. cbn [fold_left].
    by destruct (IH (set_coverage (m_id r) label (Coverage a b false) d0)) as [-> ->]. }
  apply H.
Qed.

Lemma sealed_advance float_repr cut k g s k' budget d r d' :
  valid_key k' -> sealed_as cut k g s d ->
  _advance_bucket float_repr k' (secs_of k'.1.2) cut budget d = (Ok r, d') ->
  sealed_as cut k g s d'.
Proof.
  intros Hv (Hd & Hb & Hs) Hrun.
  split; [by eapply exact_advance|]. revert Hrun. unfold _advance_bucket.
  destruct k' as [[a l] b] eqn:Ek. rewrite <- Ek in *.
  assert (Hgo : k' <> k -> forall n all rows g0,
    match fold_rows a l b rows g0 d with
    | (Raise e, d) => (Raise e, d)
    | (Ok g, d) =>
        if existsb (after_cursor (g_ts g) (g_id g)) all then
          (Ok (n, false), with_partials d (<[k' := Partial (a_n (g_acc g)) (g_ts g) (g_id g)
             (g_through g) (reload float_repr (g_acc g))]> (metric_agg_partial d)))
        else
          let d := with_partials d (delete k' (metric_agg_partial d)) in
          match _agg_finalize (g_acc g) with
          | None => (Ok (n, false), d)
          | Some avg => (Ok (n, true), publish k' (g_through g) avg d)
          end
    end = (Ok r, d') ->
    metric_agg_bucket d' !! k = Some (Bucket false g) /\ summary_at k d' = s).
  { intros Hne n all rows g0. destruct (fold_rows_frame l a b rows g0 d) as [Fb Fd].
    destruct (fold_rows a l b rows g0 d) as [[g1|e] d1]; [|done]. simpl in Fb, Fd.
    assert (Hs1 : summary_at k d1 = s) by (unfold summary_at in *; by rewrite Fd).
    destruct (existsb _ all); [intros [= _ <-]; simpl; by rewrite Fb|].
    destruct (_agg_finalize (g_acc g1)) as [avg|]; intros [= _ <-]; simpl; [|by rewrite Fb].
    rewrite lookup_insert_ne by done. rewrite Fb. split; [done|].
    unfold publish. change (summary_at k (with_buckets ?x ?m)) with (summary_at k x).
    by rewrite summary_put, decide_False. }
  destruct (decide (k' = k)) as [E|Hne].
  - rewrite E in *. destruct (metric_agg_partial d !! k) as [p|] eqn:Hp.
    { destruct (ex_partial _ _ Hd k p Hp) as (_ & _ & _ & _ & Hbk & _).
      by destruct (Hbk _ Hb). }
    destruct (start_generation k (secs_of k.1.2) cut d) as [| |g0] eqn:Hst.
    + by intros [= _ <-].
    + destruct (mark_pending_frame a b (secs_of k.1.2) l cut budget d) as [Fb Fd].
      destruct (_mark_pending _ _ _ _ _ _ _) as [n d1]. intros [= _ <-]. simpl in Fb, Fd.
      rewrite Fb. split; [done|]. unfold summary_at in *. by rewrite Fd.
    + pose proof (running_start cut k d g0 Hd Hst) as Hr.
      by destruct (run_bucket _ _ _ _ Hr _ Hb).
  - destruct (metric_agg_partial d !! k') as [p|]; [by apply Hgo|].
    destruct (start_generation k' (secs_of k'.1.2) cut d) as [| |g0].
    + by intros [= _ <-].
    + destruct (mark_pending_frame a b (secs_of k'.1.2) l cut budget d) as [Fb Fd].
      destruct (_mark_pending _ _ _ _ _ _ _) as [n d1]. intros [= _ <-]. simpl in Fb, Fd.
      rewrite Fb. split; [done|]. unfold summary_at in *. by rewrite Fd.
    + by apply Hgo.
Qed.

Lemma sealed_advance_all float_repr cut k g s label skip keys budget count d r d' :
  Forall (fun k : string * Z => valid_key (k.1, label, k.2)) keys -> sealed_as cut k g s d ->
  advance_all float_repr (secs_of label) cut label skip keys budget count d = (Ok r, d') ->
  sealed_as cut k g s d'.
Proof.
  intros Hk. revert budget count d. induction Hk as [|k0 keys Hk Hks IH]; intros budget count d Hd;
    cbn [advance_all].
  - by intros [= _ <-].
  - destruct (budget <=? 0); [by intros [= _ <-]|].
    case_bool_decide; [by apply IH|].
    intros (r1 & d1 & H1 & H2)%bind_ok. apply (IH _ _ d1) in H2; [done|].
    by apply (sealed_advance float_repr cut k g s (k0.1, label, k0.2) budget d r1 d1).
Qed.

Lemma advance_progress_frame label cut due cands d :
  metric_agg_bucket (advance_progress label cut due cands d) = metric_agg_bucket d /\
  metrics_downsampled (advance_progress label cut due cands d) = metrics_downsampled d /\
  metric_agg_coverage (advance_progress label cut due cands d) = metric_agg_coverage d.
Proof.
  unfold advance_progress. generalize (remove_dups (m_agent <$> cands)). intros l. revert d.
  induction l as [|a l IH]; intros d; [done|]. cbn [fold_left].
  destruct (IH (if advanced_floor label cut due cands a d <=? cut then d
    else raise_progress a label (advanced_floor label cut due cands a d) d)) as (-> & -> & ->).
  by destruct (_ <=? cut).
Qed.

Lemma summary_filtered k (q : key * dict -> bool) d :
  (forall x y, x.1 = y.1 -> q x = q y) ->
  summary_at k (with_downsampled d (List.filter q (metrics_downsampled d))) = summary_at k d \/
  summary_at k (with_downsampled d (List.filter q (metrics_downsampled d))) = None.
Proof.
  intros Hq. destruct (q (k, [])) eqn:E.
  - left. apply summary_filter. intros x Hx. rewrite <- E. by apply Hq.
  - right. unfold summary_at. simpl. rewrite find_filter_none; [done|].
    intros x Hx%bool_decide_eq_true. rewrite <- E. by apply Hq.
Qed.

(** Once a contributing row is gone a bucket's summary is never rewritten: any
    later operation leaves it as it is or, at the end of its retention, drops it. *)
Theorem sealed_summary_kept float_repr cut o d k g :
  exact cut d -> well_named o -> metric_agg_bucket d !! k = Some (Bucket false g) ->
  let d' := snd (perform_metric float_repr o d) in
  (metric_agg_bucket d' !! k = Some (Bucket false g) \/ metric_agg_bucket d' !! k = None) /\
  (summary_at k d' = summary_at k d \/ summary_at k d' = None).
Proof.
  intros Hd Hn Hb. cbn zeta.
  assert (Hsame : forall d', d' = d -> (metric_agg_bucket d' !! k = Some (Bucket false g) \/
      metric_agg_bucket d' !! k = None) /\ (summary_at k d' = summary_at k d \/ summary_at k d' = None))
    by (intros d' ->; auto).
  destruct (perform_metric float_repr o d) as [[v|e] d'] eqn:Hrun; simpl.
  2:{ apply Hsame. destruct o; simpl in Hrun; [by apply transaction_raise in Hrun| |
        by apply transaction_raise in Hrun].
      unfold downsample_metrics, mbind, M_bind, lift_res in Hrun.
      destruct (_require_resolution _ _); [|by injection Hrun].
      by apply transaction_raise in Hrun. }
  destruct o as [a ts data|now secs label limit|now hours limit]; simpl in Hrun.
  - apply (transaction_ok madm) in Hrun as [_ (d0 & d1 & [= <- <-] & E)%bind_ok].
    apply bind_ok in E as (? & d1 & [= _ <-] & [= _ <-]). auto.
  - apply bind_ok in Hrun as (s & d0 & Hreq & Hrun). unfold lift_res in Hreq.
    injection Hreq as Hreq <-. apply require_resolution_ok in Hreq as [Hl ->].
    apply (transaction_ok madm) in Hrun as [_ (d0 & d1 & [= <- <-] & E)%bind_ok].
    rewrite (proj1 (ex_cut _ _ Hd)) in E.
    assert (Hsome : is_Some (dict_get label _AGG_SPECS)) by (by eexists).
    assert (Hs0 : sealed_as cut k g (summary_at k d) d) by done.
    apply bind_ok in E as (r1 & d1 & H1 & E).
    apply (sealed_advance_all _ cut k g (summary_at k d)) in H1; [|by apply (partial_keys_valid cut)|done].
    apply bind_ok in E as (d2 & d3 & [= <- <-] & E).
    apply bind_ok in E as (r2 & d2 & H2 & E).
    apply (sealed_advance_all _ cut k g (summary_at k d)) in H2;
      [|by apply candidate_keys_aligned|done].
    apply bind_ok in E as (? & d3 & [= _ <-] & [= _ <-]).
    destruct H2 as (_ & Hb2 & Hs2).
    match goal with |- context [advance_progress ?l ?c ?du ?ca ?dd] =>
      destruct (advance_progress_frame l c du ca dd) as (Fb & Fd & _) end.
    rewrite Fb. split; [by left|]. left. rewrite <- Hs2. unfold summary_at. by rewrite Fd.
  - destruct (cleanup_runs cut _ _ _ _ _ _ (proj1 (ex_cut _ _ Hd)) Hrun) as [_ ->].
    match goal with |- context [chunks ?f ?n ?ids] =>
      destruct (delete_chunks_tables f n ids d) as (_ & Td & _ & Tb);
      set (d1 := fold_left _ (chunks f n ids) d) in * end.
    assert (Hb1 : metric_agg_bucket d1 !! k = Some (Bucket false g)).
    { by destruct (Tb k) as [-> | ->]; rewrite Hb. }
    split.
    + unfold prune_buckets. simpl. destruct (filter _ _ !! k) as [b|] eqn:E; [|by right].
      left. apply map_lookup_filter_Some in E as [E _]. simpl in E. congruence.
    + unfold prune_buckets. change (summary_at k (with_buckets ?x ?m)) with (summary_at k x).
      unfold prune_summaries. set (gone := fst <$> _).
      replace (summary_at k d) with (summary_at k d1) by (unfold summary_at; by rewrite Td).
      apply summary_filtered. by intros x y ->.
Qed.

(** ** A pass is bounded by the rows it records *)

Lemma size_insert_le (m : gmap (Z * string) coverage) i c : (size (<[i := c]> m) <= S (size m))%nat.
Proof. rewrite map_size_insert. destruct (m !! i); simpl; lia. Qed.

Lemma fold_rows_size label a b rows g d :
  (size (metric_agg_coverage (snd (fold_rows a label b rows g d))) <=
   size (metric_agg_coverage d) + length rows)%nat.
Proof.
  revert g d. induction rows as [|r rows IH]; intros g d; [simpl; lia|]. cbn [fold_rows].
  destruct (_agg_add (m_data r) (g_acc g)) as [[[]|e] a1]; [|simpl; lia].
  etrans; [apply IH|]. simpl. pose proof (size_insert_le (metric_agg_coverage d)
    (m_id r, label) (Coverage a b true)). lia.
Qed.

Lemma advance_size float_repr k secs cut budget d n p d' :
  0 <= budget -> _advance_bucket float_repr k secs cut budget d = (Ok (n, p), d') ->
  0 <= n <= budget /\
  Z.of_nat (size (metric_agg_coverage d')) <= Z.of_nat (size (metric_agg_coverage d)) + n.
Proof.
  intros Hbud. unfold _advance_bucket. destruct k as [[a l] b]. set (k := (a, l, b)).
  assert (Hgo : forall all suf g0,
    match fold_rows a l b (take (Z.to_nat budget) suf) g0 d with
    | (Raise e, d) => (Raise e, d)
    | (Ok g, d) =>
        if existsb (after_cursor (g_ts g) (g_id g)) all then
          (Ok (Z.of_nat (length (take (Z.to_nat budget) suf)), false),
           with_partials d (<[k := Partial (a_n (g_acc g)) (g_ts g) (g_id g)
             (g_through g) (reload float_repr (g_acc g))]> (metric_agg_partial d)))
        else
          let d := with_partials d (delete k (metric_agg_partial d)) in
          match _agg_finalize (g_acc g) with
          | None => (Ok (Z.of_nat (length (take (Z.to_nat budget) suf)), false), d)
          | Some avg => (Ok (Z.of_nat (length (take (Z.to_nat budget) suf)), true),
                         publish k (g_through g) avg d)
          end
    end = (Ok (n, p), d') ->
    0 <= n <= budget /\
    Z.of_nat (size (metric_agg_coverage d')) <= Z.of_nat (size (metric_agg_coverage d)) + n).
  { intros all suf g0. set (rows := take _ suf).
    pose proof (fold_rows_size l a b rows g0 d) as Hsz.
    assert (Hlen : (length rows <= Z.to_nat budget)%nat) by (unfold rows; rewrite length_take; lia).
    destruct (fold_rows a l b rows g0 d) as [[g1|e] d1]; [|done]. simpl in Hsz.
    destruct (existsb _ all); [|destruct (_agg_finalize _)]; intros [= <- _ <-]; simpl; lia. }
  destruct (metric_agg_partial d !! k) as [q|]; [apply Hgo|].
  destruct (start_generation k secs cut d) as [| |g0]; [intros [= <- _ <-]; lia| |apply Hgo].
  unfold _mark_pending.
  match goal with |- context [take ?m ?l0] => set (rows := take m l0) end.
  assert (Hlen : (length rows <= Z.to_nat budget)%nat) by (unfold rows; rewrite length_take; lia).
  intros [= <- _ <-]. split; [lia|]. clearbody rows. clear Hlen Hgo.
  revert d. induction rows as [|r rows IH]; intros d; [simpl; lia|]. cbn [fold_left].
  specialize (IH (set_coverage (m_id r) l (Coverage a b false) d)).
  pose proof (size_insert_le (metric_agg_coverage d) (m_id r, l) (Coverage a b false)) as Hi.
  assert (E : metric_agg_coverage (set_coverage (m_id r) l (Coverage a b false) d) =
    <[(m_id r, l) := Coverage a b false]> (metric_agg_coverage d)) by done.
  rewrite E in IH. simpl length. lia.
Qed.

Lemma advance_all_size float_repr secs cut label skip keys budget count d b c d' :
  0 <= budget -> advance_all float_repr secs cut label skip keys budget count d = (Ok (b, c), d') ->
  0 <= b <= budget /\
  Z.of_nat (size (metric_agg_coverage d')) <= Z.of_nat (size (metric_agg_coverage d)) + (budget - b).
Proof.
  revert budget count d. induction keys as [|k keys IH]; intros budget count d Hb; cbn [advance_all].
  - intros [= <- _ <-]. lia.
  - destruct (budget <=? 0); [intros [= <- _ <-]; lia|]. case_bool_decide; [by apply IH|].
    intros ([n p] & d1 & H1%advance_size & H2)%bind_ok; [|done]. simpl in H2.
    apply IH in H2; lia.
Qed.

(** An aggregation pass records at most [batch_limit] raw rows, however many
    buckets and whatever width it works on. *)
Theorem downsample_bounded float_repr now secs label limit d n d' :
  downsample_metrics float_repr now secs label limit d = (Ok n, d') ->
  Z.of_nat (size (metric_agg_coverage d')) <=
    Z.of_nat (size (metric_agg_coverage d)) + Z.max 1 limit.
Proof.
  unfold downsample_metrics. intros (s & d0 & Hreq & Hrun)%bind_ok. unfold lift_res in Hreq.
  injection Hreq as _ <-.
  apply (transaction_ok madm) in Hrun as [_ (d0 & d1 & [= <- <-] & E)%bind_ok].
  destruct (_agg_cutover d) as [cut|]; [|injection E as _ <-; lia].
  apply bind_ok in E as ([b1 c1] & d1 & H1%advance_all_size & E); [|lia].
  apply bind_ok in E as (d2 & d3 & [= <- <-] & E).
  apply bind_ok in E as ([b2 c2] & d2 & H2%advance_all_size & E); [|simpl; lia].
  apply bind_ok in E as (? & d3 & [= _ <-] & [= _ <-]). simpl in *.
  match goal with |- context [advance_progress ?l ?c ?du ?ca ?dd] =>
    destruct (advance_progress_frame l c du ca dd) as (_ & _ & Fc) end.
  rewrite Fc. lia.
Qed.

(** ** A sample no pass can get over *)

(** A container whose [cpu_percent] is a word: [float] raises [ValueError], which
    is not one of the shape errors the fold contains. *)
Definition poison : dict :=
  [("containers", VList [VDict [("name", VStr "x"); ("cpu_percent", VStr "n/a")]])]%string.

Definition good_sample (cpu : Z) : dict :=
  [("cpu", VDict [("percent_total", VInt cpu); ("percent_per_core", VList [VInt cpu])]);
   ("memory", VDict [("percent", VInt 50)]); ("disk", VDict [("percent", VInt 10)])]%string.

Definition fresh_mdb : mdb := Mdb healthy [] 0 [] ∅ ∅ ∅ ∅ (Some "0"%string).

Definition poisoned : mdb :=
  with_metrics fresh_mdb [MRow 1 "a" 30 poison; MRow 2 "b" 31 (good_sample 20)] 2.

Lemma bucket_of_late secs now : 0 < secs <= 300 -> (600 <= now)%Q -> 300 <= bucket_of secs now.
Proof.
  intros Hs Hnow. unfold bucket_of.
  assert (Hf : Qfloor (inject_Z (600 / secs)) <= Qfloor (now / inject_Z secs)).
  { apply Qfloor_resp_le. apply Qle_shift_div_l; [change 0%Q with (inject_Z 0); rewrite <- Zlt_Qlt; lia|].
    apply (Qle_trans _ 600); [|exact Hnow]. rewrite <- inject_Z_mult. change 600%Q with (inject_Z 600).
    rewrite <- Zle_Qle. pose proof (Z.mul_div_le 600 secs). lia. }
  rewrite Qfloor_Z in Hf. pose proof (Z.div_mod 600 secs). pose proof (Z.mod_pos_bound 600 secs). nia.
Qed.


(** ** Concrete runs *)

Lemma exact_fresh : exact 0 fresh_mdb.
Proof.
  split; simpl; try (intros; simplify_map_eq).
  - split; [reflexivity|lia].
  - split; [constructor|constructor].
  - constructor.
Qed.

Definition short_run : list metric_op :=
  [MStore "a" 30 (good_sample 20); MStore "a" 40 (good_sample 40); MStore "a" 35 (good_sample 90);
   MDownsample 200 60 "1m" 2; MDownsample 201 60 "1m" 2; MDownsample 700 300 "5m" 100].

Definition no_repr : pyfloat -> string := fun _ => ""%string.


Definition aggregated : mdb := metric_run no_repr short_run fresh_mdb.
Definition first_row : mrow := MRow 1 "a" 30 (good_sample 20).

Lemma aggregated_exact : exact 0 aggregated.
Proof. apply metric_run_exact; [repeat constructor|apply exact_fresh]. Qed.

Definition cleaned : mdb := snd (cleanup_old_metrics 10000 1 2000 aggregated).

Lemma cleanup_keeps_history_witness :
  cleanup_old_metrics 10000 1 2000 aggregated = (Ok 3, cleaned) /\ metrics cleaned = [] /\
  exists k b avg, k.1.1 = "a"%string /\ k.1.2 = "5m"%string /\ in_key k first_row = true /\
    metric_agg_bucket aggregated !! k = Some b /\ summary_at k aggregated = Some avg.
Proof.
  split; [vm_compute; reflexivity|]. split; [vm_compute; reflexivity|].
  destruct (cleanup_keeps_history 0 10000 1 2000 aggregated 3 cleaned first_row "5m" aggregated_exact)
    as (_ & _ & k & b & avg & H1 & H2 & H3 & H4 & _ & H5 & _).
  - vm_compute. reflexivity.
  - apply list_elem_of_In. vm_compute. left. reflexivity.
  - vm_compute. intros H. inversion H.
  - apply list_elem_of_In. right. left. reflexivity.
  - exists k, b, avg. split; [exact H1|]. split; [exact H2|]. split; [exact H3|].
    split; [exact H4|exact H5].
Defined.

Lemma cleanup_bounded_witness :
  exists d', cleanup_old_metrics 10000 1 2 aggregated = (Ok 2, d') /\ 0 <= 2 <= Z.max 1 2.
Proof.
  eexists. split; [vm_compute; reflexivity|].
  eapply (cleanup_bounded 0 10000 1 2 aggregated); [vm_compute; reflexivity|vm_compute; reflexivity].
Defined.

Definition half_cleaned : mdb := snd (cleanup_old_metrics 10000 1 2 aggregated).

Lemma half_cleaned_exact : exact 0 half_cleaned.
Proof. apply keeps_cleanup, aggregated_exact. Qed.

Lemma sealed_summary_kept_witness :
  let k := ("a"%string, "1m"%string, 0) in
  let o := MStore "a" 45 (good_sample 99) in
  metric_agg_bucket half_cleaned !! k = Some (Bucket false 3) /\
  (summary_at k (snd (perform_metric no_repr o half_cleaned)) = summary_at k half_cleaned \/
   summary_at k (snd (perform_metric no_repr o half_cleaned)) = None).
Proof.
  intros k o. split; [vm_compute; reflexivity|].
  apply (sealed_summary_kept no_repr 0 o half_cleaned k 3 half_cleaned_exact);
    [reflexivity|vm_compute; reflexivity].
Defined.

Lemma downsample_bounded_witness :
  let d := metric_run no_repr (take 3 short_run) fresh_mdb in
  exists d', downsample_metrics no_repr 200 60 "1m" 2 d = (Ok 0, d') /\
  Z.of_nat (size (metric_agg_coverage d')) <= Z.of_nat (size (metric_agg_coverage d)) + 2.
Proof.
  intros d. eexists. split; [vm_compute; reflexivity|].
  apply (downsample_bounded no_repr 200 60 "1m" 2 d 0). vm_compute. reflexivity.
Defined.

