(* ===== verification/NetAudit.v ===== *)
(** * Network audit: ingest, storage and paging

    src/backend/app/services/net_audit_ingest.py, the net-audit tables of
    src/backend/app/database.py and src/backend/app/routers/net_audit.py.  The
    agent's payload is untrusted JSON; what is stored is typed. *)
From S2P Require Import Prelude Sorting Py Effects PyOps DbCore IpAddress.
Open Scope Z_scope.

(** ** Cleaning *)

Definition _EVENTS : list string := ["open"; "close"].
Definition _PROTOS : list string := ["tcp"; "tcp6"; "udp"; "udp6"].
Definition _MAX_EVENTS : nat := 500.
Definition _MAX_ROLLUPS : nat := 5.
Definition _MAX_IFACES : nat := 64.
Definition _MAX_TALKERS : nat := 100.
Definition _STR_CAP (field : string) : nat :=
  match field with "proto" => 8 | "status" | "name" => 32 | _ => 64 end%string%nat.

Record conn_event := ConnEvent {
  ev_event : string; ev_ts : Q; ev_proto : string; laddr : string; lport : option Z;
  raddr : string; rport : option Z; ev_status : string; ev_pid : option Z; pname : string;
  duration : option Q
}.

Record iface := Iface { if_name : string; bytes_in : Q; bytes_out : Q }.
Record talker := Talker { t_raddr : string; conns : Z }.
Record rollup := Rollup { ro_ts : Q; interfaces : list iface; top_talkers : list talker }.

Section Clean.
Context (py_str : pyval -> string).

Definition _s (v : pyval) (cap : nat) : string :=
  match v with
  | VNone => ""
  | VStr s => str_take cap s
  | _ => str_take cap (py_str v)
  end.

Definition _int (v : pyval) (lo hi : Z) : option Z :=
  match v with
  | VInt z => if (lo <=? z) && (z <=? hi) then Some z else None
  | _ => None
  end.

(** [math.isfinite] converts: an integer beyond the double range overflows. *)
Definition _finite (v : pyval) : res (option Q) :=
  match v with
  | VInt z => f ← float_of_int z; mret (is_finite f)
  | VFloat f => Ok (is_finite f)
  | _ => Ok None
  end.

Definition _ip (v : pyval) : string :=
  match v with
  | VStr s => if str_nonempty s then match ip_address s with Some a => ip_text a | None => "" end
              else ""
  | _ => ""
  end.

(** [v in {...}]: an unhashable value raises. *)
Definition in_set (v : pyval) (l : list string) : res bool :=
  if py_hashable v then Ok (match v with VStr s => str_mem s l | _ => false end)
  else Raise TypeError.

Definition text_of (v : pyval) : string := match v with VStr s => s | _ => "" end.

Definition _clean_event (e : pyval) (server_ts : Q) : res (option conn_event) :=
  match e with
  | VDict e =>
      ok1 ← in_set (get "event" e) _EVENTS;
      if negb ok1 then mret None
      else
        ok2 ← in_set (get "proto" e) _PROTOS;
        if negb ok2 then mret None
        else
          dur ← _finite (get "duration" e);
          let dur := match dur with Some q => if q_ltb q 0 then None else Some q | None => None end in
          mret (Some (ConnEvent (text_of (get "event" e)) server_ts (text_of (get "proto" e))
            (_ip (get "laddr" e)) (_int (get "lport" e) 0 65535)
            (_ip (get "raddr" e)) (_int (get "rport" e) 0 65535)
            (_s (get "status" e) (_STR_CAP "status")) (_int (get "pid" e) 0 (2 ^ 31 - 1))
            (_s (get "pname" e) (_STR_CAP "pname")) dur))
  | _ => mret None
  end.

(** [max(0.0, _finite(v) or 0.0)]. *)
Definition non_negative (v : pyval) : res Q :=
  q ← _finite v;
  let q := default 0%Q q in
  mret (if q_ltb 0 q then q else 0%Q).

Fixpoint clean_each {A} (f : pyval -> res (option A)) (l : list pyval) : res (list A) :=
  match l with
  | [] => Ok []
  | x :: l =>
      y ← f x;
      ys ← clean_each f l;
      mret (match y with Some y => y :: ys | None => ys end)
  end.

Definition clean_iface (v : pyval) : res (option iface) :=
  match v with
  | VDict it =>
      i ← non_negative (get "bytes_in" it);
      o ← non_negative (get "bytes_out" it);
      mret (Some (Iface (_s (get "name" it) (_STR_CAP "name")) i o))
  | _ => mret None
  end.

Definition clean_talker (v : pyval) : res (option talker) :=
  match v with
  | VDict t => mret (Some (Talker (_ip (get "raddr" t)) (default 0 (_int (get "conns" t) 0 (2 ^ 31 - 1)))))
  | _ => mret None
  end.

Definition items_of (v : pyval) (cap : nat) : list pyval :=
  match v with VList l => take cap l | _ => [] end.

Definition _clean_rollup (r : pyval) (server_ts : Q) : res (option rollup) :=
  match r with
  | VDict r =>
      ts ← _finite (get "ts" r);
      let ts := match ts with
                | Some t => if q_leb t 0 || q_ltb (server_ts + 300) t then server_ts else t
                | None => server_ts end in
      ifaces ← clean_each clean_iface (items_of (get "interfaces" r) _MAX_IFACES);
      talkers ← clean_each clean_talker (items_of (get "top_talkers" r) _MAX_TALKERS);
      mret (Some (Rollup ts ifaces talkers))
  | _ => mret None
  end.

(** ** Tables *)

Record nrow := NRow { n_id : Z; n_agent : string; n_event : conn_event }.

Record ndb := Ndb {
  nadm : admission;
  net_conn_events : list nrow;
  nce_seq : Z;
  net_flow_rollup : list (string * rollup)
}.

Abbreviation ntx := (@transaction ndb nadm _).
Abbreviation nquery := (@reading ndb nadm _).

Fixpoint insert_events (agent_id : string) (evs : list conn_event) (d : ndb) : ndb :=
  match evs with
  | [] => d
  | e :: evs =>
      let i := nce_seq d + 1 in
      insert_events agent_id evs
        (Ndb (nadm d) (net_conn_events d ++ [NRow i agent_id e]) i (net_flow_rollup d))
  end.

(** INSERT OR REPLACE on the unique (agent_id, ts). *)
Definition replace_rollup (agent_id : string) (d : ndb) (r : rollup) : ndb :=
  Ndb (nadm d) (net_conn_events d) (nce_seq d)
    (List.filter (fun x => negb (String.eqb x.1 agent_id && Qeq_bool (ro_ts x.2) (ro_ts r)))
       (net_flow_rollup d) ++ [(agent_id, r)]).

Definition store_net_audit (agent_id : string) (events : list conn_event) (rollups : list rollup)
    : M ndb unit :=
  ntx (modify (fun d => fold_left (replace_rollup agent_id) rollups
                          (insert_events agent_id events d))).

Definition cleanup_net_audit (now : Q) (event_days rollup_days : Z) : M ndb Z :=
  let future := (now + 300)%Q in
  let keep days ts := negb (q_ltb ts (now - inject_Z (days * 86400)) || q_ltb future ts) in
  ntx (d ← gets id;
       let kept := List.filter (fun r => keep event_days (ev_ts (n_event r))) (net_conn_events d) in
       _ ← modify (fun d => Ndb (nadm d) kept (nce_seq d)
              (List.filter (fun x => keep rollup_days (ro_ts x.2)) (net_flow_rollup d)));
       mret (Z.of_nat (length (net_conn_events d)) - Z.of_nat (length kept))).

(** The optional filters of a page request. *)
Record page_filter := PageFilter {
  f_proto : option string; f_raddr : option string; f_port : option Z; f_pid : option Z
}.

Definition given (o : option string) : bool :=
  match o with Some s => str_nonempty s | None => false end.

Definition matches (f : page_filter) (e : conn_event) : bool :=
  (negb (given (f_proto f)) || String.eqb (ev_proto e) (default "" (f_proto f))) &&
  (negb (given (f_raddr f)) || String.eqb (raddr e) (default "" (f_raddr f))) &&
  match f_port f with
  | Some p => bool_decide (lport e = Some p) || bool_decide (rport e = Some p)
  | None => true
  end &&
  match f_pid f with Some p => bool_decide (ev_pid e = Some p) | None => true end.

Definition n_ts (r : nrow) : Q := ev_ts (n_event r).

(** [ORDER BY ts DESC, id DESC]. *)
Definition newer_leb (x y : nrow) : bool :=
  q_ltb (n_ts y) (n_ts x) || (Qeq_bool (n_ts x) (n_ts y) && (n_id y <=? n_id x)).

Definition before_cursor (ts : option Q) (i : option Z) (r : nrow) : bool :=
  match ts, i with
  | Some t, Some i => q_ltb (n_ts r) t || (Qeq_bool (n_ts r) t && (n_id r <? i))
  | Some t, None => q_ltb (n_ts r) t
  | None, _ => true
  end.

Definition get_net_conn_events (agent_id : string) (before_ts : option Q) (before_id : option Z)
    (limit : Z) (f : page_filter) : M ndb (list nrow) :=
  nquery (fun d =>
    take (Z.to_nat (Z.max 1 (Z.min limit 1000)))
      (sort_by newer_leb
         (List.filter (fun r => String.eqb (n_agent r) agent_id && matches f (n_event r)
                                && before_cursor before_ts before_id r) (net_conn_events d)))).

Definition get_net_flow_rollup (agent_id : string) (start stop : Q) : M ndb (list rollup) :=
  nquery (fun d =>
    sort_by (fun x y => q_leb (ro_ts x) (ro_ts y))
      (snd <$> List.filter (fun x => String.eqb x.1 agent_id && q_leb start (ro_ts x.2)
                                     && q_leb (ro_ts x.2) stop) (net_flow_rollup d))).

(** ** Ingest *)

(** [data.pop] and the store; the first component is what [data] is afterwards,
    whether or not cleaning raised. *)
Definition extract_and_store_net_audit (agent_id : string) (timestamp : Q) (data : dict)
    : dict * M ndb unit :=
  (dict_del "net_audit" data,
   match get "net_audit" data with
   | VDict payload =>
       events ← lift_res (clean_each (fun e => _clean_event e timestamp)
                            (items_of (get "events" payload) _MAX_EVENTS));
       rollups ← lift_res (clean_each (fun r => _clean_rollup r timestamp)
                             (items_of (get "rollups" payload) _MAX_ROLLUPS));
       match events, rollups with
       | [], [] => mret tt
       | _, _ => catch (store_net_audit agent_id events rollups) (fun _ => Some (mret tt))
       end
   | _ => mret tt
   end).
End Clean.

(** ** What survives cleaning *)

Section CleanFacts.
Context (py_str : pyval -> string).

Lemma substring_length n s : (String.length (String.substring 0 n s) <= n)%nat.
Proof.
  revert s. induction n as [|n IH]; intros s; destruct s as [|c s]; simpl; try lia.
  specialize (IH s). lia.
Qed.

Lemma _s_length v cap : (String.length (_s py_str v cap) <= cap)%nat.
Proof. destruct v; simpl; try apply substring_length. lia. Qed.

Definition port_ok (o : option Z) : Prop := forall p, o = Some p -> 0 <= p <= 65535.

(** An address column holds nothing, or the canonical text of an address. *)
Definition address_ok (s : string) : Prop :=
  s = ""%string \/ exists t a, ip_address t = Some a /\ s = ip_text a.

Lemma _ip_ok v : address_ok (_ip v).
Proof.
  unfold _ip. destruct v; try by left. destruct (str_nonempty s); [|by left].
  destruct (ip_address s) as [a|] eqn:E; [|by left]. right. by exists s, a.
Qed.

Lemma _int_range v lo hi z : _int v lo hi = Some z -> lo <= z <= hi.
Proof.
  unfold _int. destruct v; try done. destruct (_ && _) eqn:E; [|done]. intros [= <-].
  apply andb_true_iff in E as [?%Z.leb_le ?%Z.leb_le]. lia.
Qed.

Record event_ok (server_ts : Q) (e : conn_event) : Prop := {
  eo_event : str_mem (ev_event e) _EVENTS = true;
  eo_proto : str_mem (ev_proto e) _PROTOS = true;
  eo_ts : ev_ts e = server_ts;
  eo_laddr : address_ok (laddr e);
  eo_raddr : address_ok (raddr e);
  eo_lport : port_ok (lport e);
  eo_rport : port_ok (rport e);
  eo_pid : forall p, ev_pid e = Some p -> 0 <= p < 2 ^ 31;
  eo_status : (String.length (ev_status e) <= 32)%nat;
  eo_pname : (String.length (pname e) <= 64)%nat;
  eo_duration : forall q, duration e = Some q -> (0 <= q)%Q
}.

Lemma in_set_true v l : in_set v l = Ok true -> str_mem (text_of v) l = true.
Proof. unfold in_set. destruct (py_hashable v); [|done]. destruct v; try done. by intros [=]. Qed.

Lemma clean_event_ok v server_ts e :
  _clean_event py_str v server_ts = Ok (Some e) -> event_ok server_ts e.
Proof.
  unfold _clean_event. destruct v as [| | | | | |d]; try done.
  unfold mbind, res_bind, mret, res_ret.
  destruct (in_set (get "event" d) _EVENTS) as [[]|] eqn:E1; simpl; try done.
  destruct (in_set (get "proto" d) _PROTOS) as [[]|] eqn:E2; simpl; try done.
  destruct (_finite (get "duration" d)) as [dur|]; try done. intros [= <-].
  apply in_set_true in E1, E2.
  split; simpl; try done; try apply _ip_ok; try apply _s_length;
    try (intros p Hp; apply _int_range in Hp; lia).
  intros q. destruct dur as [x|]; [|done]. destruct (q_ltb_spec x 0); [done|].
  intros [= <-]. lra.
Qed.

(** C39: whatever JSON an agent sends as a connection event, what is kept of it is a
    known event of a known protocol, stamped with the server's time, its ports and
    process id in range, its texts capped, its duration finite and not negative and
    its addresses empty or canonical. *)
Theorem clean_event_conforms v server_ts e :
  _clean_event py_str v server_ts = Ok (Some e) -> event_ok server_ts e.
Proof. apply clean_event_ok. Qed.

Lemma clean_each_length {A} (f : pyval -> res (option A)) l ys :
  clean_each f l = Ok ys -> (length ys <= length l)%nat.
Proof.
  revert ys. induction l as [|x l IH]; intros ys; simpl; [by intros [= <-]|].
  unfold mbind, res_bind, mret, res_ret. destruct (f x) as [y|]; [|done].
  destruct (clean_each f l) as [ys'|]; [|done]. intros [= <-]. specialize (IH ys' eq_refl).
  destruct y; simpl; lia.
Qed.

Lemma clean_each_all {A} (P : A -> Prop) (f : pyval -> res (option A)) l ys :
  (forall x y, f x = Ok (Some y) -> P y) -> clean_each f l = Ok ys -> Forall P ys.
Proof.
  intros Hf. revert ys. induction l as [|x l IH]; intros ys; simpl; [by intros [= <-]|].
  unfold mbind, res_bind, mret, res_ret. destruct (f x) as [y|] eqn:E; [|done].
  destruct (clean_each f l) as [ys'|]; [|done]. intros [= <-]. specialize (IH ys' eq_refl).
  destruct y; [constructor; [by apply (Hf x)|done]|done].
Qed.

Lemma items_of_length v cap : (length (items_of v cap) <= cap)%nat.
Proof. destruct v; simpl; try lia. rewrite length_take. lia. Qed.

Lemma insert_events_spec agent_id evs d :
  exists rows, net_conn_events (insert_events agent_id evs d) = net_conn_events d ++ rows /\
    n_event <$> rows = evs /\ Forall (fun r => n_agent r = agent_id) rows.
Proof.
  revert d. induction evs as [|e evs IH]; intros d; simpl.
  - exists []. by rewrite app_nil_r.
  - destruct (IH (Ndb (nadm d) (net_conn_events d ++ [NRow (nce_seq d + 1) agent_id e]) (nce_seq d + 1)
                   (net_flow_rollup d))) as (rows & H1 & H2 & H3).
    exists (NRow (nce_seq d + 1) agent_id e :: rows). rewrite H1. simpl. rewrite <- app_assoc.
    split; [done|]. split; [by f_equal|]. by constructor.
Qed.

Lemma rollups_keep_events agent_id rs d :
  net_conn_events (fold_left (replace_rollup agent_id) rs d) = net_conn_events d.
Proof. revert d. induction rs as [|r rs IH]; intros d; [done|]. simpl. by rewrite IH. Qed.

(** C35: one sample never stores more than 500 events, only conforming ones and only
    for its sender, and the payload never stays in the data that is broadcast. *)
Theorem ingest_stores_clean agent_id ts data d :
  let '(data', store) := extract_and_store_net_audit py_str agent_id ts data in
  dict_get "net_audit" data' = None /\
  (forall k, k <> "net_audit"%string -> dict_get k data' = dict_get k data) /\
  exists rows, net_conn_events (snd (store d)) = net_conn_events d ++ rows /\
    (length rows <= _MAX_EVENTS)%nat /\
    Forall (fun r => n_agent r = agent_id /\ event_ok ts (n_event r)) rows.
Proof.
  unfold extract_and_store_net_audit. split; [apply dict_get_del_eq|].
  split; [intros k Hk; by apply dict_get_del_ne|].
  assert (Hnone : exists rows, net_conn_events d = net_conn_events d ++ rows /\
    (length rows <= _MAX_EVENTS)%nat /\
    Forall (fun r => n_agent r = agent_id /\ event_ok ts (n_event r)) rows).
  { exists []. rewrite app_nil_r. split; [done|]. split; [simpl; lia|constructor]. }
  destruct (get "net_audit" data) as [| | | | | |payload]; try exact Hnone.
  unfold mbind, M_bind, lift_res.
  destruct (clean_each _ (items_of (get "events" payload) _MAX_EVENTS)) as [evs|] eqn:E1; [|exact Hnone].
  destruct (clean_each _ (items_of (get "rollups" payload) _MAX_ROLLUPS)) as [ros|] eqn:E2; [|exact Hnone].
  assert (Hst : exists rows, net_conn_events (snd (catch (store_net_audit agent_id evs ros)
      (fun _ => Some (mret tt)) d)) = net_conn_events d ++ rows /\
    (length rows <= _MAX_EVENTS)%nat /\
    Forall (fun r => n_agent r = agent_id /\ event_ok ts (n_event r)) rows).
  { unfold catch, store_net_audit, transaction, rolled_back, modify.
    destruct (_require_admission (nadm d)); [|exact Hnone]. simpl. rewrite rollups_keep_events.
    destruct (insert_events_spec agent_id evs d) as (rows & H1 & H2 & H3). exists rows.
    split; [done|]. split.
    - rewrite <- (length_fmap n_event), H2. etrans; [by eapply clean_each_length|].
      apply items_of_length.
    - pose proof (clean_each_all (event_ok ts) _ _ _ (fun x y H => clean_event_ok x ts y H) E1) as Hok.
      rewrite <- H2, Forall_fmap in Hok. rewrite Forall_forall in *. intros r Hr.
      split; [by apply H3|by apply Hok]. }
  by destruct evs, ros; [exact Hnone|..].
Qed.
End CleanFacts.

Definition sample_str (v : pyval) : string := "?".

Definition sample_conn : dict :=
  [("event", VStr "open"); ("proto", VStr "tcp6"); ("laddr", VStr "2001:DB8::0:1");
   ("lport", VInt 70000); ("raddr", VStr "not an address"); ("rport", VInt 443);
   ("status", VInt 3); ("pid", VInt 17); ("pname", VStr "curl"); ("duration", VInt (-1))]%string.

Definition cleaned_conn : conn_event :=
  ConnEvent "open" 9 "tcp6" "2001:db8::1" None "" (Some 443) "?" (Some 17) "curl" None.

Lemma clean_event_conforms_witness :
  _clean_event sample_str (VDict sample_conn) 9 = Ok (Some cleaned_conn) /\ event_ok 9 cleaned_conn.
Proof.
  assert (H : _clean_event sample_str (VDict sample_conn) 9 = Ok (Some cleaned_conn))
    by (vm_compute; reflexivity).
  split; [exact H|]. exact (clean_event_conforms sample_str _ _ _ H).
Defined.

(** ** Scope identifiers *)

Lemma not_in_str_cons c a s : char_in_str c (String a s) = false -> a <> c /\ char_in_str c s = false.
Proof.
  unfold char_in_str. simpl. intros [H1 H2]%orb_false_iff. split; [|done].
  intros ->. by rewrite Ascii.eqb_refl in H1.
Qed.

Lemma split_on_none c s : char_in_str c s = false -> split_on c s = [s].
Proof.
  induction s as [|a s IH]; [done|]. intros [Ha Hs]%not_in_str_cons. simpl.
  destruct (Ascii.eqb_spec a c); [done|]. by rewrite IH.
Qed.

(** An address with a scope identifier keeps it whole: any text without a percent
    sign or a slash, of any length and content, survives [_ip] into the address
    columns, which the module's notes call canonical and never an arbitrary payload. *)
Theorem scope_id_passes_whole p :
  p <> ""%string -> char_in_str "%" p = false -> char_in_str "/" p = false ->
  _ip (VStr ("::1%" ++ p)) = ("::1%" ++ p)%string.
Proof.
  intros Hp H1 H2. change (VStr ("::1%" ++ p)) with (VStr (String ":" (String ":" (String "1" (String "%" p))))).
  unfold _ip. cbn [str_nonempty String.eqb negb].
  assert (Hsl : char_in_str "/" (String ":" (String ":" (String "1" (String "%" p)))) = false)
    by (unfold char_in_str in *; simpl; done).
  assert (H6 : parse_ipv6 (String ":" (String ":" (String "1" (String "%" p)))) = Some (IPv6 1 (Some p))).
  { unfold parse_ipv6. rewrite Hsl. cbn [split_on Ascii.eqb Bool.eqb]. rewrite (split_on_none _ p H1).
    destruct (String.eqb_spec p ""); [done|]. reflexivity. }
  assert (H4 : parse_ipv4 (String ":" (String ":" (String "1" (String "%" p)))) = None).
  { unfold parse_ipv4. rewrite Hsl. unfold parse_ipv4_int. cbn [split_on Ascii.eqb Bool.eqb].
    by destruct (split_on "." p). }
  unfold ip_address. rewrite H4, H6. reflexivity.
Qed.

Lemma scope_id_passes_whole_witness :
  _ip (VStr "::1%<img onerror=alert(1)>") = "::1%<img onerror=alert(1)>"%string.
Proof. apply (scope_id_passes_whole "<img onerror=alert(1)>"); [discriminate|reflexivity..]. Defined.

(** ** Paging by (ts, id) *)

Lemma newer_leb_iff x y :
  newer_leb x y = true <-> (n_ts y < n_ts x)%Q \/ ((n_ts x == n_ts y)%Q /\ n_id y <= n_id x).
Proof.
  unfold newer_leb. rewrite orb_true_iff, andb_true_iff, q_ltb_true, Qeq_bool_iff, Z.leb_le. done.
Qed.

Lemma newer_leb_total x y : newer_leb x y = true \/ newer_leb y x = true.
Proof.
  rewrite !newer_leb_iff. destruct (Qlt_le_dec (n_ts x) (n_ts y)); [by right; left|].
  destruct (Qlt_le_dec (n_ts y) (n_ts x)); [by left; left|].
  assert (n_ts x == n_ts y)%Q by lra.
  destruct (Z.le_gt_cases (n_id x) (n_id y)); [right|left]; right; split; try lra; lia.
Qed.

Lemma newer_leb_trans x y z : newer_leb x y = true -> newer_leb y z = true -> newer_leb x z = true.
Proof.
  rewrite !newer_leb_iff. intros [H1|[H1 H1']] [H2|[H2 H2']]; (left; lra) || (right; split; [lra|lia]).
Qed.

(** The cursor condition is "strictly after the cursor's row" in page order. *)
Lemma before_cursor_row x y : before_cursor (Some (n_ts x)) (Some (n_id x)) y = negb (newer_leb y x).
Proof.
  apply eq_true_iff_eq. rewrite negb_true_iff, <- not_true_iff_false, newer_leb_iff. simpl.
  rewrite orb_true_iff, andb_true_iff, q_ltb_true, Qeq_bool_iff, Z.ltb_lt. split.
  - intros [H|[H1 H2]] [H'|[H1' H2']]; lra || lia.
  - intros H. destruct (Qlt_le_dec (n_ts y) (n_ts x)) as [|Hle]; [by left|]. right.
    destruct (Qlt_le_dec (n_ts x) (n_ts y)) as [Hlt|Hle']; [exfalso; apply H; by left|].
    assert (n_ts y == n_ts x)%Q by lra. split; [done|].
    destruct (Z.le_gt_cases (n_id x) (n_id y)); [exfalso; apply H; by right|lia].
Qed.

Section Paging.
Context (agent_id : string) (f : page_filter) (limit : Z).

Definition wanted (r : nrow) : bool := String.eqb (n_agent r) agent_id && matches f (n_event r).

(** Everything the pages should add up to. *)
Definition all_events (d : ndb) : list nrow := sort_by newer_leb (List.filter wanted (net_conn_events d)).

Definition page_size : nat := Z.to_nat (Z.max 1 (Z.min limit 1000)).

(** A client that asks for page after page, from the last row of the one before. *)
Fixpoint walk (fuel : nat) (cursor : option nrow) (d : ndb) : list nrow :=
  match fuel with
  | O => []
  | S fuel =>
      match fst (get_net_conn_events agent_id (n_ts <$> cursor) (n_id <$> cursor) limit f d) with
      | Ok page =>
          match last page with
          | Some r => page ++ walk fuel (Some r) d
          | None => []
          end
      | Raise _ => []
      end
  end.

Lemma rows_inj d x y :
  NoDup (n_id <$> net_conn_events d) -> x ∈ net_conn_events d -> y ∈ net_conn_events d ->
  n_id x = n_id y -> x = y.
Proof.
  intros Hnd Hx Hy E. apply list_elem_of_lookup in Hx as [i Hi]. apply list_elem_of_lookup in Hy as [j Hj].
  assert (i = j) by (eapply (NoDup_lookup (n_id <$> net_conn_events d)); [done|..];
    rewrite list_lookup_fmap, ?Hi, ?Hj; simpl; by rewrite ?E).
  subst. congruence.
Qed.

Lemma newer_antisym d x y :
  NoDup (n_id <$> net_conn_events d) -> x ∈ net_conn_events d -> y ∈ net_conn_events d ->
  newer_leb x y = true -> newer_leb y x = true -> x = y.
Proof.
  intros Hnd Hx Hy H1%newer_leb_iff H2%newer_leb_iff. apply (rows_inj d); [done..|].
  destruct H1 as [H1|[H1 H1']], H2 as [H2|[H2 H2']]; try (exfalso; lra). lia.
Qed.

Lemma page_from d l1 x l2 :
  NoDup (n_id <$> net_conn_events d) -> _require_admission (nadm d) = Ok tt ->
  all_events d = l1 ++ x :: l2 ->
  get_net_conn_events agent_id (Some (n_ts x)) (Some (n_id x)) limit f d = (Ok (take page_size l2), d).
Proof.
  intros Hnd Hadm Hall. unfold get_net_conn_events, reading. rewrite Hadm. do 2 f_equal.
  fold page_size. f_equal.
  rewrite (List.filter_ext _ (fun r => wanted r && negb (newer_leb r x))).
  2:{ intros r. by rewrite before_cursor_row. }
  rewrite <- filter_and. rewrite sort_by_filter; [|apply newer_leb_total|apply newer_leb_trans|].
  2:{ intros y z Hy%list_elem_of_In%List.filter_In Hz%list_elem_of_In%List.filter_In.
      apply (newer_antisym d); [done|apply list_elem_of_In, Hy|apply list_elem_of_In, Hz]. }
  fold (all_events d). rewrite Hall.
  assert (Hin : forall y, y ∈ l1 ++ x :: l2 -> y ∈ net_conn_events d).
  { intros y. rewrite <- Hall. unfold all_events. rewrite sort_by_perm.
    rewrite !list_elem_of_In, List.filter_In. tauto. }
  assert (Hs : StronglySorted (fun x y => newer_leb x y = true) (l1 ++ x :: l2)).
  { rewrite <- Hall. apply sort_by_sorted; [apply newer_leb_total|apply newer_leb_trans]. }
  assert (Hndl : NoDup (l1 ++ x :: l2)).
  { rewrite <- Hall. unfold all_events. rewrite sort_by_perm. apply NoDup_fmap_1 with n_id.
    clear -Hnd. induction (net_conn_events d) as [|r l IH]; [done|]. simpl in *.
    apply NoDup_cons in Hnd as [Hn Hnd]. destruct (wanted r); [|by apply IH]. simpl.
    apply NoDup_cons. split; [|by apply IH]. intros (y & E & Hy)%list_elem_of_fmap.
    apply Hn. rewrite E. apply list_elem_of_fmap_2.
    apply list_elem_of_In, List.filter_In in Hy as [Hy _]. by apply list_elem_of_In. }
  apply (sorted_behind newer_leb l1 x l2); [|done|].
  - intros y Hy Hyx.
    assert (Hxy : newer_leb x y = true).
    { clear -Hs Hy. induction l1 as [|z l1 IH]; simpl in Hs; apply StronglySorted_inv in Hs as [Hs Hz];
        [|by apply IH]. rewrite Forall_forall in Hz. by apply Hz. }
    assert (y = x) as -> by (apply (newer_antisym d); try done; apply Hin; set_solver).
    apply NoDup_app in Hndl as (_ & _ & [Hn _]%NoDup_cons). done.
  - apply newer_leb_iff. right. split; [reflexivity|lia].
Qed.

Lemma page_first d :
  _require_admission (nadm d) = Ok tt ->
  get_net_conn_events agent_id None None limit f d = (Ok (take page_size (all_events d)), d).
Proof.
  intros Hadm. unfold get_net_conn_events, reading. rewrite Hadm. do 2 f_equal. fold page_size.
  f_equal. unfold all_events. f_equal. apply List.filter_ext. intros r. simpl. by rewrite andb_true_r.
Qed.

Lemma walk_from fuel d l1 x l2 :
  NoDup (n_id <$> net_conn_events d) -> _require_admission (nadm d) = Ok tt ->
  all_events d = l1 ++ x :: l2 -> (length l2 < fuel)%nat -> walk fuel (Some x) d = l2.
Proof.
  intros Hnd Hadm. revert l1 x l2. induction fuel as [|fuel IH]; intros l1 x l2 Hall Hlen; [lia|].
  cbn [walk fmap option_fmap option_map]. rewrite (page_from d l1 x l2) by done. simpl.
  destruct (last (take page_size l2)) as [y|] eqn:E.
  - apply last_Some in E as [p E]. rewrite E.
    assert (Hl2 : l2 = (p ++ [y]) ++ drop page_size l2) by (by rewrite <- E, take_drop).
    rewrite (IH ((l1 ++ [x]) ++ p) y (drop page_size l2)); [by rewrite Hl2 at 2| |].
    + rewrite Hall, Hl2 at 1. by rewrite <- !app_assoc.
    + rewrite length_drop. assert (0 < page_size)%nat by (unfold page_size; lia).
      destruct l2; [by destruct p|simpl in *; lia].
  - apply last_None in E. destruct l2 as [|z l2]; [done|]. exfalso.
    assert (0 < page_size)%nat by (unfold page_size; lia). by destruct page_size; [lia|].
Qed.

(** C29: asking for page after page, each from the last row of the one before, yields
    every matching event once, newest first, with nothing skipped or repeated even
    among events of the same instant. *)
Theorem paging_lossless fuel d :
  NoDup (n_id <$> net_conn_events d) -> _require_admission (nadm d) = Ok tt ->
  (length (all_events d) < fuel)%nat -> walk fuel None d = all_events d.
Proof.
  intros Hnd Hadm Hlen. destruct fuel as [|fuel]; [lia|].
  cbn [walk fmap option_fmap option_map]. rewrite page_first by done. simpl.
  assert (0 < page_size)%nat as Hps by (unfold page_size; lia).
  destruct (last (take page_size (all_events d))) as [y|] eqn:E.
  - apply last_Some in E as [p E].
    assert (Hl : all_events d = p ++ y :: drop page_size (all_events d)).
    { rewrite <- (take_drop page_size (all_events d)) at 1. rewrite E. by rewrite <- app_assoc. }
    assert (length (all_events d) = length p + S (length (drop page_size (all_events d))))%nat as Hl'.
    { rewrite Hl at 1. rewrite length_app. done. }
    rewrite (walk_from fuel d p y (drop page_size (all_events d))); [|done..|lia].
    by rewrite take_drop.
  - apply last_None in E. destruct (all_events d); [done|]. by destruct page_size; [lia|].
Qed.
End Paging.

Definition sample_row (i : Z) (ts : Q) : nrow :=
  NRow i "a" (ConnEvent "open" ts "tcp" "" None "" None "" None "" None).

(** Three events of one instant and an older one, read two at a time. *)
Definition sample_ndb : ndb :=
  Ndb healthy [sample_row 1 5; sample_row 2 7; sample_row 3 7; sample_row 4 7] 4 [].

Lemma paging_lossless_witness :
  walk "a" (PageFilter None None None None) 2 5 None sample_ndb =
  [sample_row 4 7; sample_row 3 7; sample_row 2 7; sample_row 1 5].
Proof.
  assert (H : all_events "a" (PageFilter None None None None) sample_ndb =
    [sample_row 4 7; sample_row 3 7; sample_row 2 7; sample_row 1 5]) by (vm_compute; reflexivity).
  rewrite <- H.
  apply (paging_lossless "a" (PageFilter None None None None) 2 5 sample_ndb).
  - simpl. repeat (apply NoDup_cons; split; [set_solver|]). apply NoDup_nil_2.
  - reflexivity.
  - rewrite H. simpl. lia.
Defined.
