(* ===== verification/Alerts.v ===== *)
(** * E-mail alerts

    src/backend/app/services/alert_service.py, services/smtp_validate.py and
    routers/alerts.py.  [mailer] is the module's state: the throttling tables, the
    configuration cache, the alert_config row (in [m_db]) and the messages handed
    to aiosmtplib.  Readings of [time.monotonic()], the resolver's answers and the
    relay's answers are inputs. *)
From S2P Require Import Prelude Py Effects PyOps DbCore IpAddress Net Accounts.
Open Scope Z_scope.

(** pydantic's EmailStr and cryptography's Fernet.  [email_valid] returns the
    normalised address; [fernet_decrypt] is [None] on InvalidToken, ValueError and
    TypeError. *)
Class Mail := {
  email_valid : string -> option string;
  fernet_encrypt : string -> string -> string;
  fernet_decrypt : string -> option string
}.

Class MailLaws {K : Mail} : Prop := {
  decrypt_encrypt nonce v : fernet_decrypt (fernet_encrypt nonce v) = Some v;
  token_nonempty nonce v : fernet_encrypt nonce v <> ""%string
}.

Record message := Message {
  msg_subject : string; msg_body : string; msg_from : string; msg_to : string;
  msg_host : string; msg_port : Z; msg_user : option string; msg_pass : option pyval;
  msg_use_tls : bool; msg_start_tls : bool
}.

Record cfg_cache := CfgCache { c_value : option dict; c_ts : Q; c_cached : bool }.

Record mailer := Mailer {
  m_db : db;
  _last_sent : gmap string Q;
  _last_attempt : gmap string Q;
  _cfg_cache : cfg_cache;
  handed_over : list message
}.

Definition with_db (m : mailer) d := Mailer d (_last_sent m) (_last_attempt m) (_cfg_cache m) (handed_over m).
Definition with_sent (m : mailer) t := Mailer (m_db m) t (_last_attempt m) (_cfg_cache m) (handed_over m).
Definition with_attempt (m : mailer) t := Mailer (m_db m) (_last_sent m) t (_cfg_cache m) (handed_over m).
Definition with_cache (m : mailer) c := Mailer (m_db m) (_last_sent m) (_last_attempt m) c (handed_over m).
Definition with_handed (m : mailer) l := Mailer (m_db m) (_last_sent m) (_last_attempt m) (_cfg_cache m) l.

Definition mdb_op {A} : M db A -> M mailer A := zoom m_db (fun d m => with_db m d).

Definition COOLDOWN_SECONDS : Q := 300.
Definition FAILURE_BACKOFF_SECONDS : Q := 60.
Definition _CFG_TTL : Q := 30.
Definition MASKED_PASSWORD : string := "********".
Definition SECURITY_FLAGS : list (string * (bool * bool)) :=
  [("starttls", (false, true)); ("implicit_tls", (true, false)); ("none", (false, false))]%string.

(** ** SMTP failures: the exception is its chain of base classes *)

Definition _SAFE_SMTP_ERRORS : list (string * string) :=
  [("SMTPAuthenticationError", "SMTP authentication failed");
   ("SMTPSenderRefused", "SMTP sender rejected");
   ("SMTPRecipientsRefused", "SMTP recipient rejected");
   ("SMTPTimeoutError", "SMTP connection timed out");
   ("SMTPConnectError", "SMTP connection failed");
   ("SMTPServerDisconnected", "SMTP server disconnected")]%string.

Definition safe_smtp_error (mro : list string) : string :=
  match find (fun e => str_mem e.1 mro) _SAFE_SMTP_ERRORS with
  | Some e => e.2
  | None => "SMTP send failed"
  end.

(** ** smtp_validate.py *)

Definition ALLOWED_SMTP_PORTS : list Z := [25; 465; 587; 2525].

(** What [socket.getaddrinfo] answers, or that it never does. *)
Inductive dns_answer := Addresses (l : list string) | NoSuchHost | Hangs.

Definition _allowed_hosts (st : settings) : list string :=
  lower <$> List.filter str_nonempty (strip <$> split_on "," (smtp_allowed_hosts st)).

Definition _ip_blocked (value : string) : bool :=
  match ip_address value with
  | None => false
  | Some addr =>
      let addr := default addr (ipv4_mapped addr) in
      is_loopback addr || is_link_local addr || is_unspecified addr || is_multicast addr
      || is_reserved addr
  end.

(** [int(v)]. *)
Definition py_int (v : pyval) : res Z :=
  match v with
  | VInt z => Ok z
  | VBool b => Ok (Z.b2z b)
  | VFloat (Fin q) => Ok (q_trunc q)
  | VFloat NaN => Raise (ValueError "cannot convert float NaN to integer")
  | VFloat _ => Raise OverflowError
  | VStr s => match parse_int 10 s with
              | Some z => Ok z
              | None => Raise (ValueError "invalid literal for int()")
              end
  | _ => Raise TypeError
  end.

(** [(v or "").strip()]. *)
Definition stripped (v : pyval) : res string :=
  if truthy v then match v with VStr s => Ok (strip s) | _ => Raise AttributeError end
  else Ok ""%string.

Definition smtp_port (v : pyval) : res Z :=
  match py_int v with
  | Raise TypeError | Raise (ValueError _) => Raise (ValueError "Invalid SMTP port")
  | r => r
  end.

Definition bad_host (host : string) : bool :=
  contains "//" host ||
  existsb (fun c => char_in_str c host) [" "; ch 9; ch 13; ch 10; "/"; "@"]%char.

Definition validate_smtp_target (st : settings) (resolve : string -> Z -> dns_answer)
    (host port : pyval) : res unit :=
  host ← stripped host;
  if negb (str_nonempty host) then Raise (ValueError "SMTP host is required")
  else if bad_host host then Raise (ValueError "Invalid SMTP host")
  else
    port ← smtp_port port;
    if negb (existsb (Z.eqb port) ALLOWED_SMTP_PORTS)
    then Raise (ValueError "SMTP port must be one of [25, 465, 587, 2525]")
    else match _allowed_hosts st with
    | (_ :: _) as hosts =>
        if str_mem (lower host) hosts then mret tt
        else Raise (ValueError "SMTP host is not in GLASSOPS_SMTP_ALLOWED_HOSTS")
    | [] =>
        if _ip_blocked host then Raise (ValueError "SMTP host resolves to a blocked address")
        else match resolve host port with
        | NoSuchHost => Raise (ValueError "SMTP host does not resolve")
        | Hangs => Raise TimeoutError
        | Addresses l =>
            if existsb _ip_blocked l then Raise (ValueError "SMTP host resolves to a blocked address")
            else mret tt
        end
    end.

(** The bound on the worker thread. *)
Definition validate_smtp_target_async (st : settings) (resolve : string -> Z -> dns_answer)
    (host port : pyval) : res unit :=
  match validate_smtp_target st resolve host port with
  | Raise TimeoutError => Raise (ValueError "SMTP host validation timed out")
  | r => r
  end.

(** ** Throttling *)

Definition held (since : option Q) (window now : Q) : bool :=
  match since with Some t => q_ltb now (t + window) | None => false end.

(** The reading of [_now()] is taken only for a key. *)
Definition _suppression_reason (now : Q) (key : option string) (m : mailer) : option string :=
  match key with
  | None => None
  | Some key =>
      if negb (str_nonempty key) then None
      else if held (_last_sent m !! key) COOLDOWN_SECONDS now then Some "Cooldown active"%string
      else if held (_last_attempt m !! key) FAILURE_BACKOFF_SECONDS now
      then Some "Backing off after a failed send"%string
      else None
  end.

Definition real_key (key : option string) : option string :=
  match key with Some k => if str_nonempty k then Some k else None | None => None end.

(** The second check and the record behind it: no suspension in between. *)
Definition reserve (now now' : Q) (key : option string) : M mailer (option string) :=
  reason ← gets (_suppression_reason now key);
  match reason with
  | Some r => mret (Some r)
  | None =>
      _ ← match real_key key with
          | Some k => modify (fun m => with_attempt m (<[k := now']> (_last_attempt m)))
          | None => mret tt
          end;
      mret None
  end.

Definition accepted (now : Q) (key : option string) : M mailer unit :=
  match real_key key with
  | Some k => modify (fun m => with_sent m (<[k := now]> (_last_sent m)))
  | None => mret tt
  end.

(** ** Reading the configuration *)

Definition _clean (v : pyval) : string := match v with VStr s => strip s | _ => "" end.

Section Service.
Context `{K : Mail} (st : settings).

Definition _is_email (s : string) : bool :=
  match email_valid s with Some _ => true | None => false end.

Definition security_mode (config : dict) : option string :=
  match get "security" config with
  | VNone =>
      match get_or "use_tls" (VBool false) config, get_or "start_tls" (VBool true) config with
      | VBool true, VBool true => None
      | VBool true, VBool false => Some "implicit_tls"%string
      | VBool false, VBool start => Some (if start then "starttls" else "none")%string
      | _, _ => None
      end
  | VStr mode => match dict_get mode SECURITY_FLAGS with Some _ => Some mode | None => None end
  | _ => None
  end.

Definition resolve_sender (config : dict) : option string :=
  let from_email := _clean (get "from_email" config) in
  if str_nonempty from_email then if _is_email from_email then Some from_email else None
  else
    let username := _clean (get "username" config) in
    if _is_email username then Some username else None.

Definition _encrypt (nonce value : string) : string :=
  if str_nonempty value then fernet_encrypt nonce value else "".

Definition _decrypt (v : pyval) : string :=
  match v with
  | VStr s => if str_nonempty s then default "" (fernet_decrypt s) else ""
  | _ => ""
  end.

(** What [get_smtp_config] makes of the stored row. *)
Definition read_config (raw : dict) : dict :=
  let config := dict_del "password_enc" raw in
  match dict_get "password_enc" raw with
  | None => config
  | Some password_enc =>
      let decrypted := _decrypt password_enc in
      let config := dict_set "password" (VStr decrypted) config in
      if str_nonempty decrypted then config
      else dict_set "_decrypt_failed" (VBool true) config
  end.

(** The deep copies make the cached value the caller's own. *)
Definition get_smtp_config (now : Q) : M mailer (option dict) :=
  c ← gets _cfg_cache;
  if c_cached c && q_ltb (now - c_ts c) _CFG_TTL then mret (c_value c)
  else
    raw ← mdb_op get_alert_config_row;
    let config := match raw with None => None | Some raw => Some (read_config raw) end in
    _ ← modify (fun m => with_cache m (CfgCache config now true));
    mret config.

Definition _invalidate_config_cache : M mailer unit :=
  modify (fun m => with_cache m (CfgCache (c_value (_cfg_cache m)) (c_ts (_cfg_cache m)) false)).

(** ** Saving it *)

(** The row [save_smtp_config] writes over [existing]. *)
Definition merged_row (nonce : string) (existing : option dict) (config : dict) : res dict :=
  let password := get_or "password" (VStr "") config in
  let clear_password := truthy (get_or "clear_password" (VBool false) config) in
  let store := dict_del "clear_password" (dict_del "password" config) in
  if clear_password then Ok store
  else if truthy password && negb (py_key_eq password (VStr MASKED_PASSWORD)) then
    match password with
    | VStr s => Ok (dict_set "password_enc" (VStr (_encrypt nonce s)) store)
    | _ => Raise AttributeError
    end
  else match existing with
  | Some raw =>
      match dict_get "password_enc" raw with
      | Some enc => Ok (dict_set "password_enc" enc store)
      | None => Ok store
      end
  | None => Ok store
  end.

Definition save_smtp_config (nonce : string) (config : dict) : M mailer unit :=
  _ ← mdb_op (tx (existing ← gets alert_config;
                  store ← lift_res (merged_row nonce existing config);
                  modify (fun d => with_alert_config d (Some store))));
  _invalidate_config_cache.

(** ** Sending *)

(** Everything [send_alert_email] decides from the configuration alone. *)
Record plan := Plan {
  pl_mode : bool * bool; pl_sender : string; pl_recipient : string;
  pl_user : option string; pl_pass : option pyval; pl_config : dict
}.

Definition text_or_none (s : string) : option string := if str_nonempty s then Some s else None.
Definition val_or_none (v : pyval) : option pyval := if truthy v then Some v else None.

(** [not config or not config.get("host")]. *)
Definition unconfigured (config : option dict) : bool :=
  match config with Some c => negb (truthy (get "host" c)) | None => true end.

Definition prepare (config : option dict) : string + plan :=
  if unconfigured config then inl "SMTP not configured"%string
  else
    let config := default [] config in
    if truthy (get "_decrypt_failed" config)
    then inl "Stored SMTP password could not be decrypted — re-enter it"%string
    else match security_mode config with
    | None => inl "SMTP security mode is ambiguous — re-select it"%string
    | Some mode =>
        match resolve_sender config with
        | None => inl "No valid From Email is configured"%string
        | Some sender =>
            let recipient := _clean (get "to_email" config) in
            if negb (_is_email recipient) then inl "No valid recipient is configured"%string
            else
              let username := text_or_none (_clean (get "username" config)) in
              let password := val_or_none (get "password" config) in
              if negb (Bool.eqb (bool_decide (username = None))
                                (match password with None => true | _ => false end))
              then inl "SMTP credentials are incomplete — set both a username and a password, or neither"%string
              else inr (Plan (default (false, false) (dict_get mode SECURITY_FLAGS)) sender recipient
                          username password config)
        end
    end.

(** The answers the outside world gives to one send: the resolver, and the
    relay's failure as its class chain, if it fails. *)
Record world := World {
  w_resolve : string -> Z -> dns_answer;
  w_relay : message -> option (list string)
}.

(** The readings of [_now()] in the order they are taken. *)
Record mail_clock := MailClock { t_entry : Q; t_cfg : Q; t_check : Q; t_record : Q; t_sent : Q }.

Inductive send_result := SendOk | SendError (error : string).

Definition compose (subject body : string) (p : plan) (port : Z) : message :=
  Message subject body (pl_sender p) (pl_recipient p) (_clean (get "host" (pl_config p))) port
    (pl_user p) (pl_pass p) (pl_mode p).1 (pl_mode p).2.

Definition deliver (w : world) (t : Q) (msg : message) (key : option string) : M mailer send_result :=
  _ ← modify (fun m => with_handed m (handed_over m ++ [msg]));
  match w_relay w msg with
  | Some mro => mret (SendError (safe_smtp_error mro))
  | None => _ ← accepted t key; mret SendOk
  end.

Definition send_alert_email (w : world) (ck : mail_clock) (subject body : string)
    (key : option string) : M mailer send_result :=
  reason ← gets (_suppression_reason (t_entry ck) key);
  match reason with
  | Some r => mret (SendError r)
  | None =>
      config ← get_smtp_config (t_cfg ck);
      match prepare config with
      | inl e => mret (SendError e)
      | inr p =>
          reason ← reserve (t_check ck) (t_record ck) key;
          match reason with
          | Some r => mret (SendError r)
          | None =>
              let port := get_or "port" (VInt 587) (pl_config p) in
              match validate_smtp_target_async st (w_resolve w) (get "host" (pl_config p)) port with
              | Raise (ValueError _) => mret (SendError "SMTP host not allowed")
              | Raise e => raise e
              | Ok _ =>
                  match py_int port with
                  | Raise _ => mret (SendError (safe_smtp_error []))
                  | Ok port => deliver w (t_sent ck) (compose subject body p port) key
                  end
              end
          end
      end
  end.

(** ** From a metric to a message *)

(** [metrics.get(section, {}).get(field, 0)]. *)
Definition reading_of (metrics : dict) (section field : string) : res pyval :=
  part ← py_get (VDict metrics) section (VDict []);
  py_get part field (VInt 0).

(** One [if value >= thresholds.get(name, default)] and its line. *)
Definition crossed (thresholds : pyval) (name : string) (dflt : Z) (label : string) (value : pyval)
    : res (list string) :=
  limit ← py_get thresholds name (VInt dflt);
  over ← py_ge value limit;
  if (over : bool) then
    t ← fixed1 value;
    mret [(label ++ " critical: " ++ t ++ "%")%string]
  else mret [].

Definition alert_lines (config metrics : dict) : res (list string) :=
  let thresholds := py_or (get "thresholds" config) (VDict []) in
  cpu ← reading_of metrics "cpu" "percent_total";
  mem ← reading_of metrics "memory" "percent";
  disk ← reading_of metrics "disk" "percent";
  l1 ← crossed thresholds "cpu_crit" 90 "CPU" cpu;
  l2 ← crossed thresholds "mem_crit" 90 "Memory" mem;
  l3 ← crossed thresholds "disk_crit" 95 "Disk" disk;
  mret (l1 ++ l2 ++ l3).

Definition alert_key (agent_id : string) : string := ("alert-" ++ agent_id)%string.

Definition check_and_alert (w : world) (now : Q) (ck : mail_clock) (agent_id : string)
    (metrics : dict) : M mailer unit :=
  config ← get_smtp_config now;
  match config with
  | None => mret tt
  | Some config =>
      if negb (truthy (get "host" config)) || negb (truthy (get "to_email" config)) then mret tt
      else
        alerts ← lift_res (alert_lines config metrics);
        match alerts with
        | [] => mret tt
        | _ =>
            let body := ("Agent: " ++ agent_id ++ newline ++ newline ++ join newline alerts)%string in
            _ ← send_alert_email w ck ("[GlassOps] Alert — " ++ agent_id)%string body
                  (Some (alert_key agent_id));
            mret tt
        end
  end.

(** ** routers/alerts.py *)

(** The [SmtpConfig] model after the type checks of its fields. *)
Record thresholds := Thresholds { cpu_crit : Q; mem_crit : Q; disk_crit : Q }.
Record smtp_config := SmtpConfig {
  sc_host : string; sc_port : Z; sc_username : string; sc_password : string;
  sc_clear_password : bool; sc_from_email : string; sc_to_email : string;
  sc_security : option string; sc_use_tls : bool; sc_start_tls : bool;
  sc_thresholds : thresholds
}.

Definition in_percent (q : Q) : bool := q_leb 0 q && q_leb q 100.

Definition EmailThresholds_ok (t : thresholds) : bool :=
  in_percent (cpu_crit t) && in_percent (mem_crit t) && in_percent (disk_crit t).

(** The field validators in the order of the fields. *)
Definition field_validators (b : smtp_config) : bool :=
  negb (sc_clear_password b && str_nonempty (sc_password b)) &&
  match sc_security b with
  | None => negb (sc_start_tls b && sc_use_tls b)
  | Some mode => match dict_get mode SECURITY_FLAGS with Some _ => true | None => false end
  end &&
  EmailThresholds_ok (sc_thresholds b).

Definition _normalise (b : smtp_config) (to_email : string) : option smtp_config :=
  let mode := match sc_security b with
              | Some m => m
              | None => if sc_use_tls b then "implicit_tls"
                        else if sc_start_tls b then "starttls" else "none"
              end%string in
  let flags := default (false, false) (dict_get mode SECURITY_FLAGS) in
  let from_email := strip (sc_from_email b) in
  if str_nonempty from_email && negb (_is_email from_email) then None
  else Some (SmtpConfig (strip (sc_host b)) (sc_port b) (sc_username b) (sc_password b)
         (sc_clear_password b) from_email to_email (Some mode) flags.1 flags.2 (sc_thresholds b)).

Definition model_validate (b : smtp_config) : option smtp_config :=
  match email_valid (sc_to_email b) with
  | None => None
  | Some to_email => if field_validators b then _normalise b to_email else None
  end.

Definition model_dump (b : smtp_config) : dict :=
  [("host", VStr (sc_host b)); ("port", VInt (sc_port b)); ("username", VStr (sc_username b));
   ("password", VStr (sc_password b)); ("clear_password", VBool (sc_clear_password b));
   ("from_email", VStr (sc_from_email b)); ("to_email", VStr (sc_to_email b));
   ("security", match sc_security b with Some m => VStr m | None => VNone end);
   ("use_tls", VBool (sc_use_tls b)); ("start_tls", VBool (sc_start_tls b));
   ("thresholds", VDict [("cpu_crit", VFloat (Fin (cpu_crit (sc_thresholds b))));
                         ("mem_crit", VFloat (Fin (mem_crit (sc_thresholds b))));
                         ("disk_crit", VFloat (Fin (disk_crit (sc_thresholds b))))])]%string.

(** POST /api/alerts/config, behind [require_admin]. *)
Definition set_config (w : world) (nonce : string) (b : smtp_config) : M mailer unit :=
  match model_validate b with
  | None => raise (HTTPException 422 "")
  | Some b =>
      let config := model_dump b in
      match resolve_sender config with
      | None => raise (HTTPException 400
          "A From Email is required (or a username that is itself a valid email address)")
      | Some _ =>
          match validate_smtp_target_async st (w_resolve w) (VStr (sc_host b)) (VInt (sc_port b)) with
          | Raise (ValueError e) => raise (HTTPException 400 e)
          | Raise e => raise e
          | Ok _ => save_smtp_config nonce config
          end
      end
  end.

(** GET /api/alerts/config, behind [require_admin]. *)
Definition public_config (config : dict) : dict :=
  let safe := List.filter (fun kv => negb (startswith "_" kv.1)) config in
  let safe := dict_set "password"
    (VStr (if truthy (get "password" config) then MASKED_PASSWORD else "")) safe in
  let safe := dict_set "password_decrypt_failed" (VBool (truthy (get "_decrypt_failed" config))) safe in
  let mode := security_mode config in
  let safe := dict_set "security" (match mode with Some m => VStr m | None => VNone end) safe in
  let safe := dict_set "security_ambiguous" (VBool (bool_decide (mode = None))) safe in
  let safe := match mode with
    | Some m =>
        let flags := default (false, false) (dict_get m SECURITY_FLAGS) in
        dict_set "start_tls" (VBool flags.2) (dict_set "use_tls" (VBool flags.1) safe)
    | None => safe
    end in
  fold_left (fun d kv => dict_set kv.1 kv.2 d) safe [("configured"%string, VBool true)].

Definition get_config (now : Q) : M mailer dict :=
  config ← get_smtp_config now;
  mret match config with
       | None | Some [] => [("configured"%string, VBool false)]
       | Some config => public_config config
       end.

(** POST /api/alerts/test: no key, so no throttle. *)
Definition test_email (w : world) (ck : mail_clock) : M mailer unit :=
  r ← send_alert_email w ck "[GlassOps] Test Alert"
        "This is a test email from GlassOps. If you received this, SMTP is configured correctly." None;
  match r with
  | SendOk => mret tt
  | SendError e => raise (HTTPException 400 e)
  end.

End Service.

(** ** Throttling under any interleaving *)

Inductive throttle_op :=
| Reserve (t t' : Q) (key : string)
| Accept (t : Q) (key : string).

Inductive mark := Attempt (t : Q) | Accepted (t : Q).

(** What one of the two critical stretches of a send leaves in the log. *)
Definition throttle_step (o : throttle_op) (m : mailer) : mailer * list (string * mark) :=
  match o with
  | Reserve t t' key =>
      match reserve t t' (Some key) m with
      | (Ok None, m) => (m, [(key, Attempt t')])
      | (_, m) => (m, [])
      end
  | Accept t key => (snd (accepted t (Some key) m), [(key, Accepted t)])
  end.

Fixpoint throttle_run (ops : list throttle_op) (m : mailer) : list (string * mark) :=
  match ops with
  | [] => []
  | o :: ops => let '(m, l) := throttle_step o m in l ++ throttle_run ops m
  end.

(** The clock is monotonic and keys are not empty. *)
Fixpoint ticking (c : Q) (ops : list throttle_op) : Prop :=
  match ops with
  | [] => True
  | Reserve t t' key :: ops => key <> ""%string /\ (c <= t)%Q /\ (t <= t')%Q /\ ticking t' ops
  | Accept t key :: ops => key <> ""%string /\ (c <= t)%Q /\ ticking t ops
  end.

Definition spaced (a b : string * mark) : Prop :=
  a.1 = b.1 ->
  match a.2, b.2 with
  | Attempt t, Attempt u => (t + FAILURE_BACKOFF_SECONDS <= u)%Q
  | Accepted t, Attempt u => (t + COOLDOWN_SECONDS <= u)%Q
  | _, Accepted _ => True
  end.

Definition remembered (c : Q) (m : mailer) (a : string * mark) : Prop :=
  match a.2 with
  | Attempt t => (t <= c)%Q /\ exists s, _last_attempt m !! a.1 = Some s /\ (t <= s)%Q
  | Accepted t => (t <= c)%Q /\ exists s, _last_sent m !! a.1 = Some s /\ (t <= s)%Q
  end.

Lemma nonempty_true s : s <> ""%string -> str_nonempty s = true.
Proof. intros H. unfold str_nonempty. by destruct (String.eqb_spec s ""). Qed.

Lemma held_false s w now t :
  held (Some s) w now = false -> (t <= s)%Q -> (t + w <= now)%Q.
Proof. simpl. intros H. destruct (q_ltb_spec now (s + w)); [done|]. lra. Qed.

(** A reservation that goes through is late enough for everything remembered. *)
Lemma reserve_spaced c m t t' key m' a :
  key <> ""%string -> (t <= t')%Q -> remembered c m a ->
  reserve t t' (Some key) m = (Ok None, m') -> spaced a (key, Attempt t').
Proof.
  intros Hk Ht Ha. unfold reserve, _suppression_reason, mbind, M_bind, gets.
  rewrite (nonempty_true _ Hk). simpl.
  destruct (held (_last_sent m !! key) _ _) eqn:H1; [done|].
  destruct (held (_last_attempt m !! key) _ _) eqn:H2; [done|]. intros _ Hkey. simpl in *. subst key.
  unfold remembered in Ha. destruct a as [k [u|u]]; simpl in *; destruct Ha as [_ (s & Hs & Hle)].
  - rewrite Hs in H2. pose proof (held_false _ _ _ _ H2 Hle). lra.
  - rewrite Hs in H1. pose proof (held_false _ _ _ _ H1 Hle). lra.
Qed.

Lemma reserve_state t t' key m r m' :
  key <> ""%string -> reserve t t' (Some key) m = (r, m') ->
  (exists e, r = Ok (Some e) /\ m' = m) \/
  r = Ok None /\ m' = with_attempt m (<[key := t']> (_last_attempt m)).
Proof.
  intros Hk. unfold reserve, mbind, M_bind, gets, real_key. rewrite (nonempty_true _ Hk).
  destruct (_suppression_reason _ _ _) as [e|]; simpl; intros [= <- <-]; [left; by exists e|by right].
Qed.

Lemma remembered_later c c' m a : (c <= c')%Q -> remembered c m a -> remembered c' m a.
Proof. unfold remembered. destruct a.2; intros Hc [H1 H2]; split; [lra|done|lra|done]. Qed.

Lemma remembered_attempt c c' m key a :
  (c <= c')%Q -> remembered c m a ->
  remembered c' (with_attempt m (<[key := c']> (_last_attempt m))) a.
Proof.
  unfold remembered. destruct a as [k [u|u]]; simpl; intros Hc [H1 (s & H2 & H3)]; (split; [lra|]);
    [|by exists s].
  rewrite lookup_insert. case_decide; [exists c'; split; [done|lra]|by exists s].
Qed.

Lemma remembered_sent c c' m key a :
  (c <= c')%Q -> remembered c m a ->
  remembered c' (with_sent m (<[key := c']> (_last_sent m))) a.
Proof.
  unfold remembered. destruct a as [k [u|u]]; simpl; intros Hc [H1 (s & H2 & H3)]; (split; [lra|]);
    [by exists s|].
  rewrite lookup_insert. case_decide; [exists c'; split; [done|lra]|by exists s].
Qed.

Definition all_spaced (seen l : list (string * mark)) : Prop :=
  Forall (fun b => Forall (fun a => spaced a b) seen) l /\ StronglySorted spaced l.

Lemma all_spaced_cons seen b l :
  all_spaced (b :: seen) l -> Forall (fun a => spaced a b) seen -> all_spaced seen (b :: l).
Proof.
  intros [H1 H2] Hb. rewrite Forall_forall in H1.
  split; (constructor; [done|]); apply Forall_forall; intros x Hx.
  - by apply (Forall_inv_tail (H1 x Hx)).
  - by apply (Forall_inv (H1 x Hx)).
Qed.

Lemma throttle_sorted ops c m seen :
  Forall (remembered c m) seen -> ticking c ops -> all_spaced seen (throttle_run ops m).
Proof.
  revert c m seen. induction ops as [|o ops IH]; intros c m seen Hs Ht; [by split; constructor|].
  destruct o as [t t' key|t key]; simpl in Ht; cbn [throttle_run throttle_step].
  - destruct Ht as (Hk & Hc & Ht & Hops). destruct (reserve t t' (Some key) m) as [r m'] eqn:E.
    pose proof (reserve_state _ _ _ _ _ _ Hk E) as [(e & -> & ->)|[-> ->]]; simpl.
    + apply (IH t'); [|done]. eapply Forall_impl; [exact Hs|]. intros a. apply remembered_later. lra.
    + apply all_spaced_cons.
      * apply (IH t'); [|done]. constructor.
        { split; [lra|]. exists t'. simpl. rewrite lookup_insert_eq. split; [done|lra]. }
        eapply Forall_impl; [exact Hs|]. intros a. apply remembered_attempt. lra.
      * eapply Forall_impl; [exact Hs|]. intros a Ha. by eapply reserve_spaced.
  - destruct Ht as (Hk & Hc & Hops). unfold accepted, real_key. rewrite (nonempty_true _ Hk).
    apply all_spaced_cons.
    + apply (IH t); [|done]. constructor.
      { split; [lra|]. exists t. simpl. rewrite lookup_insert_eq. split; [done|lra]. }
      eapply Forall_impl; [exact Hs|]. intros a. apply remembered_sent. lra.
    + apply Forall_forall. intros a _ _. simpl. by destruct a.2.
Qed.

(** However the sends of any number of tasks interleave, two attempts for the
    same key are at least a minute apart, and none starts within five minutes of an
    accepted message. *)
Theorem alerts_throttled ops c m : ticking c ops -> StronglySorted spaced (throttle_run ops m).
Proof. intros H. by apply (throttle_sorted ops c m []). Qed.

(** ** What leaves the server *)

Section SendFacts.
Context `{K : Mail} (st : settings).

(** A target that passes validation uses one of the SMTP ports and is either on
    the operator's list or, with no list, resolves to addresses none of which is
    loopback, link-local, unspecified, multicast or reserved. *)
Theorem smtp_target_safe resolve host port :
  validate_smtp_target st resolve host port = Ok tt ->
  exists h p, host = VStr h /\ py_int port = Ok p /\ In p ALLOWED_SMTP_PORTS /\
    strip h <> ""%string /\
    match _allowed_hosts st with
    | [] => exists l, resolve (strip h) p = Addresses l /\ _ip_blocked (strip h) = false /\
              Forall (fun a => _ip_blocked a = false) l
    | hosts => In (lower (strip h)) hosts
    end.
Proof.
  unfold validate_smtp_target, mbind, res_bind, stripped, str_nonempty.
  destruct (truthy host); [|done]. destruct host as [| | | |h| |]; try done.
  destruct (String.eqb_spec (strip h) ""); [done|]. destruct (bad_host (strip h)); [done|]. cbn [negb].
  unfold smtp_port. destruct (py_int port) as [p|[]] eqn:Ep; try done.
  destruct (existsb (Z.eqb p) ALLOWED_SMTP_PORTS) eqn:Hp; [|done]. cbn [negb].
  apply existsb_exists in Hp as (p' & Hin & <-%Z.eqb_eq).
  intros H. exists h, p. split; [done|]. split; [done|]. split; [exact Hin|]. split; [done|].
  destruct (_allowed_hosts st) as [|h0 hosts].
  - destruct (_ip_blocked (strip h)); [done|]. destruct (resolve (strip h) p) as [l| |]; try done.
    destruct (existsb _ip_blocked l) eqn:E; [done|]. exists l. split; [done|]. split; [done|].
    apply Forall_forall. intros a Ha. apply not_true_iff_false. intros Hb.
    apply not_true_iff_false in E. apply E, existsb_exists. exists a.
    split; [by apply list_elem_of_In|done].
  - destruct (str_mem _ _) eqn:E; [|done]. unfold str_mem in E.
    by apply existsb_exists in E as (x & Hx & ->%String.eqb_eq).
Qed.

(** What a message owes to the configuration it was built from. *)
Record conforms (w : world) (config : dict) (msg : message) : Prop := {
  cf_mode : exists mode flags, security_mode config = Some mode /\
    dict_get mode SECURITY_FLAGS = Some flags /\ (msg_use_tls msg, msg_start_tls msg) = flags;
  cf_decrypted : truthy (get "_decrypt_failed" config) = false;
  cf_from : resolve_sender config = Some (msg_from msg);
  cf_to : _is_email (msg_to msg) = true;
  cf_auth : msg_user msg = None <-> msg_pass msg = None;
  cf_target : exists port, validate_smtp_target st (w_resolve w) (get "host" config) port = Ok tt /\
    py_int port = Ok (msg_port msg) /\ msg_host msg = _clean (get "host" config)
}.

Lemma security_mode_flags config mode :
  security_mode config = Some mode -> exists flags, dict_get mode SECURITY_FLAGS = Some flags.
Proof.
  unfold security_mode. destruct (get "security" config) as [| | | |m| |]; try done.
  - destruct (get_or "use_tls" _ _) as [|[]| | | | |]; try done;
      destruct (get_or "start_tls" _ _) as [|[]| | | | |]; try done; intros [= <-]; by eexists.
  - destruct (dict_get m SECURITY_FLAGS) as [f|] eqn:E; [|done]. intros [= <-]. by exists f.
Qed.

Lemma prepare_plan config p :
  prepare config = inr p ->
  config = Some (pl_config p) /\
  (exists mode, security_mode (pl_config p) = Some mode /\
                dict_get mode SECURITY_FLAGS = Some (pl_mode p)) /\
  truthy (get "_decrypt_failed" (pl_config p)) = false /\
  resolve_sender (pl_config p) = Some (pl_sender p) /\ _is_email (pl_recipient p) = true /\
  (pl_user p = None <-> pl_pass p = None).
Proof.
  unfold prepare, unconfigured. destruct config as [c|]; [|done]. cbn [from_option id].
  destruct (truthy (get "host" c)); [|done]. cbn [negb].
  destruct (truthy (get "_decrypt_failed" c)) eqn:Hd; [done|].
  destruct (security_mode c) as [mode|] eqn:Hm; [|done].
  destruct (security_mode_flags c mode Hm) as [flags Hf].
  destruct (resolve_sender c) as [sender|] eqn:Hs; [|done].
  destruct (_is_email _) eqn:He; [|done]. cbn [negb]. rewrite Hf.
  destruct (Bool.eqb _ _) eqn:Ha; [|done]. intros [= <-]. simpl.
  split; [done|]. split; [by exists mode|]. repeat (split; [done|]).
  apply Bool.eqb_prop in Ha. case_bool_decide as Hu; destruct (val_or_none _); naive_solver.
Qed.

Lemma reserve_handed t t' key m : handed_over (snd (reserve t t' key m)) = handed_over m.
Proof.
  unfold reserve, mbind, M_bind, gets. destruct (_suppression_reason _ _ _); [done|].
  by destruct (real_key key).
Qed.

Lemma get_smtp_config_handed t m : handed_over (snd (get_smtp_config t m)) = handed_over m.
Proof.
  unfold get_smtp_config, mbind, M_bind, gets. destruct (_ && _); [done|].
  unfold mdb_op, zoom, get_alert_config_row, reading. by destruct (_require_admission _).
Qed.

Lemma deliver_handed w t msg key m :
  handed_over (snd (deliver w t msg key m)) = handed_over m ++ [msg].
Proof.
  unfold deliver, mbind, M_bind, modify. destruct (w_relay w msg); [done|].
  unfold accepted. by destruct (real_key key).
Qed.

(** C33: one call hands at most one message to the relay, and only one whose transport
    mode is stated unambiguously, whose sender and recipient are addresses, whose
    credentials are complete or absent, and whose target was validated in that very
    call; every other outcome sends nothing. *)
Theorem send_conforms w ck subject body key m :
  let m' := snd (send_alert_email st w ck subject body key m) in
  handed_over m' = handed_over m \/
  exists config msg,
    fst (get_smtp_config (t_cfg ck) m) = Ok (Some config) /\
    handed_over m' = handed_over m ++ [msg] /\ conforms w config msg.
Proof.
  cbn zeta.
  set (P h := h = handed_over m \/ exists config msg,
    fst (get_smtp_config (t_cfg ck) m) = Ok (Some config) /\
    h = handed_over m ++ [msg] /\ conforms w config msg).
  change (P (handed_over (snd (send_alert_email st w ck subject body key m)))).
  unfold send_alert_email. unfold mbind at 1, M_bind at 1, gets at 1.
  destruct (_suppression_reason (t_entry ck) key m); [by left|].
  unfold mbind at 1, M_bind at 1. pose proof (get_smtp_config_handed (t_cfg ck) m) as Hg.
  destruct (get_smtp_config (t_cfg ck) m) as [[config|e] m1] eqn:Eg; [|by left]. simpl in Hg.
  destruct (prepare config) as [e|p] eqn:Ep; [by left|].
  apply prepare_plan in Ep as (-> & (mode & Hm & Hf) & Hd & Hs & Hr & Ha).
  unfold mbind at 1, M_bind at 1. pose proof (reserve_handed (t_check ck) (t_record ck) key m1) as Hres.
  destruct (reserve _ _ key m1) as [[[r|]|e] m2]; [left; by rewrite <- Hg| |left; by rewrite <- Hg].
  simpl in Hres. rewrite Hg in Hres. unfold validate_smtp_target_async.
  destruct (validate_smtp_target st _ _ _) as [[]|[]] eqn:Ev; try (by left).
  destruct (py_int _) as [port|] eqn:Ei; [|by left].
  right. exists (pl_config p). eexists. rewrite deliver_handed, Hres. split; [by rewrite ?Eg|].
  split; [done|]. split; simpl; try done.
  - exists mode, (pl_mode p). by rewrite <- surjective_pairing.
  - by eexists.
Qed.
End SendFacts.

(** ** The stored password *)

Section PasswordFacts.
Context `{L : MailLaws}.

(** What a row says about the password: its text and the failure flag. *)
Definition recovered (enc : option pyval) : pyval * pyval :=
  match enc with
  | None => (VNone, VNone)
  | Some enc =>
      let d := _decrypt enc in (VStr d, if str_nonempty d then VNone else VBool true)
  end.

Definition old_marker (row : option dict) : option pyval :=
  match row with Some raw => dict_get "password_enc" raw | None => None end.

Lemma read_config_get k raw :
  k <> "password_enc"%string -> k <> "password"%string -> k <> "_decrypt_failed"%string ->
  get k (read_config raw) = get k raw.
Proof.
  intros H1 H2 H3. unfold read_config, get. destruct (dict_get "password_enc" raw) as [enc|].
  - destruct (str_nonempty _); [|rewrite dict_get_set_ne by done];
      rewrite dict_get_set_ne by done; by rewrite dict_get_del_ne.
  - by rewrite dict_get_del_ne.
Qed.

Lemma read_config_password raw :
  dict_get "password" raw = None -> dict_get "_decrypt_failed" raw = None ->
  (get "password" (read_config raw), get "_decrypt_failed" (read_config raw)) =
  recovered (dict_get "password_enc" raw).
Proof.
  intros H1 H2. unfold read_config, get, recovered. destruct (dict_get "password_enc" raw) as [enc|].
  - destruct (str_nonempty (_decrypt enc)).
    + rewrite dict_get_set_eq, dict_get_set_ne, dict_get_del_ne by done. by rewrite H2.
    + by rewrite dict_get_set_ne, !dict_get_set_eq by done.
  - rewrite !dict_get_del_ne by done. by rewrite H1, H2.
Qed.

(** The fields a save carries over unread. *)
Definition carried (k : string) : Prop :=
  k <> "password"%string /\ k <> "clear_password"%string /\ k <> "password_enc"%string.

Lemma merged_row_spec nonce existing config row :
  merged_row nonce existing config = Ok row ->
  (forall k, carried k -> dict_get k row = dict_get k config) /\ dict_get "password" row = None.
Proof.
  set (store := dict_del "clear_password" (dict_del "password" config)).
  assert (Hst : forall k, carried k -> dict_get k store = dict_get k config).
  { intros k (H1 & H2 & _). unfold store. by rewrite !dict_get_del_ne. }
  assert (Hpw : dict_get "password" store = None).
  { unfold store. by rewrite dict_get_del_ne, dict_get_del_eq. }
  assert (Hset : forall v, (forall k, carried k -> dict_get k (dict_set "password_enc" v store) = dict_get k config) /\
                           dict_get "password" (dict_set "password_enc" v store) = None).
  { intros v. split; [|by rewrite dict_get_set_ne].
    intros k Hk. rewrite <- Hst by done. by rewrite dict_get_set_ne by apply Hk. }
  unfold merged_row. fold store.
  destruct (truthy (get_or "clear_password" _ _)); [by intros [= <-]|].
  destruct (_ && _).
  - destruct (get_or "password" _ _); try done. intros [= <-]. apply Hset.
  - destruct existing as [raw|]; [|by intros [= <-]].
    destruct (dict_get "password_enc" raw); [|by intros [= <-]]. intros [= <-]. apply Hset.
Qed.

(** The marker a save leaves. *)
Definition new_marker (nonce : string) (b : smtp_config) (existing : option dict) : option pyval :=
  if sc_clear_password b then None
  else if str_nonempty (sc_password b) && negb (String.eqb (sc_password b) MASKED_PASSWORD)
  then Some (VStr (_encrypt nonce (sc_password b)))
  else old_marker existing.

Lemma merged_row_marker nonce existing b :
  exists row, merged_row nonce existing (model_dump b) = Ok row /\
    dict_get "password_enc" row = new_marker nonce b existing.
Proof.
  assert (Hno : dict_get "password_enc"
    (dict_del "clear_password" (dict_del "password" (model_dump b))) = None) by reflexivity.
  unfold merged_row, new_marker, old_marker.
  change (get_or "clear_password" (VBool false) (model_dump b)) with (VBool (sc_clear_password b)).
  change (get_or "password" (VStr "") (model_dump b)) with (VStr (sc_password b)). cbn [truthy py_key_eq].
  destruct (sc_clear_password b); [by eexists|].
  change (negb (String.eqb (sc_password b) EmptyString)) with (str_nonempty (sc_password b)).
  destruct (_ && _); [eexists; split; [done|]; apply dict_get_set_eq|].
  destruct existing as [raw|]; [|by eexists].
  destruct (dict_get "password_enc" raw) as [enc|]; [|by eexists].
  eexists. split; [done|]. apply dict_get_set_eq.
Qed.

(** After a save, reading the configuration gives back the saved fields and: no
    password after an explicit removal; the new password when one was given; and
    otherwise exactly what the previous row held, a failed decryption included. *)
Theorem saved_config_reads_back nonce b now m m' :
  save_smtp_config nonce (model_dump b) m = (Ok tt, m') ->
  exists c,
    fst (get_smtp_config now m') = Ok (Some c) /\
    (forall k, carried k -> k <> "_decrypt_failed"%string -> get k c = get k (model_dump b)) /\
    (get "password" c, get "_decrypt_failed" c) =
      if sc_clear_password b then (VNone, VNone)
      else if str_nonempty (sc_password b) && negb (String.eqb (sc_password b) MASKED_PASSWORD)
      then (VStr (sc_password b), VNone)
      else recovered (old_marker (alert_config (m_db m))).
Proof.
  unfold save_smtp_config, mdb_op, zoom, transaction, rolled_back, mbind, M_bind, gets, lift_res, modify.
  destruct (_require_admission (adm (m_db m))) as [[]|] eqn:Ha; [|done].
  destruct (merged_row_marker nonce (alert_config (m_db m)) b) as (row & Hrow & Hmk).
  rewrite Hrow. cbn. intros [= <-]. exists (read_config row).
  destruct (merged_row_spec _ _ _ _ Hrow) as [Hget Hpw].
  split.
  { unfold get_smtp_config, mbind, M_bind, gets, mdb_op, zoom, get_alert_config_row, reading. simpl.
    by rewrite Ha. }
  split; [intros k Hk Hf; rewrite read_config_get by (try apply Hk; done); unfold get; by rewrite Hget|].
  rewrite read_config_password, Hmk; [|done|].
  - unfold new_marker. destruct (sc_clear_password b); [done|].
    destruct (str_nonempty (sc_password b)) eqn:Hne; [|done].
    destruct (String.eqb _ MASKED_PASSWORD); [done|]. cbn [andb negb].
    unfold recovered, _decrypt, _encrypt. rewrite Hne.
    rewrite (nonempty_true _ (token_nonempty _ _)), decrypt_encrypt. simpl. by rewrite Hne.
  - by rewrite (Hget "_decrypt_failed"%string).
Qed.
End PasswordFacts.

(** ** What the API shows of it *)

Lemma dict_del_set {V} k (v : V) d : dict_del k (dict_set k v d) = dict_del k d.
Proof.
  induction d as [|[k' v'] d IH]; simpl; [by rewrite String.eqb_refl|].
  destruct (String.eqb k k') eqn:E; simpl; rewrite E; [done|by rewrite IH].
Qed.

(** Overwriting forgets, also across a filter on keys. *)
Lemma dict_set_forgets {V} (p : string -> bool) k (v a b : V) d :
  dict_set k v (List.filter (fun kv => p kv.1) (dict_set k a d)) =
  dict_set k v (List.filter (fun kv => p kv.1) (dict_set k b d)).
Proof.
  induction d as [|[k' v'] d IH]; simpl.
  - destruct (p k); simpl; [by rewrite String.eqb_refl|done].
  - destruct (String.eqb k k') eqn:E; simpl; destruct (p k'); simpl; rewrite ?E; [done..| |]; by rewrite ?IH.
Qed.

Lemma security_mode_set k v d :
  str_mem k ["security"; "use_tls"; "start_tls"] = false ->
  security_mode (dict_set k v d) = security_mode d.
Proof.
  unfold str_mem. simpl. intros [H1 [H2 [H3 _]%orb_false_iff]%orb_false_iff]%orb_false_iff.
  rewrite String.eqb_neq in *. unfold security_mode, get, get_or. by rewrite !dict_get_set_ne by congruence.
Qed.

Lemma dict_get_fold k l (acc : dict) :
  ~ In k (fst <$> l) ->
  dict_get k (fold_left (fun d kv => dict_set kv.1 kv.2 d) l acc) = dict_get k acc.
Proof.
  revert acc. induction l as [|[k' v] l IH]; intros acc Hk; [done|]. simpl in *.
  rewrite IH by tauto. apply dict_get_set_ne. intros ->. tauto.
Qed.

Lemma get_set_eq k v d : get k (dict_set k v d) = v.
Proof. unfold get. by rewrite dict_get_set_eq. Qed.

Lemma get_set_ne k k' v d : k <> k' -> get k (dict_set k' v d) = get k d.
Proof. intros H. unfold get. by rewrite dict_get_set_ne. Qed.

Lemma public_config_masks v1 v2 d :
  str_nonempty v1 = true -> str_nonempty v2 = true ->
  public_config (dict_set "password" (VStr v1) d) = public_config (dict_set "password" (VStr v2) d).
Proof.
  unfold str_nonempty. intros H1 H2. unfold public_config.
  rewrite !security_mode_set, !get_set_eq, !get_set_ne by done. cbn [truthy]. rewrite H1, H2.
  by rewrite (dict_set_forgets (fun k => negb (startswith "_" k)) "password" _ (VStr v1) (VStr v2) d).
Qed.

(** The configuration the API returns does not depend on the stored password: two
    rows that differ only in a decryptable ciphertext give the same answer. *)
Theorem config_hides_password `{K : Mail} base e1 e2 :
  _decrypt e1 <> ""%string -> _decrypt e2 <> ""%string ->
  let answer e := public_config (read_config (dict_set "password_enc" e base)) in
  answer e1 = answer e2.
Proof.
  intros H1%nonempty_true H2%nonempty_true. cbn zeta. unfold read_config.
  rewrite !dict_get_set_eq, !dict_del_set, H1, H2. by apply public_config_masks.
Qed.

(** ** A concrete relay *)

#[export] Instance sample_mail : Mail := {|
  email_valid s := if char_in_str "@" s then Some s else None;
  fernet_encrypt nonce v := ("F" ++ v)%string;
  fernet_decrypt s := if startswith "F" s then Some (str_drop 1 s) else None
|}.

Lemma substring_all s : String.substring 0 (String.length s) s = s.
Proof. induction s as [|c s IH]; [done|]. simpl. by rewrite IH. Qed.

#[export] Instance sample_mail_laws : MailLaws.
Proof.
  split; [|done]. intros nonce v. cbn -[String.substring String.append].
  change ("F" ++ v)%string with (String "F" v). unfold startswith, str_drop. simpl.
  rewrite Nat.sub_0_r, substring_all. by destruct v.
Defined.

Definition sample_config : smtp_config :=
  SmtpConfig "mail.example" 587 "ops" "s3cret" false "ops@example" "on-call@example" None false true
    (Thresholds 90 90 95).
Definition empty_db : db := Db healthy ∅ ∅ ∅ ∅ None [] 1 None.
Definition sample_mailer : mailer := Mailer empty_db ∅ ∅ (CfgCache None 0 false) [].
Definition sample_world : world := World (fun _ _ => Addresses ["192.0.2.7"%string]) (fun _ => None).
Definition mail_settings : settings := Settings "127.0.0.1" false "" "".

Lemma alerts_throttled_witness :
  throttle_run [Reserve 0 0 "k"; Reserve 30 30 "k"; Accept 31 "k"; Reserve 200 200 "k";
                Reserve 331 331 "k"] sample_mailer =
    [("k", Attempt 0); ("k", Accepted 31); ("k", Attempt 331)]%string /\
  StronglySorted spaced [("k", Attempt 0); ("k", Accepted 31); ("k", Attempt 331)]%string.
Proof.
  assert (H : throttle_run [Reserve 0 0 "k"; Reserve 30 30 "k"; Accept 31 "k"; Reserve 200 200 "k";
                Reserve 331 331 "k"] sample_mailer =
    [("k", Attempt 0); ("k", Accepted 31); ("k", Attempt 331)]%string) by (vm_compute; reflexivity).
  split; [exact H|]. rewrite <- H. apply (alerts_throttled _ 0). simpl. repeat split; (discriminate || lra).
Defined.

Lemma smtp_target_safe_witness :
  validate_smtp_target mail_settings (w_resolve sample_world) (VStr " mail.example ") (VStr "25") = Ok tt /\
  exists h, VStr " mail.example " = VStr h /\ strip h <> ""%string.
Proof.
  assert (H : validate_smtp_target mail_settings (w_resolve sample_world) (VStr " mail.example ")
                (VStr "25") = Ok tt) by (vm_compute; reflexivity).
  split; [exact H|]. destruct (smtp_target_safe _ _ _ _ H) as (h & p & H1 & _ & _ & H2 & _).
  exists h. split; [exact H1|exact H2].
Defined.

Lemma config_hides_password_witness :
  public_config (read_config (dict_set "password_enc" (VStr "Fone") [("host", VStr "h")]%string)) =
  public_config (read_config (dict_set "password_enc" (VStr "Ftwo") [("host", VStr "h")]%string)).
Proof. apply (config_hides_password [("host", VStr "h")]%string (VStr "Fone") (VStr "Ftwo")); discriminate. Defined.

Definition saved_mailer : mailer := snd (save_smtp_config "n" (model_dump sample_config) sample_mailer).

Lemma saved_config_reads_back_witness :
  save_smtp_config "n" (model_dump sample_config) sample_mailer = (Ok tt, saved_mailer) /\
  exists c, fst (get_smtp_config 5 saved_mailer) = Ok (Some c) /\ get "password" c = VStr "s3cret".
Proof.
  assert (H : save_smtp_config "n" (model_dump sample_config) sample_mailer = (Ok tt, saved_mailer))
    by (vm_compute; reflexivity).
  split; [exact H|].
  destruct (saved_config_reads_back "n" sample_config 5 _ _ H) as (c & H1 & _ & H2).
  exists c. split; [exact H1|]. exact (f_equal fst H2).
Defined.

(** A message really goes out. *)
Example sample_send :
  fst (send_alert_email mail_settings sample_world (MailClock 400 400 400 400 401) "s" "b" (Some "k"%string)
         saved_mailer) = Ok SendOk.
Proof. vm_compute. reflexivity. Qed.
