(* ===== verification/AgentWs.v ===== *)
(** * The agent endpoint: gate, message loop and metric ingest

    src/backend/app/websocket/agent_ws.py.  [fleet] is what the handlers of all
    agent connections share, with the local state of each handler in [conns]; a
    handler is suspended between two of the operations below, and the operations
    of different handlers interleave freely ([ws_step]).  Readings of
    [time.time()], random identifiers and the answers of the mail relay are
    inputs. *)
From S2P Require Import Prelude Sorting Py Effects PyOps DbCore IpAddress Net RateLimit Accounts AgentRpc MetricFold MetricsDb NetAudit Alerts.
Open Scope Z_scope.

(** ** The gate *)

Definition AGENT_ID_PATTERN (s : string) : bool :=
  re_dollar (re_class (fun c => is_alnum c || Ascii.eqb c "_" || Ascii.eqb c "-")%char 1 64) s.

Definition MAX_MESSAGE_SIZE : Z := 1048576.
Definition AGENT_METRIC_MAX : nat := 100.
Definition AGENT_METRIC_WINDOW : Q := 10.

(** [hmac.compare_digest] on two strings: only ASCII ones can be compared. *)
Definition is_ascii (s : string) : bool := str_forall (chr_in 0 127) s.
Definition compare_digest (a b : string) : res bool :=
  if is_ascii a && is_ascii b then Ok (String.eqb a b) else Raise TypeError.

Inductive verdict := Closed (code : Z) (reason : string) | LetIn (agent_id : string).

Definition guard : Type := RateLimit.stores * Net.cache.

(** The readings of one handshake, in the order they may be taken. *)
Record gate_clock := GateClock {
  g_lock : Q; g_prune : Q; g_stamp : Q; g_fail : Q; g_fail_prune : Q
}.

Definition on_stores {A} (f : RateLimit.stores -> A * RateLimit.stores) : M guard A :=
  run_pure (fun g => let '(a, s) := f (fst g) in (a, (s, snd g))).

Definition record_failure (ck : gate_clock) (ip : string) : M guard unit :=
  on_stores (fun s => (tt, RateLimit.record_agent_key_failure (g_fail ck) (g_fail_prune ck) ip s)).

(** [handle_agent_ws] up to [ws.accept()]. *)
Definition agent_gate (st : settings) (expected_key : string) (ck : gate_clock) (sc : scope)
    : M guard verdict :=
  ip ← run_pure (fun g => let '(ip, c) := Net.resolve_client_ip st (snd g) sc in (ip, (fst g, c)));
  locked ← on_stores (RateLimit.is_agent_key_locked (g_lock ck) ip);
  if (locked : bool) then mret (Closed 4029 "Too many failed attempts")
  else
    ok ← on_stores (RateLimit.agent_conn_allowed (g_prune ck) (g_stamp ck) ip);
    if negb ok then mret (Closed 4029 "Too many connections")
    else
      let agent_id := Net._header sc "x-agent-id" in
      let agent_key := Net._header sc "x-agent-key" in
      if negb (str_nonempty agent_id) || negb (AGENT_ID_PATTERN agent_id)
      then _ ← record_failure ck ip; mret (Closed 4001 "Invalid agent ID")
      else
        good ← (if negb (str_nonempty expected_key) || negb (str_nonempty agent_key)
                then mret false else lift_res (compare_digest agent_key expected_key));
        if negb good then _ ← record_failure ck ip; mret (Closed 4003 "Invalid agent key")
        else mret (LetIn agent_id).

(** ** The shared state *)

(** Where the handler of a connection is. *)
Inductive conn_pc := Accepting | Replacing (old : nat) | Serving | Over.
Record conn := Conn { c_agent : string; c_pc : conn_pc; metric_times : list Q }.

Record fleet := Fleet {
  f_rpc : rpc;                       (* agent_rpc, connected_agents included *)
  conns : gmap nat conn;             (* one handler per socket *)
  f_closed : list nat;               (* sockets the server asked to close *)
  f_chunks : list (string * string); (* chunks delivered to their streams *)
  f_metrics : mdb;
  f_net : ndb;
  f_mail : mailer;
  _last_assigned_id : Z;
  f_live : list (string * dict)      (* what was broadcast to the dashboards *)
}.

Definition with_rpc f r := Fleet r (conns f) (f_closed f) (f_chunks f) (f_metrics f) (f_net f)
  (f_mail f) (_last_assigned_id f) (f_live f).
Definition with_conns f c := Fleet (f_rpc f) c (f_closed f) (f_chunks f) (f_metrics f) (f_net f)
  (f_mail f) (_last_assigned_id f) (f_live f).
Definition with_closed f l := Fleet (f_rpc f) (conns f) l (f_chunks f) (f_metrics f) (f_net f)
  (f_mail f) (_last_assigned_id f) (f_live f).
Definition with_chunks f l := Fleet (f_rpc f) (conns f) (f_closed f) l (f_metrics f) (f_net f)
  (f_mail f) (_last_assigned_id f) (f_live f).
Definition with_assigned f i := Fleet (f_rpc f) (conns f) (f_closed f) (f_chunks f) (f_metrics f)
  (f_net f) (f_mail f) i (f_live f).
Definition with_live f l := Fleet (f_rpc f) (conns f) (f_closed f) (f_chunks f) (f_metrics f)
  (f_net f) (f_mail f) (_last_assigned_id f) l.

Definition on_metrics {A} : M mdb A -> M fleet A :=
  zoom f_metrics (fun d f => Fleet (f_rpc f) (conns f) (f_closed f) (f_chunks f) d (f_net f)
                               (f_mail f) (_last_assigned_id f) (f_live f)).
Definition on_net {A} : M ndb A -> M fleet A :=
  zoom f_net (fun d f => Fleet (f_rpc f) (conns f) (f_closed f) (f_chunks f) (f_metrics f) d
                           (f_mail f) (_last_assigned_id f) (f_live f)).
Definition on_mail {A} : M mailer A -> M fleet A :=
  zoom f_mail (fun d f => Fleet (f_rpc f) (conns f) (f_closed f) (f_chunks f) (f_metrics f) (f_net f)
                            d (_last_assigned_id f) (f_live f)).
Definition rpc_do (g : rpc -> rpc) : M fleet unit := modify (fun f => with_rpc f (g (f_rpc f))).

(** ** Ingest *)

(** What one ingest reads from outside. *)
Record ingest_env := IngestEnv {
  i_now : Q;               (* time.time() *)
  i_uuid : string;         (* uuid.uuid4() *)
  i_world : world; i_cfg : Q; i_mail : mail_clock  (* the alert *)
}.

Section Ingest.
Context `{K : Mail} (st : settings) (py_str : pyval -> string).

(** [prime_last_assigned_id]. *)
Definition prime_last_assigned_id : M fleet unit :=
  i ← on_metrics get_max_metric_id;
  modify (fun f => with_assigned f i).

(** The [timestamp] check: [None] is the early return.  [math.isfinite] converts. *)
Definition sound_timestamp (v : pyval) : res (option Q) :=
  match as_number v with
  | None => Ok None
  | Some _ =>
      q ← _finite v;
      mret (match q with Some q => if q_leb q 0 then None else Some q | None => None end)
  end.

Definition implausible (now q : Q) : bool := q_ltb (now + 300) q || q_ltb q (now - 86400).

(** The identity of a sample: attached to the broadcast copy only. *)
Definition persisted_sample (row_id : Z) (data : dict) : dict :=
  dict_set "persisted" (VBool true)
    (dict_set "arrival_seq" (VInt row_id)
       (dict_set "sample_id" (VStr ("raw:" ++ str_of_int row_id)%string) data)).

Definition ephemeral_sample (uuid : string) (after : Z) (data : dict) : dict :=
  dict_set "after_seq" (VInt after)
    (dict_set "persisted" (VBool false)
       (dict_set "sample_id" (VStr ("ephemeral:" ++ uuid)%string) data)).

Definition _persist_and_broadcast (uuid agent_id : string) (timestamp : Q) (data : dict)
    : M fleet dict :=
  row_id ← catch (i ← on_metrics (store_metric agent_id timestamp data); mret (Some i))
                 (fun _ => Some (mret None));
  data ← match row_id with
    | Some i => _ ← modify (fun f => with_assigned f i); mret (persisted_sample i data)
    | None => f ← gets _last_assigned_id; mret (ephemeral_sample uuid f data)
    end;
  _ ← modify (fun f => with_live f (f_live f ++ [(agent_id, data)]));
  mret data.

Definition ingest_metric (e : ingest_env) (agent_id : string) (data : dict) : M fleet unit :=
  let now := i_now e in
  let v := get_or "timestamp" (VInt 0) data in
  timestamp ← lift_res (sound_timestamp v);
  match timestamp with
  | None => mret tt
  | Some q =>
      let late := implausible now q in
      let timestamp := if late then now else q in
      let data := dict_set "timestamp" (if late then VFloat (Fin now) else v) data in
      let data := strip_reserved data in
      let '(data, store_audit) := extract_and_store_net_audit py_str agent_id timestamp data in
      _ ← catch (on_net store_audit) (fun _ => Some (mret tt));
      data ← _persist_and_broadcast (i_uuid e) agent_id timestamp data;
      catch (on_mail (check_and_alert st (i_world e) (i_cfg e) (i_mail e) agent_id data))
            (fun _ => Some (mret tt))
  end.

(** ** One message *)

Inductive loop := Again | Break.

(** A text frame: its length and what [json.loads] made of it. *)
Record frame := Frame { fr_len : Z; fr_json : res pyval }.

Definition with_conn (ws : nat) (g : conn -> conn) : M fleet unit :=
  modify (fun f => with_conns f (alter g ws (conns f))).

Definition on_metric_message (e : ingest_env) (t : Q) (ws : nat) (c : conn) (data : dict)
    : M fleet loop :=
  let recent := List.filter (fun t' => q_ltb (t - AGENT_METRIC_WINDOW) t') (metric_times c) in
  if (AGENT_METRIC_MAX <=? length recent)%nat
  then _ ← with_conn ws (fun c => Conn (c_agent c) (c_pc c) recent); mret Break
  else
    _ ← with_conn ws (fun c => Conn (c_agent c) (c_pc c) (recent ++ [t]));
    _ ← ingest_metric e (c_agent c) data;
    mret Again.

Definition is_type (v : pyval) (s : string) : bool := py_key_eq v (VStr s).

Definition dispatch (e : ingest_env) (t : Q) (ws : nat) (c : conn) (data : dict) : M fleet loop :=
  let msg_type := get_or "type" (VStr "metric") data in
  let rpc_id := get "id" data in
  if is_type msg_type "rpc.res" then
    _ ← match rpc_id with VStr id => rpc_do (resolve id data) | _ => mret tt end; mret Again
  else if is_type msg_type "rpc.chunk" then
    _ ← match rpc_id, get_or "data" (VStr "") data with
        | VStr id, VStr chunk =>
            modify (fun f => if on_chunk id (f_rpc f)
                             then with_chunks f (f_chunks f ++ [(id, chunk)]) else f)
        | _, _ => mret tt
        end; mret Again
  else if is_type msg_type "rpc.end" then
    _ ← match rpc_id with VStr id => rpc_do (on_end id None) | _ => mret tt end; mret Again
  else if is_type msg_type "rpc.err" then
    let err := py_or (get "error" data) (VStr "Stream error") in
    _ ← match rpc_id with
        | VStr id => rpc_do (on_end id (Some (error_text py_str err)))
        | _ => mret tt
        end; mret Again
  else on_metric_message e t ws c data.

(** One turn of the [while] loop. *)
Definition on_frame (e : ingest_env) (t : Q) (ws : nat) (c : conn) (fr : frame) : M fleet loop :=
  if MAX_MESSAGE_SIZE <? fr_len fr then mret Again
  else match fr_json fr with
  | Raise (ValueError _) => mret Again
  | Raise e => raise e
  | Ok (VDict data) => dispatch e t ws c data
  | Ok _ => mret Again
  end.

(** ** The life of a connection *)

Definition set_conn_pc (ws : nat) (pc : conn_pc) (f : fleet) : fleet :=
  with_conns f (alter (fun c => Conn (c_agent c) pc (metric_times c)) ws (conns f)).

Definition register (ws : nat) (agent_id : string) (f : fleet) : fleet :=
  set_conn_pc ws Serving
    (with_rpc f (with_connected (f_rpc f) (<[agent_id := ws]> (connected_agents (f_rpc f))))).

(** After [accept()]: close the previous socket first, if there is one. *)
Definition after_accept (ws : nat) (agent_id : string) (f : fleet) : fleet :=
  match connected_agents (f_rpc f) !! agent_id with
  | Some old => set_conn_pc ws (Replacing old) (with_closed f (f_closed f ++ [old]))
  | None => register ws agent_id f
  end.

(** The [finally] clause. *)
Definition teardown (ws : nat) (agent_id : string) (f : fleet) : fleet :=
  let f := set_conn_pc ws Over f in
  if bool_decide (connected_agents (f_rpc f) !! agent_id = Some ws)
  then with_rpc f (cancel_for_agent agent_id
         (with_connected (f_rpc f) (delete agent_id (connected_agents (f_rpc f)))))
  else f.

Inductive ws_event :=
| WsOpen (ws : nat) (agent_id : string)   (* the gate admitted it *)
| WsAccepted (ws : nat)                   (* accept() returned *)
| WsOldClosed (ws : nat)                  (* the close of the old socket came back *)
| WsFrame (ws : nat) (e : ingest_env) (t : Q) (fr : frame)
| WsGone (ws : nat)                       (* disconnect, or an error in the loop *)
| WsAborted (ws : nat).                   (* the handler ended before its loop *)

(** [None]: the event cannot happen now. *)
Definition ws_step (ev : ws_event) (f : fleet) : option fleet :=
  match ev with
  | WsOpen ws agent_id =>
      match conns f !! ws with
      | None => Some (with_conns f (<[ws := Conn agent_id Accepting []]> (conns f)))
      | Some _ => None
      end
  | WsAccepted ws =>
      match conns f !! ws with
      | Some (Conn agent_id Accepting _) => Some (after_accept ws agent_id f)
      | _ => None
      end
  | WsOldClosed ws =>
      match conns f !! ws with
      | Some (Conn agent_id (Replacing _) _) => Some (register ws agent_id f)
      | _ => None
      end
  | WsFrame ws e t fr =>
      match conns f !! ws with
      | Some (Conn agent_id Serving times) =>
          match on_frame e t ws (Conn agent_id Serving times) fr f with
          | (Ok Again, f) => Some f
          | (_, f) => Some (teardown ws agent_id f)
          end
      | _ => None
      end
  | WsGone ws =>
      match conns f !! ws with
      | Some (Conn agent_id Serving _) => Some (teardown ws agent_id f)
      | _ => None
      end
  | WsAborted ws =>
      match conns f !! ws with
      | Some (Conn _ Accepting _) | Some (Conn _ (Replacing _) _) => Some (set_conn_pc ws Over f)
      | _ => None
      end
  end.

Fixpoint ws_run (evs : list ws_event) (f : fleet) : option fleet :=
  match evs with
  | [] => Some f
  | ev :: evs => match ws_step ev f with Some f => ws_run evs f | None => None end
  end.
End Ingest.

(** ** Who gets in *)

(** A branch that admits nobody. *)
Ltac refused :=
  split; [done|]; let H := fresh in intros H; repeat (destruct H as [? H]); congruence.

#[local] Opaque RateLimit.is_agent_key_locked RateLimit.agent_conn_allowed
  RateLimit.record_agent_key_failure.

Section GateFacts.
Context (st : settings) (expected_key : string).

(** A handshake is admitted exactly when its address is not locked out, its
    connection rate is within bounds, its agent id is well formed and its key is the
    expected one; an installation without a key admits nobody. *)
Theorem agent_gate_exact ck sc g id :
  let ip := fst (Net.resolve_client_ip st (snd g) sc) in
  let locked := RateLimit.is_agent_key_locked (g_lock ck) ip (fst g) in
  let rate := RateLimit.agent_conn_allowed (g_prune ck) (g_stamp ck) ip (snd locked) in
  fst (agent_gate st expected_key ck sc g) = Ok (LetIn id) <->
  fst locked = false /\ fst rate = true /\ id = Net._header sc "x-agent-id" /\
  id <> ""%string /\ AGENT_ID_PATTERN id = true /\ expected_key <> ""%string /\
  is_ascii expected_key = true /\ Net._header sc "x-agent-key" = expected_key.
Proof.
  cbn zeta. unfold agent_gate, record_failure, on_stores, run_pure, lift_res, mbind, M_bind, mret, M_ret.
  destruct (Net.resolve_client_ip st (snd g) sc) as [ip c]. simpl.
  destruct (RateLimit.is_agent_key_locked (g_lock ck) ip (fst g)) as [[] s]; simpl; [refused|].
  destruct (RateLimit.agent_conn_allowed _ _ ip s) as [[] s']; simpl; [|refused].
  unfold str_nonempty. destruct (String.eqb_spec (Net._header sc "x-agent-id") ""); simpl; [refused|].
  destruct (AGENT_ID_PATTERN _) eqn:Hp; simpl; [|refused].
  destruct (String.eqb_spec expected_key ""); simpl; [refused|].
  destruct (String.eqb_spec (Net._header sc "x-agent-key") ""); simpl; [refused|].
  unfold compare_digest. destruct (is_ascii (Net._header sc "x-agent-key")) eqn:Hk; simpl;
    [destruct (is_ascii expected_key) eqn:He; simpl|].
  - destruct (String.eqb_spec (Net._header sc "x-agent-key") expected_key); simpl; [|refused].
    split; [intros [= <-]; repeat split; done|]. by intros (_ & _ & -> & _).
  - refused.
  - refused.
Qed.
End GateFacts.

(** ** Who is registered *)

(** The registry and where each handler is: what a message never changes. *)
Definition shape (f : fleet) : gmap string nat * gmap nat (string * conn_pc) :=
  (connected_agents (f_rpc f), (fun c => (c_agent c, c_pc c)) <$> conns f).

Lemma settle_connected id x w : connected_agents (settle id x w) = connected_agents w.
Proof. unfold settle. by destruct (futures w !! id) as [[]|]. Qed.

Lemma resolve_connected id p w : connected_agents (resolve id p w) = connected_agents w.
Proof. unfold resolve. destruct (_pending w !! id); [apply settle_connected|done]. Qed.

Lemma on_end_connected id x w : connected_agents (on_end id x w) = connected_agents w.
Proof. unfold on_end. by destruct (_streams w !! id). Qed.

(** What one message keeps, given that ingesting a metric keeps it. *)
Section KeepsFrame.
Context `{K : Mail} (st : settings) (py_str : pyval -> string) (I : fleet -> Prop).
Hypothesis I_rpc : forall g, (forall w, connected_agents (g w) = connected_agents w) -> keeps I (rpc_do g).
Hypothesis I_times : forall ws times, keeps I (with_conn ws (fun c => Conn (c_agent c) (c_pc c) times)).
Hypothesis I_chunks : forall f l, I f -> I (with_chunks f l).
Hypothesis I_ingest : forall e a data, keeps I (ingest_metric st py_str e a data).

Lemma keeps_frame e t ws c fr : keeps I (on_frame st py_str e t ws c fr).
Proof.
  unfold on_frame. destruct (_ <? _); [apply keeps_ret|].
  destruct (fr_json fr) as [[| | | | | |data]|[]]; eauto with keeps.
  unfold dispatch. repeat case_match; try apply keeps_bind; intros;
    try (apply I_rpc; intros; by (apply resolve_connected || apply on_end_connected));
    try (apply keeps_modify; intros f Hf; destruct (on_chunk _ _); [by apply I_chunks|done]);
    try apply keeps_ret.
  unfold on_metric_message. destruct (_ <=? _)%nat; (apply keeps_bind; [apply I_times|intros]);
    [apply keeps_ret|]. apply keeps_bind; [apply I_ingest|intros; apply keeps_ret].
Qed.
End KeepsFrame.

Section Shape.
Context `{K : Mail} (st : settings) (py_str : pyval -> string) (s : gmap string nat * gmap nat (string * conn_pc)).

Abbreviation keeps_shape := (keeps (fun f => shape f = s)).

Lemma keeps_shape_modify g : (forall f, shape (g f) = shape f) -> keeps_shape (modify g).
Proof. intros H f Hf. simpl. by rewrite H. Qed.

Lemma keeps_shape_metrics {A} (m : M mdb A) : keeps_shape (on_metrics m).
Proof. intros f Hf. unfold on_metrics, zoom. by destruct (m (f_metrics f)). Qed.

Lemma keeps_shape_net {A} (m : M ndb A) : keeps_shape (on_net m).
Proof. intros f Hf. unfold on_net, zoom. by destruct (m (f_net f)). Qed.

Lemma keeps_shape_mail {A} (m : M mailer A) : keeps_shape (on_mail m).
Proof. intros f Hf. unfold on_mail, zoom. by destruct (m (f_mail f)). Qed.

Lemma keeps_shape_times ws times :
  keeps_shape (with_conn ws (fun c => Conn (c_agent c) (c_pc c) times)).
Proof.
  apply keeps_shape_modify. intros f. unfold shape. simpl. f_equal. apply map_eq. intros i.
  rewrite !lookup_fmap, lookup_alter. case_decide; [|done]. subst. by destruct (conns f !! i).
Qed.

Lemma keeps_shape_lift {A} (r : res A) : keeps_shape (lift_res r).
Proof. by intros f Hf. Qed.

Hint Resolve keeps_shape_metrics keeps_shape_net keeps_shape_mail keeps_shape_times
  keeps_shape_lift : keeps.

Lemma keeps_shape_ingest e agent_id data : keeps_shape (ingest_metric st py_str e agent_id data).
Proof.
  unfold ingest_metric, _persist_and_broadcast. apply keeps_bind; [apply keeps_shape_lift|].
  intros [q|]; [|apply keeps_ret]. destruct (extract_and_store_net_audit _ _ _ _) as [d m].
  apply keeps_bind; [apply keeps_catch; [eauto with keeps|intros ? k [= <-]; eauto with keeps]|].
  intros _. apply keeps_bind.
  - apply keeps_bind; [apply keeps_catch; [eauto with keeps|intros ? k [= <-]; eauto with keeps]|].
    intros row. apply keeps_bind.
    + destruct row; [|by eauto with keeps]. apply keeps_bind; [by apply keeps_shape_modify|eauto with keeps].
    + intros d'. apply keeps_bind; [by apply keeps_shape_modify|eauto with keeps].
  - intros d'. apply keeps_catch; [eauto with keeps|intros ? k [= <-]; eauto with keeps].
Qed.

Lemma keeps_shape_frame e t ws c fr : keeps_shape (on_frame st py_str e t ws c fr).
Proof.
  apply keeps_frame.
  - intros g H. apply keeps_shape_modify. intros f. unfold shape. simpl. by rewrite H.
  - intros. apply keeps_shape_times.
  - done.
  - intros. apply keeps_shape_ingest.
Qed.
End Shape.

Lemma cancel_connected agent_id w :
  connected_agents (cancel_for_agent agent_id w) = connected_agents w.
Proof. by destruct (cancel_for_agent_spec agent_id w) as [-> _]. Qed.

(** Every registered socket is served, under the id it is registered for. *)
Definition registry_ok (f : fleet) : Prop :=
  forall a ws, fst (shape f) !! a = Some ws -> snd (shape f) !! ws = Some (a, Serving).

Lemma shape_set_pc ws pc f :
  shape (set_conn_pc ws pc f) = (fst (shape f), alter (fun ap => (ap.1, pc)) ws (snd (shape f))).
Proof.
  unfold shape. simpl. f_equal. apply map_eq. intros i.
  rewrite !lookup_fmap, !lookup_alter, !lookup_fmap. case_decide; [by destruct (conns f !! ws)|done].
Qed.

Lemma shape_conn f ws a pc times :
  conns f !! ws = Some (Conn a pc times) -> snd (shape f) !! ws = Some (a, pc).
Proof. intros H. unfold shape. simpl. by rewrite lookup_fmap, H. Qed.

Lemma register_ok ws a f pc times :
  registry_ok f -> conns f !! ws = Some (Conn a pc times) -> pc <> Serving ->
  registry_ok (register ws a f).
Proof.
  intros Hf Hc Hpc a' ws'. unfold register. rewrite shape_set_pc. simpl.
  change (connected_agents (f_rpc f)) with (fst (shape f)). apply shape_conn in Hc.
  rewrite lookup_insert, lookup_alter. case_decide.
  - intros [= <-]. subst. rewrite decide_True by done. simpl in Hc. by rewrite Hc.
  - intros H'. pose proof (Hf _ _ H') as Hw. simpl in Hc. destruct (decide (ws = ws')); [|done].
    subst. unfold shape in Hw. simpl in Hw. congruence.
Qed.

Lemma shape_with_rpc r f : shape (with_rpc f r) = (connected_agents r, snd (shape f)).
Proof. done. Qed.

Lemma shape_teardown ws a f :
  shape (teardown ws a f) =
  (if bool_decide (fst (shape f) !! a = Some ws) then delete a (fst (shape f)) else fst (shape f),
   alter (fun ap => (ap.1, Over)) ws (snd (shape f))).
Proof.
  unfold teardown. cbv zeta. change (connected_agents (f_rpc (set_conn_pc ws Over f))) with (fst (shape f)).
  case_bool_decide; [|apply shape_set_pc].
  by rewrite shape_with_rpc, cancel_connected, shape_set_pc.
Qed.

Lemma teardown_ok ws a f times :
  registry_ok f -> conns f !! ws = Some (Conn a Serving times) -> registry_ok (teardown ws a f).
Proof.
  intros Hf Hc%shape_conn b w. rewrite shape_teardown. cbn [fst snd]. intros Hb.
  assert (fst (shape f) !! b = Some w /\ w <> ws) as [H1 Hne].
  { case_bool_decide as E.
    - apply lookup_delete_Some in Hb as [Hne Hb]. split; [done|]. intros ->.
      apply Hf in Hb. congruence.
    - split; [done|]. intros ->. pose proof (Hf _ _ Hb). congruence. }
  rewrite lookup_alter_ne by done. by apply Hf.
Qed.

Section Registry.
Context `{K : Mail} (st : settings) (py_str : pyval -> string).

Lemma registry_step ev f f' :
  ws_step st py_str ev f = Some f' -> registry_ok f -> registry_ok f'.
Proof.
  intros Hs Hf. destruct ev as [ws a|ws|ws|ws e t fr|ws|ws]; simpl in Hs.
  - destruct (conns f !! ws) eqn:E; [done|]. injection Hs as <-. intros b w Hb.
    apply Hf in Hb. unfold shape in *. simpl in *. rewrite fmap_insert, lookup_insert_ne; [done|].
    intros ->. by rewrite lookup_fmap, E in Hb.
  - destruct (conns f !! ws) as [[a [] times]|] eqn:E; try done. injection Hs as <-.
    unfold after_accept. destruct (connected_agents (f_rpc f) !! a); [|by eapply register_ok].
    intros b w Hb. rewrite shape_set_pc in *. cbn [fst snd] in *. apply Hf in Hb.
    rewrite lookup_alter_ne; [done|]. intros ->. apply shape_conn in E. congruence.
  - destruct (conns f !! ws) as [[a [] times]|] eqn:E; try done. injection Hs as <-.
    by eapply register_ok.
  - destruct (conns f !! ws) as [[a [] times]|] eqn:E; try done.
    pose proof (keeps_shape_frame st py_str (shape f) e t ws (Conn a Serving times) fr f eq_refl) as Hsh.
    destruct (on_frame _ _ _ _ _ _ _ f) as [r f1]. simpl in Hsh.
    assert (H1 : registry_ok f1) by (unfold registry_ok; by rewrite Hsh).
    assert (H2 : registry_ok (teardown ws a f1)).
    { apply shape_conn in E. rewrite <- Hsh in E. unfold shape in E. simpl in E.
      rewrite lookup_fmap in E. destruct (conns f1 !! ws) as [[a1 pc1 t1]|] eqn:E1; [|done].
      simpl in E. injection E as -> ->. by eapply teardown_ok. }
    destruct r as [[]|]; by injection Hs as <-.
  - destruct (conns f !! ws) as [[a [] times]|] eqn:E; try done. injection Hs as <-.
    by eapply teardown_ok.
  - assert (Hab : forall a pc times, conns f !! ws = Some (Conn a pc times) -> pc <> Serving ->
      registry_ok (set_conn_pc ws Over f)).
    { intros a pc times E Hpc b w Hb. rewrite shape_set_pc in *. cbn [fst snd] in *. apply Hf in Hb.
      rewrite lookup_alter_ne; [done|]. intros ->. apply shape_conn in E. congruence. }
    destruct (conns f !! ws) as [[a [] times]|] eqn:E; try done; injection Hs as <-; by eapply Hab.
Qed.

(** C31: at every moment of every run the socket registered for an agent is one whose
    handler is serving exactly that agent. *)
Theorem registry_sound evs f f' :
  ws_run st py_str evs f = Some f' -> registry_ok f -> registry_ok f'.
Proof.
  revert f. induction evs as [|ev evs IH]; intros f; simpl; [by intros [= <-]|].
  destruct (ws_step st py_str ev f) as [f1|] eqn:E; [|done]. intros Hr Hf.
  apply (IH f1 Hr). by eapply registry_step.
Qed.

(** When a replaced connection ends, the calls, the streams and the registration of
    the connection that replaced it are untouched. *)
Theorem replaced_teardown_harmless ws a times f f' :
  conns f !! ws = Some (Conn a Serving times) ->
  connected_agents (f_rpc f) !! a <> Some ws ->
  ws_step st py_str (WsGone ws) f = Some f' ->
  f_rpc f' = f_rpc f /\ forall w, w <> ws -> conns f' !! w = conns f !! w.
Proof.
  intros Hc Hne. simpl. rewrite Hc. intros [= <-]. unfold teardown. simpl.
  rewrite bool_decide_false by done. split; [done|]. intros w Hw. simpl. by rewrite lookup_alter_ne.
Qed.
End Registry.

(** Two reconnections that both find the old socket registered: each closes it, each
    registers itself, and the first of them is never closed. *)
Section Race.
Context `{K : Mail} (st : settings) (py_str : pyval -> string).

Lemma conns_set_pc_ne ws w pc f : ws <> w -> conns (set_conn_pc ws pc f) !! w = conns f !! w.
Proof. intros H. simpl. by rewrite lookup_alter_ne. Qed.

Lemma conns_set_pc_eq ws a pc0 times pc f :
  conns f !! ws = Some (Conn a pc0 times) ->
  conns (set_conn_pc ws pc f) !! ws = Some (Conn a pc times).
Proof. intros H. simpl. by rewrite lookup_alter_eq, H. Qed.

Lemma step_accepted ws a old times f :
  conns f !! ws = Some (Conn a Accepting times) -> connected_agents (f_rpc f) !! a = Some old ->
  ws_step st py_str (WsAccepted ws) f =
  Some (set_conn_pc ws (Replacing old) (with_closed f (f_closed f ++ [old]))).
Proof. intros H1 H2. simpl. rewrite H1. unfold after_accept. by rewrite H2. Qed.

Lemma step_old_closed ws a old times f :
  conns f !! ws = Some (Conn a (Replacing old) times) ->
  ws_step st py_str (WsOldClosed ws) f = Some (register ws a f).
Proof. intros H. simpl. by rewrite H. Qed.

(** A socket whose successor arrived while it was itself replacing an older one
    stays open and served, although another socket is registered for the agent. *)
Theorem reconnect_race w2 w3 a old t2 t3 f :
  w2 <> w3 -> connected_agents (f_rpc f) !! a = Some old ->
  conns f !! w2 = Some (Conn a Accepting t2) -> conns f !! w3 = Some (Conn a Accepting t3) ->
  exists f',
    ws_run st py_str [WsAccepted w2; WsAccepted w3; WsOldClosed w2; WsOldClosed w3] f = Some f' /\
    conns f' !! w2 = Some (Conn a Serving t2) /\ conns f' !! w3 = Some (Conn a Serving t3) /\
    connected_agents (f_rpc f') !! a = Some w3 /\ f_closed f' = f_closed f ++ [old; old].
Proof.
  intros Hne Ha H2 H3.
  set (f1 := set_conn_pc w2 (Replacing old) (with_closed f (f_closed f ++ [old]))).
  set (f2 := set_conn_pc w3 (Replacing old) (with_closed f1 (f_closed f1 ++ [old]))).
  exists (register w3 a (register w2 a f2)). split.
  - cbn [ws_run]. rewrite (step_accepted w2 a old t2 f H2 Ha). fold f1. cbn [ws_run].
    rewrite (step_accepted w3 a old t3 f1); [|by unfold f1; rewrite conns_set_pc_ne|done]. fold f2.
    rewrite (step_old_closed w2 a old t2 f2).
    2:{ unfold f2. rewrite conns_set_pc_ne by done. by apply conns_set_pc_eq with Accepting. }
    rewrite (step_old_closed w3 a old t3 (register w2 a f2)); [done|].
    unfold register. rewrite conns_set_pc_ne by done.
    apply conns_set_pc_eq with Accepting. simpl. by rewrite lookup_alter_ne.
  - unfold register. split.
    { rewrite conns_set_pc_ne by done. apply conns_set_pc_eq with (Replacing old). simpl.
      rewrite lookup_alter_ne by done. by rewrite lookup_alter_eq, H2. }
    split; [|split; [simpl; by rewrite lookup_insert_eq|simpl; by rewrite <- app_assoc]].
    apply conns_set_pc_eq with (Replacing old). simpl. rewrite lookup_alter_ne by done.
    by rewrite lookup_alter_eq, lookup_alter_ne, H3.
Qed.
End Race.

(** ** Identity of a sample *)

Lemma catch_all_ok {S} (m : M S unit) s : catch m (fun _ => Some (mret tt)) s = (Ok tt, snd (m s)).
Proof. unfold catch. by destruct (m s) as [[[]|e] s']. Qed.

Lemma strip_reserved_get k d :
  dict_get k (strip_reserved d) = if str_mem k RESERVED_SAMPLE_KEYS then None else dict_get k d.
Proof.
  unfold strip_reserved.
  assert (H : forall l (d : dict), dict_get k (fold_left (fun d k => dict_del k d) l d) =
    if str_mem k l then None else dict_get k d).
  { clear. induction l as [|x l IH]; intros d; [done|]. simpl. rewrite IH. unfold str_mem. simpl.
    destruct (String.eqb_spec k x) as [->|Hne]; simpl.
    - rewrite dict_get_del_eq. by destruct (existsb _ l).
    - by rewrite dict_get_del_ne. }
  apply H.
Qed.

(** What is stored of a message: stamped, stripped, without its audit payload. *)
Definition stored_data (ts : pyval) (data : dict) : dict :=
  dict_del "net_audit" (strip_reserved (dict_set "timestamp" ts data)).

Lemma stored_data_get k ts data :
  get k (stored_data ts data) =
  if String.eqb k "net_audit" || str_mem k RESERVED_SAMPLE_KEYS then VNone
  else if String.eqb k "timestamp" then ts else get k data.
Proof.
  unfold get, stored_data. destruct (String.eqb_spec k "net_audit") as [->|H1]; simpl;
    [by rewrite dict_get_del_eq|]. rewrite dict_get_del_ne, strip_reserved_get by done.
  destruct (str_mem k RESERVED_SAMPLE_KEYS); [done|].
  destruct (String.eqb_spec k "timestamp") as [->|H2]; [by rewrite dict_get_set_eq|].
  by rewrite dict_get_set_ne.
Qed.

Section Identity.
Context `{K : Mail} (st : settings) (py_str : pyval -> string).

(** What the broadcast of a stored sample and the row itself agree on. *)
Definition same_sample (row : mrow) (live : dict) : Prop :=
  (forall k, k <> "persisted"%string -> k <> "timestamp"%string ->
     get k (identified row) = get k live) /\
  as_number (get "timestamp" live) = Some (Fin (m_ts row)) /\
  get "persisted" live = VBool true.

Lemma persist_spec uuid a ts data f :
  let '(r, f') := _persist_and_broadcast uuid a ts data f in
  f_mail f' = f_mail f /\
  match _require_admission (madm (f_metrics f)) with
  | Ok _ =>
      let i := metrics_seq (f_metrics f) + 1 in
      r = Ok (persisted_sample i data) /\
      f_live f' = f_live f ++ [(a, persisted_sample i data)] /\
      f_metrics f' = with_metrics (f_metrics f) (metrics (f_metrics f) ++ [MRow i a ts data]) i /\
      _last_assigned_id f' = i
  | Raise _ =>
      let d := ephemeral_sample uuid (_last_assigned_id f) data in
      r = Ok d /\ f_live f' = f_live f ++ [(a, d)] /\ f_metrics f' = f_metrics f /\
      _last_assigned_id f' = _last_assigned_id f
  end.
Proof.
  unfold _persist_and_broadcast, catch, mbind, M_bind, on_metrics, zoom, store_metric, transaction.
  by destruct (_require_admission (madm (f_metrics f))) as [[]|].
Qed.

(** The parts of the state a sample's identity lives in. *)
Definition same_samples (f g : fleet) : Prop :=
  f_metrics f = f_metrics g /\ f_live f = f_live g /\ _last_assigned_id f = _last_assigned_id g.

Definition canonical_value (now : Q) (q : Q) (v : pyval) : pyval :=
  if implausible now q then VFloat (Fin now) else v.
Definition canonical_ts (now q : Q) : Q := if implausible now q then now else q.

(** An ingest is its durable unit, between two steps that touch no sample. *)
Lemma ingest_spec e a data q f :
  sound_timestamp (get_or "timestamp" (VInt 0) data) = Ok (Some q) ->
  exists f1, same_samples f1 f /\
    same_samples (snd (ingest_metric st py_str e a data f))
      (snd (_persist_and_broadcast (i_uuid e) a (canonical_ts (i_now e) q)
              (stored_data (canonical_value (i_now e) q (get_or "timestamp" (VInt 0) data)) data) f1)).
Proof.
  intros Hs. unfold ingest_metric, canonical_ts, canonical_value. set (v := get_or _ _ data) in *.
  unfold mbind at 1, M_bind at 1, lift_res. rewrite Hs. cbn iota zeta.
  destruct (extract_and_store_net_audit py_str a _ _) as [d m] eqn:E.
  injection E as <- _. fold (stored_data (if implausible (i_now e) q then VFloat (Fin (i_now e)) else v) data).
  unfold mbind at 1, M_bind at 1. rewrite catch_all_ok.
  exists (snd (on_net m f)). split; [unfold on_net, zoom; by destruct (m (f_net f))|].
  unfold mbind at 1, M_bind at 1. destruct (_persist_and_broadcast _ _ _ _ _) as [[d'|err] f2]; [|done].
  rewrite catch_all_ok. simpl. unfold on_mail, zoom. by destruct (check_and_alert _ _ _ _ _ _ (f_mail f2)).
Qed.

Lemma stored_timestamp v now q :
  sound_timestamp v = Ok (Some q) ->
  as_number (canonical_value now q v) = Some (Fin (canonical_ts now q)).
Proof.
  unfold sound_timestamp, canonical_value, canonical_ts. destruct (implausible now q); [done|].
  destruct v as [| |z|x| | |]; try done; simpl.
  - unfold mbind, res_bind, float_of_int. destruct (float_max <=? Z.abs z); [done|]. simpl.
    destruct (q_leb _ _); [done|]. by intros [= <-].
  - destruct x as [r| | |]; simpl; try done. unfold mbind, res_bind. destruct (q_leb r 0); [done|].
    by intros [= <-].
Qed.

(** Apart from its timestamp, its identity and its audit payload, a message reaches
    the dashboards as it came: nothing after the parser looks at the values, so an
    infinity that a numeral such as 1e400 was read as is broadcast and stored. *)
Theorem fields_pass_unchecked e a data q f k :
  sound_timestamp (get_or "timestamp" (VInt 0) data) = Ok (Some q) ->
  str_mem k ["timestamp"; "net_audit"; "sample_id"; "arrival_seq"; "persisted"; "after_seq"] = false ->
  exists live, f_live (snd (ingest_metric st py_str e a data f)) = f_live f ++ [(a, live)] /\
    get k live = get k data.
Proof.
  intros Hs Hk. destruct (ingest_spec e a data q f Hs) as (f1 & (_ & L1 & _) & (_ & L2 & _)).
  rewrite L2. set (v := canonical_value _ _ _) in *. set (t := canonical_ts _ _).
  pose proof (persist_spec (i_uuid e) a t (stored_data v data) f1) as Hp.
  destruct (_persist_and_broadcast _ _ _ _ f1) as [r f2]. destruct Hp as [_ Hp]. simpl.
  unfold str_mem in Hk. simpl in Hk. rewrite !orb_false_iff, !String.eqb_neq in Hk.
  destruct Hk as (K1 & K2 & K3 & K4 & K5 & K6 & _).
  assert (Hd : get k (stored_data v data) = get k data).
  { rewrite stored_data_get. unfold str_mem. simpl. rewrite !(proj2 (String.eqb_neq _ _)) by done. done. }
  destruct (_require_admission _); destruct Hp as (_ & -> & _); rewrite L1; eexists; (split; [done|]);
    unfold persisted_sample, ephemeral_sample; by rewrite !get_set_ne by done.
Qed.
End Identity.

(** ** The place of an ephemeral sample *)

Section Anchor.
Context `{K : Mail} (st : settings) (py_str : pyval -> string).

(** The tracker is the last id the table ever issued. *)
Definition anchored (f : fleet) : Prop := _last_assigned_id f = metrics_seq (f_metrics f).

Lemma keeps_anchored_ingest e a data : keeps anchored (ingest_metric st py_str e a data).
Proof.
  intros f Hf. destruct (sound_timestamp (get_or "timestamp" (VInt 0) data)) as [[q|]|x] eqn:E.
  - destruct (ingest_spec st py_str e a data q f E) as (f1 & (M1 & _ & A1) & (M2 & _ & A2)).
    unfold anchored. rewrite M2, A2.
    match goal with |- context [_persist_and_broadcast ?u ?b ?t ?d f1] =>
      pose proof (persist_spec u b t d f1) as Hp; destruct (_persist_and_broadcast u b t d f1) as [r f2] end.
    destruct Hp as [_ Hp]. destruct (_require_admission _); destruct Hp as (_ & _ & Hm & Ha); simpl;
      rewrite Hm, Ha; [done|]. by rewrite M1, A1.
  - unfold ingest_metric. unfold mbind at 1, M_bind at 1, lift_res. by rewrite E.
  - unfold ingest_metric. unfold mbind at 1, M_bind at 1, lift_res. by rewrite E.
Qed.

Lemma anchored_teardown ws a f : anchored f -> anchored (teardown ws a f).
Proof. unfold teardown, anchored. simpl. by case_bool_decide. Qed.

Lemma anchored_step ev f f' : ws_step st py_str ev f = Some f' -> anchored f -> anchored f'.
Proof.
  intros Hs Hf. destruct ev as [ws a|ws|ws|ws e t fr|ws|ws]; simpl in Hs;
    destruct (conns f !! ws) as [[a' [] times]|]; try done; try (by injection Hs as <-).
  - injection Hs as <-. unfold after_accept. by destruct (connected_agents (f_rpc f) !! a').
  - assert (Hk : keeps anchored (on_frame st py_str e t ws (Conn a' Serving times) fr)).
    { apply keeps_frame; [by intros g _ s Hs'|by intros ws' ts s Hs'|done|apply keeps_anchored_ingest]. }
    specialize (Hk f Hf). destruct (on_frame _ _ _ _ _ _ _ f) as [[[]|] f1];
      injection Hs as <-; [done|by apply anchored_teardown..].
  - injection Hs as <-. by apply anchored_teardown.
Qed.

Lemma anchored_run evs f f' : ws_run st py_str evs f = Some f' -> anchored f -> anchored f'.
Proof.
  revert f. induction evs as [|ev evs IH]; intros f; simpl; [by intros [= <-]|].
  destruct (ws_step st py_str ev f) as [f1|] eqn:E; [|done]. intros Hr Hf.
  apply (IH f1); [done|]. by eapply anchored_step.
Qed.

(** Once the tracker is primed at start-up it always is the last id the table has
    issued, whatever agents do: the place given to a sample that could not be stored
    is never behind the history that precedes it. *)
Theorem anchor_is_latest evs f f' :
  _require_admission (madm (f_metrics f)) = Ok tt ->
  ws_run st py_str evs (snd (prime_last_assigned_id f)) = Some f' ->
  _last_assigned_id f' = metrics_seq (f_metrics f').
Proof.
  intros Ha Hr. apply (anchored_run evs _ f' Hr).
  unfold prime_last_assigned_id, mbind, M_bind, on_metrics, zoom, get_max_metric_id, reading.
  by rewrite Ha.
Qed.
End Anchor.

(** ** Guessing the key *)

Section Guessing.
Context (st : settings) (expected_key : string) (ip : string) (a : Q).

(** Every reading of the handshake falls in the five minutes from [a] on. *)
Definition in_span (ck : gate_clock) : Prop :=
  Forall (fun r => (a <= r)%Q /\ (r < a + RateLimit.AGENT_KEY_LOCKOUT_SECONDS)%Q)
    [g_lock ck; g_prune ck; g_stamp ck; g_fail ck; g_fail_prune ck].

Definition rejected (r : res verdict) : bool :=
  match r with Ok (Closed c _) => (c =? 4001) || (c =? 4003) | _ => false end.

(** A series of handshakes from any addresses: what each came to. *)
Fixpoint gate_run (hs : list (gate_clock * scope)) (g : guard) : guard * list (string * bool) :=
  match hs with
  | [] => (g, [])
  | (ck, sc) :: hs =>
      let '(r, g) := agent_gate st expected_key ck sc g in
      let '(g', l) := gate_run hs g in
      (g', (Net.resolve_spec st sc, rejected r) :: l)
  end.

Definition failures (l : list (string * bool)) : nat :=
  length (List.filter (fun x => String.eqb x.1 ip && x.2) l).

(** The failures of the address remembered since [a]. *)
Definition held_failures (s : RateLimit.stores) : nat :=
  length (List.filter (q_leb a) (RateLimit.entries_of (RateLimit._agent_key_failures s) ip)).

Lemma cleanup_keeps_span t l :
  (t < a + RateLimit.AGENT_KEY_LOCKOUT_SECONDS)%Q ->
  List.filter (q_leb a) (RateLimit._cleanup_old t l RateLimit.AGENT_KEY_LOCKOUT_SECONDS) =
  List.filter (q_leb a) l.
Proof.
  intros Ht. unfold RateLimit._cleanup_old. apply filter_filter_weaken. intros x Hx.
  rewrite q_leb_true in Hx. unfold RateLimit.newer. rewrite q_ltb_true.
  unfold RateLimit.AGENT_KEY_LOCKOUT_SECONDS in *. lra.
Qed.

#[local] Transparent RateLimit.is_agent_key_locked RateLimit.agent_conn_allowed
  RateLimit.record_agent_key_failure.

Lemma locked_keeps t ip' s :
  (t < a + RateLimit.AGENT_KEY_LOCKOUT_SECONDS)%Q ->
  held_failures (snd (RateLimit.is_agent_key_locked t ip' s)) = held_failures s.
Proof.
  intros Ht. unfold held_failures. simpl. rewrite RateLimit.entries_insert.
  case_decide as E; [|done]. subst. by rewrite cleanup_keeps_span.
Qed.

Lemma allowed_keeps t1 t2 ip' s :
  held_failures (snd (RateLimit.agent_conn_allowed t1 t2 ip' s)) = held_failures s.
Proof.
  unfold held_failures, RateLimit.agent_conn_allowed. by destruct (RateLimit.at_limit _ _).
Qed.

Lemma record_counts now t ip' s :
  (a <= now)%Q -> (t < a + RateLimit.AGENT_KEY_LOCKOUT_SECONDS)%Q ->
  held_failures (RateLimit.record_agent_key_failure now t ip' s) =
  ((if String.eqb ip' ip then 1 else 0) + held_failures s)%nat.
Proof.
  intros Hn Ht. unfold held_failures. simpl. rewrite RateLimit.entries_insert.
  destruct (String.eqb_spec ip' ip) as [->|Hne]; [|by rewrite decide_False].
  rewrite decide_True by done. rewrite filter_snoc, length_app, cleanup_keeps_span by done.
  rewrite (proj2 (q_leb_true a now) Hn). simpl. lia.
Qed.

#[local] Opaque RateLimit.is_agent_key_locked RateLimit.agent_conn_allowed
  RateLimit.record_agent_key_failure.

(** One handshake: a rejection is remembered, nothing is forgotten. *)
Lemma gate_counts ck sc g :
  in_span ck -> Net.coherent (snd g) ->
  let '(r, g') := agent_gate st expected_key ck sc g in
  Net.coherent (snd g') /\
  held_failures (fst g') =
  ((if String.eqb (Net.resolve_spec st sc) ip && rejected r then 1 else 0) + held_failures (fst g))%nat.
Proof.
  intros Hck Hc. unfold in_span in Hck. rewrite !Forall_cons in Hck.
  destruct Hck as ([L1 L2] & _ & _ & [F1 _] & [_ P2] & _).
  unfold agent_gate, record_failure, on_stores, run_pure, lift_res, mbind, M_bind, mret, M_ret.
  destruct (Net.resolve_refines st (snd g) sc Hc) as [Hip Hc'].
  destruct (Net.resolve_client_ip st (snd g) sc) as [ip' c]. simpl in Hip, Hc'. subst ip'. simpl.
  pose proof (locked_keeps (g_lock ck) (Net.resolve_spec st sc) (fst g) L2) as H1.
  destruct (RateLimit.is_agent_key_locked _ _ (fst g)) as [[] s1]; simpl in *; [by rewrite andb_false_r|].
  pose proof (allowed_keeps (g_prune ck) (g_stamp ck) (Net.resolve_spec st sc) s1) as H2.
  destruct (RateLimit.agent_conn_allowed _ _ _ s1) as [[] s2]; simpl in *; [|by rewrite andb_false_r, H2].
  pose proof (record_counts (g_fail ck) (g_fail_prune ck) (Net.resolve_spec st sc) s2 F1 P2) as H3.
  destruct (negb (str_nonempty _) || negb (AGENT_ID_PATTERN _)); simpl;
    [by rewrite H3, andb_true_r, H2, H1|].
  destruct (negb (str_nonempty expected_key) || _); simpl; [by rewrite H3, andb_true_r, H2, H1|].
  destruct (compare_digest _ _) as [[]|]; simpl; rewrite ?andb_false_r, ?andb_true_r; split; try done;
    [by rewrite H2|by rewrite H3, H2, H1|by rewrite H2].
Qed.

Lemma gate_run_counts hs g :
  Forall in_span (fst <$> hs) -> Net.coherent (snd g) ->
  let '(g', l) := gate_run hs g in
  Net.coherent (snd g') /\ held_failures (fst g') = (failures l + held_failures (fst g))%nat.
Proof.
  revert g. induction hs as [|[ck sc] hs IH]; intros g Hs Hc; [done|]. simpl in *.
  apply Forall_cons in Hs as [Hck Hs]. pose proof (gate_counts ck sc g Hck Hc) as H1.
  destruct (agent_gate st expected_key ck sc g) as [r g1]. destruct H1 as [Hc1 H1].
  specialize (IH g1 Hs Hc1). destruct (gate_run hs g1) as [g2 l]. destruct IH as [Hc2 H2].
  split; [done|]. rewrite H2, H1. unfold failures. simpl.
  destruct (String.eqb (Net.resolve_spec st sc) ip && rejected r); simpl; lia.
Qed.


#[local] Transparent RateLimit.is_agent_key_locked.

Lemma held_locked t s :
  (a <= t)%Q /\ (t < a + RateLimit.AGENT_KEY_LOCKOUT_SECONDS)%Q ->
  (RateLimit.AGENT_KEY_MAX_FAILURES <= held_failures s)%nat ->
  fst (RateLimit.is_agent_key_locked t ip s) = true.
Proof.
  intros [L1 L2] H. unfold held_failures in H. rewrite <- (cleanup_keeps_span t) in H by done.
  apply Nat.leb_le. etrans; [exact H|]. apply length_filter_le.
Qed.

#[local] Opaque RateLimit.is_agent_key_locked.

(** After five rejected handshakes from one address within five minutes, whatever
    other addresses did in between, the next one from it within those five minutes is
    refused before its id and key are looked at, the right key included. *)
Theorem guessing_locks_out hs g ck sc :
  Net.coherent (snd g) -> Forall in_span (fst <$> hs) -> in_span ck ->
  (RateLimit.AGENT_KEY_MAX_FAILURES <= failures (snd (gate_run hs g)))%nat ->
  Net.resolve_spec st sc = ip ->
  fst (agent_gate st expected_key ck sc (fst (gate_run hs g))) =
  Ok (Closed 4029 "Too many failed attempts").
Proof.
  intros Hc Hs Hck Hf Hip. pose proof (gate_run_counts hs g Hs Hc) as H.
  destruct (gate_run hs g) as [g1 l]. destruct H as [Hc1 H]. simpl in Hf |- *.
  assert (Hl : fst (RateLimit.is_agent_key_locked (g_lock ck) ip (fst g1)) = true).
  { apply held_locked; [|lia]. by apply Forall_inv in Hck. }
  unfold agent_gate, on_stores, run_pure, mbind, M_bind, mret, M_ret.
  destruct (Net.resolve_refines st (snd g1) sc Hc1) as [Hip' _].
  destruct (Net.resolve_client_ip st (snd g1) sc) as [ip' c]. simpl in Hip'. subst ip'. rewrite Hip. simpl.
  by destruct (RateLimit.is_agent_key_locked (g_lock ck) ip (fst g1)) as [[] s].
Qed.
End Guessing.

(** ** Draining the durable unit *)

(** What wakes the loop around [asyncio.shield(core)]. *)
Inductive drain_event := CallerCancelled | CoreDone (r : res unit).

(** [None]: still waiting. *)
Fixpoint drain (evs : list drain_event) (cancelled : bool) : option (res unit) :=
  match evs with
  | [] => None
  | CallerCancelled :: evs => drain evs true
  | CoreDone (Ok _) :: _ => Some (if cancelled then Raise CancelledError else Ok tt)
  | CoreDone (Raise e) :: _ => Some (Raise e)
  end.

(** However often the caller is cancelled, the wait ends with the unit and not
    before, and the cancellation is delivered then. *)
Lemma drain_waits n r evs :
  drain (repeat CallerCancelled n) false = None /\
  drain (repeat CallerCancelled n ++ CoreDone r :: evs) false =
    Some (match r with
          | Ok _ => if (0 <? n)%nat then Raise CancelledError else Ok tt
          | Raise e => Raise e
          end).
Proof.
  assert (H : forall n c, drain (repeat CallerCancelled n) c = None /\
    drain (repeat CallerCancelled n ++ CoreDone r :: evs) c =
    Some (match r with
          | Ok _ => if c || (0 <? n)%nat then Raise CancelledError else Ok tt
          | Raise e => Raise e end)).
  { clear. induction n as [|n IH]; intros c; simpl; [by destruct r as [[]|], c|].
    destruct (IH true) as [H1 H2]. split; [done|]. rewrite H2. by destruct r, c. }
  apply H.
Qed.

(** ** Concrete runs *)

Definition empty_fleet : fleet :=
  Fleet idle ∅ [] [] (Mdb healthy [] 0 [] ∅ ∅ ∅ ∅ None) (Ndb healthy [] 0 []) sample_mailer 0 [].
Definition sample_env : ingest_env :=
  IngestEnv 1000000 "u" sample_world 0 (MailClock 0 0 0 0 0).
Definition sample_metric : dict :=
  [("timestamp", VInt 1000001); ("cpu", VDict [("percent_total", VFloat (Fin 12))]);
   ("sample_id", VStr "forged"); ("after_seq", VInt (-5))]%string.
Definition sample_frame : frame := Frame 100 (Ok (VDict sample_metric)).

(** An agent connects and reconnects twice at once, then reports. *)
Definition sample_events : list ws_event :=
  [WsOpen 1 "a"; WsAccepted 1; WsOpen 2 "a"; WsOpen 3 "a"]%string.
Definition run_sample (evs : list ws_event) : fleet :=
  default empty_fleet (ws_run mail_settings sample_str evs empty_fleet).
Definition registered_one : fleet := run_sample sample_events.
Definition replaced_one : fleet := run_sample (sample_events ++ [WsAccepted 2; WsOldClosed 2]).

Lemma registry_sound_witness :
  registry_ok empty_fleet /\ registry_ok registered_one /\
  connected_agents (f_rpc registered_one) !! "a"%string = Some 1%nat.
Proof.
  assert (H0 : registry_ok empty_fleet) by (intros b ws H; vm_compute in H; discriminate).
  split; [exact H0|]. split; [|vm_compute; reflexivity].
  apply (registry_sound mail_settings sample_str sample_events empty_fleet registered_one); [|exact H0].
  vm_compute. reflexivity.
Defined.

Lemma replaced_teardown_harmless_witness :
  conns replaced_one !! 1%nat = Some (Conn "a" Serving []) /\
  exists f', ws_step mail_settings sample_str (WsGone 1) replaced_one = Some f' /\ f_rpc f' = f_rpc replaced_one.
Proof.
  assert (Hc : conns replaced_one !! 1%nat = Some (Conn "a" Serving [])) by (vm_compute; reflexivity).
  split; [exact Hc|].
  exists (teardown 1 "a" replaced_one).
  assert (Hs : ws_step mail_settings sample_str (WsGone 1) replaced_one = Some (teardown 1 "a" replaced_one))
    by (simpl; rewrite Hc; reflexivity).
  split; [exact Hs|].
  apply (replaced_teardown_harmless mail_settings sample_str 1 "a" [] replaced_one); [exact Hc| |exact Hs].
  vm_compute. discriminate.
Defined.

Lemma reconnect_race_witness :
  exists f', conns f' !! 2%nat = Some (Conn "a" Serving []) /\ conns f' !! 3%nat = Some (Conn "a" Serving []).
Proof.
  destruct (reconnect_race mail_settings sample_str 2 3 "a" 1 [] [] registered_one)
    as (f' & _ & H2 & H3 & _); [discriminate|vm_compute; reflexivity..|].
  exists f'. split; [exact H2|exact H3].
Defined.


Lemma anchor_is_latest_witness :
  exists f', ws_run mail_settings sample_str
      (sample_events ++ [WsFrame 1 sample_env 1000000 sample_frame])
      (snd (prime_last_assigned_id empty_fleet)) = Some f' /\
    _last_assigned_id f' = 1 /\ _last_assigned_id f' = metrics_seq (f_metrics f').
Proof.
  set (evs := sample_events ++ [WsFrame 1 sample_env 1000000 sample_frame]).
  pose (f' := default empty_fleet (ws_run mail_settings sample_str evs (snd (prime_last_assigned_id empty_fleet)))).
  assert (E : ws_run mail_settings sample_str evs (snd (prime_last_assigned_id empty_fleet)) = Some f')
    by (vm_compute; reflexivity).
  exists f'. split; [exact E|]. split; [vm_compute; reflexivity|].
  apply (anchor_is_latest mail_settings sample_str evs empty_fleet f'); [reflexivity|exact E].
Defined.

Definition agent_request (key : string) : scope :=
  Scope "websocket" "/ws/agent" "GET" "ws" [("x-agent-id", "a"); ("x-agent-key", key)]%string
    (Some "192.0.2.9"%string).
Definition flat_clock (t : Q) : gate_clock := GateClock t t t t t.

Lemma guessing_locks_out_witness :
  fst (agent_gate mail_settings "right" (flat_clock 100) (agent_request "right")
         (RateLimit.empty_stores, Net.empty_cache)) = Ok (LetIn "a") /\
  fst (agent_gate mail_settings "right" (flat_clock 100) (agent_request "right")
         (fst (gate_run mail_settings "right" (repeat (flat_clock 7, agent_request "guess") 5)
                 (RateLimit.empty_stores, Net.empty_cache)))) =
    Ok (Closed 4029 "Too many failed attempts").
Proof.
  split; [vm_compute; reflexivity|].
  apply (guessing_locks_out mail_settings "right" "192.0.2.9" 5).
  - intros r. discriminate.
  - repeat constructor; vm_compute; discriminate.
  - repeat constructor; vm_compute; discriminate.
  - vm_compute. repeat constructor.
  - vm_compute. reflexivity.
Defined.

Lemma fields_pass_unchecked_witness :
  exists live,
    f_live (snd (ingest_metric mail_settings sample_str sample_env "a"
      [("timestamp", VInt 1000001); ("cpu", VFloat PosInf)]%string empty_fleet)) = [("a"%string, live)] /\
    get "cpu" live = VFloat PosInf.
Proof.
  destruct (fields_pass_unchecked mail_settings sample_str sample_env "a"
    [("timestamp", VInt 1000001); ("cpu", VFloat PosInf)]%string 1000001 empty_fleet "cpu" eq_refl eq_refl)
    as (live & Hl & Hk).
  exists live. split; [exact Hl|exact Hk].
Defined.
