(* ===== verification/WsGates.v ===== *)
(** * The browser WebSocket endpoints

    src/backend/app/websocket/client_ws.py, terminal_ws.py and docker_logs_ws.py:
    who may open one, the cap on terminal sessions, and the fan-out of live samples
    with the eviction of clients that cannot be served. *)
From S2P Require Import Prelude Py Effects DbCore Accounts IpAddress Net AuthService AuthMiddleware Samples.
Open Scope Z_scope.

Inductive ws_verdict :=
| WsClosed (code : Z) (reason : string)
| WsAccept (subprotocol : option string).

(** ** Live metrics: client_ws.py *)

Section Gates.
Context `{C : Crypto} (st : settings) (local_agent_id : string).

(** [handle_client_ws] up to [ws.accept]. *)
Definition client_gate (now now' : Q) (ws : handshake_req) : M web ws_verdict :=
  ok ← on_origins (origin_ok st ws);
  if negb ok then mret (WsClosed 4003 "Origin mismatch")
  else
    let token := ws_token ws in
    match some_nonempty (verify_token now token "access") with
    | None => mret (WsClosed 4003 "Authentication required")
    | Some e =>
        u ← on_db (get_user e);
        match u with
        | None => mret (WsClosed 4403 "Inactive or unknown user")
        | Some u =>
            if negb (active u) then mret (WsClosed 4403 "Inactive or unknown user")
            else if must_change u then mret (WsClosed 4403 "Password change required")
            else
              revoked ← on_db (access_revoked now' token (Some u));
              if (revoked : bool) then mret (WsClosed 4401 "Token revoked")
              else mret (WsAccept (accept_subprotocol ws))
        end
    end.

(** ** Container logs: docker_logs_ws.py *)

Definition CONTAINER_ID_PATTERN (s : string) : bool :=
  re_dollar (re_class (fun c => is_alnum c || str_mem (of_chars [c]) ["_"; "."; "-"]%string) 1 128) s.
Definition AGENT_ID_PATTERN (s : string) : bool :=
  re_dollar (re_class (fun c => is_alnum c || str_mem (of_chars [c]) ["_"; "-"]%string) 1 64) s.

Definition query_param (ws : handshake_req) (name dflt : string) : string :=
  default dflt (dict_get name (ws_query ws)).

Definition tail_of (raw : string) : Z :=
  match parse_int 10 raw with Some n => Z.max 1 (Z.min n 5000) | None => 200 end.

(** What [_stream_remote] is started with. *)
Record log_request := LogRequest { lr_agent : string; lr_container : string; lr_tail : Z }.

Definition docker_logs_gate (now now' : Q) (ws : handshake_req) : M web (ws_verdict * option log_request) :=
  let refuse code reason := mret (WsClosed code reason, None) in
  ok ← on_origins (origin_ok st ws);
  if negb ok then refuse 4003 "Origin mismatch"
  else
    let token := ws_token ws in
    match some_nonempty (verify_token now token "access") with
    | None => refuse 4003 "Authentication required"
    | Some e =>
        u ← on_db (get_user e);
        match u with
        | None => refuse 4403 "Admin access required"
        | Some u =>
            if negb (String.eqb (role u) "admin") || negb (active u)
            then refuse 4403 "Admin access required"
            else if must_change u then refuse 4403 "Password change required"
            else
              revoked ← on_db (access_revoked now' token (Some u));
              if (revoked : bool) then refuse 4401 "Token revoked"
              else
                let container_id := query_param ws "container_id" "" in
                let agent_id := query_param ws "agent_id" local_agent_id in
                if negb (CONTAINER_ID_PATTERN container_id) then refuse 4400 "Invalid container_id"
                else if negb (AGENT_ID_PATTERN agent_id) then refuse 4400 "Invalid agent_id"
                else mret (WsAccept (accept_subprotocol ws),
                           Some (LogRequest agent_id container_id
                                   (tail_of (query_param ws "tail" "200"))))
        end
    end.

(** ** Terminals: terminal_ws.py *)

Definition MAX_TERMINAL_SESSIONS : nat := 5.

Record term := Term {
  t_web : web;
  t_nets : Net.cache;
  _sessions : gmap string nat
}.

Definition on_web {A} : M web A -> M term A :=
  zoom t_web (fun w t => Term w (t_nets t) (_sessions t)).
Definition on_tdb {A} (m : M db A) : M term A := on_web (on_db m).
Definition set_sessions (f : gmap string nat -> gmap string nat) (t : term) : term :=
  Term (t_web t) (t_nets t) (f (_sessions t)).

Definition held_sessions (e : string) (m : gmap string nat) : nat := default 0%nat (m !! e).

(** [_sessions.get(email, 0) >= MAX_TERMINAL_SESSIONS]. *)
Definition at_cap (n : nat) : bool := (MAX_TERMINAL_SESSIONS <=? n)%nat.
#[global] Arguments at_cap : simpl never.

Definition reserve_session (e : string) (m : gmap string nat) : gmap string nat :=
  <[e := S (held_sessions e m)]> m.

Definition _release_session (e : string) (m : gmap string nat) : gmap string nat :=
  if (held_sessions e m <=? 1)%nat then delete e m
  else <[e := (held_sessions e m - 1)%nat]> m.

Definition client_ip (ws : handshake_req) : M term string :=
  run_pure (fun t => let '(ip, c) := Net.resolve_client_ip st (t_nets t) (ws_scope ws) in
                     (ip, Term (t_web t) c (_sessions t))).

Definition deny (now : Q) (ws : handshake_req) (e agent_id reason : string) : M term unit :=
  ip ← client_ip ws;
  on_tdb (audit now e "terminal.denied" agent_id [("reason", VStr reason); ("ip", VStr ip)]%string).

(** What [_bridge_remote] is started with. *)
Record shell := Shell { sh_user : string; sh_agent : string; sh_host_user : string }.

(** [handle_terminal_ws] up to [ws.accept]; an admitted one has its slot. *)
Definition terminal_gate (now now' now'' : Q) (ws : handshake_req) : M term (ws_verdict * option shell) :=
  let refuse code reason := mret (WsClosed code reason, None) in
  ok ← on_web (on_origins (origin_ok st ws));
  if negb ok then refuse 4003 "Origin mismatch"
  else
    let token := ws_token ws in
    match some_nonempty (verify_token now token "access") with
    | None => refuse 4003 "Authentication required"
    | Some e =>
        let agent_id := query_param ws "agent_id" local_agent_id in
        found ← on_tdb (get_user e);
        match found with
        | None => _ ← deny now'' ws e agent_id "not_admin"; refuse 4403 "Admin access required"
        | Some u =>
            if negb (String.eqb (role u) "admin") || negb (active u)
            then _ ← deny now'' ws e agent_id "not_admin"; refuse 4403 "Admin access required"
            else if must_change u
            then _ ← deny now'' ws e agent_id "must_change_password"; refuse 4403 "Password change required"
            else
              revoked ← on_tdb (access_revoked now' token (Some u));
              if (revoked : bool) then refuse 4401 "Token revoked"
              else
                accounts ← on_tdb (get_user_host_accounts e);
                let host_user := strip (default "" (accounts !! agent_id)) in
                if negb (str_nonempty host_user) && negb (String.eqb agent_id local_agent_id)
                then refuse 4003 ("No shell access on host '" ++ agent_id ++ "'")%string
                else
                  held ← gets (fun t => held_sessions e (_sessions t));
                  if at_cap held
                  then _ ← deny now'' ws e agent_id "session_limit"; refuse 4429 "Too many terminal sessions"
                  else
                    _ ← modify (set_sessions (reserve_session e));
                    mret (WsAccept (accept_subprotocol ws), Some (Shell e agent_id host_user))
        end
    end.

(** ** Who may open them *)

(** Whose token it is, and that it still stands. *)
Record stands (now now' : Q) (ws : handshake_req) (d : db) (e : string) (u : user) : Prop := {
  sd_verified : some_nonempty (verify_token now (ws_token ws) "access") = Some e;
  sd_user : users d !! e = Some u;
  sd_active : active u = true;
  sd_settled : must_change u = false;
  sd_listed : token_blacklist d !! _hash_token (ws_token ws) = None;
  sd_claims : exists p, jwt_decode false false now' (ws_token ws) = Some p /\
                        (tokens_valid_after u <= default 0%Q (iat p))%Q
}.

Lemma on_origins_db {A} (m : M origin_cache A) w r w' : on_origins m w = (r, w') -> w_db w' = w_db w.
Proof. unfold on_origins, zoom. destruct (m _). by intros [= _ <-]. Qed.

(** The origin check passes only with an Origin header. *)
Lemma origin_ok_present ws c c' : origin_ok st ws c = (Ok true, c') -> ws_header ws "origin" <> ""%string.
Proof. unfold origin_ok, _origin_host_trusted. intros H Ho. by rewrite Ho in H. Qed.

Lemma admitted_origin ws w w1 :
  on_origins (origin_ok st ws) w = (Ok true, w1) -> ws_header ws "origin" <> ""%string.
Proof.
  unfold on_origins, zoom. destruct (origin_ok st ws (w_origins w)) as [r c'] eqn:E.
  intros [= -> _]. by eapply origin_ok_present.
Qed.

Lemma client_admitted now now' ws w sp w' :
  client_gate now now' ws w = (Ok (WsAccept sp), w') ->
  ws_header ws "origin" <> ""%string /\ w_db w' = w_db w /\
  exists e u, stands now now' ws (w_db w) e u.
Proof.
  unfold client_gate. intros (ok & w1 & Ho & H)%bind_ok. pose proof (on_origins_db _ _ _ _ Ho) as Hdb.
  destruct ok; [|done]. simpl in H.
  assert (Hor : ws_header ws "origin" <> ""%string) by (by eapply admitted_origin).
  destruct (some_nonempty _) as [e|] eqn:Hv; [|done].
  apply bind_ok in H as (u & w2 & (d & (Ha & Hu & <-)%get_user_ok & ->)%on_db_ok & H).
  destruct u as [u|]; [|done]. destruct (active u) eqn:Hact; [|done]. simpl in H.
  destruct (must_change u) eqn:Hm; [done|].
  apply bind_ok in H as (rv & w3 & (d & Hr & ->)%on_db_ok & H). destruct rv; [done|].
  apply access_revoked_false in Hr as (_ & Hb & Hc & <-). injection H as _ <-. simpl in *.
  rewrite Hdb in *. split; [done|]. split; [done|]. by exists e, u.
Qed.

(** Live metrics are sent only to a browser that states its origin and whose token
    belongs to an active account that is not revoked and has no password to change. *)
Theorem client_gate_safe now now' ws w sp w' :
  client_gate now now' ws w = (Ok (WsAccept sp), w') ->
  ws_header ws "origin" <> ""%string /\ exists e u, stands now now' ws (w_db w) e u.
Proof. intros H%client_admitted. tauto. Qed.

(** Container logs are streamed only to such an account that is an administrator,
    for identifiers of the accepted form, with a tail between 1 and 5000 lines. *)
Theorem logs_gate_safe now now' ws w sp rq w' :
  docker_logs_gate now now' ws w = (Ok (WsAccept sp, rq), w') ->
  ws_header ws "origin" <> ""%string /\
  (exists e u, stands now now' ws (w_db w) e u /\ role u = "admin"%string) /\
  exists r, rq = Some r /\ CONTAINER_ID_PATTERN (lr_container r) = true /\
    AGENT_ID_PATTERN (lr_agent r) = true /\ 1 <= lr_tail r <= 5000.
Proof.
  unfold docker_logs_gate. intros (ok & w1 & Ho & H)%bind_ok. pose proof (on_origins_db _ _ _ _ Ho) as Hdb.
  destruct ok; [|done]. simpl in H.
  assert (Hor : ws_header ws "origin" <> ""%string) by (by eapply admitted_origin).
  destruct (some_nonempty _) as [e|] eqn:Hv; [|done].
  apply bind_ok in H as (u & w2 & (d & (Ha & Hu & <-)%get_user_ok & ->)%on_db_ok & H).
  destruct u as [u|]; [|done].
  destruct (String.eqb_spec (role u) "admin") as [Hr|]; [|done]. destruct (active u) eqn:Hact; [|done].
  simpl in H. destruct (must_change u) eqn:Hm; [done|].
  apply bind_ok in H as (rv & w3 & (d & Hrv & ->)%on_db_ok & H). destruct rv; [done|].
  apply access_revoked_false in Hrv as (_ & Hb & Hc & <-). simpl in *. rewrite Hdb in *.
  destruct (CONTAINER_ID_PATTERN _) eqn:Hci; [|done]. destruct (AGENT_ID_PATTERN _) eqn:Hai; [|done].
  simpl in H. injection H as _ <- _. split; [done|]. split; [by exists e, u|].
  eexists. split; [done|]. split; [done|]. split; [done|]. simpl. unfold tail_of.
  destruct (parse_int _ _); lia.
Qed.

Lemma on_web_ok {A} (m : M web A) t a t' :
  on_web m t = (Ok a, t') <->
  exists w', m (t_web t) = (Ok a, w') /\ t' = Term w' (t_nets t) (_sessions t).
Proof.
  unfold on_web, zoom. destruct (m (t_web t)) as [r w']. split.
  - intros [= -> <-]. by exists w'.
  - by intros (d2 & [= -> ->] & ->).
Qed.

Lemma get_hosts_ok e d r d' :
  get_user_host_accounts e d = (Ok r, d') -> d' = d /\ forall a h, r !! a = Some h ->
    user_host_accounts d !! (e, a) = Some h.
Proof.
  unfold get_user_host_accounts. intros (_ & <- & <-)%reading_ok. split; [done|].
  intros a h Hl. apply elem_of_list_to_map_2 in Hl.
  apply list_elem_of_fmap in Hl as ([[e' a'] h'] & [= -> ->] & Hin).
  apply list_elem_of_In, List.filter_In in Hin as [Hin Heq%String.eqb_eq].
  simpl in Heq. subst. apply list_elem_of_In in Hin. by apply elem_of_map_to_list in Hin.
Qed.

(** C34: a terminal is opened only for an active administrator, unrevoked, with no
    password to change, who has a shell account on the host or asks for the local one,
    and only below the session cap; its slot is taken in the same step as the check. *)
Theorem terminal_gate_safe now now' now'' ws t sp sh t' :
  terminal_gate now now' now'' ws t = (Ok (WsAccept sp, sh), t') ->
  exists e u agent_id host_user,
    sh = Some (Shell e agent_id host_user) /\
    ws_header ws "origin" <> ""%string /\ stands now now' ws (w_db (t_web t)) e u /\
    role u = "admin"%string /\
    (agent_id = local_agent_id \/
     exists h, user_host_accounts (w_db (t_web t)) !! (e, agent_id) = Some h /\
               host_user = strip h /\ host_user <> ""%string) /\
    (held_sessions e (_sessions t) < MAX_TERMINAL_SESSIONS)%nat /\
    _sessions t' = reserve_session e (_sessions t).
Proof.
  unfold terminal_gate. intros (ok & t1 & (w1 & Ho & ->)%on_web_ok & H)%bind_ok.
  pose proof (on_origins_db _ _ _ _ Ho) as Hdb. destruct ok; [|done]. simpl in H.
  assert (Hor : ws_header ws "origin" <> ""%string) by (by eapply admitted_origin).
  destruct (some_nonempty _) as [e|] eqn:Hv; [|done].
  apply bind_ok in H as (u & t2 & (w2 & (d & (Ha & Hu & <-)%get_user_ok & ->)%on_db_ok & ->)%on_web_ok & H).
  assert (Hdeny : forall reason code text t1, (_ ← deny now'' ws e (query_param ws "agent_id" local_agent_id) reason;
     mret (WsClosed code text, None)) t1 <> (Ok (WsAccept sp, sh), t')).
  { intros reason code text t1' (x & t1'' & _ & [=])%bind_ok. }
  destruct u as [u|]; [|by apply Hdeny in H].
  destruct (String.eqb_spec (role u) "admin") as [Hr|]; [|by apply Hdeny in H].
  destruct (active u) eqn:Hact; [|by apply Hdeny in H]. simpl in H.
  destruct (must_change u) eqn:Hm; [by apply Hdeny in H|].
  apply bind_ok in H as (rv & t3 & (w3 & (d & Hrv & ->)%on_db_ok & ->)%on_web_ok & H). destruct rv; [done|].
  apply access_revoked_false in Hrv as (_ & Hb & Hc & <-).
  apply bind_ok in H as (acc & t4 & (w4 & (d & [-> Hacc]%get_hosts_ok & ->)%on_db_ok & ->)%on_web_ok & H).
  simpl in *. rewrite Hdb in *.
  destruct (negb _ && negb _) eqn:Hhost; [done|].
  apply bind_ok in H as (held & t5 & [Hheld <-]%gets_ok & H). simpl in Hheld.
  destruct (at_cap held) eqn:Hcap; [by apply Hdeny in H|].
  apply Nat.leb_gt in Hcap. injection H as _ <- <-. subst held. simpl.
  exists e, u; do 2 eexists. split; [done|]. split; [done|]. split; [by split|]. split; [done|].
  split; [|done]. apply andb_false_iff in Hhost as [Hh|Hl].
  - right. apply negb_false_iff in Hh. destruct (acc !! _) as [h|] eqn:E; [|done]. exists h.
    split; [by apply Hacc|]. split; [done|]. intros Heq. simpl in Hh, Heq. by rewrite Heq in Hh.
  - left. apply negb_false_iff in Hl. by apply String.eqb_eq.
Qed.
End Gates.

(** ** The session cap across the life of terminals *)

(** [tasks] are the handlers that hold a slot. *)
Record sessions := Sessions { tasks : gmap nat string; counts : gmap string nat }.

Inductive session_event :=
| SReserve (id : nat) (e : string)  (* the end of the gate: check and increment *)
| SFailed (id : nat)                (* accept() raised *)
| SEnded (id : nat).                (* the [finally] clause *)

Definition session_step (ev : session_event) (s : sessions) : option sessions :=
  match ev with
  | SReserve id e =>
      match tasks s !! id with
      | Some _ => None
      | None => if at_cap (held_sessions e (counts s)) then Some s
                else Some (Sessions (<[id := e]> (tasks s)) (reserve_session e (counts s)))
      end
  | SFailed id | SEnded id =>
      match tasks s !! id with
      | Some e => Some (Sessions (delete id (tasks s)) (_release_session e (counts s)))
      | None => None
      end
  end.

Fixpoint session_run (evs : list session_event) (s : sessions) : option sessions :=
  match evs with
  | [] => Some s
  | ev :: evs => match session_step ev s with Some s => session_run evs s | None => None end
  end.

(** The terminals an account has open. *)
Definition open_terminals (e : string) (s : sessions) : nat :=
  size (filter (fun kv => kv.2 = e) (tasks s)).

Definition sessions_ok (s : sessions) : Prop :=
  forall e, held_sessions e (counts s) = open_terminals e s /\
    (open_terminals e s <= MAX_TERMINAL_SESSIONS)%nat /\ counts s !! e <> Some 0%nat.

Lemma held_reserve e e' m :
  held_sessions e' (reserve_session e m) = ((if decide (e = e') then 1 else 0) + held_sessions e' m)%nat.
Proof.
  unfold held_sessions, reserve_session. rewrite lookup_insert. case_decide; [by subst|done].
Qed.

Lemma held_release e e' m :
  held_sessions e' (_release_session e m) =
  if decide (e = e') then (held_sessions e' m - 1)%nat else held_sessions e' m.
Proof.
  unfold _release_session. destruct (Nat.leb_spec (held_sessions e m) 1); unfold held_sessions in *.
  - rewrite lookup_delete. case_decide; [|done]. subst. simpl. lia.
  - rewrite lookup_insert. case_decide; [|done]. by subst.
Qed.

Lemma open_insert id e e' s :
  tasks s !! id = None ->
  open_terminals e' (Sessions (<[id := e]> (tasks s)) (counts s)) =
  ((if decide (e = e') then 1 else 0) + open_terminals e' s)%nat.
Proof.
  intros Hid. unfold open_terminals. simpl. case_decide as E.
  - rewrite map_filter_insert_True by done. rewrite map_size_insert_None; [done|].
    apply map_lookup_filter_None. by left.
  - rewrite map_filter_insert_False by done. by rewrite delete_id.
Qed.

Lemma open_delete id e e' s :
  tasks s !! id = Some e ->
  open_terminals e' s =
  ((if decide (e = e') then 1 else 0) + open_terminals e' (Sessions (delete id (tasks s)) (counts s)))%nat.
Proof.
  intros Hid. rewrite <- (open_insert id e e' (Sessions (delete id (tasks s)) (counts s)))
    by (simpl; apply lookup_delete_eq).
  unfold open_terminals. simpl. by rewrite insert_delete_id.
Qed.

Lemma session_step_ok ev s s' : session_step ev s = Some s' -> sessions_ok s -> sessions_ok s'.
Proof.
  assert (Hrel : forall id e, tasks s !! id = Some e -> sessions_ok s ->
    sessions_ok (Sessions (delete id (tasks s)) (_release_session e (counts s)))).
  { intros id e Hid Hs e'. destruct (Hs e') as (H1 & H2 & H3).
    pose proof (open_delete id e e' s Hid) as Ho. unfold open_terminals in *. simpl in *.
    rewrite held_release. split; [case_decide; lia|]. split; [lia|].
    unfold _release_session. destruct (Nat.leb_spec (held_sessions e (counts s)) 1).
    - rewrite lookup_delete. by case_decide.
    - rewrite lookup_insert. case_decide; [|done]. intros [= Hz]. lia. }
  intros Hst Hs. destruct ev as [id e|id|id]; simpl in Hst.
  - destruct (tasks s !! id) eqn:Hid; [done|]. unfold at_cap in Hst.
    destruct (Nat.leb_spec MAX_TERMINAL_SESSIONS (held_sessions e (counts s))) as [|Hcap]; injection Hst as <-; [done|].
    intros e'. destruct (Hs e') as (H1 & H2 & H3). pose proof (open_insert id e e' s Hid) as Ho.
    unfold open_terminals in *. simpl in *. rewrite held_reserve, Ho, H1.
    split; [done|]. split; [case_decide; subst; lia|].
    unfold reserve_session. rewrite lookup_insert. by case_decide.
  - destruct (tasks s !! id) eqn:Hid; [|done]. injection Hst as <-. by apply Hrel.
  - destruct (tasks s !! id) eqn:Hid; [|done]. injection Hst as <-. by apply Hrel.
Qed.

(** In every interleaving of openings, failures and ends the counter of an account
    is the number of terminals it has open, that number never exceeds five, and no
    entry is left behind for an account without any. *)
Theorem session_cap_holds evs s' :
  session_run evs (Sessions ∅ ∅) = Some s' -> sessions_ok s'.
Proof.
  assert (H0 : sessions_ok (Sessions ∅ ∅)).
  { intros e. unfold open_terminals, held_sessions. simpl. rewrite map_filter_empty, map_size_empty.
    rewrite lookup_empty. simpl. split; [done|]. split; [unfold MAX_TERMINAL_SESSIONS; lia|done]. }
  revert H0. generalize (Sessions ∅ ∅). induction evs as [|ev evs IH]; intros s Hs; simpl; [by intros [= <-]|].
  destruct (session_step ev s) as [s1|] eqn:E; [|done]. apply IH. by eapply session_step_ok.
Qed.

(** ** The fan-out: [broadcast_to_clients] and [_evict_client] *)

Inductive handler := Running | Finished | CancelRequested.

(** [_clients], [_client_tasks] (socket to task) and the tasks themselves. *)
Record hub := Hub {
  _clients : gset nat;
  _client_tasks : gmap nat nat;
  handlers : gmap nat handler
}.

(** The registration behind [ws.accept], and the handler's [finally]. *)
Definition client_joined (ws task : nat) (h : hub) : hub :=
  Hub ({[ws]} ∪ _clients h) (<[ws := task]> (_client_tasks h)) (<[task := Running]> (handlers h)).
Definition client_left (ws task : nat) (h : hub) : hub :=
  Hub (_clients h ∖ {[ws]}) (delete ws (_client_tasks h)) (<[task := Finished]> (handlers h)).

(** What happened while the eviction of a socket waited: its close and the grace
    period for its handler, in which the handler may have run its [finally]. *)
Record eviction := Eviction { ev_closed : bool; ev_finished : bool }.

Definition _evict_client (o : nat -> eviction) (h : hub) (ws : nat) : hub :=
  let task := _client_tasks h !! ws in
  let h := Hub (_clients h ∖ {[ws]}) (delete ws (_client_tasks h)) (handlers h) in
  match task with
  | None => h
  | Some task =>
      let h := if ev_closed (o ws) && ev_finished (o ws) then client_left ws task h else h in
      match handlers h !! task with
      | Some Finished | None => h
      | Some _ => Hub (_clients h) (_client_tasks h) (<[task := CancelRequested]> (handlers h))
      end
  end.

(** One snapshot serves the sends and the evictions. *)
Definition broadcast_to_clients (sends : nat -> bool) (o : nat -> eviction) (h : hub) : hub :=
  fold_left (_evict_client o) (List.filter (fun ws => negb (sends ws)) (elements (_clients h))) h.

(** A client's task is its own, and runs while the client is registered. *)
Definition hub_ok (h : hub) : Prop :=
  (forall ws, ws ∈ _clients h <-> is_Some (_client_tasks h !! ws)) /\
  (forall ws task, _client_tasks h !! ws = Some task -> handlers h !! task = Some Running) /\
  (forall ws ws' task, _client_tasks h !! ws = Some task -> _client_tasks h !! ws' = Some task -> ws = ws').

Definition stopped (h : hub) (task : nat) : Prop :=
  handlers h !! task = Some Finished \/ handlers h !! task = Some CancelRequested.

Lemma evict_spec o h ws task :
  hub_ok h -> _client_tasks h !! ws = Some task ->
  let h' := _evict_client o h ws in
  hub_ok h' /\ _clients h' = _clients h ∖ {[ws]} /\ stopped h' task /\
  _client_tasks h' = delete ws (_client_tasks h) /\
  (forall t, t <> task -> handlers h' !! t = handlers h !! t).
Proof.
  intros (H1 & H2 & H3) Ht. pose proof (H2 _ _ Ht) as Hr. cbn zeta.
  assert (Hok : forall x, hub_ok (Hub (_clients h ∖ {[ws]}) (delete ws (_client_tasks h))
                                 (<[task := x]> (handlers h)))).
  { intros x. split; [|split].
    - intros w. simpl. rewrite elem_of_difference, H1, lookup_delete. case_decide.
      + subst. split; [set_solver|by intros []].
      + set_solver.
    - intros w t Hw. simpl in *. apply lookup_delete_Some in Hw as [Hne Hw].
      rewrite lookup_insert_ne; [by apply (H2 w)|]. intros ->. by apply Hne, (H3 _ _ t).
    - intros w w' t Hw Hw'. simpl in *. apply lookup_delete_Some in Hw as [_ Hw], Hw' as [_ Hw'].
      by apply (H3 w w' t). }
  assert (Hfin : _evict_client o h ws = Hub (_clients h ∖ {[ws]}) (delete ws (_client_tasks h))
     (<[task := if ev_closed (o ws) && ev_finished (o ws) then Finished else CancelRequested]> (handlers h))).
  { unfold _evict_client, client_left. rewrite Ht. simpl.
    destruct (ev_closed (o ws) && ev_finished (o ws)); simpl.
    - rewrite lookup_insert_eq, delete_delete_eq. f_equal. set_solver.
    - by rewrite Hr. }
  rewrite Hfin. simpl. split; [apply Hok|]. split; [reflexivity|]. split.
  - unfold stopped. simpl. rewrite lookup_insert_eq. destruct (_ && _); [by left|by right].
  - split; [reflexivity|]. intros t Hne. by rewrite lookup_insert_ne.
Qed.

Lemma evict_all o l h :
  hub_ok h -> NoDup l -> (forall ws, ws ∈ l -> ws ∈ _clients h) ->
  let h' := fold_left (_evict_client o) l h in
  hub_ok h' /\ _clients h' = _clients h ∖ list_to_set l /\
  (forall ws task, ws ∈ l -> _client_tasks h !! ws = Some task -> stopped h' task) /\
  (forall t, (forall ws, ws ∈ l -> _client_tasks h !! ws <> Some t) -> handlers h' !! t = handlers h !! t).
Proof.
  revert h. induction l as [|ws l IH]; intros h Hh Hnd Hin; simpl.
  - split; [exact Hh|]. split; [set_solver|]. split; [set_solver|reflexivity].
  - apply NoDup_cons in Hnd as [Hnl Hnd].
    destruct (proj1 (proj1 Hh ws) (Hin ws (list_elem_of_here _ _))) as [task Ht].
    destruct (evict_spec o h ws task Hh Ht) as (E1 & E2 & E3 & E4 & E5).
    destruct (IH (_evict_client o h ws) E1 Hnd) as (I1 & I2 & I3 & I4).
    { intros w Hw. rewrite E2. apply elem_of_difference. split; [apply Hin; by right|]. set_solver. }
    assert (Hother : forall w, w ∈ l -> _client_tasks (_evict_client o h ws) !! w = _client_tasks h !! w).
    { intros w Hw. rewrite E4. apply lookup_delete_ne. intros ->. by apply Hnl. }
    split; [exact I1|]. split; [rewrite I2, E2; set_solver|]. split.
    + intros w t Hw Hwt. apply elem_of_cons in Hw as [->|Hw].
      * assert (t = task) as -> by congruence. unfold stopped. rewrite I4; [exact E3|].
        intros w' Hw' Hc. rewrite Hother in Hc by exact Hw'. apply Hnl.
        by rewrite (proj2 (proj2 Hh) ws w' task Ht Hc).
      * apply (I3 w); [exact Hw|]. by rewrite Hother.
    + intros t Hnt. rewrite I4.
      * apply E5. intros ->. by apply (Hnt ws (list_elem_of_here _ _)).
      * intros w Hw. rewrite Hother by exact Hw. apply Hnt. by right.
Qed.

(** A broadcast leaves exactly the clients it could serve; the handler of every
    other one has finished or has been told to stop, whatever its close came to, and
    no other handler is touched. *)
Theorem broadcast_evicts sends o h :
  hub_ok h ->
  let h' := broadcast_to_clients sends o h in
  hub_ok h' /\
  (forall ws, ws ∈ _clients h' <-> ws ∈ _clients h /\ sends ws = true) /\
  (forall ws task, _client_tasks h !! ws = Some task -> sends ws = false -> stopped h' task) /\
  (forall ws task, _client_tasks h !! ws = Some task -> sends ws = true ->
     handlers h' !! task = Some Running).
Proof.
  intros Hh. cbn zeta. unfold broadcast_to_clients. set (l := List.filter _ _).
  assert (Hl : forall ws, ws ∈ l <-> ws ∈ _clients h /\ sends ws = false).
  { intros ws. unfold l. rewrite list_elem_of_In, List.filter_In, <- list_elem_of_In, elem_of_elements.
    by rewrite negb_true_iff. }
  assert (Hnd : NoDup l) by (apply NoDup_list_filter, NoDup_elements).
  destruct (evict_all o l h Hh Hnd) as (I1 & I2 & I3 & I4); [intros ws; rewrite Hl; tauto|].
  split; [exact I1|]. split; [|split].
  - intros ws. rewrite I2, elem_of_difference, elem_of_list_to_set, Hl.
    destruct (sends ws); naive_solver.
  - intros ws task Ht Hs. apply (I3 ws); [|exact Ht]. apply Hl. split; [|exact Hs].
    apply (proj1 Hh). by exists task.
  - intros ws task Ht Hs. rewrite I4; [by apply (proj1 (proj2 Hh) ws)|].
    intros w [_ Hw]%Hl Hc. rewrite (proj2 (proj2 Hh) ws w task Ht Hc) in Hs. congruence.
Qed.

(** ** Concrete runs *)

Definition sample_ws (query : list (string * string)) : handshake_req :=
  HandshakeReq (Scope "websocket" "/ws/x" "GET" "ws"
    [("origin", "https://ops.lan"); ("host", "ops.lan:8443"); ("sec-websocket-protocol", "bearer, acc")]%string
    (Some "192.0.2.9"%string)) [] query.
Definition sample_term : term := Term (sample_web sample_db) Net.empty_cache ∅.
Definition after {S A} (r : res A * S) : S := snd r.

Lemma client_gate_safe_witness :
  fst (client_gate sample_settings 600 601 (sample_ws []) (sample_web sample_db)) =
    Ok (WsAccept (Some "bearer"%string)) /\
  exists e u, stands 600 601 (sample_ws []) sample_db e u.
Proof.
  assert (H : client_gate sample_settings 600 601 (sample_ws []) (sample_web sample_db) =
    (Ok (WsAccept (Some "bearer"%string)),
     after (client_gate sample_settings 600 601 (sample_ws []) (sample_web sample_db))))
    by (vm_compute; reflexivity).
  split; [rewrite H; reflexivity|]. exact (proj2 (client_gate_safe _ _ _ _ _ _ _ H)).
Defined.

Definition log_query : list (string * string) :=
  [("container_id", "web.1"); ("agent_id", "edge"); ("tail", "99999")]%string.

Lemma logs_gate_safe_witness :
  let run := docker_logs_gate sample_settings "local" 600 601 (sample_ws log_query) (sample_web sample_db) in
  fst run = Ok (WsAccept (Some "bearer"%string), Some (LogRequest "edge" "web.1" 5000)) /\
  exists e u, stands 600 601 (sample_ws log_query) sample_db e u /\ role u = "admin"%string.
Proof.
  intros run.
  assert (H : run = (Ok (WsAccept (Some "bearer"%string), Some (LogRequest "edge" "web.1" 5000)), after run))
    by (vm_compute; reflexivity).
  split; [rewrite H; reflexivity|].
  exact (proj1 (proj2 (logs_gate_safe sample_settings "local" 600 601 (sample_ws log_query) (sample_web sample_db) _ _ _ H))).
Defined.

Lemma terminal_gate_safe_witness :
  let run := terminal_gate sample_settings "local" 600 601 602 (sample_ws []) sample_term in
  fst run = Ok (WsAccept (Some "bearer"%string), Some (Shell "a@x" "local" "")) /\
  exists e, _sessions (after run) = reserve_session e ∅.
Proof.
  intros run.
  assert (H : run = (Ok (WsAccept (Some "bearer"%string), Some (Shell "a@x" "local" "")), after run))
    by (vm_compute; reflexivity).
  split; [rewrite H; reflexivity|].
  unfold run in H |- *. destruct (terminal_gate_safe sample_settings "local" 600 601 602 (sample_ws []) sample_term (Some "bearer"%string)
    (Some (Shell "a@x" "local" "")) _ H) as (e & u & a & h & _ & _ & _ & _ & _ & _ & Hs).
  exists e. exact Hs.
Defined.

Definition six_opens : list session_event :=
  [SReserve 1 "a"; SReserve 2 "a"; SReserve 3 "a"; SReserve 4 "a"; SReserve 5 "a"; SReserve 6 "a";
   SFailed 2; SReserve 7 "b"; SEnded 7]%string.

Lemma session_cap_holds_witness :
  exists s, session_run six_opens (Sessions ∅ ∅) = Some s /\
    held_sessions "a" (counts s) = 4%nat /\ counts s !! "b"%string = None /\ sessions_ok s.
Proof.
  pose (s := default (Sessions ∅ ∅) (session_run six_opens (Sessions ∅ ∅))).
  assert (H : session_run six_opens (Sessions ∅ ∅) = Some s) by (vm_compute; reflexivity).
  exists s. split; [exact H|]. split; [vm_compute; reflexivity|]. split; [vm_compute; reflexivity|].
  apply (session_cap_holds six_opens s H).
Defined.

Definition two_clients : hub := client_joined 2 20 (client_joined 1 10 (Hub ∅ ∅ ∅)).

Lemma broadcast_evicts_witness :
  hub_ok two_clients /\
  stopped (broadcast_to_clients (fun ws => Nat.eqb ws 1) (fun _ => Eviction false false) two_clients) 20.
Proof.
  assert (H : hub_ok two_clients).
  { unfold two_clients, client_joined. split; [|split]; simpl.
    - intros ws. rewrite !lookup_insert_is_Some. rewrite lookup_empty. split.
      + intros [->%elem_of_singleton|[->%elem_of_singleton|Hw]%elem_of_union]%elem_of_union;
          [by left|right; split; [done|by left]|set_solver].
      + intros [->|[_ [->|[_ []]]]]; [set_solver|set_solver|done].
    - intros ws t H. rewrite !lookup_insert_Some, lookup_empty in H.
      destruct H as [[<- <-]|[_ [[<- <-]|[_ Hw]]]]; [vm_compute; reflexivity..|done].
    - intros ws ws' t. rewrite !lookup_insert_Some, !lookup_empty. naive_solver. }
  split; [exact H|].
  destruct (broadcast_evicts (fun ws => Nat.eqb ws 1) (fun _ => Eviction false false) two_clients H)
    as (_ & _ & Hs & _).
  apply (Hs 2%nat); vm_compute; reflexivity.
Defined.
