(* ===== verification/ProcNet.v ===== *)
(** * The connection table of a host (src/agent/agent/collectors/net_audit.py, lines 18-220)

    Parsing /proc/net/{tcp,tcp6,udp,udp6,dev}, finding the process behind a socket, and
    HostNetnsProcSource.  /proc is an argument: what each file reads as, or how the
    reading fails. *)
From S2P Require Import Prelude Py Effects PyVals IpAddress Urls.
Open Scope Z_scope.

(** ** Addresses *)

Definition TCP_STATES : list (string * string) :=
  [("01", "ESTABLISHED"); ("02", "SYN_SENT"); ("03", "SYN_RECV"); ("04", "FIN_WAIT1");
   ("05", "FIN_WAIT2"); ("06", "TIME_WAIT"); ("07", "CLOSE"); ("08", "CLOSE_WAIT");
   ("09", "LAST_ACK"); ("0A", "LISTEN"); ("0B", "CLOSING")]%string.

Definition int_of (base : Z) (s : string) : res Z :=
  match parse_int base s with Some n => Ok n | None => Raise (ValueError "invalid literal for int()") end.

(** [struct.pack("<I", n)], byte by byte; out of range it is a [struct.error]. *)
Definition pack_le (n : Z) : res (list Z) :=
  if (0 <=? n) && (n <? 2 ^ 32)
  then Ok [Z.land n 255; Z.land (Z.shiftr n 8) 255; Z.land (Z.shiftr n 16) 255; Z.land (Z.shiftr n 24) 255]
  else Raise (OtherError "struct.error").

(** The number of bytes in network order. *)
Definition be_value (l : list Z) : Z := fold_left (fun a b => a * 256 + b) l 0.

(** glibc's [inet_ntop]: unlike [str(IPv6Address(...))] it writes an embedded IPv4
    address with dots. *)
Definition inet_ntop6 (ip : Z) : string :=
  let hs := hextets_of ip in
  match best_run 0 hs (0%nat, 0%nat) with
  | (0%nat, 6%nat) => ("::" ++ ipv4_text (Z.land ip (Z.ones 32)))%string
  | (0%nat, 5%nat) =>
      if nth 5 hs 0 =? 65535 then ("::ffff:" ++ ipv4_text (Z.land ip (Z.ones 32)))%string else ipv6_text ip
  | _ => ipv6_text ip
  end.

Definition _decode_addr (hex_addr : string) : res (string * Z) :=
  match split_on ":" hex_addr with
  | [addr_hex; port_hex] =>
      port ← int_of 16 port_hex;
      if (String.length addr_hex =? 8)%nat then
        b ← (int_of 16 addr_hex ≫= pack_le); mret (ipv4_text (be_value b), port)
      else
        bs ← collect_res (fun i => int_of 16 (str_take 8 (str_drop i addr_hex)) ≫= pack_le) [0; 8; 16; 24]%nat;
        mret (inet_ntop6 (be_value (mjoin bs)), port)
  | _ => Raise (ValueError "wrong number of values to unpack")
  end.

(** ** Tables *)

Record row := Row {
  proto : string; laddr : string; lport : Z; raddr : string; rport : Z; status : string; inode : Z;
  pid : option Z; pname : string
}.

(** One line of a table: skipped when it is short or does not parse. *)
Definition parse_line (p : string) (line : string) : res (option row) :=
  let parts := split_words line in
  let part i := nth i parts EmptyString in
  if (length parts <? 10)%nat then Ok None
  else
    match
      '(la, lp) ← _decode_addr (part 1%nat);
      '(ra, rp) ← _decode_addr (part 2%nat);
      let st := if startswith "tcp" p then default (part 3%nat) (dict_get (upper (part 3%nat)) TCP_STATES) else ""%string in
      i ← int_of 10 (part 9%nat);
      mret (Row p la lp ra rp st i None "")
    with
    | Ok r => Ok (Some r)
    | Raise (ValueError _) | Raise IndexError => Ok None
    | Raise e => Raise e
    end.

Definition parse_proc_net (text p : string) : res (list row) :=
  collect_res (parse_line p) (tail (splitlines text)) ≫= fun rows : list (option row) => Ok (omap id rows).

Record counters := Counters { bytes_in : Z; packets_in : Z; bytes_out : Z; packets_out : Z }.

Definition parse_counters (cols : list string) : option counters :=
  let col i := parse_int 10 (nth i cols EmptyString) in
  bi ← col 0%nat; pi ← col 1%nat; bo ← col 8%nat; po ← col 9%nat; mret (Counters bi pi bo po).

Definition parse_proc_net_dev (text : string) : list (string * counters) :=
  fold_left (fun out line =>
    let '(name, found, rest) := partition_at ":" line in
    let cols := split_words rest in
    if negb found || (length cols <? 16)%nat then out
    else match parse_counters cols with Some c => dict_set (strip name) c out | None => out end)
    (splitlines text) [].

(** ** The process behind a socket *)

(** What opening and reading a file gives. *)
Inductive contents := Contents (s : string) | Absent | Unreadable | Undecodable.

(** The Python exception of a text that is no UTF-8: a [ValueError], and no [OSError]. *)
Definition UnicodeDecodeError : exn := ValueError "UnicodeDecodeError".

Record process := Process {
  p_name : string;                            (** its directory *)
  p_fds : option (list (option string));      (** where each descriptor points *)
  p_comm : contents
}.

Record procfs := Procfs {
  table : string -> contents;                 (** <host_proc>/<netns_pid>/net/<name> *)
  entries : option (list process)             (** <host_proc> *)
}.

Definition _FD_SCAN_BUDGET : Z := 200000.

Definition isdigit (s : string) : bool :=
  str_nonempty s && str_forall (fun c => is_digit c || existsb (Nat.eqb (nat_of_ascii c)) [178; 179; 185]%nat) s.

(** [_SOCKET_RE]: socket:[digits] at the start. *)
Definition socket_inode (target : string) : option Z :=
  if startswith "socket:[" target then
    let '(digits, found, _) := partition_at "]" (str_drop 8 target) in
    if found && str_nonempty digits && str_forall is_digit digits then parse_int 10 digits else None
  else None.

Abbreviation owners := (gmap Z (Z * string)).

Definition unwanted (wanted : option (gset Z)) (i : Z) : bool :=
  match wanted with Some s => negb (bool_decide (i ∈ s)) | None => false end.

(** The name of the process, read when it is needed first. *)
Definition read_comm (c : contents) (comm : string) : res string :=
  if str_nonempty comm then Ok comm
  else match c with
       | Contents s => Ok (strip s)
       | Absent | Unreadable => Ok EmptyString
       | Undecodable => Raise UnicodeDecodeError
       end.

(** The descriptors of one process: whether the budget ran out, what was looked at so
    far, and the owners. *)
Fixpoint scan_fds (wanted : option (gset Z)) (budget pid : Z) (c : contents) (fds : list (option string))
    (comm : string) (scanned : Z) (mapping : owners) : res (bool * Z * owners) :=
  match fds with
  | [] => Ok (false, scanned, mapping)
  | fd :: fds =>
      let scanned := scanned + 1 in
      if budget <? scanned then Ok (true, scanned, mapping)
      else match fd ≫= socket_inode with
           | None => scan_fds wanted budget pid c fds comm scanned mapping
           | Some i =>
               if unwanted wanted i then scan_fds wanted budget pid c fds comm scanned mapping
               else comm ← read_comm c comm;
                    scan_fds wanted budget pid c fds comm scanned (<[i := (pid, comm)]> mapping)
           end
  end.

Definition all_found (wanted : option (gset Z)) (mapping : owners) : bool :=
  match wanted with Some s => bool_decide (s ∖ dom mapping = ∅) | None => false end.

(** The processes in turn; the flag says that the scan was cut short. *)
Fixpoint scan_entries (wanted : option (gset Z)) (budget : Z) (l : list process) (scanned : Z) (mapping : owners) :
    res (bool * owners) :=
  match l with
  | [] => Ok (false, mapping)
  | e :: l =>
      if negb (isdigit (p_name e)) then scan_entries wanted budget l scanned mapping
      else if all_found wanted mapping then Ok (false, mapping)
      else
        pid ← int_of 10 (p_name e);
        match p_fds e with
        | None => scan_entries wanted budget l scanned mapping
        | Some fds =>
            '(over, scanned, mapping) ← scan_fds wanted budget pid (p_comm e) fds EmptyString scanned mapping;
            if (over : bool) then Ok (true, mapping) else scan_entries wanted budget l scanned mapping
        end
  end.

(** HostNetnsProcSource with the module's counter of scans that were cut short. *)
Record source := Source { _inode_cache : owners; _scan_degraded : Z }.

Definition build_inode_pid_map (fs : procfs) (wanted : option (gset Z)) (budget : Z) : M source owners :=
  match entries fs with
  | None => mret ∅
  | Some l =>
      '(over, mapping) ← lift_res (scan_entries wanted budget l 0 ∅);
      _ ← modify (fun x => if (over : bool) then Source (_inode_cache x) (_scan_degraded x + 1) else x);
      mret mapping
  end.

(** ** The source *)

Definition _PROTOS : list string := ["tcp"; "tcp6"; "udp"; "udp6"]%string.

Inductive snapshot := Good (conns : list row) | Skip (reason : string).

Definition read_text (c : contents) : res (option string) :=
  match c with Contents s => Ok (Some s) | Absent | Unreadable => Ok None | Undecodable => Raise UnicodeDecodeError end.

Definition state_name (c : contents) : string := match c with Absent => "absent" | _ => "error" end.

(** Why this tick has to be skipped, if it has to. *)
Definition partial_read (fs : procfs) : option string :=
  let required p := match table fs p with Contents _ => None | c => Some (p ++ " table " ++ state_name c) end%string in
  let optional p := match table fs p with Contents _ | Absent => None | _ => Some (p ++ " table unreadable") end%string in
  match required "tcp", required "udp", optional "tcp6", optional "udp6" with
  | Some r, _, _, _ | None, Some r, _, _ | None, None, Some r, _ | None, None, None, Some r => Some r
  | None, None, None, None => None
  end%string.

Definition wanted_inodes (rows : list row) : gset Z := list_to_set (List.filter (fun i => negb (i =? 0)) (inode <$> rows)).

Definition attribute (cache : owners) (r : row) : row :=
  let owner := cache !! inode r in
  Row (proto r) (laddr r) (lport r) (raddr r) (rport r) (status r) (inode r)
    (fst <$> owner) (match owner with Some (_, n) => n | None => EmptyString end).

Definition take_snapshot (fs : procfs) : M source snapshot :=
  _ ← lift_res (collect_res (fun p => read_text (table fs p)) _PROTOS);
  match partial_read fs with
  | Some reason => mret (Skip reason)
  | None =>
      tables ← lift_res (collect_res (fun p =>
        match table fs p with Contents text => parse_proc_net text p | _ => Ok [] end) _PROTOS);
      let rows := mjoin tables in
      let wanted := wanted_inodes rows in
      cache ← gets _inode_cache;
      let missing := wanted ∖ dom cache in
      found ← (if decide (missing = ∅) then mret ∅ else build_inode_pid_map fs (Some missing) _FD_SCAN_BUDGET);
      let cache := filter (fun iv => iv.1 ∈ wanted) (found ∪ cache) in
      _ ← modify (fun x => Source cache (_scan_degraded x));
      mret (Good (attribute cache <$> rows))
  end.

Definition interface_counters (fs : procfs) : res (list (string * counters)) :=
  text ← read_text (table fs "dev"); mret (parse_proc_net_dev (default EmptyString text)).
