(* ===== verification/Collector.v ===== *)
(** * The net-audit collector of the agent (src/agent/agent/collectors/net_audit.py, lines 223-397)

    Successive snapshots of the host's connections become open and close events and one
    rollup per minute.  A tick brings the clock and the two answers of the source: a
    snapshot, and the interface counters if they are asked for; each can be an exception. *)
From S2P Require Import Prelude Sorting Py Effects PyOps IpAddress ProcNet.
Open Scope Z_scope.

(** ** Dictionaries by connection *)

Definition _WILDCARD : list string := [""; "0.0.0.0"; "::"]%string.

Definition conn_key : Type := string * string * Z * string * Z.

Definition _conn_key (c : row) : conn_key := (proto c, laddr c, lport c, raddr c, rport c).

Definition key_raddr (k : conn_key) : string := let '(_, _, _, r, _) := k in r.

Section Keyed.
Context {K V : Type} `{EqDecision K}.
Implicit Types (d : list (K * V)) (k : K).

(** [d[k] = v] and [k in d]. *)
Fixpoint keyed_set k (v : V) d : list (K * V) :=
  match d with
  | [] => [(k, v)]
  | (k', v') :: d => if decide (k = k') then (k', v) :: d else (k', v') :: keyed_set k v d
  end.

Definition keyed_mem k d : bool := bool_decide (k ∈ d.*1).
End Keyed.

(** ** State and reports *)

(** What is kept of an open connection. *)
Record meta := Meta { m_ts : Q; m_pid : option Z; m_pname : string; m_status : string }.

Record event := Event {
  e_event : string; e_ts : Q; e_key : conn_key; e_status : string; e_pid : option Z; e_pname : string;
  e_duration : option Q
}.

Record iface := Iface { i_name : string; i_in : Z; i_out : Z }.
Record rollup := Rollup { ro_ts : Q; interfaces : list iface; top_talkers : list (string * Z) }.
Record report := Report { events : list event; rollups : list rollup; dropped : nat }.

Definition no_report : report := Report [] [] 0.

Record collector := Collector {
  _prev : list (conn_key * meta);
  _bucket : option Z;
  _bucket_start_if : option (list (string * counters));
  _bucket_conns : list (string * gset conn_key);
  _bucket_invalid : bool
}.

Definition new_collector : collector := Collector [] None None [] false.

Definition set_prev p (c : collector) : collector :=
  Collector p (_bucket c) (_bucket_start_if c) (_bucket_conns c) (_bucket_invalid c).
Definition set_conns l (c : collector) : collector :=
  Collector (_prev c) (_bucket c) (_bucket_start_if c) l (_bucket_invalid c).
Definition invalidate (c : collector) : collector :=
  Collector (_prev c) (_bucket c) (_bucket_start_if c) (_bucket_conns c) true.
Definition start_bucket b ifs (c : collector) : collector := Collector (_prev c) (Some b) ifs [] false.

(** ** One tick *)

(** [int(now // 60)]. *)
Definition minute (now : Q) : Z := Qfloor (now / 60).
#[global] Arguments minute : simpl never.

(** [round(x, 3)]. *)
Definition round3 (x : Q) : Q := (inject_Z (round_even (x * 1000)) / 1000)%Q.

Definition _event (kind : string) (ts : Q) (c : row) (duration : option Q) : event :=
  Event kind ts (_conn_key c) (status c) (pid c) (pname c) duration.

(** The connections of a snapshot that have a peer; of two with one key the later. *)
Definition current_of (conns : list row) : list (conn_key * row) :=
  fold_left (fun d c => keyed_set (_conn_key c) c d) (List.filter (fun c => negb (str_mem (raddr c) _WILDCARD)) conns) [].

Fixpoint opens_of (now : Q) (current : list (conn_key * row)) (prev : list (conn_key * meta)) :
    list event * list (conn_key * meta) :=
  match current with
  | [] => ([], prev)
  | (k, c) :: current =>
      if keyed_mem k prev then opens_of now current prev
      else
        let '(es, prev) := opens_of now current (prev ++ [(k, Meta now (pid c) (pname c) (status c))]) in
        (_event "open" now c None :: es, prev)
  end.

Definition close_event (now : Q) (km : conn_key * meta) : event :=
  let '(k, m) := km in
  Event "close" now k (m_status m) (m_pid m) (m_pname m) (Some (round3 (now - m_ts m))).

Definition gone {V} (current : list (conn_key * row)) (km : conn_key * V) : bool := negb (keyed_mem km.1 current).

(** [self._bucket_conns.setdefault(raddr, set()).add(key)]. *)
Definition add_conn (d : list (string * gset conn_key)) (kc : conn_key * row) : list (string * gset conn_key) :=
  let r := raddr kc.2 in dict_set r ({[kc.1]} ∪ default ∅ (dict_get r d)) d.

Definition delta (start_if : list (string * counters)) (nc : string * counters) : option iface :=
  let '(name, c) := nc in
  match dict_get name start_if with
  | None => None
  | Some s => Some (Iface name (Z.max 0 (bytes_in c - bytes_in s)) (Z.max 0 (bytes_out c - bytes_out s)))
  end.

Definition busier (a b : string * Z) : bool := b.2 <=? a.2.

Section Collect.
Context (max_events n_talkers : nat).
Abbreviation K := (M collector).

Definition flush (b : Z) (cur_if : list (string * counters)) (c : collector) : rollup :=
  let talkers := sort_by busier ((fun rk => (rk.1, Z.of_nat (size rk.2))) <$> _bucket_conns c) in
  Rollup (inject_Z (b * 60)) (omap (delta (default [] (_bucket_start_if c))) cur_if) (take n_talkers talkers).

Definition _maybe_rollup (now : Q) (dev : res (list (string * counters))) : K (list rollup) :=
  let bucket := minute now in
  c ← gets id;
  match _bucket c with
  | None =>
      _ ← modify (fun c => Collector (_prev c) (Some bucket) (_bucket_start_if c) (_bucket_conns c) (_bucket_invalid c));
      ifs ← lift_res dev;
      _ ← modify (fun c => Collector (_prev c) (_bucket c) (Some ifs) (_bucket_conns c) (_bucket_invalid c));
      mret []
  | Some b =>
      if bucket =? b then mret []
      else
        cur_if ← lift_res dev;
        _ ← modify (start_bucket bucket (Some cur_if));
        mret (if _bucket_invalid c then [] else [flush b cur_if c])
  end.

Definition collect (now : Q) (snap : res snapshot) (dev : res (list (string * counters))) : K report :=
  snap ← lift_res snap;
  match snap with
  | Skip _ =>
      _ ← modify (fun c => match _bucket c with
                           | Some b => if minute now =? b then c else invalidate c
                           | None => c
                           end);
      mret no_report
  | Good conns =>
      let current := current_of conns in
      prev ← gets _prev;
      let '(opens, prev) := opens_of now current prev in
      let closes := close_event now <$> List.filter (gone current) prev in
      _ ← modify (set_prev (List.filter (fun km => negb (gone current km)) prev));
      let all := closes ++ opens in
      rolled ← _maybe_rollup now dev;
      _ ← modify (fun c => set_conns (fold_left add_conn current (_bucket_conns c)) c);
      mret (Report (take max_events all) rolled (length all - max_events))
  end.

(** The clock and the answers of the source at one tick. *)
Record tick := Tick { t_now : Q; t_snap : res snapshot; t_dev : res (list (string * counters)) }.

(** The module's [collect]: an exception is logged, and nothing is reported. *)
Definition collect_tick (t : tick) (c : collector) : report * collector :=
  let '(r, c) := collect (t_now t) (t_snap t) (t_dev t) c in
  (match r with Ok r => r | Raise _ => no_report end, c).

Fixpoint collect_all (ts : list tick) (c : collector) : list report * collector :=
  match ts with
  | [] => ([], c)
  | t :: ts => let '(r, c) := collect_tick t c in let '(rs, c) := collect_all ts c in (r :: rs, c)
  end.

(** A tick of a host: HostNetnsProcSource as the source. *)
Definition host_tick (now : Q) (fs : procfs) (x : source * collector) : report * (source * collector) :=
  let '(snap, src) := take_snapshot fs x.1 in
  let '(r, c) := collect_tick (Tick now snap (interface_counters fs)) x.2 in
  (r, (src, c)).
End Collect.
