(* ===== verification/CollectorFacts.v ===== *)
(** * What the net-audit collector reports

    The event log is an account of the connections: each is opened while it is closed and
    closed, with what was known of it, while it is open.  A rollup is about one minute. *)
From S2P Require Import Prelude Sorting Py Effects PyOps IpAddress ProcNet Collector.
Open Scope Z_scope.

(** ** Keyed dictionaries *)

Section Keyed.
Context {K V : Type} `{Countable K}.
Implicit Types (d : list (K * V)) (k : K).

Lemma keyed_mem_spec k d : keyed_mem k d = true <-> k ∈ d.*1.
Proof. apply bool_decide_eq_true. Qed.

Lemma keyed_set_keys k v d : (keyed_set k v d).*1 = if keyed_mem k d then d.*1 else d.*1 ++ [k].
Proof.
  induction d as [|[k' v'] d IH]; [done|]. unfold keyed_mem in *. csimpl.
  destruct (decide (k = k')) as [->|Hne]; csimpl; [by rewrite bool_decide_eq_true_2 by left|].
  rewrite IH, (bool_decide_ext (k ∈ k' :: d.*1) (k ∈ d.*1)); [by case_bool_decide|].
  rewrite elem_of_cons. naive_solver.
Qed.

Lemma keyed_set_nodup k v d : NoDup d.*1 -> NoDup (keyed_set k v d).*1.
Proof.
  intros Hd. rewrite keyed_set_keys. destruct (keyed_mem k d) eqn:E; [done|].
  apply NoDup_app. split; [done|]. split; [|by apply NoDup_singleton].
  intros x Hx ->%list_elem_of_singleton. apply keyed_mem_spec in Hx. congruence.
Qed.

Lemma keyed_set_elem k v d k' v' : (k', v') ∈ keyed_set k v d -> (k', v') = (k, v) \/ (k', v') ∈ d.
Proof.
  induction d as [|[k2 v2] d IH]; simpl; [intros ->%list_elem_of_singleton; by left|].
  destruct (decide (k = k2)) as [->|Hne]; rewrite !elem_of_cons; [tauto|]. intros [?|?%IH]; tauto.
Qed.

Lemma filter_keys_nodup (p : K * V -> bool) d : NoDup d.*1 -> NoDup (List.filter p d).*1.
Proof.
  induction d as [|[k v] d IH]; simpl; [done|]. intros [Hk Hd]%NoDup_cons.
  destruct (p (k, v)); simpl; [|by apply IH]. apply NoDup_cons. split; [|by apply IH].
  intros Hin. apply Hk. apply list_elem_of_fmap in Hin as ([k2 v2] & -> & Hx).
  apply list_elem_of_fmap. exists (k2, v2). split; [done|].
  by apply list_elem_of_In, List.filter_In, proj1, list_elem_of_In in Hx.
Qed.
End Keyed.

(** ** The log of events *)

(** A log that leads from the open connections [m] to [m']. *)
Inductive recounts : gmap conn_key meta -> list event -> gmap conn_key meta -> Prop :=
| recounts_nil m : recounts m [] m
| recounts_open m now k p n s es m' : m !! k = None ->
    recounts (<[k := Meta now p n s]> m) es m' -> recounts m (Event "open" now k s p n None :: es) m'
| recounts_close m now k x es m' : m !! k = Some x ->
    recounts (delete k m) es m' ->
    recounts m (Event "close" now k (m_status x) (m_pid x) (m_pname x) (Some (round3 (now - m_ts x))) :: es) m'.

Lemma recounts_app m1 es1 m2 es2 m3 : recounts m1 es1 m2 -> recounts m2 es2 m3 -> recounts m1 (es1 ++ es2) m3.
Proof. induction 1; [done| |]; intros H3; simpl; constructor; auto. Qed.

(** The connections of a snapshot that have a peer. *)
Definition peers (conns : list row) : gset conn_key :=
  list_to_set (_conn_key <$> List.filter (fun c => negb (str_mem (raddr c) _WILDCARD)) conns).

Definition keyed_rows (d : list (conn_key * row)) : Prop :=
  NoDup d.*1 /\ forall k c, (k, c) ∈ d -> k = _conn_key c.

Lemma current_keys conns : keyed_rows (current_of conns) /\ forall k, k ∈ (current_of conns).*1 <-> k ∈ peers conns.
Proof.
  unfold current_of, peers. generalize (List.filter (fun c => negb (str_mem (raddr c) _WILDCARD)) conns). intros l.
  assert (H : forall d, keyed_rows d -> keyed_rows (fold_left (fun d c => keyed_set (_conn_key c) c d) l d) /\
    forall k, k ∈ (fold_left (fun d c => keyed_set (_conn_key c) c d) l d).*1 <->
              k ∈ d.*1 \/ k ∈ (list_to_set (_conn_key <$> l) : gset conn_key)).
  { induction l as [|c l IH]; intros d [Hn Hk]; simpl; [split; [done|]; set_solver|].
    destruct (IH (keyed_set (_conn_key c) c d)) as [H1 H2].
    - split; [by apply keyed_set_nodup|]. intros k c' [[= -> ->]|?]%keyed_set_elem; [done|by apply Hk].
    - split; [done|]. intros k. rewrite H2, keyed_set_keys. destruct (keyed_mem _ _) eqn:E; [|set_solver].
      apply keyed_mem_spec in E. set_solver. }
  destruct (H []) as [H1 H2]; [split; [constructor|by intros k c ?%elem_of_nil]|].
  split; [done|]. intros k. rewrite H2. set_solver.
Qed.

Abbreviation open_map d := (list_to_map d : gmap conn_key meta).

Lemma open_map_none (d : list (conn_key * meta)) k : open_map d !! k = None <-> keyed_mem k d = false.
Proof. rewrite <- not_elem_of_list_to_map. unfold keyed_mem. by rewrite bool_decide_eq_false. Qed.

Lemma open_map_snoc (d : list (conn_key * meta)) k m : keyed_mem k d = false -> open_map (d ++ [(k, m)]) = <[k := m]> (open_map d).
Proof.
  intros H%open_map_none. rewrite list_to_map_app. simpl. rewrite insert_empty.
  rewrite map_union_comm; [by rewrite <- insert_union_singleton_l|].
  by apply map_disjoint_singleton_r.
Qed.

Lemma snoc_nodup (d : list (conn_key * meta)) k m : NoDup d.*1 -> keyed_mem k d = false -> NoDup (d ++ [(k, m)]).*1.
Proof.
  intros Hd Hk. rewrite fmap_app. simpl. apply NoDup_app. split; [done|]. split; [|by apply NoDup_singleton].
  intros x Hx ->%list_elem_of_singleton. apply keyed_mem_spec in Hx. congruence.
Qed.

Lemma opens_filter now p cur : (forall k m, k ∈ cur.*1 -> p (k, m) = true) -> forall d,
  opens_of now cur (List.filter p d) = let '(es, d') := opens_of now cur d in (es, List.filter p d').
Proof.
  induction cur as [|[k c] cur IH]; intros Hp d; [done|]. simpl.
  assert (Hm : keyed_mem k (List.filter p d) = keyed_mem k d).
  { unfold keyed_mem. apply bool_decide_ext. rewrite !list_elem_of_fmap. split; intros ([k' m] & -> & Hx);
      exists (k', m); (split; [done|]); rewrite list_elem_of_In in *.
    - by apply List.filter_In in Hx as [? _].
    - apply List.filter_In. split; [done|]. apply Hp. left. }
  rewrite Hm. destruct (keyed_mem k d); [apply IH; intros; apply Hp; by right|].
  specialize (IH (fun k m H => Hp k m (list_elem_of_further _ _ _ H)) (d ++ [(k, Meta now (pid c) (pname c) (status c))])).
  rewrite List.filter_app in IH. simpl in IH. rewrite (Hp k _) in IH by left.
  rewrite IH. by destruct (opens_of now cur (d ++ _)).
Qed.

(** Opening goes from the dictionary to the dictionary. *)
Lemma opens_recount now cur : keyed_rows cur -> forall d es d', NoDup d.*1 ->
  opens_of now cur d = (es, d') ->
  NoDup d'.*1 /\ recounts (open_map d) es (open_map d') /\ Forall (fun e => e_event e = "open"%string) es /\
  (forall k, k ∈ d'.*1 <-> k ∈ d.*1 \/ k ∈ cur.*1) /\
  (forall p, (forall k m, k ∈ cur.*1 -> p (k, m) = false) -> List.filter p d' = List.filter p d).
Proof.
  intros [_ Hkey]. induction cur as [|[k c] cur IH]; intros d es d' Hd; simpl.
  { intros [= <- <-]. repeat split; try done; [constructor|set_solver..]. }
  specialize (IH (fun k c H => Hkey k c (list_elem_of_further _ _ _ H))).
  destruct (keyed_mem k d) eqn:E.
  { intros (H1 & H2 & H3 & H4 & H5)%IH; [|done]. split_and!; try done.
    - intros x. rewrite H4. csimpl. apply keyed_mem_spec in E. set_solver.
    - intros p Hp. apply H5. intros x m Hx. apply Hp. by right. }
  destruct (opens_of now cur _) as [es' d2] eqn:Eo. intros [= <- <-].
  apply IH in Eo as (H1 & H2 & H3 & H4 & H5); [|by apply snoc_nodup]. split_and!; try done.
  - rewrite open_map_snoc in H2 by done. unfold _event. rewrite <- (Hkey k c) by left.
    constructor; [by apply open_map_none|done].
  - by constructor.
  - intros x. rewrite H4, fmap_app. csimpl. set_solver.
  - intros p Hp. rewrite H5, List.filter_app; [|intros x m Hx; apply Hp; by right]. simpl.
    rewrite Hp by left. apply app_nil_r.
Qed.

(** Closing takes what is gone out of the dictionary. *)
Lemma closes_recount now p d : NoDup d.*1 ->
  recounts (open_map d) (close_event now <$> List.filter p d) (open_map (List.filter (fun x => negb (p x)) d)).
Proof.
  assert (H : forall kept, NoDup (kept ++ d).*1 -> 
    recounts (open_map (kept ++ d)) (close_event now <$> List.filter p d)
      (open_map (kept ++ List.filter (fun x => negb (p x)) d))); [|by apply (H [])].
  induction d as [|[k m] d IH]; intros kept Hn; [simpl; rewrite app_nil_r; constructor|]. simpl.
  destruct (p (k, m)) eqn:Hp; simpl.
  - rewrite fmap_app in Hn. csimpl in Hn. apply NoDup_app in Hn as (H1 & H2 & [H3 H4]%NoDup_cons).
    assert (Hk : k ∉ kept.*1) by (intros ?; apply (H2 k); [done|left]).
    assert (Hm : open_map (kept ++ (k, m) :: d) = <[k := m]> (open_map (kept ++ d))).
    { rewrite !list_to_map_app. csimpl. symmetry. apply insert_union_r. by apply not_elem_of_list_to_map. }
    rewrite Hm. constructor; [by rewrite lookup_insert_eq|].
    rewrite delete_insert_id by (rewrite <- not_elem_of_list_to_map, fmap_app; set_solver).
    apply IH. rewrite fmap_app. apply NoDup_app. set_solver.
  - specialize (IH (kept ++ [(k, m)])). rewrite <- !app_assoc in IH. by apply IH.
Qed.

Definition opening (e : event) : Prop := e_event e = "open"%string.
Definition closing (e : event) : Prop := e_event e = "close"%string.

(** What a cap on closes followed by opens can cut off. *)
Lemma cap_spares_closes n closes opens : Forall closing closes -> Forall opening opens ->
  Forall opening (drop n (closes ++ opens)) \/ Forall closing (take n (closes ++ opens)).
Proof.
  intros Hc Ho. destruct (decide (n <= length closes)%nat).
  - right. rewrite take_app_le by done. by apply Forall_take.
  - left. rewrite drop_app_ge by lia. by apply Forall_drop.
Qed.

(** Run the monad of a tick. *)
Ltac run_tick := cbv [mbind M_bind mret M_ret lift_res modify gets id]; cbn.

(** The difference of two snapshots leads from the one to the other. *)
Lemma diff_recounts now cur d : keyed_rows cur -> NoDup d.*1 ->
  let '(opens, d') := opens_of now cur d in
  let left := List.filter (fun km => negb (gone cur km)) d' in
  let closes := close_event now <$> List.filter (gone cur) d' in
  NoDup left.*1 /\ recounts (open_map d) (closes ++ opens) (open_map left) /\
  Forall closing closes /\ Forall opening opens /\ (forall k, k ∈ left.*1 <-> k ∈ cur.*1).
Proof.
  intros Hk Hn. destruct (opens_of now cur d) as [opens d'] eqn:Eo. cbv zeta.
  assert (Hg : forall k (m : meta), k ∈ cur.*1 -> gone cur (k, m) = false).
  { intros k m Hin%keyed_mem_spec. unfold gone. simpl. by rewrite Hin. }
  destruct (opens_recount _ _ Hk _ _ _ Hn Eo) as (H1 & _ & H3 & H4 & H5).
  assert (Hl : forall k (m : meta), k ∈ cur.*1 -> negb (gone cur (k, m)) = true) by (intros k m Hin; by rewrite Hg).
  pose proof (opens_filter now (fun x => negb (gone cur x)) cur Hl d) as Hf. clear Hl.
  rewrite Eo in Hf. pose proof (filter_keys_nodup (fun x => negb (gone cur x)) d Hn) as Hl.
  destruct (opens_recount _ _ Hk _ _ _ Hl Hf) as (_ & H2 & _).
  split_and!; try done.
  - by apply filter_keys_nodup.
  - rewrite (H5 (gone cur) Hg). eapply recounts_app; [by apply closes_recount|done].
  - apply Forall_fmap, Forall_forall. by intros [k m] _.
  - intros k. rewrite list_elem_of_fmap. split.
    + intros ([k' m] & -> & Hx). rewrite list_elem_of_In, List.filter_In in Hx. destruct Hx as [_ Hx].
      apply negb_true_iff in Hx. unfold gone in Hx. by apply negb_false_iff, keyed_mem_spec in Hx.
    + intros Hin. assert (Hd : k ∈ d'.*1) by (apply H4; by right).
      apply list_elem_of_fmap in Hd as ([k' m] & -> & Hx). exists (k', m). split; [done|].
      rewrite list_elem_of_In, List.filter_In in *. by rewrite Hg.
Qed.

Section Ticks.
Context (mx nt : nat).

Lemma rollup_leaves_prev now dev c x c' : _maybe_rollup nt now dev c = (x, c') ->
  _prev c' = _prev c /\ (forall d, dev = Ok d -> exists l, x = Ok l).
Proof.
  unfold _maybe_rollup. run_tick. destruct (_bucket c) as [b|]; [destruct (minute now =? b)|]; destruct dev as [d|e];
    simpl; intros Hr; inversion Hr; (split; [done|]); intros ? [=]; eauto.
Qed.

(** One tick, as far as events go. *)
Definition accounted (t : tick) (r : report) (cut : list event) : Prop :=
  (length (events r) <= mx)%nat /\ (forall d, t_dev t = Ok d -> length cut = dropped r) /\
  (Forall opening cut \/ Forall closing (events r)).

Definition alive_after (alive : gset conn_key) (t : tick) : gset conn_key :=
  match t_snap t with Ok (Good conns) => peers conns | _ => alive end.

Lemma dom_open_map (d : list (conn_key * meta)) k : k ∈ dom (open_map d) <-> k ∈ d.*1.
Proof. rewrite dom_list_to_map, elem_of_list_to_set. done. Qed.

Lemma tick_recounts t c : NoDup (_prev c).*1 ->
  let '(r, c') := collect_tick mx nt t c in
  NoDup (_prev c').*1 /\ dom (open_map (_prev c')) = alive_after (dom (open_map (_prev c))) t /\
  exists cut, recounts (open_map (_prev c)) (events r ++ cut) (open_map (_prev c')) /\ accounted t r cut.
Proof.
  intros Hn. unfold collect_tick, collect, alive_after, accounted.
  assert (Hstill : exists cut, recounts (open_map (_prev c)) ([] ++ cut) (open_map (_prev c)) /\ accounted t no_report cut).
  { exists []. repeat split; [constructor|simpl; lia|by left]. }
  destruct (t_snap t) as [[conns|why]|e]; run_tick; [|by repeat case_match|done].
  pose proof (diff_recounts (t_now t) (current_of conns) _ (proj1 (current_keys conns)) Hn) as H.
  destruct (opens_of _ _ _) as [opens prev]. destruct H as (H1 & H2 & H3 & H4 & H5).
  set (all := _ ++ opens) in *. set (prev' := List.filter _ prev) in *.
  assert (Hd : dom (open_map prev') = peers conns).
  { apply set_eq. intros k. by rewrite dom_open_map, H5, (proj2 (current_keys conns)). }
  destruct (_maybe_rollup _ _ _ _) as [x c2] eqn:Er.
  apply rollup_leaves_prev in Er as [Hp Hok]. simpl in Hp. destruct x as [l|e]; simpl; rewrite Hp; (split_and!; [done..|]).
  - exists (drop mx all). rewrite take_drop. split; [done|]. split_and!.
    + rewrite length_take. lia.
    + intros _ _. by rewrite length_drop.
    + by apply cap_spares_closes.
  - exists all. split; [done|]. split_and!; [simpl; lia| |by right; constructor].
    intros d Hd'. destruct (Hok d Hd') as [? [=]].
Qed.

(** The log with what was cut off put back. *)
Definition full_log (rs : list report) (cuts : list (list event)) : list event :=
  mjoin (zip_with (fun r cut => events r ++ cut) rs cuts).

Lemma run_recounts ts c : NoDup (_prev c).*1 ->
  let '(rs, c') := collect_all mx nt ts c in
  dom (open_map (_prev c')) = fold_left alive_after ts (dom (open_map (_prev c))) /\
  exists cuts, recounts (open_map (_prev c)) (full_log rs cuts) (open_map (_prev c')) /\ Forall3 accounted ts rs cuts.
Proof.
  revert c. induction ts as [|t ts IH]; intros c Hn; simpl; [split; [done|]; exists []; split; constructor|].
  pose proof (tick_recounts t c Hn) as H. destruct (collect_tick mx nt t c) as [r c1].
  destruct H as (Hn1 & Hd & cut & Hr & Ha). specialize (IH c1 Hn1).
  destruct (collect_all mx nt ts c1) as [rs c2]. destruct IH as (Hd2 & cuts & Hr2 & Ha2).
  split; [by rewrite Hd2, Hd|]. exists (cut :: cuts). split; [|by constructor].
  unfold full_log. simpl. by eapply recounts_app.
Qed.

End Ticks.
