(* ===== verification/CollectorRollup.v ===== *)
(** * What a rollup of the net-audit collector is about

    One minute of one host: the counters at its first tick and at the tick that ends it,
    and the connections observed in between. *)
From stdpp Require Import sorting.
From S2P Require Import Prelude Sorting Py Effects PyOps IpAddress ProcNet Collector CollectorFacts.
Open Scope Z_scope.

(** ** Ticks *)

Definition start_counters (t : tick) : list (string * counters) := match t_dev t with Ok d => d | Raise _ => [] end.

Definition good (t : tick) : bool := match t_snap t with Ok (Good _) => true | _ => false end.

(** What a tick after the first adds to the bucket of minute [b]. *)
Definition seen_in (b : Z) (t : tick) : gset conn_key :=
  match t_snap t with
  | Ok (Good conns) => if minute (t_now t) =? b then peers conns else ∅
  | _ => ∅
  end.

(** Whatever a bucket spans besides its first tick and the one that ends it: readings of
    its minute, and ticks that failed with an exception. *)
Definition steady (b : Z) (t : tick) : Prop :=
  match t_snap t with
  | Ok (Good _) => minute (t_now t) = b \/ exists e, t_dev t = Raise e
  | Ok (Skip _) => minute (t_now t) = b
  | Raise _ => True
  end.

(** The connections observed in a bucket that [t0] began. *)
Definition observed (t0 : tick) (mid : list tick) : gset conn_key :=
  (match t_dev t0 with Ok _ => seen_in (minute (t_now t0)) t0 | Raise _ => ∅ end) ∪
  ⋃ (seen_in (minute (t_now t0)) <$> mid).

Definition peers_at (r : string) (s : gset conn_key) : gset conn_key := filter (fun k => key_raddr k = r) s.

(** The per-peer sets of a bucket are those of what was observed. *)
Definition sorted_out (l : list (string * gset conn_key)) (s : gset conn_key) : Prop :=
  NoDup l.*1 /\ forall r ks, (r, ks) ∈ l <-> ks = peers_at r s /\ ks <> ∅.

Lemma dict_set_elem {V} r (v : V) d r' v' : NoDup d.*1 ->
  (r', v') ∈ dict_set r v d <-> (r' = r /\ v' = v) \/ (r' <> r /\ (r', v') ∈ d).
Proof.
  induction d as [|[r2 v2] d IH]; simpl; [intros _; rewrite list_elem_of_singleton; split; [intros [= -> ->]; by left|by intros [[-> ->]|[_ ?%elem_of_nil]]]|].
  intros [Hr2 Hd]%NoDup_cons. destruct (String.eqb_spec r r2) as [->|Hne]; rewrite !elem_of_cons.
  - assert (H : (r2, v') ∉ d) by (intros Hin; apply Hr2, list_elem_of_fmap; by exists (r2, v')). naive_solver.
  - rewrite (IH Hd). naive_solver.
Qed.

Lemma dict_set_nodup {V} r (v : V) d : NoDup d.*1 -> NoDup (dict_set r v d).*1.
Proof.
  induction d as [|[r2 v2] d IH]; csimpl; intros Hd; [by apply NoDup_singleton|].
  destruct (String.eqb_spec r r2) as [->|Hne]; csimpl; [done|]. apply NoDup_cons in Hd as [Hr2 Hd].
  apply NoDup_cons. split; [|by apply IH]. intros ([r3 v3] & -> & Hx)%list_elem_of_fmap.
  apply dict_set_elem in Hx as [[-> _]|[_ Hx]]; [done| |done]. apply Hr2, list_elem_of_fmap. by exists (r3, v3).
Qed.

Lemma conns_get_elem {V} r (d : list (string * V)) v : NoDup d.*1 -> dict_get r d = Some v <-> (r, v) ∈ d.
Proof.
  induction d as [|[r2 v2] d IH]; simpl; [rewrite elem_of_nil; naive_solver|].
  intros [Hr2 Hd]%NoDup_cons. rewrite elem_of_cons. destruct (String.eqb_spec r r2) as [->|Hne].
  - assert (H : (r2, v) ∉ d) by (intros Hin; apply Hr2, list_elem_of_fmap; by exists (r2, v)). naive_solver.
  - rewrite (IH Hd). naive_solver.
Qed.

Lemma add_conn_sorts k c l s : key_raddr k = raddr c -> sorted_out l s -> sorted_out (add_conn l (k, c)) ({[k]} ∪ s).
Proof.
  intros Hk [Hn Hl]. unfold add_conn. simpl. split; [by apply dict_set_nodup|]. intros r ks.
  rewrite dict_set_elem by done.
  assert (Hget : default ∅ (dict_get (raddr c) l) = peers_at (raddr c) s).
  { destruct (dict_get (raddr c) l) as [v|] eqn:E; simpl.
    - apply conns_get_elem in E; [|done]. by apply Hl in E as [-> _].
    - symmetry. destruct (decide (peers_at (raddr c) s = ∅)) as [|Hne]; [done|]. exfalso.
      assert (Hin : (raddr c, peers_at (raddr c) s) ∈ l) by by apply Hl.
      apply conns_get_elem in Hin; [congruence|done]. }
  rewrite Hget. destruct (decide (r = raddr c)) as [->|Hne].
  - assert (Heq : peers_at (raddr c) ({[k]} ∪ s) = {[k]} ∪ peers_at (raddr c) s) by (unfold peers_at; set_solver).
    rewrite Heq. split; [intros [[_ ->]|[? _]]; [set_solver|done]|]. intros [-> _]. by left.
  - assert (Heq : peers_at r ({[k]} ∪ s) = peers_at r s) by (unfold peers_at; set_solver).
    rewrite Heq, Hl. naive_solver.
Qed.

Lemma add_conns_sort cur l s : (forall k c, (k, c) ∈ cur -> k = _conn_key c) -> sorted_out l s ->
  sorted_out (fold_left add_conn cur l) (list_to_set cur.*1 ∪ s).
Proof.
  revert l s. induction cur as [|[k c] cur IH]; intros l s Hk Hl; [csimpl; by rewrite union_empty_l_L|].
  assert (Hkc : k = _conn_key c) by (apply Hk; left). subst k.
  assert (Heq : list_to_set ((_conn_key c, c) :: cur).*1 ∪ s = list_to_set cur.*1 ∪ ({[_conn_key c]} ∪ s) :> gset conn_key).
  { csimpl. by rewrite (assoc_L (∪)), (comm_L (∪) _ {[_conn_key c]}). }
  rewrite Heq. apply IH; [intros k c' Hin; apply Hk; by right|]. by apply add_conn_sorts.
Qed.

(** ** What a rollup says *)

(** The [n] busiest peers among the connections [s], with their numbers. *)
Definition busiest (n : nat) (s : gset conn_key) (tops : list (string * Z)) : Prop :=
  NoDup tops.*1 /\ StronglySorted (fun a b => b.2 <= a.2) tops /\ (length tops <= n)%nat /\
  (forall r k, (r, k) ∈ tops -> k = Z.of_nat (size (peers_at r s)) /\ 0 < k) /\
  (forall r, peers_at r s <> ∅ -> r ∈ tops.*1 \/
     length tops = n /\ forall p, p ∈ tops -> Z.of_nat (size (peers_at r s)) <= p.2).

(** A rollup about the minute that [t0] began, closed by [t]. *)
Record about (n : nat) (t0 : tick) (mid : list tick) (t : tick) (ro : rollup) : Prop := {
  ab_ts : ro_ts ro = inject_Z (minute (t_now t0) * 60);
  ab_interfaces i : i ∈ interfaces ro <->
    exists s e, dict_get (i_name i) (start_counters t0) = Some s /\ (i_name i, e) ∈ start_counters t /\
      i_in i = Z.max 0 (bytes_in e - bytes_in s) /\ i_out i = Z.max 0 (bytes_out e - bytes_out s);
  ab_talkers : busiest n (observed t0 mid) (top_talkers ro)
}.

(** ... and everything between the two was of that minute. *)
Definition explained (n : nat) (hist : list tick) (t : tick) (ro : rollup) : Prop :=
  exists before t0 mid, hist = before ++ t0 :: mid /\ good t0 = true /\ good t = true /\
    minute (t_now t) <> minute (t_now t0) /\ Forall (steady (minute (t_now t0))) mid /\ about n t0 mid t ro.

Lemma busier_sorted l : StronglySorted (fun a b => b.2 <= a.2) (sort_by busier l).
Proof.
  assert (H : StronglySorted (fun a b => busier a b = true) (sort_by busier l)).
  { apply sort_by_sorted; unfold busier.
    - intros x y. rewrite !Z.leb_le. lia.
    - intros x y z. rewrite !Z.leb_le. lia. }
  induction H as [|x l' _ IH Hx]; constructor; [done|].
  eapply Forall_impl; [exact Hx|]. intros y. by rewrite <- Z.leb_le.
Qed.

Definition counted (l : list (string * gset conn_key)) : list (string * Z) := (fun rk => (rk.1, Z.of_nat (size rk.2))) <$> l.

Lemma counted_elem l s r k : sorted_out l s ->
  (r, k) ∈ counted l <-> peers_at r s <> ∅ /\ k = Z.of_nat (size (peers_at r s)).
Proof.
  intros [_ Hl]. unfold counted. rewrite list_elem_of_fmap. split.
  - intros ([r' ks] & [= -> ->] & [-> Hne]%Hl). by split.
  - intros [Hne ->]. exists (r, peers_at r s). split; [done|]. by apply Hl.
Qed.

Lemma counted_busiest n l s : sorted_out l s -> busiest n s (take n (sort_by busier (counted l))).
Proof.
  intros Hl. set (all := sort_by busier (counted l)).
  assert (Hperm : all ≡ₚ counted l) by apply sort_by_perm.
  assert (Hs : StronglySorted (fun a b => b.2 <= a.2) all).
  { apply busier_sorted. }
  assert (Hn : NoDup all.*1).
  { rewrite Hperm. unfold counted. rewrite <- list_fmap_compose. apply Hl. }
  assert (Hin : forall p, p ∈ all <-> peers_at p.1 s <> ∅ /\ p.2 = Z.of_nat (size (peers_at p.1 s))).
  { intros [r k]. rewrite Hperm. by apply counted_elem. }
  rewrite <- (take_drop n all) in Hs, Hn. split_and!.
  - rewrite fmap_app in Hn. by apply NoDup_app in Hn as [? _].
  - by eapply StronglySorted_app_1_l.
  - rewrite length_take. lia.
  - intros r k Hk. apply (subseteq_take n all), Hin in Hk as [Hne Hk]. simpl in Hne, Hk. split; [done|].
    destruct (size (peers_at r s)) eqn:Hz; [by apply size_empty_inv, leibniz_equiv in Hz|lia].
  - intros r Hne. assert (Hr : (r, Z.of_nat (size (peers_at r s))) ∈ all) by (apply Hin; by split).
    rewrite <- (take_drop n all), elem_of_app in Hr. destruct Hr as [Hr|Hr].
    + left. apply list_elem_of_fmap. by exists (r, Z.of_nat (size (peers_at r s))).
    + right. split.
      * rewrite length_take. apply Nat.min_l. destruct (decide (n <= length all)%nat); [done|].
        rewrite drop_ge in Hr by lia. by apply elem_of_nil in Hr.
      * intros p Hp. by apply (StronglySorted_app_1_elem_of _ _ _ _ _ Hs Hp Hr).
Qed.

(** ** The bucket, and where it comes from *)

(** The open bucket began at [t0], from whose counters it will be computed; unless it is
    marked invalid, everything since was of its minute. *)
Definition bucket_of (hist : list tick) (c : collector) : Prop :=
  match _bucket c with
  | None => _bucket_start_if c = None /\ _bucket_conns c = [] /\ _bucket_invalid c = false
  | Some b =>
      exists before t0 mid, hist = before ++ t0 :: mid /\ good t0 = true /\ minute (t_now t0) = b /\
        default [] (_bucket_start_if c) = start_counters t0 /\
        (_bucket_invalid c = false -> Forall (steady b) mid /\ sorted_out (_bucket_conns c) (observed t0 mid))
  end.

Lemma set_prev_bucket hist p c : bucket_of hist (set_prev p c) = bucket_of hist c.
Proof. done. Qed.

Lemma observed_snoc t0 mid t : observed t0 (mid ++ [t]) = seen_in (minute (t_now t0)) t ∪ observed t0 mid.
Proof. unfold observed. rewrite fmap_app, union_list_app_L. simpl. set_solver. Qed.

(** A tick within the bucket: nothing is recorded but what it has seen. *)
Lemma bucket_goes_on hist b c t l : _bucket c = Some b -> bucket_of hist c -> steady b t ->
  (forall s, sorted_out (_bucket_conns c) s -> sorted_out l (seen_in b t ∪ s)) ->
  bucket_of (hist ++ [t]) (set_conns l c).
Proof.
  unfold bucket_of. simpl. intros -> (before & t0 & mid & -> & Hg & <- & Hd & Hv) Ht Hl.
  exists before, t0, (mid ++ [t]). split; [by rewrite <- app_assoc|]. split_and!; try done.
  intros [Hm Hs]%Hv. split; [apply Forall_app_2; [done|by apply Forall_singleton]|]. rewrite observed_snoc. by apply Hl.
Qed.

(** A tick that adds nothing. *)
Lemma bucket_idle hist c t : (forall b, _bucket c = Some b -> steady b t /\ seen_in b t = ∅) ->
  bucket_of hist c -> bucket_of (hist ++ [t]) c.
Proof.
  intros Ht Hb. destruct (_bucket c) as [b|] eqn:E; [|by unfold bucket_of in *; rewrite E in *].
  destruct (Ht b eq_refl) as [H1 H2]. replace c with (set_conns (_bucket_conns c) c) by by destruct c.
  eapply bucket_goes_on; [done..|]. intros s. by rewrite H2, union_empty_l_L.
Qed.

(** A tick that shows that a minute was missed. *)
Lemma bucket_spoilt hist c t : _bucket c <> None -> bucket_of hist c -> bucket_of (hist ++ [t]) (invalidate c).
Proof.
  unfold bucket_of. simpl. destruct (_bucket c) as [b|]; [|done].
  intros _ (before & t0 & mid & -> & Hg & <- & Hd & _). exists before, t0, (mid ++ [t]). by rewrite <- app_assoc.
Qed.

(** A tick that begins a bucket. *)
Lemma bucket_begins hist c t ifs l : good t = true -> default [] ifs = start_counters t ->
  sorted_out l (observed t []) ->
  bucket_of (hist ++ [t]) (Collector (_prev c) (Some (minute (t_now t))) ifs l false).
Proof. intros Hg Hd Hl. by exists hist, t, []. Qed.

Lemma sorted_out_nil : sorted_out [] ∅.
Proof.
  split; [constructor|]. intros r ks. rewrite elem_of_nil. split; [done|]. intros [-> H]. apply H. unfold peers_at. set_solver.
Qed.

Section Ticks.
Context (mx nt : nat).

Lemma flush_about t0 mid t d c : t_dev t = Ok d ->
  default [] (_bucket_start_if c) = start_counters t0 ->
  sorted_out (_bucket_conns c) (observed t0 mid) -> about nt t0 mid t (flush nt (minute (t_now t0)) d c).
Proof.
  intros Hd Hs Hl. split; simpl; [done| |by apply counted_busiest].
  intros i. rewrite list_elem_of_omap, Hs. unfold start_counters at 3. rewrite Hd. split.
  - intros ([name e] & He & Hi). simpl in Hi. destruct (dict_get name _) as [s|] eqn:E; simplify_eq. simpl. by exists s, e.
  - intros (s & e & E & He & Hin & Hout). exists (i_name i, e). split; [done|]. simpl. rewrite E, <- Hin, <- Hout. by destruct i.
Qed.

Lemma conns_sort conns l s : sorted_out l s -> sorted_out (fold_left add_conn (current_of conns) l) (peers conns ∪ s).
Proof.
  intros Hl. destruct (current_keys conns) as [[_ Hk] Hp].
  replace (peers conns) with (list_to_set (current_of conns).*1 : gset conn_key); [by apply add_conns_sort|].
  apply set_eq. intros k. by rewrite elem_of_list_to_set, Hp.
Qed.

Lemma first_seen t conns d : t_snap t = Ok (Good conns) -> t_dev t = Ok d -> observed t [] = peers conns.
Proof. intros Hs Hd. unfold observed, seen_in. rewrite Hs, Hd, Z.eqb_refl. simpl. by rewrite union_empty_r_L. Qed.

(** A reading of the source, as far as the bucket goes. *)
Lemma reading_rolls hist t c conns : t_snap t = Ok (Good conns) -> bucket_of hist c ->
  match _maybe_rollup nt (t_now t) (t_dev t) c with
  | (Ok l, c') =>
      bucket_of (hist ++ [t]) (set_conns (fold_left add_conn (current_of conns) (_bucket_conns c')) c') /\
      forall ro, ro ∈ l -> explained nt hist t ro
  | (Raise _, c') => bucket_of (hist ++ [t]) c'
  end.
Proof.
  intros Es Hb. assert (Hg : good t = true) by (unfold good; by rewrite Es).
  assert (Hno : forall ro : rollup, ro ∈ [] -> explained nt hist t ro) by (intros ro ?%elem_of_nil; done).
  assert (Hst : forall b, steady b t = (minute (t_now t) = b \/ exists e, t_dev t = Raise e)) by (intros b; unfold steady; by rewrite Es).
  assert (Hfirst : forall d, t_dev t = Ok d -> sorted_out (fold_left add_conn (current_of conns) []) (observed t [])).
  { intros d Hd. rewrite (first_seen _ _ _ Es Hd), <- (union_empty_r_L (peers conns)). apply conns_sort, sorted_out_nil. }
  unfold _maybe_rollup. run_tick. destruct (_bucket c) as [b|] eqn:Eb.
  - destruct (minute (t_now t) =? b) eqn:Em; simpl; [split; [|done]|destruct (t_dev t) as [d|e] eqn:Ed; simpl; [split|]].
    + apply Z.eqb_eq in Em. eapply bucket_goes_on; [done..|rewrite Hst; by left|]. intros s Hs.
      unfold seen_in. rewrite Es, Em, Z.eqb_refl. by apply conns_sort.
    + apply (bucket_begins hist c t (Some d)); [done|unfold start_counters; by rewrite Ed|by eapply Hfirst].
    + intros ro Hro. destruct (_bucket_invalid c) eqn:Ei; [by apply Hno|]. apply list_elem_of_singleton in Hro as ->.
      unfold bucket_of in Hb. rewrite Eb in Hb. destruct Hb as (before & t0 & mid & -> & Hg0 & <- & Hd & Hv).
      destruct (Hv Ei) as [Hm Hs]. exists before, t0, mid. split_and!; try done; [by apply Z.eqb_neq|].
      by apply flush_about.
    + apply bucket_idle; [|done]. intros b' Hb'. rewrite Eb in Hb'. injection Hb' as <-. rewrite Hst. split; [right; by exists e|].
      unfold seen_in. by rewrite Es, Em.
  - unfold bucket_of in Hb. rewrite Eb in Hb. destruct Hb as (Hi & Hc & Hv). rewrite Hi, Hc, Hv.
    destruct (t_dev t) as [d|e] eqn:Ed; simpl; [split; [|done]|]; rewrite ?Hc, ?Hv.
    + apply (bucket_begins hist c t (Some d)); [done|unfold start_counters; by rewrite Ed|by eapply Hfirst].
    + apply (bucket_begins hist c t None []); [done|unfold start_counters; by rewrite Ed|].
      unfold observed. rewrite Ed. simpl. rewrite union_empty_r_L. apply sorted_out_nil.
Qed.

(** One tick, as far as rollups go. *)
Lemma tick_rolls hist t c : bucket_of hist c ->
  let '(r, c') := collect_tick mx nt t c in
  bucket_of (hist ++ [t]) c' /\ forall ro, ro ∈ rollups r -> explained nt hist t ro.
Proof.
  intros Hb. unfold collect_tick, collect.
  assert (Hno : forall ro : rollup, ro ∈ [] -> explained nt hist t ro) by (intros ro ?%elem_of_nil; done).
  destruct (t_snap t) as [[conns|why]|e] eqn:Es; run_tick.
  - destruct (opens_of _ _ _) as [opens prev].
    rewrite <- (set_prev_bucket _ (List.filter (fun km => negb (gone (current_of conns) km)) prev)) in Hb.
    pose proof (reading_rolls hist t _ conns Es Hb) as H.
    destruct (_maybe_rollup _ _ _ _) as [[l|e] c']; [exact H|by split].
  - split; [|done]. destruct (_bucket c) as [b|] eqn:Eb.
    + destruct (minute (t_now t) =? b) eqn:Em; [|apply bucket_spoilt; [by rewrite Eb|done]].
      apply bucket_idle; [|done]. intros b' Hb'. rewrite Eb in Hb'. injection Hb' as <-. unfold steady, seen_in.
      rewrite Es. by apply Z.eqb_eq in Em.
    + apply bucket_idle; [|done]. intros b. by rewrite Eb.
  - split; [|done]. apply bucket_idle; [|done]. intros b _. unfold steady, seen_in. by rewrite Es.
Qed.
End Ticks.

Section Runs.
Context (mx nt : nat).

Lemma run_rolls ts : forall hist c, bucket_of hist c -> forall n r ro,
  (collect_all mx nt ts c).1 !! n = Some r -> ro ∈ rollups r ->
  exists t, ts !! n = Some t /\ explained nt (hist ++ take n ts) t ro.
Proof.
  induction ts as [|t ts IH]; intros hist c Hb n r ro; simpl; [by rewrite lookup_nil|].
  pose proof (tick_rolls mx nt hist t c Hb) as H. destruct (collect_tick mx nt t c) as [r1 c1]. destruct H as [Hb1 Hr1].
  specialize (IH _ _ Hb1). destruct (collect_all mx nt ts c1) as [rs c2].
  destruct n as [|n]; simpl.
  - intros [= ->] Hro. exists t. split; [done|]. rewrite app_nil_r. by apply Hr1.
  - intros Hr Hro. destruct (IH n r ro Hr Hro) as (t' & Ht & He). exists t'. split; [done|]. by rewrite <- app_assoc in He.
Qed.

(** C28: whatever the ticks, a rollup reported at one of them is about a single minute: it
    began with a reading in that minute and ended with this one in another; everything in
    between that was not an exception was of that minute; its bytes are the differences of
    the counters at the two readings, never negative, for the interfaces both have; and
    its talkers are the busiest peers of the connections observed meanwhile. *)
Theorem rollup_exact ts n r ro : (collect_all mx nt ts new_collector).1 !! n = Some r -> ro ∈ rollups r ->
  exists t, ts !! n = Some t /\ explained nt (take n ts) t ro.
Proof. apply (run_rolls ts [] new_collector). by split. Qed.
End Runs.
