(* ===== verification/CollectorSample.v ===== *)
(** * A host, minute by minute

    A /proc with one connection, the rollup of its first minute, and what one process with
    an odd name does to the audit. *)
From S2P Require Import Prelude Sorting Py Effects PyOps IpAddress ProcNet Collector CollectorFacts CollectorRollup.
Open Scope Z_scope.

Definition header : string := "  sl  local_address rem_address   st tx_queue rx_queue tr tm->when retrnsmt   uid  timeout inode".

(** 10.0.0.9:55000 to 10.0.0.5:443, established. *)
Definition one_connection : string :=
  header ++ newline ++
  "   0: 0900000A:D6D8 0500000A:01BB 01 00000000:00000000 00:00000000 00000000  1000        0 4711 1" ++ newline.

Definition net_dev (bytes : string) : string :=
  "  eth0: " ++ bytes ++ " 1 0 0 0 0 0 0 70 1 0 0 0 0 0 0" ++ newline.

(** /proc with this connection, held by process 100 of this name. *)
Definition host (comm : contents) (bytes : string) : procfs :=
  Procfs
    (fun name =>
       if String.eqb name "tcp" then Contents one_connection
       else if String.eqb name "udp" then Contents header
       else if String.eqb name "dev" then Contents (net_dev bytes)
       else Absent)
    (Some [Process "self" None Absent; Process "100" (Some [Some "/dev/null"; Some "socket:[4711]"]%string) comm]).

Definition curl : contents := Contents ("curl" ++ newline)%string.

Definition connection : row := Row "tcp" "10.0.0.9" 55000 "10.0.0.5" 443 "ESTABLISHED" 4711 (Some 100) "curl".

Example host_read : (take_snapshot (host curl "100") (Source ∅ 0)).1 = Ok (Good [connection]).
Proof. vm_compute. reflexivity. Qed.

Definition at_host (now : Q) (bytes : string) : tick :=
  Tick now (take_snapshot (host curl bytes) (Source ∅ 0)).1 (interface_counters (host curl bytes)).

(** Two readings of minute 1 and one of minute 2. *)
Definition three_ticks : list tick := [at_host 60 "100"; at_host 65 "120"; at_host 121 "150"].

Definition minute_one : rollup := Rollup 60 [Iface "eth0" 50 0] [("10.0.0.5"%string, 1)].

Lemma rollup_exact_witness :
  (collect_all 200 20 three_ticks new_collector).1 !! 2%nat = Some (Report [] [minute_one] 0) /\
  minute_one ∈ rollups (Report [] [minute_one] 0) /\
  exists t, three_ticks !! 2%nat = Some t /\ explained 20 (take 2 three_ticks) t minute_one.
Proof.
  assert (H : (collect_all 200 20 three_ticks new_collector).1 !! 2%nat = Some (Report [] [minute_one] 0)) by (vm_compute; reflexivity).
  split; [exact H|]. split; [left|].
  apply (rollup_exact 200 20 three_ticks 2%nat (Report [] [minute_one] 0) minute_one H). left.
Defined.

(** ** An odd name *)

Definition fresh : source := Source ∅ 0.

(** A process may set its name to any bytes.  Once one whose name is no UTF-8 holds a
    connection nobody has looked up, no tick reports anything any more. *)
Lemma odd_name_blinds now c : host_tick 200 20 now (host Undecodable "100") (fresh, c) = (no_report, (fresh, c)).
Proof.
  unfold host_tick. simpl fst. simpl snd.
  assert (H : take_snapshot (host Undecodable "100") fresh = (Raise UnicodeDecodeError, fresh)) by (vm_compute; reflexivity).
  by rewrite H.
Qed.

(** A tick that fails with an exception does not spoil the bucket: the bytes of four
    minutes, three of them unread, are reported as those of one. *)
Definition failed_tick (now : Q) : tick := Tick now (Raise UnicodeDecodeError) (Ok []).

Lemma failed_minutes_counted :
  rollups <$> (collect_all 200 20 [at_host 60 "100"; failed_tick 120; failed_tick 180; at_host 241 "900"] new_collector).1
  = [[]; []; []; [Rollup 60 [Iface "eth0" 800 0] [("10.0.0.5"%string, 1)]]].
Proof. vm_compute. reflexivity. Qed.

(** A tick at which the source says that it cannot be read is told apart: it does. *)
Definition skipped_tick (now : Q) : tick := Tick now (Ok (Skip "tcp table error")) (Ok []).

Lemma skipped_minutes_discarded :
  rollups <$> (collect_all 200 20 [at_host 60 "100"; skipped_tick 120; skipped_tick 180; at_host 241 "900"] new_collector).1
  = [[]; []; []; []].
Proof. vm_compute. reflexivity. Qed.
